(* ===== verification/_CoqProject ===== *)
-Q . S2P
Prelude.v
Align.v
AllocFreeList.v
Physmem.v
PageEntry.v
PageTable.v
Regions.v
RegionMapping.v
RegionRanges.v
PagingState.v
SimpleAlloc.v
Tasks.v
Scheduler.v
PagingCalls.v
Descriptors.v
Interrupts.v
Vga.v
IoApic.v
LocalApic.v
Hpet.v
BootPaging.v
PagingGrowth.v
HeapPaging.v
DeviceWindows.v
PagingInit.v
BringUp.v
Startup.v
Boot.v
Kstart.v
Harness.v
