(* ===== verification/Prelude.v ===== *)
(** * Verification of the rust_kern kernel

    A development about the Rust kernel under [src/]. The code is translated
    into functions of a small monad, [outcome]: a computation returns a value
    ([Ret]), panics for a reason ([Panic]: a failed [assert!], [unwrap], index,
    checked arithmetic, an explicit [panic!] or [todo!]) or does not return
    ([Hang]). Errors of the code are values of the monad's results ([Ok], [Err]).
    Machine integers are [Z] with their width written out: [uadd], [usub] and
    [umul] panic on overflow as checked builds do, [truncate] is [as], bit
    operations are those of [Z].

    ** Parts

    - [Prelude]: the monad, checked arithmetic, loops, lists, bit fields, the
      hint database [kern] and the tactics [run], [step_by], [mlia].
    - [Align]: [align_up], [align_down], [page_align_up], [page_align_down] of
      allocator, paging/heap_region.rs and paging/mod.rs, against rounding.
    - [AllocFreeList]: allocator/free_list.rs, the free list of one heap region.
    - [Physmem]: physmem/mod.rs, physmem/frame_database.rs, init_mutex.rs: zones,
      regions of page frames with their bitmaps, the three start-up stages.
    - [PageEntry], [PageTable]: paging/page_entry.rs, table.rs, mapper.rs and the
      layout constants of paging/mod.rs: entries as words, tables in physical
      frames reached through the identity map, mapping and unmapping.
    - [Regions], [RegionMapping], [RegionRanges]: paging/heap_region.rs: the region
      manager, its chain of entry pages, what it maps for a region, and what that
      does to the page tables.
    - [PagingState]: region manager, page tables and frame database as one
      component, with the invariant [paging_ok] that ties them together.
      [PagingCalls]: what drivers and scheduler get from it.
    - [SimpleAlloc]: allocator/simple_allocator.rs, allocator/mod.rs: the heap over
      free lists and regions.
    - [Tasks], [Scheduler]: scheduler/*.rs: process identifiers, tasks, ready
      lists, the register switch, [spawn] and [reschedule].
    - [Descriptors]: gdt.rs, idt.rs. [Interrupts]: the assembly of
      interrupts/interrupt_macros.rs, run instruction by instruction.
    - [Vga]: vga_buffer.rs. [IoApic], [LocalApic], [Hpet]: devices/*.rs, ipi.rs,
      interrupts/ipi.rs, interrupts/irq.rs, io_port.rs. [DeviceWindows]: the objects
      through which the drivers reach their registers, on the real paging.
    - [PagingGrowth]: what paging keeps and uses up when it grants a region.
      [HeapPaging]: paging as the place the heap gets its regions from.
    - [BootPaging]: the boot half of paging/mod.rs: [init], [initialize_tcb].
      [PagingInit]: [init] as a whole, on the frames [early_init] finds.
      [BringUp]: init.rs [kstart], from the frame database to the two stacks: heap,
      paging and frame database as they come up in turns.
    - [Startup], [Boot]: devices/mod.rs [start_aps], trampoline.asm, init.rs
      [kstart_ap]: the start-up of the other processors.
    - [Kstart]: init.rs [kstart] as a whole, with [init_post_paging] up to the
      devices, and the panic handler; paging/kernel_stack.rs, acpi/mod.rs.
    - [Harness]: the test harness of lib.rs.

    Each file is definitions first (the code), then proofs. A definition has the
    name of the function it translates where that is possible.

    ** How the parts meet

    Components talk through type classes: operations in one class, what the
    client relies on in a second one, and an instance that discharges it.
    [LockedFrameAllocator] with [FrameAllocatorLaws] in [Physmem] (what stores the
    frames of a zone, as a set of free and a set of held frames),
    [RegionBackend] with [RegionBackendLaws] in [Regions] (what maps a region;
    [PagingState] discharges the laws for the machine), [KernelStacks] with
    [KernelStacksLaws] in [Scheduler] (where stacks come from; [PagingCalls]
    discharges the laws for paging), [HeapRegions] and [HeapRegionsLaws] in
    [SimpleAlloc] (where the heap and the thread-local blocks get address space;
    [HeapPaging] discharges the laws for paging),
    [StartupCalls] in [Startup] (the calls a processor makes while it is started;
    [Boot] gives the instance on the components), and one class with laws for each
    chip ([IoApicDevice], [LocalApicDevice], [HpetDevice]), with a register model as
    instance. The laws of [HeapRegions] have a notion of being ready for a
    request. For paging it is that there are enough free frames, all of them zeroed:
    paging hangs when frames run out ([map_nonpaged_failure_hangs]), and it does not
    clear the frames that become tables ([stale_table_entries]).

    ** What is shown

    - Memory. The free list hands out disjoint aligned blocks and takes them back
      ([allocate_correct], [deallocate_correct], [client_partition]); the frame
      database never has a frame free and held, or held twice ([frames_exclusive]);
      regions of address space never overlap ([allocate_region_correct],
      [deallocate_region_correct]); on top of them the global allocator keeps its
      contract with any client ([heap_client_blocks]), and over the real paging every
      byte it hands out is a byte of memory of its own ([heap_memory_backed]).
    - Regions on the machine. Allocating and dropping regions keeps region table,
      page tables and frame database in agreement, maps exactly the pages of the
      region and loses no frame ([allocate_typed_correct], [drop_region_correct],
      [region_lifecycle]); windows onto devices are exact
      ([map_physical_memory_correct], [device_windows_correct]) and stacks end in a page that faults
      ([allocate_kernel_stack_correct]).
    - Paging. Entries read back what was written ([present_pte_roundtrip]);
      mapping and unmapping change the translation of one page and of no other
      ([map_to_correct], [unmap_correct]); the tables the kernel boots into are the
      identity window and its own image, never writable and executable at once
      ([boot_tables_correct]).
    - The boot processor. From the loader to the devices nothing panics: [kstart]
      ends on a stack of its own, with heap, region table, page tables and frame
      database in agreement over all usable and reclaimed memory, and descriptor
      tables that name its stacks ([kstart_correct]).
    - Tasks. An invariant of all interleavings of any number of processors
      ([scheduler_invariant]) from which no assertion fails ([scheduler_no_panic])
      and no task runs twice ([running_task_exclusive]), also on the real paging
      ([scheduler_paging_safe]); the context switch is transparent
      ([context_switch_roundtrip]).
    - Interrupts and devices. A handler sees the interrupted context and the
      interrupted code does not notice ([interrupts_transparent]); the descriptor
      tables decode to what they should; the interrupt controllers, the timer and
      the console are programmed as specified.
    - Start-up of processors. One at a time ([startup_exclusive]), equivalent to a
      sequential start-up ([startup_sequential]), never stuck ([startup_completes]),
      in bounded time ([startup_terminates]).

    Theorems about errors of the code are stated as such: the counterexample
    is part of the statement (for instance [heap_dealloc_buffer_panics],
    [interrupt_loses_thread_base], [stale_table_entries]).

    ** Bounds and fuel

    Loops are structural recursion where the code iterates over data. A [while]
    loop takes fuel and returns [Hang] without it; each is given an amount that
    its theorem shows to be enough: the length of the list or chain it walks, the
    number of pages of a range it crosses, the number of identifiers of a kind, or,
    for a polling loop, an existential amount that a law of the chip provides.
    Theorems about paging that say a call succeeds assume a number of free frames
    that is enough for the tables on the way (at most three, and one for the page)
    and, because tables are not cleared when they are linked, that free frames
    hold zeroes ([stale_table_entries] shows what happens otherwise).

    ** Not modelled

    Locks are atomic regions; interrupts inside kernel code are not interleaved
    with it. Caches and the TLB are a log of flushes. The serial port driver, the
    formatting of messages, [main.rs], [build.rs] and the ACPI and AML libraries are
    not modelled: they are thin calls of library code, whose results appear as
    arguments. [kstart] is one function up to the devices; the box its closure travels
    in is a cell of a store, not a block of the heap. What follows (drivers, scheduler,
    [start_aps]) is covered call by call, and not composed with [kstart]: the frames
    [init_reclaim] adds are not zeroed, so that the theorems about mapping, which ask
    for zeroed frames, do not apply behind it without an assumption about what the
    loader left in them. *)
From stdpp Require Export base tactics numbers option list gmap.

#[global] Open Scope Z_scope.

(** ** Outcomes of a kernel computation *)

(** Why a computation panicked: an arithmetic overflow check, a failed
    [assert!]/[debug_assert!], an [unwrap]/[expect] of nothing, a slice index
    out of bounds, an explicit [panic!], or a [todo!]. *)
Inductive panic_reason : Type :=
  | Overflow | AssertFailed | UnwrapNone | IndexOutOfBounds
  | ExplicitPanic | Unimplemented | DivideByZero.

(** A kernel computation returns, panics, or spins for ever on a lock that its
    own CPU holds. *)
Inductive outcome (A : Type) : Type :=
  | Ret (a : A)
  | Panic (why : panic_reason)
  | Hang.
Arguments Ret {A} a.
Arguments Panic {A} why.
Arguments Hang {A}.

#[global] Instance panic_reason_eq_dec : EqDecision panic_reason.
Proof. solve_decision. Defined.
#[global] Instance outcome_eq_dec {A} `{EqDecision A} : EqDecision (outcome A).
Proof. solve_decision. Defined.

#[global] Instance outcome_ret : MRet outcome := @Ret.
#[global] Instance outcome_bind : MBind outcome := λ A B f m,
  match m with Ret a => f a | Panic w => Panic w | Hang => Hang end.
#[global] Instance outcome_fmap : FMap outcome := λ A B f m,
  match m with Ret a => Ret (f a) | Panic w => Panic w | Hang => Hang end.

(** [assert!(b)] and its relatives. *)
Definition assert_ (b : bool) : outcome unit :=
  if b then Ret () else Panic AssertFailed.

(** [o.unwrap()] / [o.expect(..)]. *)
Definition unwrap {A} (o : option A) : outcome A :=
  match o with Some a => Ret a | None => Panic UnwrapNone end.

(** Slice indexing and indexed assignment: out of range panics. *)
Definition slice_get {A} (l : list A) (i : Z) : outcome A :=
  match l !! Z.to_nat i with Some a => Ret a | None => Panic IndexOutOfBounds end.
Definition slice_set {A} (l : list A) (i : Z) (a : A) : outcome (list A) :=
  match l !! Z.to_nat i with
  | Some _ => Ret (<[Z.to_nat i := a]> l)
  | None => Panic IndexOutOfBounds
  end.

(** A [for] loop over a list of values, threading a state. *)
Fixpoint for_each {A S} (body : A → S → outcome S) (l : list A) (s : S) : outcome S :=
  match l with
  | [] => Ret s
  | a :: l' => s' ← body a s; for_each body l' s'
  end.

Lemma bind_Ret_inv {A B} (m : outcome A) (f : A → outcome B) r :
  (m ≫= f) = Ret r → ∃ a, m = Ret a ∧ f a = Ret r.
Proof. destruct m; naive_solver. Qed.

Lemma bind_ext {A B} (m : outcome A) (f g : A → outcome B) : (∀ a, f a = g a) → m ≫= f = m ≫= g.
Proof. intros E. destruct m; [apply E|done|done]. Qed.
Lemma bind_assoc {A B C} (m : outcome A) (f : A → outcome B) (g : B → outcome C) :
  (m ≫= f) ≫= g = m ≫= (λ a, f a ≫= g).
Proof. by destruct m. Qed.

Lemma bind_bind_Ret {A B} (a : A) (f : A → outcome B) : (Ret a ≫= f) = f a.
Proof. done. Qed.

Lemma assert_ok b : b = true → assert_ b = Ret ().
Proof. by intros ->. Qed.

Lemma assert_inv b r : assert_ b = Ret r → b = true.
Proof. by destruct b. Qed.

Lemma for_each_app {A S} (body : A → S → outcome S) l1 l2 s :
  for_each body (l1 ++ l2) s = (for_each body l1 s ≫= for_each body l2).
Proof.
  revert s; induction l1 as [|a l1 IH]; intros s; [done|].
  cbn. destruct (body a s); [apply IH|done..].
Qed.

(** Invariant rule for [for] loops: every iteration returns and carries the
    invariant, indexed by the elements already visited, forward. *)
Lemma for_each_inv {A S} (body : A → S → outcome S) (I : list A → S → Prop) l s :
  I [] s →
  (∀ done_ a todo s', l = done_ ++ a :: todo → I done_ s' →
     ∃ s'', body a s' = Ret s'' ∧ I (done_ ++ [a]) s'') →
  ∃ s', for_each body l s = Ret s' ∧ I l s'.
Proof.
  intros H0 Hstep.
  cut (∀ todo done_ s', l = done_ ++ todo → I done_ s' →
         ∃ s'', for_each body todo s' = Ret s'' ∧ I l s'').
  { intros H. by apply (H l [] s). }
  induction todo as [|a todo IH]; intros done_ s' Hl HI.
  - exists s'. rewrite app_nil_r in Hl. by subst.
  - destruct (Hstep _ _ _ _ Hl HI) as (s'' & Hb & HI').
    cbn. rewrite Hb. cbn.
    apply (IH (done_ ++ [a])); [|done]. by rewrite <- app_assoc.
Qed.

(** Replacing the element after a prefix. *)
Lemma list_insert_middle {A} (l1 l2 : list A) (x y : A) :
  <[length l1 := y]> (l1 ++ x :: l2) = l1 ++ y :: l2.
Proof. by rewrite <- (Nat.add_0_r (length l1)), insert_app_r. Qed.

(** ** Machine integers of the target (x86_64) *)

Abbreviation usize_limit := 18446744073709551616 (only parsing).
Abbreviation usize_max := 18446744073709551615 (only parsing).

(** [usize] arithmetic of the development profile: an overflow panics. *)
Definition uadd (a b : Z) : outcome Z :=
  if a + b <? usize_limit then Ret (a + b) else Panic Overflow.
Definition usub (a b : Z) : outcome Z :=
  if b <=? a then Ret (a - b) else Panic Overflow.
Definition umul (a b : Z) : outcome Z :=
  if a * b <? usize_limit then Ret (a * b) else Panic Overflow.

(** [a.saturating_sub(b)]. *)
Definition saturating_sub (a b : Z) : Z := if b <=? a then a - b else 0.

(** Bitwise complement at 64 and at 8 bits. *)
Definition not64 (a : Z) : Z := Z.lxor a usize_max.
Definition not8 (a : Z) : Z := Z.lxor a 255.

(** [x as u16], [x as u8] ...: keep the low [w] bits. *)
Definition truncate (w x : Z) : Z := x mod 2 ^ w.

(** [a.is_power_of_two()]. *)
Definition is_power_of_two (a : Z) : bool := (0 <? a) && (a =? 2 ^ Z.log2 a).

Definition is_usize (a : Z) : Prop := 0 ≤ a < usize_limit.

Lemma uadd_ok a b : a + b < usize_limit → uadd a b = Ret (a + b).
Proof. intros. unfold uadd. by rewrite (proj2 (Z.ltb_lt _ _)). Qed.
Lemma usub_ok a b : b ≤ a → usub a b = Ret (a - b).
Proof. intros. unfold usub. by rewrite (proj2 (Z.leb_le _ _)). Qed.
Lemma umul_ok a b : a * b < usize_limit → umul a b = Ret (a * b).
Proof. intros. unfold umul. by rewrite (proj2 (Z.ltb_lt _ _)). Qed.

Lemma uadd_inv a b r : uadd a b = Ret r → r = a + b ∧ a + b < usize_limit.
Proof. unfold uadd. destruct (Z.ltb_spec (a + b) usize_limit); naive_solver. Qed.
Lemma usub_inv a b r : usub a b = Ret r → r = a - b ∧ b ≤ a.
Proof. unfold usub. destruct (Z.leb_spec b a); naive_solver. Qed.
Lemma umul_inv a b r : umul a b = Ret r → r = a * b ∧ a * b < usize_limit.
Proof. unfold umul. destruct (Z.ltb_spec (a * b) usize_limit); naive_solver. Qed.

Lemma is_power_of_two_spec a : is_power_of_two a = true ↔ ∃ k, 0 ≤ k ∧ a = 2 ^ k.
Proof.
  unfold is_power_of_two. rewrite andb_true_iff, Z.ltb_lt, Z.eqb_eq. split.
  - intros [Ha Heq]. exists (Z.log2 a). split; [apply Z.log2_nonneg|].
    done.
  - intros (k & Hk & ->). rewrite Z.log2_pow2 by done.
    split; [by apply Z.pow_pos_nonneg|done].
Qed.

(** ** Bit fields of device registers *)

(** The [len] bits of [x] from bit [lo]. *)
Definition bit_field (x lo len : Z) : Z := (x / 2 ^ lo) mod 2 ^ len.

Lemma bit_field_testbit x lo len i :
  0 ≤ lo → 0 ≤ len → 0 ≤ i →
  Z.testbit (bit_field x lo len) i = if i <? len then Z.testbit x (i + lo) else false.
Proof.
  intros Hlo Hlen Hi. unfold bit_field. destruct (Z.ltb_spec i len).
  - by rewrite Z.mod_pow2_bits_low, Z.div_pow2_bits by lia.
  - by rewrite Z.mod_pow2_bits_high by lia.
Qed.

Lemma bit_field_ext x y lo len :
  0 ≤ lo → 0 ≤ len → (∀ i, lo ≤ i < lo + len → Z.testbit x i = Z.testbit y i) →
  bit_field x lo len = bit_field y lo len.
Proof.
  intros Hlo Hlen He. apply Z.bits_inj'. intros i Hi. rewrite !bit_field_testbit by done.
  destruct (Z.ltb_spec i len); [|done]. apply He. lia.
Qed.

(** A number without bits below [k] and one with no others. *)
Lemma lor_disjoint x b k : 0 ≤ k → x mod 2 ^ k = 0 → 0 ≤ b < 2 ^ k → Z.lor x b = x + b.
Proof.
  intros Hk Hx Hb. symmetry. rewrite <- Z.lxor_lor, Z.add_nocarry_lxor; [done| |];
    apply Z.bits_inj'; intros i Hi; rewrite Z.land_spec, Z.bits_0;
    (destruct (Z.ltb_spec i k);
     [assert (Z.testbit x i = false) as ->
        by (rewrite <- (Z.mod_pow2_bits_low x k) by lia; by rewrite Hx, Z.bits_0); done
     |assert (Z.testbit b i = false) as ->
        by (rewrite <- (Z.mod_small b (2 ^ k)) by done; by apply Z.mod_pow2_bits_high; lia);
      apply andb_false_r]).
Qed.

(** ** Automation *)

Create HintDb kern discriminated.
#[global] Create Rewrite HintDb checked.
#[export] Hint Rewrite uadd_ok usub_ok umul_ok using lia : checked.
#[export] Hint Rewrite @bind_bind_Ret : checked.

(** Run the checked arithmetic of a goal forward, the side conditions by [lia]. *)
Ltac run := repeat (progress (autorewrite with checked; cbn [mbind outcome_bind])).

(** Decide the boolean comparisons a goal branches on. *)
Ltac case_bool :=
  match goal with
  | |- context [?a <? ?b] => destruct (Z.ltb_spec a b)
  | |- context [?a <=? ?b] => destruct (Z.leb_spec a b)
  | |- context [?a =? ?b] => destruct (Z.eqb_spec a b)
  end.

(** Take a hypothesis [.. = Ret _] apart, one monadic step at a time. *)
Ltac inv_ret H :=
  repeat (lazymatch type of H with
  | (_ ≫= _) = Ret _ =>
      let a := fresh "a" in let Ha := fresh "Ha" in
      apply bind_Ret_inv in H as (a & Ha & H)
  | Ret _ = Ret _ => injection H as H
  end).

(** [lia] for goals with [mod] and [/] by constants. *)
Ltac mlia := Z.div_mod_to_equations; lia.

(** Split a conjunctive goal and finish the arithmetic parts. *)
Ltac split_lia := split_and?; try lia; try mlia; auto.

(** Execute the first monadic operation of the goal, proving with [tac] that
    its overflow check or assertion passes. *)
Ltac step_by tac :=
  lazymatch goal with
  | |- context [@mbind outcome _ _ _ _ ?m] =>
    lazymatch m with
    | @mbind outcome _ _ _ _ _ => rewrite bind_assoc; step_by tac
    | uadd ?a ?b => rewrite (uadd_ok a b) by tac; rewrite bind_bind_Ret
    | usub ?a ?b => rewrite (usub_ok a b) by tac; rewrite bind_bind_Ret
    | umul ?a ?b => rewrite (umul_ok a b) by tac; rewrite bind_bind_Ret
    | assert_ ?b =>
        rewrite (assert_ok b)
          by (first [apply Z.leb_le | apply Z.ltb_lt | apply Z.eqb_eq | idtac]; tac);
        rewrite bind_bind_Ret
    | Ret _ => rewrite bind_bind_Ret
    end
  end.
