(* ===== verification/Align.v ===== *)
(** * Alignment arithmetic

    [align_down]/[align_up] of allocator/mod.rs (repeated word for word in
    paging/heap_region.rs) and [page_align_down]/[page_align_up] of
    physmem/mod.rs, together with the arithmetic of rounding that every
    component above relies on. *)
From S2P Require Import Prelude.

Definition PAGE_SIZE : Z := 4096.

(** [addr & !(align - 1)] for a power of two, the identity for zero, a panic
    otherwise. *)
Definition align_down (addr align : Z) : outcome Z :=
  if is_power_of_two align then Ret (Z.land addr (not64 (align - 1)))
  else if align =? 0 then Ret addr
  else Panic ExplicitPanic.

Definition align_up (addr align : Z) : outcome Z :=
  s ← uadd addr align;
  s' ← usub s 1;
  align_down s' align.

Definition page_align_down (addr : Z) : Z := Z.land addr (not64 (PAGE_SIZE - 1)).

Definition page_align_up (addr : Z) : outcome Z :=
  s ← uadd addr PAGE_SIZE;
  s' ← usub s 1;
  Ret (page_align_down s').

(** ** Rounding *)

Definition round_down (a m : Z) : Z := a - a mod m.
Definition round_up (a m : Z) : Z := round_down (a + m - 1) m.

Lemma land_not64_mask a k :
  0 ≤ a < usize_limit → 0 ≤ k < 64 → Z.land a (not64 (2 ^ k - 1)) = round_down a (2 ^ k).
Proof.
  intros Ha Hk. unfold round_down.
  transitivity (Z.ldiff a (Z.ones k)).
  - apply Z.bits_inj'. intros i Hi. unfold not64.
    rewrite Z.land_spec, Z.ldiff_spec, Z.lxor_spec.
    change usize_max with (Z.ones 64).
    replace (2 ^ k - 1) with (Z.ones k) by (rewrite Z.ones_equiv; lia).
    destruct (Z.ltb_spec i 64).
    + rewrite (Z.ones_spec_low 64 i) by lia. by rewrite xorb_true_r.
    + rewrite (Z.bits_above_log2 a i); [done|lia|].
      destruct (decide (a = 0)) as [->|]; [cbn; lia|].
      apply Z.log2_lt_pow2; [lia|].
      apply Z.lt_le_trans with (2 ^ 64); [lia|by apply Z.pow_le_mono_r].
  - rewrite Z.ldiff_ones_r by lia.
    rewrite Z.shiftl_mul_pow2, Z.shiftr_div_pow2 by lia.
    pose proof (Z.div_mod a (2 ^ k)). lia.
Qed.

Section rounding.
Context (a m : Z) (Hm : 0 < m).

Lemma round_down_mod : round_down a m mod m = 0.
Proof. unfold round_down. rewrite Zminus_mod_idemp_r, Z.sub_diag. apply Z.mod_0_l. lia. Qed.

Lemma round_down_bounds : round_down a m ≤ a < round_down a m + m.
Proof. unfold round_down. pose proof (Z.mod_pos_bound a m). lia. Qed.

Lemma round_down_nonneg : 0 ≤ a → 0 ≤ round_down a m.
Proof. intros. unfold round_down. pose proof (Z.mod_le a m). lia. Qed.
End rounding.

Lemma mod_0_mul a m : 0 < m → a mod m = 0 → ∃ q, a = m * q.
Proof. intros ? ?. exists (a / m). by apply Z_div_exact_2; lia. Qed.

Lemma round_up_mod a m : 0 < m → round_up a m mod m = 0.
Proof. intros. by apply round_down_mod. Qed.

Lemma round_up_bounds a m : 0 < m → a ≤ round_up a m < a + m.
Proof. intros. unfold round_up. pose proof (round_down_bounds (a + m - 1) m). lia. Qed.

Lemma round_up_id a m : 0 < m → a mod m = 0 → round_up a m = a.
Proof.
  intros Hm Ha. destruct (mod_0_mul a m Hm Ha) as [q Hq].
  destruct (mod_0_mul _ m Hm (round_up_mod a m Hm)) as [q' Hq'].
  pose proof (round_up_bounds a m Hm) as Hb. rewrite Hq', Hq in Hb |- *.
  f_equal. nia.
Qed.

Lemma round_up_eq_iff a m : 0 < m → round_up a m = a ↔ a mod m = 0.
Proof.
  intros Hm. split; [|by apply round_up_id].
  intros H. rewrite <- H. by apply round_up_mod.
Qed.

(** [round_up a m] is the least multiple of [m] that is at least [a]. *)
Lemma round_up_least a m b : 0 < m → a ≤ b → b mod m = 0 → round_up a m ≤ b.
Proof.
  intros Hm Hab Hb. destruct (mod_0_mul b m Hm Hb) as [q ->].
  destruct (mod_0_mul _ m Hm (round_up_mod a m Hm)) as [q' Hq'].
  pose proof (round_up_bounds a m Hm) as Hr. rewrite Hq' in Hr |- *.
  apply Z.mul_le_mono_nonneg_l; [lia|]. apply Z.lt_succ_r. nia.
Qed.

Lemma mod_mod_divide a n m : 0 < n → 0 < m → (n | m) → a mod m = 0 → a mod n = 0.
Proof.
  intros Hn Hm Hd Ha. apply Z.mod_divide in Ha; [|lia].
  apply Z.mod_divide; [lia|]. by etrans.
Qed.

Lemma pow2_divide k1 k2 : 0 ≤ k1 ≤ k2 → (2 ^ k1 | 2 ^ k2).
Proof.
  intros. exists (2 ^ (k2 - k1)). rewrite <- Z.pow_add_r by lia. f_equal. lia.
Qed.

(** A power of two that is at least [8] is a multiple of [8]. *)
Lemma pow2_mod8 k : 0 ≤ k → 8 ≤ 2 ^ k → 2 ^ k mod 8 = 0.
Proof.
  intros Hk H8. apply Z.mod_divide; [lia|]. change 8 with (2 ^ 3).
  apply pow2_divide. split; [lia|].
  apply (Z.pow_le_mono_r_iff 2); lia.
Qed.

(** ** The functions of the kernel compute the rounding *)

Lemma align_down_ok a k :
  0 ≤ a < usize_limit → 0 ≤ k < 64 → align_down a (2 ^ k) = Ret (round_down a (2 ^ k)).
Proof.
  intros. unfold align_down.
  rewrite (proj2 (is_power_of_two_spec _)) by (exists k; split; [lia|done]).
  by rewrite land_not64_mask.
Qed.

Lemma align_up_ok a k :
  0 ≤ a → 0 ≤ k < 64 → a + 2 ^ k < usize_limit →
  align_up a (2 ^ k) = Ret (round_up a (2 ^ k)).
Proof.
  intros. assert (0 < 2 ^ k) by (apply Z.pow_pos_nonneg; lia).
  unfold align_up. run. rewrite align_down_ok by lia. done.
Qed.

(** [align_up] with the alignment given as a machine word. *)
Lemma align_up_pow2 a m :
  0 ≤ a → is_power_of_two m = true → a + m < usize_limit → align_up a m = Ret (round_up a m).
Proof.
  intros Ha (k & Hk & ->)%is_power_of_two_spec Hlt. apply align_up_ok; [done| |done].
  split; [done|]. apply (Z.pow_lt_mono_r_iff 2); [lia..|]. lia.
Qed.

Lemma page_align_down_spec a : 0 ≤ a < usize_limit → page_align_down a = round_down a PAGE_SIZE.
Proof. intros. by apply (land_not64_mask a 12). Qed.

Lemma page_align_up_spec a :
  0 ≤ a → a + PAGE_SIZE < usize_limit → page_align_up a = Ret (round_up a PAGE_SIZE).
Proof.
  intros. unfold page_align_up, PAGE_SIZE in *. run.
  by rewrite page_align_down_spec by lia.
Qed.

#[export] Hint Resolve round_up_mod round_down_mod : kern.
