(* ===== verification/AllocFreeList.v ===== *)
(** * The free list of one heap region (allocator/free_list.rs)

    The free nodes live inside the free memory they describe, linked in
    address order from a zero-sized head node that is part of the [FreeList]
    object. The chain of [Option<&'static mut FreeNode>] owns its nodes, so a
    list of (address, size) pairs is the whole data structure; the head keeps
    its own size because [deallocate_from_hole_info] may grow the node it
    stands on. *)
From S2P Require Import Prelude Align.

Module FreeList.

(** ** Data *)

Record HoleInfo := mkHole { h_addr : Z; h_size : Z }.

Record Allocation := mkAllocation {
  info : HoleInfo;
  front_padding : option HoleInfo;
  back_padding : option HoleInfo;
}.

(** [core::alloc::Layout]. *)
Record Layout := mkLayout { layout_size : Z; layout_align : Z }.

Record AlignedLayout := mkAligned { layout : Layout }.
Definition al_size (l : AlignedLayout) : Z := layout_size (layout l).
Definition al_align (l : AlignedLayout) : Z := layout_align (layout l).

(** [head_ptr] is the address of the head node, which moves with the object;
    [head_size] and [nodes] are the head's [size] and the chain behind its
    [next]. *)
Record FreeList := mkFreeList {
  head_ptr : Z;
  head_size : Z;
  nodes : list HoleInfo;
  allocated_space : Z;
  free_space : Z;
}.

#[global] Instance HoleInfo_eq_dec : EqDecision HoleInfo.
Proof. solve_decision. Defined.
#[global] Instance Layout_eq_dec : EqDecision Layout.
Proof. solve_decision. Defined.
#[global] Instance AlignedLayout_eq_dec : EqDecision AlignedLayout.
Proof. solve_decision. Defined.
#[global] Instance FreeList_eq_dec : EqDecision FreeList.
Proof. solve_decision. Defined.

(** [size_of::<FreeNode>()] and [align_of::<FreeNode>()]: a [usize] and an
    optional reference, both eight bytes on the target. *)
Definition min_alloc_size : Z := 16.
Definition min_alignment : Z := 8.

(** ** Operations *)

(** [Layout::from_size_align]: the alignment is a power of two and the size,
    rounded up to it, does not overflow. *)
Definition from_size_align (size align : Z) : option Layout :=
  if is_power_of_two align && (size <=? usize_max - (align - 1))
  then Some (mkLayout size align) else None.

Definition align_layout (l : Layout) : outcome (option AlignedLayout) :=
  let required_alignment := Z.max (layout_align l) min_alignment in
  assert_ (min_alignment <=? required_alignment);;
  required_size ← align_up (Z.max (layout_size l) min_alloc_size) min_alignment;
  Ret (mkAligned <$> from_size_align required_size required_alignment).

(** [FreeList::new]; the object ends up at address [ptr]. *)
Definition new (ptr start limit : Z) : outcome FreeList :=
  aligned_start ← align_up start min_alignment;
  let size := saturating_sub limit aligned_start in
  assert_ (min_alloc_size <=? size);;
  Ret (mkFreeList ptr 0 [mkHole aligned_start size] 0 size).

(** The aligned start of the block inside its node, and the front padding: a
    node that is not aligned already keeps room for a free node in front. *)
Definition place (node_start required_alignment : Z) : outcome (Z * option HoleInfo) :=
  up ← align_up node_start required_alignment;
  if up =? node_start then Ret (node_start, None)
  else
    s ← uadd node_start min_alloc_size;
    aligned_start ← align_up s required_alignment;
    sz ← usub aligned_start node_start;
    Ret (aligned_start, Some (mkHole node_start sz)).

Definition allocate_from_hole_info (hole : HoleInfo) (l : AlignedLayout)
    : outcome (option Allocation) :=
  let available_size := h_size hole in
  let required_size := al_size l in
  let required_alignment := al_align l in
  assert_ (min_alloc_size <=? required_size);;
  assert_ (min_alignment <=? required_alignment);;
  up ← align_up required_size min_alignment;
  assert_ (required_size =? up);;
  let node_start := h_addr hole in
  node_end ← uadd node_start available_size;
  start ← place node_start required_alignment;
  let '(aligned_hole_start, front) := start in
  fit_end ← uadd aligned_hole_start required_size;
  if node_end <? fit_end then Ret None
  else
    hole_size ← usub node_end aligned_hole_start;
    if hole_size =? required_size then
      Ret (Some (mkAllocation (mkHole aligned_hole_start required_size) front None))
    else
      rest ← usub hole_size required_size;
      if rest <? min_alloc_size then Ret None
      else
        back_addr ← uadd aligned_hole_start required_size;
        Ret (Some (mkAllocation (mkHole aligned_hole_start required_size) front
                     (Some (mkHole back_addr rest)))).

(** Walk the list for the first hole the layout fits in and unlink it. *)
Fixpoint tail_allocate (next : list HoleInfo) (l : AlignedLayout)
    : outcome (option (Allocation * list HoleInfo)) :=
  match next with
  | [] => Ret None
  | current :: rest =>
      allocation ← allocate_from_hole_info current l;
      match allocation with
      | Some a => Ret (Some (a, rest))
      | None =>
          r ← tail_allocate rest l;
          Ret (match r with
               | Some (a, rest') => Some (a, current :: rest')
               | None => None
               end)
      end
  end.

(** The loop of [deallocate_from_hole_info], standing on the node at
    [node_ptr] with size [node_size] and chain [next]: the new size and chain
    of that node. *)
Fixpoint deallocate_loop (node_ptr node_size : Z) (next : list HoleInfo) (hole : HoleInfo)
    : outcome (Z * list HoleInfo) :=
  let node_addr := if node_size =? 0 then 0 else node_ptr in
  node_end ← uadd node_addr node_size;
  assert_ (node_end <=? h_addr hole);;
  match next with
  | n :: rest =>
      exact_fit ← (if node_end =? h_addr hole
                   then e ← uadd (h_addr hole) (h_size hole); Ret (e =? h_addr n)
                   else Ret false);
      if (exact_fit : bool) then
        s ← uadd (h_size hole) (h_size n);
        s' ← uadd node_size s;
        Ret (s', rest)
      else if node_end =? h_addr hole then
        s ← uadd node_size (h_size hole);
        Ret (s, next)
      else
        e ← uadd (h_addr hole) (h_size hole);
        if e =? h_addr n then
          s ← uadd (h_size hole) (h_size n);
          deallocate_loop node_ptr node_size rest (mkHole (h_addr hole) s)
        else if h_addr n <=? h_addr hole then
          r ← deallocate_loop (h_addr n) (h_size n) rest hole;
          Ret (node_size, mkHole (h_addr n) r.1 :: r.2)
        else
          assert_ (h_addr hole mod min_alignment =? 0);;
          Ret (node_size, hole :: next)
  | [] =>
      if node_end =? h_addr hole then
        s ← uadd node_size (h_size hole);
        Ret (s, [])
      else
        assert_ (h_addr hole mod min_alignment =? 0);;
        Ret (node_size, [hole])
  end.

(** [deallocate_from_hole_info(&mut self.head, hole)]. *)
Definition deallocate_from_hole_info (fl : FreeList) (hole : HoleInfo) : outcome FreeList :=
  assert_ (min_alloc_size <=? h_size hole);;
  up ← align_up (h_size hole) min_alignment;
  assert_ (h_size hole =? up);;
  up ← align_up (h_addr hole) min_alignment;
  assert_ (h_addr hole =? up);;
  r ← deallocate_loop (head_ptr fl) (head_size fl) (nodes fl) hole;
  Ret (mkFreeList (head_ptr fl) r.1 r.2 (allocated_space fl) (free_space fl)).

(** [if let Some(padding) = padding { deallocate_from_hole_info(..) }]. *)
Definition give_back (fl : FreeList) (padding : option HoleInfo) : outcome FreeList :=
  match padding with
  | Some h => deallocate_from_hole_info fl h
  | None => Ret fl
  end.

Definition allocate (fl : FreeList) (l : AlignedLayout) : outcome (option Z * FreeList) :=
  r ← tail_allocate (nodes fl) l;
  match r with
  | None => Ret (None, fl)
  | Some (a, nodes') =>
      let fl1 := mkFreeList (head_ptr fl) (head_size fl) nodes'
                   (allocated_space fl) (free_space fl) in
      fl2 ← give_back fl1 (front_padding a);
      fl3 ← give_back fl2 (back_padding a);
      allocated ← uadd (allocated_space fl3) (h_size (info a));
      free ← usub (free_space fl3) (h_size (info a));
      ptr ← (if h_addr (info a) =? 0 then Panic UnwrapNone else Ret (h_addr (info a)));
      Ret (Some ptr, mkFreeList (head_ptr fl3) (head_size fl3) (nodes fl3) allocated free)
  end.

Definition deallocate (fl : FreeList) (ptr : Z) (l : AlignedLayout) : outcome FreeList :=
  fl1 ← deallocate_from_hole_info fl (mkHole ptr (al_size l));
  allocated ← usub (allocated_space fl1) (al_size l);
  free ← uadd (free_space fl1) (al_size l);
  Ret (mkFreeList (head_ptr fl1) (head_size fl1) (nodes fl1) allocated free).

Definition node_count (fl : FreeList) : Z := Z.of_nat (length (nodes fl)).

(** ** Specification *)

Definition hole_end (h : HoleInfo) : Z := h_addr h + h_size h.

(** A block the list can manage: big enough and aligned for a free node. *)
Definition hole_ok (h : HoleInfo) : Prop :=
  min_alloc_size ≤ h_size h ∧ h_size h mod min_alignment = 0 ∧ h_addr h mod min_alignment = 0.

Definition covers (h : HoleInfo) (x : Z) : Prop := h_addr h ≤ x < hole_end h.

(** The bytes the list describes as free. *)
Fixpoint free_byte (l : list HoleInfo) (x : Z) : Prop :=
  match l with
  | [] => False
  | h :: l' => covers h x ∨ free_byte l' x
  end.

Fixpoint total (l : list HoleInfo) : Z :=
  match l with
  | [] => 0
  | h :: l' => h_size h + total l'
  end.

(** Nodes in address order after [e], with a gap before each of them (two
    adjacent nodes would have been merged), all below [hi]. *)
Fixpoint chain (e : Z) (l : list HoleInfo) (hi : Z) : Prop :=
  match l with
  | [] => e ≤ hi
  | h :: l' => e < h_addr h ∧ hole_ok h ∧ chain (hole_end h) l' hi
  end.

Definition layout_ok (l : AlignedLayout) : Prop :=
  min_alloc_size ≤ al_size l ∧ al_size l mod min_alignment = 0 ∧
  is_power_of_two (al_align l) = true ∧ min_alignment ≤ al_align l.

(** No address computed for a request below [hi] overflows. *)
Definition room (hi : Z) (l : AlignedLayout) : Prop :=
  hi + min_alloc_size + al_align l + al_size l < usize_limit.

(** The list manages the bytes of [lo, hi). *)
Record wf (lo hi : Z) (fl : FreeList) : Prop := {
  wf_head : head_size fl = 0;
  wf_chain : chain 0 (nodes fl) hi;
  wf_lo : ∀ x, free_byte (nodes fl) x → lo ≤ x;
  wf_range : 0 < lo ∧ lo ≤ hi ∧ hi + min_alignment < usize_limit;
  wf_free : free_space fl = total (nodes fl);
  wf_alloc : 0 ≤ allocated_space fl;
  wf_sum : allocated_space fl + free_space fl = hi - lo;
}.

(** ** Lists of holes *)

Ltac unfold_fl :=
  unfold room, layout_ok, hole_ok, covers, hole_end, min_alloc_size, min_alignment in *; cbn in *.

Lemma chain_le e l hi : chain e l hi → e ≤ hi.
Proof.
  revert e; induction l as [|h l IH]; intros e; cbn; [done|].
  intros (? & Hok & Hc%IH). unfold_fl. lia.
Qed.

Lemma chain_weaken e e' l hi : chain e l hi → e' ≤ e → chain e' l hi.
Proof. destruct l; cbn; intros; destruct_and?; split_and?; auto; lia. Qed.

Lemma chain_free_byte e l hi x : chain e l hi → free_byte l x → e < x < hi.
Proof.
  revert e; induction l as [|h l IH]; intros e; cbn; [done|].
  intros (? & Hok & Hc) [Hx|Hx].
  - apply chain_le in Hc. unfold_fl. lia.
  - apply (IH _ Hc) in Hx. unfold_fl. lia.
Qed.

Lemma chain_total e l hi : chain e l hi → 0 ≤ total l ≤ hi - e.
Proof.
  revert e; induction l as [|h l IH]; intros e; cbn; [lia|].
  intros (? & Hok & Hc%IH). unfold_fl. lia.
Qed.

Lemma chain_in e l hi h : chain e l hi → h ∈ l → hole_ok h ∧ e < h_addr h ∧ hole_end h ≤ hi.
Proof.
  revert e; induction l as [|h' l IH]; intros e; cbn; [by intros _ ?%elem_of_nil|].
  intros (? & Hok & Hc) [->|Hin]%elem_of_cons.
  - split_and!; [done..|]. by apply chain_le in Hc.
  - destruct (IH _ Hc Hin) as (? & ? & ?). split_and!; [done| |done]. unfold_fl. lia.
Qed.

Lemma free_byte_elem l x : free_byte l x ↔ ∃ h, h ∈ l ∧ covers h x.
Proof.
  induction l as [|h l IH]; cbn.
  - split; [done|]. by intros (? & ?%elem_of_nil & _).
  - rewrite IH. setoid_rewrite elem_of_cons. naive_solver.
Qed.

(** A list in normal form is determined by the bytes it describes. *)
Lemma chain_unique e1 e2 l1 l2 hi1 hi2 :
  chain e1 l1 hi1 → chain e2 l2 hi2 → (∀ x, free_byte l1 x ↔ free_byte l2 x) → l1 = l2.
Proof.
  revert e1 e2 l2; induction l1 as [|h1 l1 IH]; intros e1 e2 [|h2 l2] C1 C2 Heq.
  - done.
  - exfalso. apply (Heq (h_addr h2)). cbn in C2. left. unfold_fl. lia.
  - exfalso. apply (Heq (h_addr h1)). cbn in C1. left. unfold_fl. lia.
  - cbn in C1, C2. destruct C1 as (? & Hok1 & C1), C2 as (? & Hok2 & C2).
    pose proof (λ x, chain_free_byte _ _ _ x C1) as B1.
    pose proof (λ x, chain_free_byte _ _ _ x C2) as B2.
    cbn in Heq.
    assert (h_addr h1 = h_addr h2) as Ea.
    { pose proof (proj1 (Heq (h_addr h1)) ltac:(left; unfold_fl; lia)) as [|?%B2];
      pose proof (proj2 (Heq (h_addr h2)) ltac:(left; unfold_fl; lia)) as [|?%B1];
      unfold_fl; lia. }
    assert (h_size h1 = h_size h2) as Es.
    { destruct (Z.lt_trichotomy (h_size h1) (h_size h2)) as [Hlt|[->|Hlt]]; [|done|]; exfalso.
      - pose proof (proj2 (Heq (hole_end h1)) ltac:(left; unfold_fl; lia)) as [|?%B1];
        unfold_fl; lia.
      - pose proof (proj1 (Heq (hole_end h2)) ltac:(left; unfold_fl; lia)) as [|?%B2];
        unfold_fl; lia. }
    destruct h1 as [a1 s1], h2 as [a2 s2]; cbn in Ea, Es; subst.
    f_equal. apply (IH _ _ _ C1 C2).
    intros x. specialize (Heq x). specialize (B1 x). specialize (B2 x).
    unfold_fl. split; intros Hx.
    + pose proof (B1 Hx). destruct (proj1 Heq (or_intror Hx)); [lia|done].
    + pose proof (B2 Hx). destruct (proj2 Heq (or_intror Hx)); [lia|done].
Qed.

(** ** [allocate_from_hole_info] in closed form *)

Definition fit_start (h : HoleInfo) (l : AlignedLayout) : Z :=
  if h_addr h mod al_align l =? 0 then h_addr h
  else round_up (h_addr h + min_alloc_size) (al_align l).

(** The layout fits the hole: what is left behind it is nothing or can hold a
    free node. *)
Definition fits (h : HoleInfo) (l : AlignedLayout) : bool :=
  let rest := hole_end h - (fit_start h l + al_size l) in
  (rest =? 0) || (min_alloc_size <=? rest).

Definition carve (h : HoleInfo) (l : AlignedLayout) : Allocation :=
  let s := fit_start h l in
  let e := s + al_size l in
  mkAllocation (mkHole s (al_size l))
    (if s =? h_addr h then None else Some (mkHole (h_addr h) (s - h_addr h)))
    (if hole_end h =? e then None else Some (mkHole e (hole_end h - e))).

Lemma fit_start_spec h l :
  layout_ok l → 0 ≤ h_addr h → h_addr h mod min_alignment = 0 →
  fit_start h l mod al_align l = 0 ∧ fit_start h l mod min_alignment = 0 ∧
  (fit_start h l = h_addr h ∨ h_addr h + min_alloc_size ≤ fit_start h l) ∧
  fit_start h l < h_addr h + min_alloc_size + al_align l.
Proof.
  intros (? & ? & Hp & H8) Ha Ham. unfold fit_start.
  apply is_power_of_two_spec in Hp as (k & Hk & Hp). rewrite Hp in *.
  pose proof (Z.pow_pos_nonneg 2 k ltac:(lia) Hk) as Hpos.
  destruct (Z.eqb_spec (h_addr h mod 2 ^ k) 0) as [E|E].
  - split_and!; [done..|by left|unfold_fl; lia].
  - pose proof (round_up_bounds (h_addr h + min_alloc_size) (2 ^ k) Hpos).
    pose proof (round_up_mod (h_addr h + min_alloc_size) (2 ^ k) Hpos) as Hm.
    split_and!; [done| |lia|lia].
    eapply mod_mod_divide; [..|exact Hm]; [done..|].
    apply Z.mod_divide; [done|]. by apply pow2_mod8.
Qed.

Lemma fits_inv h l :
  fits h l = true ↔
  let e := fit_start h l + al_size l in hole_end h = e ∨ e + min_alloc_size ≤ hole_end h.
Proof.
  unfold fits. cbn. rewrite orb_true_iff, Z.eqb_eq, Z.leb_le. unfold_fl. lia.
Qed.

Lemma place_ok h l hi :
  layout_ok l → room hi l → hole_ok h → 0 < h_addr h → hole_end h ≤ hi →
  place (h_addr h) (al_align l) =
    Ret (fit_start h l, front_padding (carve h l)).
Proof.
  intros Hl Hr Hh H0 Hhi. pose proof Hl as (_ & _ & Hp & H8).
  destruct (fit_start_spec h l Hl) as (Hfa & _ & Hfor & Hflt); [lia|apply Hh|].
  assert (0 < al_align l) by (unfold_fl; lia).
  unfold place, carve, fit_start in *. cbn [front_padding].
  rewrite align_up_pow2 by (done || unfold_fl; lia). cbn.
  destruct (Z.eqb_spec (h_addr h mod al_align l) 0) as [E|E].
  { by rewrite round_up_id, !Z.eqb_refl by done. }
  rewrite (proj2 (Z.eqb_neq (round_up (h_addr h) _) _)) by (by rewrite round_up_eq_iff).
  rewrite uadd_ok by (unfold_fl; lia). cbn.
  rewrite align_up_pow2 by (done || unfold_fl; lia). cbn.
  destruct Hfor as [Hf|Hf]; [by rewrite Hf in Hfa|].
  rewrite usub_ok by (unfold_fl; lia). cbn.
  by rewrite (proj2 (Z.eqb_neq (round_up _ _) (h_addr h))) by (unfold_fl; lia).
Qed.

Lemma allocate_from_hole_info_ok h l hi :
  layout_ok l → room hi l → hole_ok h → 0 < h_addr h → hole_end h ≤ hi →
  allocate_from_hole_info h l = Ret (if fits h l then Some (carve h l) else None).
Proof.
  intros Hl Hr Hh H0 Hhi. pose proof Hl as (Hs & Hs8 & Hp & H8).
  destruct (fit_start_spec h l Hl) as (Hfa & Hf8 & Hfor & Hflt); [lia|apply Hh|].
  unfold allocate_from_hole_info.
  step_by done. step_by done.
  rewrite (align_up_pow2 (al_size l)), round_up_id by (done || unfold_fl; lia). cbn.
  rewrite assert_ok by (by apply Z.eqb_eq). cbn.
  rewrite uadd_ok by (unfold_fl; lia). cbn.
  rewrite (place_ok h l hi) by done. cbn.
  rewrite uadd_ok by (unfold_fl; lia). cbn.
  change (h_addr h + h_size h) with (hole_end h).
  unfold fits, carve.
  set (s := fit_start h l) in *. set (e := s + al_size l).
  destruct (Z.ltb_spec (hole_end h) e) as [Hlt|Hge].
  { by rewrite (proj2 (Z.eqb_neq _ _)), (proj2 (Z.leb_gt _ _)) by (unfold_fl; lia). }
  rewrite usub_ok by (unfold_fl; lia). cbn.
  replace (hole_end h - s =? al_size l) with (hole_end h - e =? 0) by (subst e; repeat case_bool; lia).
  replace (hole_end h =? e) with (hole_end h - e =? 0) by (repeat case_bool; lia).
  destruct (Z.eqb_spec (hole_end h - e) 0); [done|]. cbn.
  rewrite usub_ok by lia. cbn.
  replace (hole_end h - s - al_size l) with (hole_end h - e) by lia.
  rewrite Z.ltb_antisym. by destruct (min_alloc_size <=? hole_end h - e).
Qed.

(** [tail_allocate] takes the first hole that fits. *)
Lemma tail_allocate_ok e nodes l hi :
  layout_ok l → room hi l → 0 ≤ e → chain e nodes hi →
  (tail_allocate nodes l = Ret None ∧ Forall (λ h, fits h l = false) nodes) ∨
  (∃ before h after, nodes = before ++ h :: after ∧ Forall (λ h, fits h l = false) before ∧
     fits h l = true ∧ tail_allocate nodes l = Ret (Some (carve h l, before ++ after))).
Proof.
  intros Hl Hr. revert e; induction nodes as [|h nodes IH]; intros e He Hc.
  { left. by split; [|constructor]. }
  cbn in Hc. destruct Hc as (Hlt & Hok & Hc). cbn.
  rewrite (allocate_from_hole_info_ok h l hi) by (done || (apply chain_le in Hc; lia)). cbn.
  destruct (fits h l) eqn:Hf.
  { right. exists [], h, nodes. split_and!; [done|constructor|done|done]. }
  destruct (IH (hole_end h)) as [[-> HF]|(before & h' & after & -> & HF & Hf' & ->)].
  - unfold_fl; lia.
  - done.
  - left. split; [done|by constructor].
  - right. exists (h :: before), h', after. split_and!; [done|by constructor|done|done].
Qed.

(** ** The deallocation loop *)

(** Arithmetic over holes, and over the bytes they cover. *)
Ltac fl_arith :=
  unfold_fl; split_and?; try done; try lia; try mlia; intros; intuition lia.


Definition node_start (ptr size : Z) : Z := if size =? 0 then 0 else ptr.

Definition disjoint_from (l : list HoleInfo) (hole : HoleInfo) : Prop :=
  ∀ x, covers hole x → ¬ free_byte l x.

Lemma disjoint_from_cons h l hole :
  hole_ok h → hole_ok hole → disjoint_from (h :: l) hole →
  (hole_end h ≤ h_addr hole ∨ hole_end hole ≤ h_addr h) ∧ disjoint_from l hole.
Proof.
  intros Hh Hk Hd. split.
  - destruct (Z.le_gt_cases (hole_end h) (h_addr hole)); [by left|].
    destruct (Z.le_gt_cases (hole_end hole) (h_addr h)); [by right|]. exfalso.
    apply (Hd (Z.max (h_addr h) (h_addr hole))); cbn; [|left]; unfold_fl; lia.
  - intros x Hx Hf. apply (Hd x Hx). by right.
Qed.

Lemma deallocate_loop_ok ptr sz l hole hi :
  let a := node_start ptr sz in
  0 ≤ a → 0 ≤ sz → sz mod min_alignment = 0 → hi < usize_limit →
  chain (a + sz) l hi → hole_ok hole → a + sz ≤ h_addr hole → hole_end hole ≤ hi →
  disjoint_from l hole →
  ∃ sz' l', deallocate_loop ptr sz l hole = Ret (sz', l') ∧
    sz ≤ sz' ∧ (a + sz < h_addr hole → sz' = sz) ∧ sz' mod min_alignment = 0 ∧
    chain (a + sz') l' hi ∧ sz' + total l' = sz + h_size hole + total l ∧
    (∀ x, a ≤ x < a + sz' ∨ free_byte l' x ↔
          a ≤ x < a + sz ∨ covers hole x ∨ free_byte l x).
Proof.
  cbn. revert ptr sz hole.
  induction l as [|n l IH]; intros ptr sz hole Ha Hsz Hsz8 Hhi Hc Hok Hle Hend Hd.
  - cbn. fold (node_start ptr sz). cbn in Hc. step_by fl_arith. step_by fl_arith.
    destruct (Z.eqb_spec (node_start ptr sz + sz) (h_addr hole)) as [E|E].
    + step_by fl_arith. eexists _, []. split; [done|]. fl_arith.
    + step_by ltac:(apply Hok). eexists _, [hole]. split; [done|]. cbn. fl_arith.
  - cbn in Hc. destruct Hc as (Hlt & Hn & Hc).
    destruct (disjoint_from_cons _ _ _ Hn Hok Hd) as [Hor Hd'].
    pose proof (chain_le _ _ _ Hc) as Hnhi.
    cbn. fold (node_start ptr sz). step_by fl_arith. step_by fl_arith.
    destruct (Z.eqb_spec (node_start ptr sz + sz) (h_addr hole)) as [E|E].
    { step_by fl_arith. cbn.
      destruct (Z.eqb_spec (h_addr hole + h_size hole) (h_addr n)) as [E'|E'].
      - step_by fl_arith. step_by fl_arith. eexists _, l. split; [done|].
        apply (chain_weaken _ (node_start ptr sz + (sz + (h_size hole + h_size n)))) in Hc;
          [|fl_arith].
        fl_arith.
      - step_by fl_arith. eexists _, (n :: l). split; [done|]. cbn. fl_arith. }
    cbn. step_by fl_arith. cbn.
    destruct (Z.eqb_spec (h_addr hole + h_size hole) (h_addr n)) as [E'|E'].
    { (* the next node is absorbed and the loop stays on this node *)
      step_by fl_arith.
      destruct (IH ptr sz (mkHole (h_addr hole) (h_size hole + h_size n)))
        as (sz' & l' & -> & H1 & H2 & H3 & H4 & H5 & H6); try done; try fl_arith.
      - eapply chain_weaken; [exact Hc|fl_arith].
      - intros x Hx Hf. apply chain_free_byte with (x := x) in Hc as Hb; [|done]. fl_arith.
      - eexists _, _. split; [done|]. split_and!; [done..|cbn in *; lia|].
        intros x. rewrite H6. fl_arith. }
    destruct (Z.leb_spec (h_addr n) (h_addr hole)) as [Hn'|Hn'].
    + (* move on to the next node *)
      assert (node_start (h_addr n) (h_size n) = h_addr n) as En.
      { unfold node_start. rewrite (proj2 (Z.eqb_neq _ _)); [done|fl_arith]. }
      destruct (IH (h_addr n) (h_size n) hole)
        as (sz' & l' & -> & H1 & H2 & H3 & H4 & H5 & H6); rewrite ?En in *; try done; try fl_arith.
      eexists _, _. split; [done|]. cbn.
      split_and!; try done; try fl_arith.
      intros x. specialize (H6 x). fl_arith.
    + step_by ltac:(apply Hok). eexists _, (hole :: n :: l). split; [done|]. cbn. fl_arith.
Qed.

(** ** The operations of the list *)

Definition opt_covers (o : option HoleInfo) (x : Z) : Prop :=
  match o with Some h => covers h x | None => False end.
Definition opt_size (o : option HoleInfo) : Z :=
  match o with Some h => h_size h | None => 0 end.
(** A block that may be given back to a list of nodes below [hi]. *)
Definition returnable (hi : Z) (o : option HoleInfo) : Prop :=
  match o with
  | Some h => hole_ok h ∧ 0 < h_addr h ∧ hole_end h ≤ hi
  | None => True
  end.

(** [fl'] is [fl] with the bytes of [o] added to its free bytes. *)
Definition extended (hi : Z) (fl : FreeList) (o : option HoleInfo) (fl' : FreeList) : Prop :=
  head_ptr fl' = head_ptr fl ∧ head_size fl' = 0 ∧ chain 0 (nodes fl') hi ∧
  total (nodes fl') = total (nodes fl) + opt_size o ∧
  (∀ x, free_byte (nodes fl') x ↔ free_byte (nodes fl) x ∨ opt_covers o x) ∧
  allocated_space fl' = allocated_space fl ∧ free_space fl' = free_space fl.

Lemma give_back_ok hi fl o :
  head_size fl = 0 → chain 0 (nodes fl) hi → hi + min_alignment < usize_limit →
  returnable hi o → (∀ x, opt_covers o x → ¬ free_byte (nodes fl) x) →
  ∃ fl', give_back fl o = Ret fl' ∧ extended hi fl o fl'.
Proof.
  intros Hh Hc Hhi Hr Hd. destruct o as [h|]; cbn in *.
  2:{ exists fl. split; [done|]. unfold extended; cbn. split_and!; try done; [lia|].
      intros; tauto. }
  destruct Hr as (Hok & H0 & Hend). unfold deallocate_from_hole_info.
  step_by ltac:(apply Hok).
  rewrite (align_up_pow2 (h_size h)), bind_bind_Ret by (done || fl_arith).
  step_by ltac:(rewrite round_up_id; [done..|apply Hok]).
  rewrite (align_up_pow2 (h_addr h)), bind_bind_Ret by (done || fl_arith).
  step_by ltac:(rewrite round_up_id; [done..|apply Hok]).
  rewrite Hh.
  destruct (deallocate_loop_ok (head_ptr fl) 0 (nodes fl) h hi)
    as (sz' & l' & -> & _ & Hsz & _ & Hc' & Ht & Hb); try done; try fl_arith.
  rewrite (Hsz H0) in *. eexists. split; [done|]. unfold extended; cbn in *.
  split_and!; try done; [lia|]. intros x. specialize (Hb x). intuition lia.
Qed.

Lemma chain_remove e l1 h l2 hi :
  chain e (l1 ++ h :: l2) hi →
  chain e (l1 ++ l2) hi ∧ total (l1 ++ h :: l2) = h_size h + total (l1 ++ l2) ∧
  (∀ x, free_byte (l1 ++ h :: l2) x ↔ covers h x ∨ free_byte (l1 ++ l2) x) ∧
  (∀ x, covers h x → ¬ free_byte (l1 ++ l2) x).
Proof.
  revert e; induction l1 as [|h1 l1 IH]; intros e; cbn.
  - intros (Hlt & Hok & Hc). split_and!; [|lia|tauto|].
    + eapply chain_weaken; [exact Hc|fl_arith].
    + intros x Hx Hf. apply chain_free_byte with (x := x) in Hc; [|done]. fl_arith.
  - intros (Hlt & Hok & Hc). destruct (IH _ Hc) as (IH1 & IH2 & IH3 & IH4).
    split_and!; [done..|lia| |].
    + intros x. rewrite IH3. tauto.
    + intros x Hx [Hf|Hf]; [|by apply (IH4 x)].
      assert (h ∈ l1 ++ h :: l2) as Hin by (apply elem_of_app; right; left).
      destruct (chain_in _ _ _ _ Hc Hin) as (? & ? & ?). fl_arith.
Qed.

(** Carving a block out of a hole it fits in cuts the hole into the front
    padding, the block and the back padding. *)
Lemma carve_spec h l hi :
  layout_ok l → hole_ok h → 0 < h_addr h → hole_end h ≤ hi → fits h l = true →
  let a := carve h l in
  h_addr (info a) mod al_align l = 0 ∧ h_size (info a) = al_size l ∧
  hole_ok (info a) ∧ h_addr h ≤ h_addr (info a) ∧
  returnable hi (front_padding a) ∧ returnable hi (back_padding a) ∧
  h_size h = opt_size (front_padding a) + h_size (info a) + opt_size (back_padding a) ∧
  (∀ x, opt_covers (front_padding a) x → h_addr h ≤ x < h_addr (info a)) ∧
  (∀ x, opt_covers (back_padding a) x → hole_end (info a) ≤ x < hole_end h) ∧
  (∀ x, covers h x → opt_covers (front_padding a) x ∨ covers (info a) x ∨
                     opt_covers (back_padding a) x) ∧
  hole_end (info a) ≤ hole_end h.
Proof.
  intros Hl Hh H0 Hhi Hf%fits_inv. cbn in Hf.
  destruct (fit_start_spec h l Hl) as (Hfa & Hf8 & Hfor & _); [lia|apply Hh|].
  unfold carve. cbn. set (s := fit_start h l) in *.
  destruct (Z.eqb_spec s (h_addr h)) as [E1|E1], (Z.eqb_spec (hole_end h) (s + al_size l)) as [E2|E2];
    cbn; fl_arith.
Qed.

Lemma align_layout_ok l :
  0 ≤ layout_size l → layout_size l + 16 + min_alignment < usize_limit →
  is_power_of_two (layout_align l) = true →
  layout_size l + 16 + min_alignment + Z.max (layout_align l) min_alignment < usize_limit →
  ∃ al, align_layout l = Ret (Some al) ∧ layout_ok al ∧
    al_size al = round_up (Z.max (layout_size l) min_alloc_size) min_alignment ∧
    al_align al = Z.max (layout_align l) min_alignment.
Proof.
  intros Hs0 Hs Hp Ha. unfold align_layout. step_by fl_arith.
  pose proof (round_up_bounds (Z.max (layout_size l) min_alloc_size) min_alignment ltac:(done)) as Hb.
  rewrite align_up_pow2, bind_bind_Ret by (done || fl_arith).
  assert (is_power_of_two (Z.max (layout_align l) min_alignment) = true) as Hp'.
  { destruct (Z.max_spec (layout_align l) min_alignment) as [[_ ->]|[_ ->]]; done. }
  unfold from_size_align. rewrite Hp', (proj2 (Z.leb_le _ _)) by fl_arith.
  eexists. split; [done|]. unfold layout_ok, al_size, al_align; cbn.
  split_and!; [fl_arith|by apply round_up_mod|done|fl_arith|done..].
Qed.

(** [fl'] is [fl] after the block at [p] has been taken out. *)
Definition taken (fl : FreeList) (p : Z) (l : AlignedLayout) (fl' : FreeList) : Prop :=
  let block := mkHole p (al_size l) in
  head_ptr fl' = head_ptr fl ∧ p mod al_align l = 0 ∧
  (∀ x, covers block x → free_byte (nodes fl) x) ∧
  (∀ x, free_byte (nodes fl') x ↔ free_byte (nodes fl) x ∧ ¬ covers block x) ∧
  allocated_space fl' = allocated_space fl + al_size l ∧
  free_space fl' = free_space fl - al_size l.

Lemma allocate_ok lo hi fl l :
  wf lo hi fl → layout_ok l → room hi l →
  (allocate fl l = Ret (None, fl) ∧ Forall (λ h, fits h l = false) (nodes fl)) ∨
  (∃ p fl', allocate fl l = Ret (Some p, fl') ∧ wf lo hi fl' ∧ taken fl p l fl' ∧
            lo ≤ p ∧ p + al_size l ≤ hi).
Proof.
  intros [Hh Hc Hlo Hrange Hfree Ha Hsum] Hl Hr. unfold allocate.
  destruct (tail_allocate_ok 0 (nodes fl) l hi Hl Hr ltac:(lia) Hc)
    as [[-> HF]|(before & h & after & Hn & _ & Hf & ->)]; [by left|right].
  rewrite bind_bind_Ret. cbv beta match. rewrite Hn in *.
  destruct (chain_remove _ _ _ _ _ Hc) as (Hc1 & Ht & Hb & Hdis).
  assert (h ∈ before ++ h :: after) as Hin by (apply elem_of_app; right; left).
  destruct (chain_in _ _ _ _ Hc Hin) as (Hok & H0 & Hend).
  destruct (carve_spec h l hi Hl Hok H0 Hend Hf)
    as (Hal & Hsz & Hiok & Hile & Hrf & Hrb & Hsizes & Hfx & Hbx & Hsplit & Hie).
  set (a := carve h l) in *. clearbody a.
  destruct (give_back_ok hi (mkFreeList (head_ptr fl) (head_size fl) (before ++ after)
              (allocated_space fl) (free_space fl)) (front_padding a))
    as (fl2 & -> & (Hp2 & Hh2 & Hc2 & Ht2 & Hb2 & Ha2 & Hf2)); try done; try lia; cbn in *.
  { intros x Hx. apply Hdis. specialize (Hfx x Hx). fl_arith. }
  destruct (give_back_ok hi fl2 (back_padding a))
    as (fl3 & -> & (Hp3 & Hh3 & Hc3 & Ht3 & Hb3 & Ha3 & Hf3)); try done; try lia; cbn in *.
  { intros x Hx [Hx'|Hx']%Hb2.
    - apply (Hdis x); [|done]. specialize (Hbx x Hx). fl_arith.
    - specialize (Hfx x Hx'). specialize (Hbx x Hx). fl_arith. }
  pose proof (chain_total _ _ _ Hc3). pose proof (chain_total _ _ _ Hc1).
  rewrite !uadd_ok, !usub_ok, (proj2 (Z.eqb_neq _ _)) by fl_arith. cbn.
  assert (∀ x, covers (info a) x → covers h x) as Hih by (intros x; fl_arith).
  assert (lo ≤ h_addr (info a)).
  { apply Hlo, Hb. left. apply Hih. fl_arith. }
  assert (∀ x, free_byte (nodes fl3) x ↔
            free_byte (before ++ h :: after) x ∧ ¬ covers (info a) x) as Hbytes.
  { intros x. rewrite Hb3, Hb2, Hb. specialize (Hfx x). specialize (Hbx x).
    specialize (Hsplit x). specialize (Hdis x). specialize (Hih x).
    unfold_fl. intuition lia. }
  eexists _, _. split; [done|]. split_and!.
  - constructor; cbn; try done; try lia.
    + intros x [Hx _]%Hbytes. by apply Hlo.
    + rewrite Ha3, Ha2, Hsz. fl_arith.
  - unfold taken. rewrite <- Hsz. cbn. rewrite Hn. split_and!; [congruence|done| | |lia..].
    + intros x Hx. apply Hb. left. by apply Hih.
    + done.
  - done.
  - rewrite <- Hsz. fl_arith.
Qed.

Lemma deallocate_ok lo hi fl p l :
  wf lo hi fl → layout_ok l → lo ≤ p → p + al_size l ≤ hi → p mod min_alignment = 0 →
  al_size l ≤ allocated_space fl →
  (∀ x, covers (mkHole p (al_size l)) x → ¬ free_byte (nodes fl) x) →
  ∃ fl', deallocate fl p l = Ret fl' ∧ wf lo hi fl' ∧
    (∀ x, free_byte (nodes fl') x ↔ free_byte (nodes fl) x ∨ covers (mkHole p (al_size l)) x) ∧
    allocated_space fl' = allocated_space fl - al_size l ∧ head_ptr fl' = head_ptr fl.
Proof.
  intros [Hh Hc Hlo Hrange Hfree Ha Hsum] Hl Hp Hpe Hp8 Hal Hd. unfold deallocate.
  destruct (give_back_ok hi fl (Some (mkHole p (al_size l))))
    as (fl1 & E & (Hp1 & Hh1 & Hc1 & Ht1 & Hb1 & Ha1 & Hf1)); try done; try lia.
  { cbn. fl_arith. }
  cbn in E. rewrite E, bind_bind_Ret. cbn in *.
  step_by fl_arith. step_by fl_arith.
  eexists. split; [done|]. split_and!; cbn; [|done|lia|done].
  constructor; cbn; try done; try lia.
  intros x [?|?]%Hb1; [by apply Hlo|fl_arith].
Qed.

(** ** Clients of the list *)

Definition block (p : Z) (l : AlignedLayout) : HoleInfo := mkHole p (al_size l).

(** A client sees the list and the blocks it holds, by address. It asks for
    blocks, with any layout whose addresses cannot overflow, and gives back
    blocks it holds. *)
Inductive client_step (hi : Z) :
    FreeList * gmap Z AlignedLayout → FreeList * gmap Z AlignedLayout → Prop :=
  | step_alloc fl live l p fl' :
      layout_ok l → room hi l → allocate fl l = Ret (Some p, fl') →
      client_step hi (fl, live) (fl', <[p := l]> live)
  | step_alloc_none fl live l fl' :
      layout_ok l → room hi l → allocate fl l = Ret (None, fl') →
      client_step hi (fl, live) (fl', live)
  | step_free fl live p l fl' :
      live !! p = Some l → deallocate fl p l = Ret fl' →
      client_step hi (fl, live) (fl', delete p live).

Definition live_size (live : gmap Z AlignedLayout) : Z :=
  map_fold (λ _ l s, al_size l + s) 0 live.

(** Free bytes and live blocks partition [lo, hi). *)
Record partition (lo hi : Z) (s : FreeList * gmap Z AlignedLayout) : Prop := {
  part_wf : wf lo hi s.1;
  part_block : ∀ p l, s.2 !! p = Some l →
    layout_ok l ∧ lo ≤ p ∧ p + al_size l ≤ hi ∧ p mod al_align l = 0;
  part_disjoint : ∀ p1 l1 p2 l2 x, s.2 !! p1 = Some l1 → s.2 !! p2 = Some l2 →
    covers (block p1 l1) x → covers (block p2 l2) x → p1 = p2;
  part_free : ∀ p l x, s.2 !! p = Some l → covers (block p l) x → ¬ free_byte (nodes s.1) x;
  part_cover : ∀ x, lo ≤ x < hi →
    free_byte (nodes s.1) x ∨ ∃ p l, s.2 !! p = Some l ∧ covers (block p l) x;
  part_size : allocated_space s.1 = live_size s.2;
}.

Lemma live_size_delete live p l :
  live !! p = Some l → live_size live = al_size l + live_size (delete p live).
Proof. intros. unfold live_size. rewrite (map_fold_delete_L _ _ p l); [done|intros; lia|done]. Qed.

Lemma live_size_insert live p l :
  live !! p = None → live_size (<[p := l]> live) = al_size l + live_size live.
Proof. intros. unfold live_size. rewrite map_fold_insert_L; [done|intros; lia|done]. Qed.

Lemma live_size_nonneg live :
  (∀ p l, live !! p = Some l → layout_ok l) → 0 ≤ live_size live.
Proof.
  induction live as [|p l live Hp _ IH] using map_first_key_ind; intros Hl; [done|].
  rewrite live_size_insert by done.
  pose proof (Hl p l (lookup_insert_eq _ _ _)) as (? & _).
  enough (0 ≤ live_size live) by fl_arith.
  apply IH. intros p' l' E. apply (Hl p'). rewrite lookup_insert_ne; [done|congruence].
Qed.

Lemma layout_align8 l p : layout_ok l → p mod al_align l = 0 → p mod min_alignment = 0.
Proof.
  intros (_ & _ & (k & Hk & Ha)%is_power_of_two_spec & H8) Hp.
  eapply mod_mod_divide; [done| |..|exact Hp]; [fl_arith|].
  apply Z.mod_divide; [done|]. rewrite Ha in *. by apply pow2_mod8.
Qed.

Lemma new_ok ptr start limit :
  let lo := round_up start min_alignment in
  0 < start → lo + min_alloc_size ≤ limit → limit mod min_alignment = 0 →
  limit + min_alignment < usize_limit →
  ∃ fl, new ptr start limit = Ret fl ∧ nodes fl = [mkHole lo (limit - lo)] ∧
        allocated_space fl = 0 ∧ wf lo limit fl.
Proof.
  intros lo Hs Hle H8 Hlim. unfold new.
  pose proof (round_up_bounds start min_alignment ltac:(done)) as Hb.
  pose proof (round_up_mod start min_alignment ltac:(done)) as Hm.
  rewrite align_up_pow2, bind_bind_Ret by (done || fl_arith). fold lo in Hb, Hm |- *.
  unfold saturating_sub. rewrite (proj2 (Z.leb_le _ _)) by fl_arith.
  step_by fl_arith. eexists. split; [done|]. split_and!; [done..|].
  constructor; cbn; try done; fl_arith.
Qed.

(** The invariant holds initially. *)
Lemma partition_init ptr start limit fl :
  let lo := round_up start min_alignment in
  0 < start → lo + min_alloc_size ≤ limit → limit mod min_alignment = 0 →
  limit + min_alignment < usize_limit →
  new ptr start limit = Ret fl → partition lo limit (fl, ∅).
Proof.
  intros lo H1 H2 H3 H4 Hnew.
  destruct (new_ok ptr start limit H1 H2 H3 H4) as (fl' & E & Hn & Ha & Hwf).
  rewrite Hnew in E. injection E as <-.
  constructor; cbn; try done; try (intros *; rewrite lookup_empty; done).
  intros x Hx. left. rewrite Hn. left. unfold_fl. lia.
Qed.

Lemma partition_alloc lo hi fl live l p fl' :
  partition lo hi (fl, live) → layout_ok l → room hi l →
  allocate fl l = Ret (Some p, fl') → partition lo hi (fl', <[p := l]> live).
Proof.
  intros [Hwf Hblk Hdis Hfr Hcov Hsz] Hl Hr E; cbn in *.
  destruct (allocate_ok lo hi fl l Hwf Hl Hr)
    as [[E' _]|(p' & fl'' & E' & Hwf' & (_ & Hal & Htk & Hby & Ha & _) & Hlo & Hhi)];
    rewrite E in E'; [done|]. injection E' as <- <-.
  assert (∀ q lq x, live !! q = Some lq → covers (block q lq) x → ¬ covers (block p l) x) as Hne.
  { intros q lq x Hq Hx Hx'. by apply (Hfr q lq x), Htk. }
  assert (live !! p = None) as Hp.
  { apply eq_None_not_Some. intros [lq Hq]. destruct (Hblk p lq Hq) as ((? & _) & _).
    apply (Hne p lq p Hq); destruct Hl as (? & _); fl_arith. }
  constructor; cbn; try done.
  - intros q lq [[<- <-]|[_ Hq]]%lookup_insert_Some; [done|by apply Hblk].
  - intros p1 l1 p2 l2 x [[<- <-]|[_ Hq1]]%lookup_insert_Some
      [[<- <-]|[_ Hq2]]%lookup_insert_Some Hx1 Hx2; [done| | |by eapply Hdis].
    + by destruct (Hne p2 l2 x).
    + by destruct (Hne p1 l1 x).
  - intros q lq x [[<- <-]|[_ Hq]]%lookup_insert_Some Hx [Hf Hnc]%Hby; [done|].
    by apply (Hfr q lq x).
  - intros x Hx. rewrite Hby.
    destruct (decide (h_addr (block p l) ≤ x < hole_end (block p l))) as [Hc|Hc].
    + right. exists p, l. by rewrite lookup_insert_eq.
    + destruct (Hcov x Hx) as [Hf|(q & lq & Hq & Hc')]; [by left|right].
      exists q, lq. split; [|done]. rewrite lookup_insert_ne; [done|congruence].
  - rewrite live_size_insert by done. lia.
Qed.

Lemma partition_free lo hi fl live p l :
  partition lo hi (fl, live) → live !! p = Some l →
  ∃ fl', deallocate fl p l = Ret fl' ∧ partition lo hi (fl', delete p live).
Proof.
  intros [Hwf Hblk Hdis Hfr Hcov Hsz] Hp; cbn in *.
  destruct (Hblk p l Hp) as (Hl & Hlo & Hhi & Hal).
  pose proof (live_size_delete live p l Hp) as Hls.
  assert (0 ≤ live_size (delete p live)).
  { apply live_size_nonneg. intros q lq [_ Hq]%lookup_delete_Some. by apply (Hblk q). }
  destruct (deallocate_ok lo hi fl p l) as (fl' & E & Hwf' & Hby & Ha & _); try done; try lia.
  { by eapply layout_align8. }
  { intros x. by apply Hfr. }
  exists fl'. split; [done|]. constructor; cbn; try done.
  - intros q lq [_ Hq]%lookup_delete_Some. by apply Hblk.
  - intros p1 l1 p2 l2 x [_ H1]%lookup_delete_Some [_ H2]%lookup_delete_Some. by eapply Hdis.
  - intros q lq x [Hne Hq]%lookup_delete_Some Hx [Hf|Hc]%Hby; [by apply (Hfr q lq x)|].
    apply Hne. by eapply Hdis.
  - intros x Hx. rewrite Hby. destruct (Hcov x Hx) as [Hf|(q & lq & Hq & Hc)]; [by auto|].
    destruct (decide (q = p)) as [->|Hne]; [naive_solver|].
    right. exists q, lq. by rewrite lookup_delete_ne.
  - lia.
Qed.

Lemma partition_step lo hi s s' :
  partition lo hi s → client_step hi s s' → partition lo hi s'.
Proof.
  intros HP Hs. destruct Hs as [fl live l p fl' Hl Hr E|fl live l fl' Hl Hr E|fl live p l fl' Hp E].
  - by eapply partition_alloc.
  - destruct (allocate_ok lo hi fl l (part_wf _ _ _ HP) Hl Hr) as [[E' _]|(? & ? & E' & _)];
      rewrite E in E'; by simplify_eq.
  - destruct (partition_free lo hi fl live p l HP Hp) as (? & E' & HP').
    rewrite E in E'. by simplify_eq.
Qed.

Lemma partition_reachable lo hi s s' :
  partition lo hi s → rtc (client_step hi) s s' → partition lo hi s'.
Proof. intros HP Hr. induction Hr; eauto using partition_step. Qed.

(** Giving back a block that starts on a free byte runs into the assertion of
    the loop when it reaches the node that holds the byte. *)
Lemma deallocate_loop_panics ptr sz l hole hi :
  let a := node_start ptr sz in
  0 ≤ a → 0 ≤ sz → hi < usize_limit → chain (a + sz) l hi → hole_ok hole →
  hole_end hole ≤ hi → free_byte l (h_addr hole) →
  deallocate_loop ptr sz l hole = Panic AssertFailed.
Proof.
  cbn. revert ptr sz. induction l as [|n l IH]; intros ptr sz Ha Hsz Hhi Hc Hok Hend Hf; [done|].
  pose proof (chain_free_byte _ _ _ _ Hc Hf) as Hb.
  cbn in Hc. destruct Hc as (Hlt & Hn & Hc). pose proof (chain_le _ _ _ Hc).
  assert (h_addr n ≤ h_addr hole) as Hle.
  { destruct Hf as [Hf|Hf]; [fl_arith|].
    apply (chain_free_byte _ _ _ _ Hc) in Hf. fl_arith. }
  cbn. fold (node_start ptr sz). step_by fl_arith. step_by fl_arith.
  rewrite (proj2 (Z.eqb_neq _ _)) by lia. step_by fl_arith. cbv match.
  step_by fl_arith. rewrite (proj2 (Z.eqb_neq _ _)), (proj2 (Z.leb_le _ _)) by fl_arith.
  assert (node_start (h_addr n) (h_size n) = h_addr n) as En.
  { unfold node_start. rewrite (proj2 (Z.eqb_neq _ _)); [done|fl_arith]. }
  destruct Hf as [Hf|Hf]; [|rewrite IH; rewrite ?En; try done; fl_arith].
  destruct l as [|n' l']; cbn; fold (node_start (h_addr n) (h_size n)); rewrite En;
    step_by fl_arith; unfold assert_;
    by rewrite (proj2 (Z.leb_gt (h_addr n + h_size n) (h_addr hole))) by fl_arith.
Qed.

(** ** Properties *)

(** C10: [FreeList::allocate] is totally correct on a well-formed list: it never
    panics; it fails exactly when no hole can take the layout (and then the
    list is unchanged); otherwise the block it returns is aligned, was free in
    all its bytes, and exactly those bytes stop being free. *)
Theorem allocate_correct lo hi fl l :
  wf lo hi fl → layout_ok l → room hi l →
  ∃ r fl', allocate fl l = Ret (r, fl') ∧ wf lo hi fl' ∧
    (r = None ↔ Forall (λ h, fits h l = false) (nodes fl)) ∧
    match r with
    | None => fl' = fl
    | Some p => taken fl p l fl' ∧ lo ≤ p ∧ p + al_size l ≤ hi
    end.
Proof.
  intros Hwf Hl Hr.
  destruct (allocate_ok lo hi fl l Hwf Hl Hr) as [[E HF]|(p & fl' & E & Hwf' & Htk & Hb)].
  - exists None, fl. done.
  - exists (Some p), fl'. split_and!; try done; try apply Hb.
    split; [done|]. intros HF. exfalso. unfold allocate in E.
    destruct (tail_allocate_ok 0 (nodes fl) l hi Hl Hr ltac:(lia) (wf_chain _ _ _ Hwf))
      as [[E' _]|(before & h & after & Hn & _ & Hf & _)].
    + by rewrite E' in E.
    + rewrite Hn, Forall_app, Forall_cons in HF. destruct HF as (_ & Hf' & _). congruence.
Qed.

(** C11: giving back a block none of whose bytes is free is totally correct: it
    never panics, keeps the list well formed, and makes exactly those bytes
    free. *)
Theorem deallocate_correct lo hi fl p l :
  wf lo hi fl → layout_ok l → lo ≤ p → p + al_size l ≤ hi → p mod min_alignment = 0 →
  al_size l ≤ allocated_space fl →
  (∀ x, covers (block p l) x → ¬ free_byte (nodes fl) x) →
  ∃ fl', deallocate fl p l = Ret fl' ∧ wf lo hi fl' ∧
    (∀ x, free_byte (nodes fl') x ↔ free_byte (nodes fl) x ∨ covers (block p l) x) ∧
    allocated_space fl' = allocated_space fl - al_size l ∧ head_ptr fl' = head_ptr fl.
Proof. apply deallocate_ok. Qed.

(** Allocating a block and giving it straight back restores the list, node
    by node and counter by counter. *)
Theorem allocate_deallocate_roundtrip lo hi fl l p fl' :
  wf lo hi fl → layout_ok l → room hi l →
  allocate fl l = Ret (Some p, fl') → deallocate fl' p l = Ret fl.
Proof.
  intros Hwf Hl Hr E.
  destruct (allocate_ok lo hi fl l Hwf Hl Hr)
    as [[E' _]|(p' & fl'' & E' & Hwf' & (Hp & Hal & Htk & Hby & Ha & Hf) & Hlo & Hhi)];
    rewrite E in E'; [done|]. injection E' as <- <-.
  destruct (deallocate_ok lo hi fl' p l) as (fl2 & -> & Hwf2 & Hby2 & Ha2 & Hp2); try done.
  { by eapply layout_align8. }
  { pose proof (wf_alloc _ _ _ Hwf). lia. }
  { intros x Hx [_ Hn]%Hby. done. }
  assert (nodes fl2 = nodes fl) as Hn.
  { eapply chain_unique; [apply Hwf2|apply Hwf|]. intros x. rewrite Hby2, Hby.
    specialize (Htk x). unfold_fl. destruct (decide (p ≤ x < p + al_size l)); tauto. }
  destruct Hwf as [Hh1 _ _ _ Hf1 _ _], Hwf2 as [Hh2 _ _ _ Hf2 _ _].
  destruct fl2 as [p2 h2 n2 a2 f2], fl as [p0 h0 n0 a0 f0]; cbn in *.
  f_equal. f_equal; try congruence. lia.
Qed.

(** After any sequence of requests of a client that only gives back what
    it holds, the free bytes and the client's blocks partition the region:
    blocks are aligned, inside the region, disjoint from each other and from
    the free bytes, no byte is lost, and the counters agree. *)
Theorem client_partition ptr start limit fl s :
  let lo := round_up start min_alignment in
  0 < start → lo + min_alloc_size ≤ limit → limit mod min_alignment = 0 →
  limit + min_alignment < usize_limit →
  new ptr start limit = Ret fl → rtc (client_step limit) (fl, ∅) s →
  partition lo limit s.
Proof.
  intros lo H1 H2 H3 H4 Hnew Hr. eapply partition_reachable; [|exact Hr].
  by eapply partition_init.
Qed.

(** No block is lost to fragmentation: when the client has given everything
    back, the list is again the single node it started with. *)
Theorem client_all_freed ptr start limit fl fl' :
  let lo := round_up start min_alignment in
  0 < start → lo + min_alloc_size ≤ limit → limit mod min_alignment = 0 →
  limit + min_alignment < usize_limit →
  new ptr start limit = Ret fl → rtc (client_step limit) (fl, ∅) (fl', ∅) →
  nodes fl' = [mkHole lo (limit - lo)] ∧ free_space fl' = limit - lo ∧ allocated_space fl' = 0.
Proof.
  intros lo H1 H2 H3 H4 Hnew Hr.
  pose proof (partition_init ptr start limit fl H1 H2 H3 H4 Hnew) as HP0.
  destruct (partition_reachable _ _ _ _ HP0 Hr) as [Hwf _ _ _ Hcov Hsz]; cbn in *.
  pose proof (new_ok ptr start limit H1 H2 H3 H4) as (fl0 & E & Hn & _ & Hwf0).
  fold lo in Hcov, Hwf, Hwf0, Hn.
  rewrite Hnew in E. injection E as <-.
  assert (nodes fl' = nodes fl) as ->.
  { eapply chain_unique; [apply Hwf|apply Hwf0|]. rewrite Hn. intros x. split; intros Hx.
    - left. pose proof (wf_lo _ _ _ Hwf x Hx).
      pose proof (chain_free_byte _ _ _ _ (wf_chain _ _ _ Hwf) Hx). unfold_fl. lia.
    - destruct Hx as [Hx|[]]. destruct (Hcov x) as [?|(? & ? & Hl & _)]; [unfold_fl; lia|done|].
      by rewrite lookup_empty in Hl. }
  pose proof (wf_sum _ _ _ Hwf). rewrite Hsz in *. cbn in *. split_and!; [done| |done].
  change (live_size ∅) with 0 in *. lia.
Qed.

(** A block that starts on a free byte, in particular one given back twice,
    is refused: the assertion "Invalid deallocation" panics. *)
Theorem deallocate_free_panics lo hi fl p l :
  wf lo hi fl → layout_ok l → 0 ≤ p → p + al_size l ≤ hi → p mod min_alignment = 0 →
  free_byte (nodes fl) p → deallocate fl p l = Panic AssertFailed.
Proof.
  intros [Hh Hc Hlo Hrange _ _ _] Hl Hp Hpe Hp8 Hf.
  unfold deallocate, deallocate_from_hole_info; cbn.
  step_by ltac:(apply Hl).
  rewrite (align_up_pow2 (al_size l)), bind_bind_Ret by (done || fl_arith).
  step_by ltac:(rewrite round_up_id; [done..|apply Hl]).
  rewrite (align_up_pow2 p), bind_bind_Ret by (done || fl_arith).
  step_by ltac:(by rewrite round_up_id). rewrite Hh.
  rewrite (deallocate_loop_panics (head_ptr fl) 0 (nodes fl) (mkHole p (al_size l)) hi);
    [done|cbn; try done..]; try fl_arith.
Qed.

(** C40: [align_layout] turns every layout whose rounding cannot overflow into
    one the list accepts: big enough, a multiple of the node alignment, and at
    least as strictly aligned as asked. *)
Theorem align_layout_correct l :
  0 ≤ layout_size l → is_power_of_two (layout_align l) = true →
  layout_size l + 32 + layout_align l < usize_limit →
  ∃ al, align_layout l = Ret (Some al) ∧ layout_ok al ∧
    layout_size l ≤ al_size al < Z.max (layout_size l) min_alloc_size + min_alignment ∧
    al_align al = Z.max (layout_align l) min_alignment.
Proof.
  intros Hs Hp Hlt. pose proof Hp as (k & Hk & Ek)%is_power_of_two_spec.
  pose proof (Z.pow_pos_nonneg 2 k ltac:(lia) Hk).
  destruct (align_layout_ok l) as (al & E & Hok & Hsz & Hal); try done; try fl_arith.
  exists al. split_and!; try done; rewrite Hsz;
    pose proof (round_up_bounds (Z.max (layout_size l) min_alloc_size) min_alignment); fl_arith.
Qed.

(** ** Witnesses and the unit tests of the source *)

Definition ex_list : FreeList := mkFreeList 64 0 [mkHole 4096 4096] 0 4096.
Definition ex_layout : AlignedLayout := mkAligned (mkLayout 64 32).
(** [ex_list] after one block of [ex_layout] has been taken. *)
Definition ex_taken : FreeList := mkFreeList 64 0 [mkHole 4160 4032] 64 4032.

Lemma allocate_correct_witness :
  wf 4096 8192 ex_list ∧ layout_ok ex_layout ∧ room 8192 ex_layout ∧
  ∃ r fl', allocate ex_list ex_layout = Ret (r, fl') ∧ wf 4096 8192 fl'.
Proof.
  assert (wf 4096 8192 ex_list) by (constructor; cbn; fl_arith).
  assert (layout_ok ex_layout) by fl_arith. assert (room 8192 ex_layout) by fl_arith.
  split_and!; [done..|].
  destruct (allocate_correct 4096 8192 ex_list ex_layout) as (r & fl' & E & Hw & _);
    [done..|by exists r, fl'].
Defined.

Lemma deallocate_correct_witness :
  wf 4096 8192 ex_taken ∧ ∃ fl', deallocate ex_taken 4096 ex_layout = Ret fl' ∧ wf 4096 8192 fl'.
Proof.
  assert (wf 4096 8192 ex_taken) by (constructor; cbn; fl_arith).
  split; [done|].
  destruct (deallocate_correct 4096 8192 ex_taken 4096 ex_layout) as (fl' & E & Hw & _);
    [done|fl_arith|fl_arith|fl_arith|done|fl_arith|cbn; fl_arith|by exists fl'].
Defined.

Lemma allocate_deallocate_roundtrip_witness :
  allocate ex_list ex_layout = Ret (Some 4096, ex_taken) ∧
  deallocate ex_taken 4096 ex_layout = Ret ex_list.
Proof.
  assert (allocate ex_list ex_layout = Ret (Some 4096, ex_taken)) by (vm_compute; reflexivity).
  split; [done|].
  apply (allocate_deallocate_roundtrip 4096 8192 ex_list ex_layout 4096 ex_taken);
    [constructor; cbn; fl_arith|fl_arith|fl_arith|done].
Defined.

Lemma client_partition_witness : partition 4096 8192 (ex_taken, {[4096 := ex_layout]}).
Proof.
  apply (client_partition 64 4096 8192 ex_list); [done|done|done|done|vm_compute; reflexivity|].
  apply rtc_once. apply (step_alloc 8192 ex_list ∅ ex_layout 4096 ex_taken);
    [fl_arith|fl_arith|vm_compute; reflexivity].
Defined.

Lemma client_all_freed_witness :
  nodes ex_list = [mkHole 4096 4096] ∧ free_space ex_list = 4096 ∧ allocated_space ex_list = 0.
Proof.
  apply (client_all_freed 64 4096 8192 ex_list ex_list);
    [done|done|done|done|vm_compute; reflexivity|].
  apply rtc_l with (ex_taken, {[4096 := ex_layout]}).
  - apply (step_alloc 8192 ex_list ∅ ex_layout 4096 ex_taken);
      [fl_arith|fl_arith|vm_compute; reflexivity].
  - apply rtc_once.
    assert (delete 4096 ({[4096 := ex_layout]} : gmap Z AlignedLayout) = ∅) as <-
      by (vm_compute; reflexivity).
    apply (step_free 8192 ex_taken {[4096 := ex_layout]} 4096 ex_layout ex_list);
      vm_compute; reflexivity.
Defined.

Lemma deallocate_free_panics_witness :
  wf 4096 8192 ex_list ∧ deallocate ex_list 4096 ex_layout = Panic AssertFailed.
Proof.
  assert (wf 4096 8192 ex_list) by (constructor; cbn; fl_arith).
  split; [done|]. apply (deallocate_free_panics 4096 8192 ex_list 4096 ex_layout);
    [done|fl_arith|fl_arith|fl_arith|done|left; fl_arith].
Defined.

Lemma align_layout_correct_witness :
  ∃ al, align_layout (mkLayout 17 4) = Ret (Some al) ∧ layout_ok al ∧ al_align al = 8.
Proof.
  destruct (align_layout_correct (mkLayout 17 4)) as (al & E & Hok & _ & Ha);
    [done|done|done|by exists al].
Defined.

(** [small_allocations]: in a list of one node the only possible block is taken
    and given back; a request one byte larger, or over-aligned, fails. *)
Example small_allocations :
  let fl := mkFreeList 64 0 [mkHole 4104 16] 0 16 in
  align_layout (mkLayout 0 1) = Ret (Some (mkAligned (mkLayout 16 8))) ∧
  allocate fl (mkAligned (mkLayout 16 8)) = Ret (Some 4104, mkFreeList 64 0 [] 16 0) ∧
  align_layout (mkLayout 17 1) = Ret (Some (mkAligned (mkLayout 24 8))) ∧
  allocate fl (mkAligned (mkLayout 24 8)) = Ret (None, fl) ∧
  allocate fl (mkAligned (mkLayout 16 16)) = Ret (None, fl).
Proof. vm_compute. split_and!; reflexivity. Qed.

(** [test_overalignment]: an over-aligned block leaves a node on each side. *)
Example test_overalignment :
  let fl := mkFreeList 64 0 [mkHole 4104 16384] 0 16384 in
  let l := mkAligned (mkLayout 16 4096) in
  (r ← allocate fl l; Ret (r.1, node_count r.2, free_space r.2)) = Ret (Some 8192, 2, 16368) ∧
  (r ← allocate fl l; deallocate r.2 8192 l) = Ret fl.
Proof. vm_compute. split; reflexivity. Qed.

End FreeList.
