(* ===== verification/Physmem.v ===== *)
(** * Physical memory: the frame database (physmem/mod.rs,
    physmem/frame_database.rs) and the initialise-once mutex (init_mutex.rs)

    A region of physical memory keeps one bit per frame in a byte array, set
    when the frame is free, with two counters. Three regions, each behind an
    [InitMutex], make up the physical memory of the machine. *)
From S2P Require Import Prelude Align.

(** ** [InitMutex]: a lock around an optional value

    Every guard of the frame database is dropped before the next lock is
    taken, so the lock itself never blocks here; what can fail is looking
    through a guard of a value that was never initialised. *)
Module InitMutex.

Definition new {T} : option T := None.
Definition init {T} (m : option T) (v : T) : option T := Some v.
(** [lock] followed by the guard's [deref]. *)
Definition lock {T} (m : option T) : outcome T := unwrap m.
Definition try_lock {T} (m : option T) : option T := m.

End InitMutex.

(** ** Frames *)

Abbreviation Frame := Z (only parsing).

Module Frame.

Definition containing_address (addr : Z) : Frame := page_align_down addr / PAGE_SIZE.
Definition from_index (index : Z) : Frame := index.
Definition index (f : Frame) : Z := f.
Definition physical_address (f : Frame) : outcome Z := umul (index f) PAGE_SIZE.

End Frame.

(** ** The two traits of physmem/mod.rs *)

Class LockedFrameAllocator (T : Type) := {
  free_frames : T → Z;
  used_frames : T → Z;
  allocate_frame : T → outcome (option Frame * T);
  deallocate_frame : T → Frame → outcome T;
  contains_frame : T → Frame → bool;
}.

(** [FrameAllocator for InitMutex<T>]: what is not initialised yet has nothing
    to give. *)
Module FrameAllocator.
Section locked.
Context {T : Type} `{LockedFrameAllocator T}.

Definition free_frames (m : option T) : Z :=
  match InitMutex.try_lock m with Some g => free_frames g | None => 0 end.
Definition used_frames (m : option T) : Z :=
  match InitMutex.try_lock m with Some g => used_frames g | None => 0 end.
Definition allocate_frame (m : option T) : outcome (option Frame * option T) :=
  match InitMutex.try_lock m with
  | Some g => r ← allocate_frame g; Ret (r.1, Some r.2)
  | None => Ret (None, m)
  end.
Definition deallocate_frame (m : option T) (f : Frame) : outcome (option T) :=
  g ← InitMutex.lock m;
  g' ← deallocate_frame g f;
  Ret (Some g').
Definition contains_frame (m : option T) (f : Frame) : bool :=
  match InitMutex.try_lock m with Some g => contains_frame g f | None => false end.

End locked.
End FrameAllocator.

(** ** Bit masks *)

Definition get_bit (bitmask : list Z) (index : Z) : outcome bool :=
  let index_byte := index / 8 in
  let index_bit := index mod 8 in
  let bit_mask := Z.shiftl 1 index_bit in
  byte ← slice_get bitmask index_byte;
  Ret (negb (Z.land byte bit_mask =? 0)).

Definition set_bit (bitmask : list Z) (index : Z) (value : bool) : outcome (list Z) :=
  let index_byte := index / 8 in
  let index_bit := index mod 8 in
  let bit_mask := Z.shiftl 1 index_bit in
  byte ← slice_get bitmask index_byte;
  bitmask' ← slice_set bitmask index_byte
    (if value then Z.lor byte bit_mask else Z.land byte (not8 bit_mask));
  b ← get_bit bitmask' index;
  assert_ (Bool.eqb b value);;
  Ret bitmask'.

(** [for bit in 0..8]: the first set bit, in the order the list gives. *)
Fixpoint lowest_one_bit_in (bits : list Z) (byte : Z) : option Z :=
  match bits with
  | [] => None
  | bit :: bits' =>
      if negb (Z.land byte (Z.shiftl 1 bit) =? 0) then Some bit
      else lowest_one_bit_in bits' byte
  end.
Definition lowest_one_bit (byte : Z) : option Z := lowest_one_bit_in (seqZ 0 8) byte.

(** [iter_mut().enumerate().find(|(_, byte)| **byte != 0)], from index [i]. *)
Fixpoint find_nonzero (i : Z) (bytes : list Z) : option (Z * Z) :=
  match bytes with
  | [] => None
  | byte :: bytes' => if negb (byte =? 0) then Some (i, byte) else find_nonzero (i + 1) bytes'
  end.

(** ** The boot memory map

    [MemoryRegion] and its type come from the [bootloader] crate; the kernel
    reads the bounds of the frame range and compares the type. *)
Class BootMemoryMap := {
  MemoryRegionType : Type;
  MemoryRegionType_eq_dec :: EqDecision MemoryRegionType;
  Usable : MemoryRegionType;
  KernelStack : MemoryRegionType;
  PageTable : MemoryRegionType;
  Bootloader : MemoryRegionType;
  BootInfo : MemoryRegionType;
  Package : MemoryRegionType;
  Usable_distinct : Usable ∉ [KernelStack; PageTable; Bootloader; BootInfo; Package];
  MemoryRegion : Type;
  start_addr : MemoryRegion → Z;
  end_addr : MemoryRegion → Z;
  region_type : MemoryRegion → MemoryRegionType;
}.

Record FreeMemoryRegion := mkFreeMemoryRegion { fr_base : Z; fr_limit : Z }.

Record PageFrameRegion := mkRegion {
  start_frame : Z;
  limit_frame : Z;
  r_free_frames : Z;
  r_used_frames : Z;
  bitmask : list Z;
}.

Definition MINIMUM_ADDRESS : Z := 65536.

Section memory_map.
Context `{BootMemoryMap}.

(** What [MemoryMapFilter::next] yields, as a list. *)
Fixpoint map_filter (start_frame_addr limit_frame_addr : Z)
    (check_type : MemoryRegionType → bool) (memory_map : list MemoryRegion)
    : list FreeMemoryRegion :=
  match memory_map with
  | [] => []
  | region :: rest =>
      let base := Z.max (start_addr region) start_frame_addr in
      let limit := Z.min (end_addr region) limit_frame_addr in
      if (base <? limit) && check_type (region_type region)
      then mkFreeMemoryRegion base limit ::
             map_filter start_frame_addr limit_frame_addr check_type rest
      else map_filter start_frame_addr limit_frame_addr check_type rest
  end.

Definition filter_memory_map (start_frame limit_frame : Z) (memory_map : list MemoryRegion)
    (check_type : MemoryRegionType → bool) : outcome (list FreeMemoryRegion) :=
  s ← umul start_frame PAGE_SIZE;
  l ← umul limit_frame PAGE_SIZE;
  Ret (map_filter (Z.max s MINIMUM_ADDRESS) (Z.max l MINIMUM_ADDRESS) check_type memory_map).

Definition usable (t : MemoryRegionType) : bool := bool_decide (t = Usable).
Definition reclaimable (t : MemoryRegionType) : bool :=
  bool_decide (t = KernelStack) || bool_decide (t = PageTable) ||
  bool_decide (t = Bootloader) || bool_decide (t = BootInfo) || bool_decide (t = Package).
Definition usable_or_reclaimable (t : MemoryRegionType) : bool := usable t || reclaimable t.

Definition find_available_limit_frame (start_frame limit_frame : Z)
    (memory_map : list MemoryRegion) : outcome Z :=
  regions ← filter_memory_map start_frame limit_frame memory_map usable_or_reclaimable;
  Ret (foldl (λ available region,
         Z.max available (Z.min (fr_limit region / PAGE_SIZE) limit_frame)) start_frame regions).

(** The span of frame numbers, relative to [start_frame], of one region. *)
Definition free_span (start_frame limit_frame : Z) (region : FreeMemoryRegion)
    : outcome (list Z) :=
  first ← usub (Z.max (fr_base region / PAGE_SIZE) start_frame) start_frame;
  last ← usub (Z.min (fr_limit region / PAGE_SIZE) limit_frame) start_frame;
  Ret (seqZ first (last - first)).

Definition new (start_frame limit_frame : Z) (memory_map : list MemoryRegion)
    (bitmask : list Z) : outcome PageFrameRegion :=
  regions ← filter_memory_map start_frame limit_frame memory_map usable;
  r ← for_each (λ region s,
        span ← free_span start_frame limit_frame region;
        for_each (λ free_frame s,
          bm ← set_bit s.1 free_frame true;
          n ← uadd s.2 1;
          Ret (bm, n)) span s) regions (replicate (length bitmask) 0, 0);
  Ret (mkRegion start_frame limit_frame r.2 0 r.1).

(** The bitmask comes from the kernel heap, which may itself take frames: the
    state [M] that the heap's allocation changes is threaded through. *)
Definition alloc {M} (vec_alloc : Z → M → outcome M) (start_frame limit_frame : Z)
    (memory_map : list MemoryRegion) (m : M) : outcome (PageFrameRegion * M) :=
  available ← find_available_limit_frame start_frame limit_frame memory_map;
  bitmask_frames ← usub available start_frame;
  n ← uadd bitmask_frames 7;
  let bitmask_bytes := n / 8 in
  m' ← vec_alloc bitmask_bytes m;
  r ← new start_frame limit_frame memory_map (replicate (Z.to_nat bitmask_bytes) 0);
  Ret (r, m').

Definition reclaim (r : PageFrameRegion) (memory_map : list MemoryRegion)
    : outcome PageFrameRegion :=
  regions ← filter_memory_map (start_frame r) (limit_frame r) memory_map reclaimable;
  s ← for_each (λ region s,
        span ← free_span (start_frame r) (limit_frame r) region;
        for_each (λ free_frame s,
          b ← get_bit s.1 free_frame;
          assert_ (negb b);;
          bm ← set_bit s.1 free_frame true;
          n ← uadd s.2 1;
          Ret (bm, n)) span s) regions (bitmask r, r_free_frames r);
  Ret (mkRegion (start_frame r) (limit_frame r) s.2 (r_used_frames r) s.1).

End memory_map.

(** ** [LockedFrameAllocator for PageFrameRegion] *)

Definition region_contains_frame (r : PageFrameRegion) (f : Frame) : bool :=
  (start_frame r <=? Frame.index f) && (Frame.index f <? limit_frame r).

Definition region_allocate_frame (r : PageFrameRegion)
    : outcome (option Frame * PageFrameRegion) :=
  match find_nonzero 0 (bitmask r) with
  | Some (byte_index, byte) =>
      bit_index ← unwrap (lowest_one_bit byte);
      first_bit ← umul byte_index 8;
      frame_index ← uadd first_bit bit_index;
      assert_ (frame_index <? limit_frame r);;
      bm ← set_bit (bitmask r) frame_index false;
      free ← usub (r_free_frames r) 1;
      used ← uadd (r_used_frames r) 1;
      n ← uadd frame_index (start_frame r);
      Ret (Some (Frame.from_index n), mkRegion (start_frame r) (limit_frame r) free used bm)
  | None => Ret (None, r)
  end.

Definition region_deallocate_frame (r : PageFrameRegion) (f : Frame) : outcome PageFrameRegion :=
  assert_ (region_contains_frame r f);;
  frame_index ← usub (Frame.index f) (start_frame r);
  bm ← set_bit (bitmask r) frame_index true;
  free ← uadd (r_free_frames r) 1;
  used ← usub (r_used_frames r) 1;
  Ret (mkRegion (start_frame r) (limit_frame r) free used bm).

#[global] Instance PageFrameRegion_allocator : LockedFrameAllocator PageFrameRegion := {
  free_frames := r_free_frames;
  used_frames := r_used_frames;
  allocate_frame := region_allocate_frame;
  deallocate_frame := region_deallocate_frame;
  contains_frame := region_contains_frame;
}.

(** ** The physical memory of the machine *)

Definition LOW_REGION_BASE : Z := 64 * 1024.
Definition UNUSED_LOW_FRAMES : Z := LOW_REGION_BASE / PAGE_SIZE.
Definition LOW_REGION_SIZE_LIMIT : Z := 16 * 1024 * 1024.
Definition LOW_REGION_FRAMES : Z := LOW_REGION_SIZE_LIMIT / PAGE_SIZE.
Definition NORMAL_REGION_SIZE_LIMIT : Z := 4 * 1024 * 1024 * 1024.
Definition NORMAL_REGION_FRAMES : Z := NORMAL_REGION_SIZE_LIMIT / PAGE_SIZE.
Definition HIGH_REGION_SIZE_LIMIT : Z := page_align_down usize_max.
Definition HIGH_REGION_FRAMES : Z := HIGH_REGION_SIZE_LIMIT / PAGE_SIZE.

Record PhysMem := mkPhysMem {
  LOW_REGION : option PageFrameRegion;
  NORMAL_REGION : option PageFrameRegion;
  HIGH_REGION : option PageFrameRegion;
}.

(** The three statics by name. *)
Inductive zone := Low | Normal | High.
#[global] Instance zone_eq_dec : EqDecision zone.
Proof. solve_decision. Defined.

Definition region_of (z : zone) (p : PhysMem) : option PageFrameRegion :=
  match z with Low => LOW_REGION p | Normal => NORMAL_REGION p | High => HIGH_REGION p end.

Definition set_region (z : zone) (p : PhysMem) (r : option PageFrameRegion) : PhysMem :=
  match z with
  | Low => mkPhysMem r (NORMAL_REGION p) (HIGH_REGION p)
  | Normal => mkPhysMem (LOW_REGION p) r (HIGH_REGION p)
  | High => mkPhysMem (LOW_REGION p) (NORMAL_REGION p) r
  end.

Module Physmem.

Definition LOW_REGION_BITMASK_BYTES : Z := (LOW_REGION_FRAMES + 7) / 8.

Section boot.
Context `{BootMemoryMap}.

Definition early_init (p : PhysMem) (memory_map : list MemoryRegion) : outcome PhysMem :=
  r ← new UNUSED_LOW_FRAMES LOW_REGION_FRAMES memory_map
        (replicate (Z.to_nat LOW_REGION_BITMASK_BYTES) 0);
  Ret (mkPhysMem (InitMutex.init (LOW_REGION p) r) (NORMAL_REGION p) (HIGH_REGION p)).

(** The statics are the part [db] of the state [M] that the heap changes. *)
Definition init_post_paging {M} (db : M → PhysMem) (set_db : M → PhysMem → M) (vec_alloc : Z → M → outcome M)
    (m : M) (memory_map : list MemoryRegion) : outcome M :=
  r1 ← alloc vec_alloc LOW_REGION_FRAMES NORMAL_REGION_FRAMES memory_map m;
  let p1 := db r1.2 in
  let m1 := set_db r1.2 (mkPhysMem (LOW_REGION p1) (InitMutex.init (NORMAL_REGION p1) r1.1) (HIGH_REGION p1)) in
  r2 ← alloc vec_alloc NORMAL_REGION_FRAMES HIGH_REGION_FRAMES memory_map m1;
  let p2 := db r2.2 in
  Ret (set_db r2.2 (mkPhysMem (LOW_REGION p2) (NORMAL_REGION p2) (InitMutex.init (HIGH_REGION p2) r2.1))).

Definition init_reclaim (p : PhysMem) (memory_map : list MemoryRegion) : outcome PhysMem :=
  l ← InitMutex.lock (LOW_REGION p); l' ← reclaim l memory_map;
  n ← InitMutex.lock (NORMAL_REGION p); n' ← reclaim n memory_map;
  h ← InitMutex.lock (HIGH_REGION p); h' ← reclaim h memory_map;
  Ret (mkPhysMem (Some l') (Some n') (Some h')).

End boot.

Definition free_frames (p : PhysMem) : outcome Z :=
  s ← uadd (FrameAllocator.free_frames (LOW_REGION p)) (FrameAllocator.free_frames (NORMAL_REGION p));
  uadd s (FrameAllocator.free_frames (HIGH_REGION p)).

Definition used_frames (p : PhysMem) : outcome Z :=
  s ← uadd (FrameAllocator.used_frames (LOW_REGION p)) (FrameAllocator.used_frames (NORMAL_REGION p));
  uadd s (FrameAllocator.used_frames (HIGH_REGION p)).

(** [<REGION>.allocate_frame()], for one of the three statics. *)
Definition allocate_in (z : zone) (p : PhysMem) : outcome (option Frame * PhysMem) :=
  r ← FrameAllocator.allocate_frame (region_of z p);
  Ret (r.1, set_region z p r.2).

(** [a.or_else(|| b)]. *)
Definition or_else (a b : PhysMem → outcome (option Frame * PhysMem)) (p : PhysMem)
    : outcome (option Frame * PhysMem) :=
  r ← a p;
  match r.1 with Some f => Ret r | None => b r.2 end.

Definition allocate_kernel_frame : PhysMem → outcome (option Frame * PhysMem) :=
  or_else (allocate_in Normal) (allocate_in Low).

Definition allocate_user_frame : PhysMem → outcome (option Frame * PhysMem) :=
  or_else (or_else (allocate_in High) (allocate_in Normal)) (allocate_in Low).

(** [<REGION>.deallocate_frame(frame)]. *)
Definition deallocate_in (z : zone) (p : PhysMem) (f : Frame) : outcome PhysMem :=
  r ← FrameAllocator.deallocate_frame (region_of z p) f;
  Ret (set_region z p r).

Definition deallocate_frame (p : PhysMem) (f : Frame) : outcome PhysMem :=
  if FrameAllocator.contains_frame (LOW_REGION p) f then deallocate_in Low p f
  else if FrameAllocator.contains_frame (NORMAL_REGION p) f then deallocate_in Normal p f
  else deallocate_in High p f.

End Physmem.

(** * Specification and proofs *)

(** ** Bits of a mask *)

Definition bit_at (bm : list Z) (i : Z) : bool :=
  match bm !! Z.to_nat (i / 8) with
  | Some byte => Z.testbit byte (i mod 8)
  | None => false
  end.

Definition bytes_ok (bm : list Z) : Prop := Forall (λ b, 0 ≤ b < 256) bm.

Definition bit_count (bm : list Z) : Z := 8 * Z.of_nat (length bm).

Lemma land_bit_mask b k : 0 ≤ k → (Z.land b (Z.shiftl 1 k) =? 0) = negb (Z.testbit b k).
Proof.
  intros Hk. rewrite Z.shiftl_1_l. destruct (Z.testbit b k) eqn:E; cbn.
  - apply Z.eqb_neq. intros H0. apply (f_equal (λ z, Z.testbit z k)) in H0.
    rewrite Z.land_spec, E, Z.pow2_bits_true, Z.bits_0 in H0 by done. done.
  - apply Z.eqb_eq, Z.bits_inj'. intros i Hi.
    rewrite Z.land_spec, Z.pow2_bits_eqb, Z.bits_0 by done.
    destruct (Z.eqb_spec k i) as [->|]; [by rewrite E|apply andb_false_r].
Qed.

Lemma byte_bits b i : 0 ≤ b < 256 → 8 ≤ i → Z.testbit b i = false.
Proof. intros Hb. apply (Z.bounded_iff_bits_nonneg 8); lia. Qed.

(** Updating one bit of a byte. *)
Definition update_bit (b k : Z) (v : bool) : Z :=
  if v then Z.lor b (Z.shiftl 1 k) else Z.land b (not8 (Z.shiftl 1 k)).

Lemma update_bit_spec b k v i :
  0 ≤ b < 256 → 0 ≤ k < 8 → 0 ≤ i →
  Z.testbit (update_bit b k v) i = if k =? i then v else Z.testbit b i.
Proof.
  intros Hb Hk Hi. unfold update_bit, not8. rewrite Z.shiftl_1_l.
  destruct v.
  - rewrite Z.lor_spec, Z.pow2_bits_eqb by lia.
    destruct (Z.eqb_spec k i); [by rewrite orb_true_r|by rewrite orb_false_r].
  - rewrite Z.land_spec, Z.lxor_spec, Z.pow2_bits_eqb by lia. change 255 with (Z.ones 8).
    destruct (Z.ltb_spec i 8).
    + rewrite Z.ones_spec_low by lia.
      destruct (Z.eqb_spec k i); cbn; [by rewrite andb_false_r|by rewrite andb_true_r].
    + rewrite byte_bits by lia. destruct (Z.eqb_spec k i); [lia|done].
Qed.

Lemma update_bit_byte b k v : 0 ≤ b < 256 → 0 ≤ k < 8 → 0 ≤ update_bit b k v < 256.
Proof.
  intros Hb Hk.
  assert (0 ≤ update_bit b k v) as H0.
  { unfold update_bit. rewrite Z.shiftl_1_l. destruct v.
    - apply Z.lor_nonneg. split; [lia|by apply Z.pow_nonneg].
    - apply Z.land_nonneg. left. lia. }
  split; [done|]. apply (Z.bounded_iff_bits_nonneg 8); [lia|done|].
  intros i Hi. rewrite update_bit_spec by lia.
  rewrite (proj2 (Z.eqb_neq k i)) by lia. by apply byte_bits.
Qed.

Lemma byte_index_lookup (bm : list Z) i :
  0 ≤ i < bit_count bm → ∃ b, bm !! Z.to_nat (i / 8) = Some b.
Proof. intros Hi. apply lookup_lt_is_Some_2. unfold bit_count in Hi. mlia. Qed.

Lemma bit_at_true_lt bm i : 0 ≤ i → bit_at bm i = true → i < bit_count bm.
Proof.
  unfold bit_at, bit_count. intros Hi Hb.
  destruct (bm !! Z.to_nat (i / 8)) eqn:E; [|done].
  apply lookup_lt_Some in E. mlia.
Qed.

Lemma get_bit_ok bm i : 0 ≤ i < bit_count bm → get_bit bm i = Ret (bit_at bm i).
Proof.
  intros Hi. destruct (byte_index_lookup bm i Hi) as [b Hb].
  unfold get_bit, slice_get, bit_at. rewrite Hb. cbn.
  rewrite land_bit_mask by (apply Z.mod_pos_bound; lia). by rewrite negb_involutive.
Qed.

Lemma set_bit_ok bm i v :
  bytes_ok bm → 0 ≤ i < bit_count bm →
  ∃ bm', set_bit bm i v = Ret bm' ∧ bytes_ok bm' ∧ length bm' = length bm ∧
    ∀ j, 0 ≤ j → bit_at bm' j = if j =? i then v else bit_at bm j.
Proof.
  intros Hok Hi. destruct (byte_index_lookup bm i Hi) as [b Hb].
  pose proof (Z.mod_pos_bound i 8 ltac:(lia)) as Hm.
  assert (0 ≤ b < 256) as Hbyte by (by eapply Forall_lookup_1 in Hok).
  set (bm' := <[Z.to_nat (i / 8) := update_bit b (i mod 8) v]> bm).
  assert (∀ j, 0 ≤ j → bit_at bm' j = if j =? i then v else bit_at bm j) as Hbits.
  { intros j Hj. unfold bit_at, bm'.
    destruct (decide (j / 8 = i / 8)) as [E|E].
    - rewrite E, list_lookup_insert_eq, Hb by (by eapply lookup_lt_Some).
      rewrite update_bit_spec by (done || apply Z.mod_pos_bound; lia).
      replace (i mod 8 =? j mod 8) with (j =? i); [done|].
      repeat case_bool; try done; exfalso; mlia.
    - rewrite list_lookup_insert_ne by mlia.
      rewrite (proj2 (Z.eqb_neq j i)); [done|congruence]. }
  exists bm'. split_and!; [| |by apply length_insert|done].
  - unfold set_bit, slice_get, slice_set. rewrite Hb. cbn. fold (update_bit b (i mod 8) v).
    fold bm'. rewrite get_bit_ok by (unfold bit_count, bm' in *; by rewrite length_insert).
    cbn. rewrite Hbits, Z.eqb_refl by lia. by rewrite eqb_reflx.
  - apply Forall_insert; [done|by apply update_bit_byte].
Qed.

Lemma lowest_one_bit_ok b :
  0 < b < 256 →
  ∃ k, lowest_one_bit b = Some k ∧ 0 ≤ k < 8 ∧ Z.testbit b k = true ∧
       ∀ i, 0 ≤ i < k → Z.testbit b i = false.
Proof.
  intros Hb.
  cut (∀ bits done_ : list Z, seqZ 0 8 = done_ ++ bits →
        Forall (λ i, Z.testbit b i = false) done_ →
        match lowest_one_bit_in bits b with
        | Some k => 0 ≤ k < 8 ∧ Z.testbit b k = true ∧ ∀ i, 0 ≤ i < k → Z.testbit b i = false
        | None => Forall (λ i, Z.testbit b i = false) (seqZ 0 8)
        end).
  { intros H. specialize (H (seqZ 0 8) [] eq_refl (Forall_nil_2 _)). unfold lowest_one_bit.
    destruct (lowest_one_bit_in (seqZ 0 8) b) as [k|]; [eauto|].
    exfalso. assert (b = 0); [|lia]. apply Z.bits_inj'. intros i Hi. rewrite Z.bits_0.
    destruct (Z.ltb_spec i 8); [|by apply byte_bits; lia].
    rewrite Forall_forall in H. apply H, elem_of_seqZ. lia. }
  induction bits as [|k bits IH]; intros done_ Heq Hd.
  - rewrite app_nil_r in Heq. by rewrite Heq.
  - assert (k = Z.of_nat (length done_)) as Hk.
    { assert (seqZ 0 8 !! length done_ = Some k) as Hl by (rewrite Heq; by apply list_lookup_middle).
      apply lookup_seqZ in Hl. lia. }
    assert (k ∈ seqZ 0 8) as Hin by (rewrite Heq; apply elem_of_app; right; left).
    apply elem_of_seqZ in Hin. cbn. rewrite land_bit_mask by lia. rewrite negb_involutive.
    destruct (Z.testbit b k) eqn:E.
    + split_and!; [lia..|done|]. intros i Hi. rewrite Forall_forall in Hd. apply Hd.
      assert (i ∈ seqZ 0 8) as Hii by (apply elem_of_seqZ; lia).
      apply list_elem_of_lookup in Hii as [n Hn]. pose proof Hn as Hn'.
      apply lookup_seqZ in Hn' as [-> ?]. rewrite Heq, lookup_app_l in Hn by lia.
      apply list_elem_of_lookup. by exists n.
    + apply (IH (done_ ++ [k])); [by rewrite <- app_assoc|].
      apply Forall_app. split; [done|by constructor].
Qed.

Lemma find_nonzero_ok i bytes :
  match find_nonzero i bytes with
  | None => Forall (λ b, b = 0) bytes
  | Some (k, b) => ∃ before after, bytes = before ++ b :: after ∧
      Forall (λ b, b = 0) before ∧ b ≠ 0 ∧ k = i + Z.of_nat (length before)
  end.
Proof.
  revert i; induction bytes as [|b bytes IH]; intros i; cbn; [constructor|].
  destruct (Z.eqb_spec b 0) as [->|Hb]; cbn.
  - specialize (IH (i + 1)). destruct (find_nonzero (i + 1) bytes) as [[k b]|].
    + destruct IH as (before & after & -> & HF & Hne & ->).
      exists (0 :: before), after. split_and!; [done|by constructor|done|cbn; lia].
    + by constructor.
  - exists [], bytes. split_and!; [done|constructor|done|cbn; lia].
Qed.

(** ** One region refines a pair of sets

    The free frames are the set bits; the frames handed out and not given back
    are known only to the clients, the region keeps their number. *)

Definition span_set (start n : Z) : gset Z := list_to_set (seqZ start n).

Lemma elem_of_span_set start n f : f ∈ span_set start n ↔ start ≤ f < start + n.
Proof. unfold span_set. rewrite elem_of_list_to_set, elem_of_seqZ. lia. Qed.

Lemma size_span_set start n : 0 ≤ n → Z.of_nat (size (span_set start n)) = n.
Proof.
  intros Hn. unfold span_set. rewrite size_list_to_set by apply NoDup_seqZ.
  rewrite length_seqZ. lia.
Qed.

Definition free_set (r : PageFrameRegion) : gset Z :=
  filter (λ f, bit_at (bitmask r) (f - start_frame r) = true)
    (span_set (start_frame r) (bit_count (bitmask r))).

Record region_ok (r : PageFrameRegion) : Prop := {
  ok_start : 0 ≤ start_frame r;
  ok_limit : start_frame r ≤ limit_frame r ≤ 4503599627370496;
  ok_bytes : bytes_ok (bitmask r);
  ok_bits : bit_count (bitmask r) ≤ 4503599627370496;
  ok_inside : ∀ f, f ∈ free_set r → f < limit_frame r;
  ok_free : r_free_frames r = Z.of_nat (size (free_set r));
}.

(** The region owns the frames [F], free, and [H], handed out. *)
Record region_owns (r : PageFrameRegion) (F H : gset Z) : Prop := {
  own_ok : region_ok r;
  own_free : F = free_set r;
  own_used : r_used_frames r = Z.of_nat (size H);
  own_held : H ⊆ span_set (start_frame r) (bit_count (bitmask r));
  own_held_inside : ∀ f, f ∈ H → f < limit_frame r;
  own_disjoint : F ## H;
}.

Lemma elem_of_free_set r f :
  f ∈ free_set r ↔ start_frame r ≤ f ∧ bit_at (bitmask r) (f - start_frame r) = true.
Proof.
  unfold free_set. rewrite elem_of_filter, elem_of_span_set. split; [intuition|].
  intros [? Hb]. pose proof (bit_at_true_lt _ (f - start_frame r) ltac:(lia) Hb). intuition lia.
Qed.

Lemma region_owns_size r F H :
  region_owns r F H → Z.of_nat (size F) + Z.of_nat (size H) ≤ bit_count (bitmask r).
Proof.
  intros [Hok -> _ Hh _ Hd].
  rewrite <- (size_span_set (start_frame r) (bit_count (bitmask r))) by (unfold bit_count; lia).
  rewrite <- Nat2Z.inj_add, <- size_union by done.
  apply Nat2Z.inj_le, subseteq_size. apply union_least; [|done].
  unfold free_set. set_solver.
Qed.

Lemma region_counts r F H :
  region_owns r F H → r_free_frames r = Z.of_nat (size F) ∧ r_used_frames r = Z.of_nat (size H).
Proof. intros [Hok -> Hu _ _ _]. split; [apply Hok|done]. Qed.

(** A region whose mask has one bit changed. *)
Lemma free_set_update r bm' n u i v :
  0 ≤ i →
  (∀ j, 0 ≤ j → bit_at bm' j = if j =? i then v else bit_at (bitmask r) j) →
  free_set (mkRegion (start_frame r) (limit_frame r) n u bm') =
    if v then free_set r ∪ {[start_frame r + i]} else free_set r ∖ {[start_frame r + i]}.
Proof.
  intros Hi Hb. apply set_eq. intros f. rewrite elem_of_free_set. cbn.
  destruct v; rewrite ?elem_of_union, ?elem_of_difference, elem_of_singleton, elem_of_free_set.
  all: destruct (decide (start_frame r ≤ f)); [rewrite Hb by lia; case_bool|]; intuition lia.
Qed.

(** What the search for a free frame finds: the least set bit. *)
Lemma find_least r :
  bytes_ok (bitmask r) →
  match find_nonzero 0 (bitmask r) with
  | None => free_set r = ∅
  | Some (k, b) => ∃ i, lowest_one_bit b = Some i ∧ 0 ≤ k ∧ 0 ≤ i < 8 ∧
      start_frame r + (8 * k + i) ∈ free_set r ∧
      ∀ f, f ∈ free_set r → start_frame r + (8 * k + i) ≤ f
  end.
Proof.
  intros Hok. pose proof (find_nonzero_ok 0 (bitmask r)) as Hf.
  destruct (find_nonzero 0 (bitmask r)) as [[k b]|].
  - destruct Hf as (before & after & Heq & Hz & Hnz & ->). cbn.
    assert (0 ≤ b < 256) as Hb.
    { eapply (Forall_lookup_1 _ _ (length before)) in Hok; [exact Hok|].
      rewrite Heq. by apply list_lookup_middle. }
    destruct (lowest_one_bit_ok b ltac:(lia)) as (i & -> & Hi & Ht & Hlow).
    exists i. split_and!; [done|lia..| |].
    + rewrite elem_of_free_set. split; [lia|]. unfold bit_at.
      replace ((start_frame r + (8 * Z.of_nat (length before) + i) - start_frame r))
        with (8 * Z.of_nat (length before) + i) by lia.
      replace (Z.to_nat _) with (length before) by mlia. rewrite Heq, list_lookup_middle by done.
      by replace (_ mod 8) with i by mlia.
    + intros f. rewrite elem_of_free_set. unfold bit_at. intros [Hge Hbit].
      set (j := f - start_frame r) in *.
      destruct (decide (8 * Z.of_nat (length before) + i ≤ j)) as [|Hlt]; [lia|exfalso].
      rewrite Heq in Hbit. destruct (decide (j / 8 < Z.of_nat (length before))).
      * rewrite lookup_app_l in Hbit by mlia.
        destruct (before !! Z.to_nat (j / 8)) as [b'|] eqn:E; [|done].
        eapply Forall_lookup_1 in Hz; [|exact E]. cbn in Hz. subst b'.
        by rewrite Z.bits_0 in Hbit.
      * replace (Z.to_nat (j / 8)) with (length before) in Hbit by mlia.
        rewrite list_lookup_middle in Hbit by done. rewrite Hlow in Hbit by mlia. done.
  - apply set_eq. intros f. rewrite elem_of_free_set. split; [|set_solver].
    unfold bit_at. intros [_ Hbit]. exfalso.
    destruct (bitmask r !! _) as [b|] eqn:E; [|done].
    eapply Forall_lookup_1 in Hf; [|exact E]. cbn in Hf. subst b. by rewrite Z.bits_0 in Hbit.
Qed.

Lemma region_allocate_owns r F H :
  region_owns r F H →
  ∃ o r', region_allocate_frame r = Ret (o, r') ∧
    match o with
    | None => F = ∅ ∧ r' = r
    | Some f => f ∈ F ∧ (∀ g, g ∈ F → f ≤ g) ∧ region_owns r' (F ∖ {[f]}) (H ∪ {[f]}) ∧
        start_frame r' = start_frame r ∧ limit_frame r' = limit_frame r
    end.
Proof.
  intros Hown. pose proof (region_owns_size _ _ _ Hown) as Hsz.
  destruct Hown as [Hok -> Hused Hheld Hin Hdisj].
  pose proof (find_least r (ok_bytes _ Hok)) as Hf. unfold region_allocate_frame.
  destruct (find_nonzero 0 (bitmask r)) as [[k b]|]; [|by exists None, r].
  destruct Hf as (i & -> & Hk & Hi & Hmem & Hleast).
  remember (8 * k + i) as x eqn:Hxd. pose proof Hok as [Hs Hl Hb Hbits Hins Hfree].
  assert (0 ≤ x < bit_count (bitmask r)) as Hx.
  { split; [lia|]. apply bit_at_true_lt; [lia|]. apply elem_of_free_set in Hmem.
    replace x with (start_frame r + x - start_frame r) by lia. tauto. }
  assert (1 ≤ Z.of_nat (size (free_set r))) as Hne.
  { assert (size (free_set r) ≠ 0%nat); [|lia]. intros E. apply size_empty_inv in E. set_solver. }
  destruct (set_bit_ok (bitmask r) x false Hb Hx) as (bm' & Hset & Hb' & Hlen & Hbit).
  pose proof (Hins _ Hmem) as Hlim.
  cbn [unwrap mbind outcome_bind].
  do 2 step_by lia. replace (k * 8 + i) with x by lia. step_by lia.
  rewrite Hset, bind_bind_Ret. do 3 step_by lia. clear Hxd. unfold Frame.from_index.
  replace (x + start_frame r) with (start_frame r + x) by lia.
  assert (start_frame r + x ∉ H) as Hnh by set_solver.
  pose proof (free_set_update r bm' (r_free_frames r - 1) (r_used_frames r + 1) x false
                ltac:(lia) Hbit) as Hfs.
  eexists _, _. split; [done|]. cbn. split_and!; [done|done| |done|done].
  split; cbn; rewrite ?Hfs; try done.
  - split; cbn; try done; unfold bit_count in *; rewrite ?Hlen; try done.
    + rewrite Hfs. set_solver.
    + rewrite Hfs, size_difference, size_singleton by set_solver. lia.
  - rewrite size_union, size_singleton by set_solver. lia.
  - unfold bit_count in *. rewrite Hlen. apply union_least; [done|].
    intros f ->%elem_of_singleton. apply elem_of_span_set. lia.
  - set_solver.
  - set_solver.
Qed.

Lemma region_deallocate_owns r F H f :
  region_owns r F H → f ∈ H →
  ∃ r', region_deallocate_frame r f = Ret r' ∧ region_owns r' (F ∪ {[f]}) (H ∖ {[f]}) ∧
    start_frame r' = start_frame r ∧ limit_frame r' = limit_frame r.
Proof.
  intros Hown HfH. pose proof (region_owns_size _ _ _ Hown) as Hsz.
  destruct Hown as [Hok -> Hused Hheld Hin Hdisj].
  pose proof Hok as [Hs Hl Hb Hbits Hins Hfree].
  pose proof (Hheld f HfH) as Hspan. apply elem_of_span_set in Hspan.
  pose proof (Hin f HfH) as Hlim.
  assert (1 ≤ Z.of_nat (size H)) as Hne.
  { assert (size H ≠ 0%nat); [|lia]. intros E. apply size_empty_inv in E. set_solver. }
  destruct (set_bit_ok (bitmask r) (f - start_frame r) true Hb ltac:(lia))
    as (bm' & Hset & Hb' & Hlen & Hbit).
  unfold region_deallocate_frame, region_contains_frame, Frame.index.
  step_by ltac:(apply andb_true_intro; split; [apply Z.leb_le|apply Z.ltb_lt]; lia).
  step_by lia. rewrite Hset, bind_bind_Ret. do 2 step_by lia.
  pose proof (free_set_update r bm' (r_free_frames r + 1) (r_used_frames r - 1)
                (f - start_frame r) true
                ltac:(lia) Hbit) as Hfs.
  replace (start_frame r + (f - start_frame r)) with f in Hfs by lia.
  eexists. split; [done|]. split_and!; [|done|done].
  split; cbn; rewrite ?Hfs; try done.
  - split; cbn; try done; unfold bit_count in *; rewrite ?Hlen; try done.
    + rewrite Hfs. set_solver.
    + rewrite Hfs, size_union, size_singleton by set_solver. lia.
  - rewrite size_difference, size_singleton by set_solver. lia.
  - unfold bit_count in *. rewrite Hlen. set_solver.
  - set_solver.
  - set_solver.
Qed.

(** ** Building a region from the boot memory map *)

Lemma filter_seqZ a b s n :
  0 ≤ n →
  filter (λ f, a ≤ f < b) (seqZ s n) = seqZ (Z.max s a) (Z.min (s + n) b - Z.max s a).
Proof.
  intros Hn. revert s. pattern n. apply natlike_ind; [| |done]; clear n Hn.
  - intros s. rewrite !seqZ_nil by lia. done.
  - intros n Hn IH s. rewrite seqZ_cons by lia. rewrite filter_cons.
    replace (Z.pred (Z.succ n)) with n by lia. rewrite IH.
    destruct (decide (a ≤ s < b)).
    + rewrite (seqZ_cons (Z.max s a)) by lia. f_equal; [lia|]. f_equal; lia.
    + destruct (decide (s < a)); [f_equal; lia|]. rewrite !seqZ_nil by lia. done.
Qed.

Lemma for_each_map {A B S} (g : A → B) (body : B → S → outcome S) l s :
  for_each body (g <$> l) s = for_each (λ a, body (g a)) l s.
Proof.
  revert s; induction l as [|a l IH]; intros s; [done|]. cbn.
  destruct (body (g a) s); [apply IH|done..].
Qed.

Section map_frames.
Context `{BootMemoryMap}.
Implicit Types (memory_map : list MemoryRegion) (check : MemoryRegionType → bool).

(** The whole frames of the entries of a type. *)
Definition entry_frames (region : MemoryRegion) : list Z :=
  seqZ (start_addr region / PAGE_SIZE) ((end_addr region - start_addr region) / PAGE_SIZE).

Definition map_frames check memory_map : list Z :=
  mjoin (entry_frames <$> filter (λ region, check (region_type region) = true) memory_map).

Definition in_window (start_frame limit_frame : Z) (f : Z) : Prop := start_frame ≤ f < limit_frame.
#[global] Instance in_window_dec start_frame limit_frame f :
  Decision (in_window start_frame limit_frame f) := _.

Definition window_frames check (start_frame limit_frame : Z) memory_map : list Z :=
  filter (in_window start_frame limit_frame) (map_frames check memory_map).

(** What the bootloader promises: entries are page ranges of the address
    space, and no frame is in two entries that are or become usable. *)
Record map_ok memory_map : Prop := {
  map_aligned : Forall (λ region, 0 ≤ start_addr region ≤ end_addr region ∧
      end_addr region < usize_limit ∧
      start_addr region mod PAGE_SIZE = 0 ∧ end_addr region mod PAGE_SIZE = 0) memory_map;
  map_disjoint : NoDup (map_frames usable_or_reclaimable memory_map);
}.

(** The nested loops of [new] and [reclaim] visit the frames of the window in
    the order of the map. *)
Lemma window_loop {S} check start_frame limit_frame memory_map
    (body : Z → S → outcome S) s :
  Forall (λ region, 0 ≤ start_addr region ≤ end_addr region ∧
      end_addr region < usize_limit ∧
      start_addr region mod PAGE_SIZE = 0 ∧ end_addr region mod PAGE_SIZE = 0) memory_map →
  16 ≤ start_frame ≤ limit_frame → limit_frame < 4503599627370496 →
  (regions ← filter_memory_map start_frame limit_frame memory_map check;
   for_each (λ region s,
     span ← free_span start_frame limit_frame region; for_each body span s) regions s) =
  for_each (λ f, body (f - start_frame)) (window_frames check start_frame limit_frame memory_map) s.
Proof.
  intros Hall Hw Hlim. unfold filter_memory_map, PAGE_SIZE, MINIMUM_ADDRESS in *.
  do 3 step_by lia. rewrite !Z.max_l by lia. revert s.
  induction memory_map as [|region rest IH]; intros s; [done|].
  apply Forall_cons in Hall as [(Hse & Hlt & Hsa & Hea) Hrest]. specialize (IH Hrest).
  unfold window_frames, map_frames in *. cbn [map_filter]. rewrite filter_cons.
  destruct (check (region_type region)) eqn:Ec;
    [rewrite decide_True by done|rewrite decide_False by done; rewrite andb_false_r; apply IH].
  rewrite andb_true_r. cbn. rewrite filter_app, for_each_app.
  assert (filter (in_window start_frame limit_frame) (entry_frames region) =
    seqZ (Z.max (start_addr region / PAGE_SIZE) start_frame)
      (Z.min (end_addr region / PAGE_SIZE) limit_frame -
       Z.max (start_addr region / PAGE_SIZE) start_frame)) as Hf.
  { unfold in_window, entry_frames. rewrite filter_seqZ by (unfold PAGE_SIZE; mlia).
    unfold PAGE_SIZE. f_equal. f_equal. f_equal. mlia. }
  rewrite Hf. destruct (Z.ltb_spec (Z.max (start_addr region) (start_frame * 4096))
                          (Z.min (end_addr region) (limit_frame * 4096))).
  - cbn [for_each]. unfold free_span, PAGE_SIZE in *. cbn [fr_base fr_limit].
    do 3 step_by mlia. clear Hf.
    assert (∀ n first last, last - first = n →
      seqZ (first - start_frame) (last - start_frame - (first - start_frame)) =
      (λ f, f - start_frame) <$> seqZ first (last - first)) as Hshift.
    { intros n first last _. unfold seqZ. rewrite <- list_fmap_compose.
      replace (last - start_frame - (first - start_frame)) with (last - first) by lia.
      apply list_fmap_ext. intros. cbn. lia. }
    replace (Z.max (Z.max (start_addr region) (start_frame * 4096) / 4096) start_frame)
      with (Z.max (start_addr region / 4096) start_frame) by mlia.
    replace (Z.min (Z.min (end_addr region) (limit_frame * 4096) / 4096) limit_frame)
      with (Z.min (end_addr region / 4096) limit_frame) by mlia.
    rewrite (Hshift _ _ _ eq_refl), for_each_map.
    destruct (for_each _ (seqZ _ _) s); [apply IH|done..].
  - rewrite seqZ_nil by (unfold PAGE_SIZE; mlia). apply IH.
Qed.

Lemma map_frames_cons check region memory_map :
  map_frames check (region :: memory_map) =
    (if check (region_type region) then entry_frames region else []) ++ map_frames check memory_map.
Proof.
  unfold map_frames. rewrite filter_cons. destruct (check (region_type region)) eqn:E.
  - by rewrite decide_True.
  - by rewrite decide_False.
Qed.

Lemma map_frames_mono check check' memory_map f :
  (∀ t, check t = true → check' t = true) →
  f ∈ map_frames check memory_map → f ∈ map_frames check' memory_map.
Proof.
  intros Hc. induction memory_map as [|region rest IH]; [done|]. rewrite !map_frames_cons.
  destruct (check _) eqn:Ec; [rewrite (Hc _ Ec)|]; set_solver.
Qed.

Lemma NoDup_window check start_frame limit_frame memory_map :
  (∀ t, check t = true → usable_or_reclaimable t = true) →
  map_ok memory_map → NoDup (window_frames check start_frame limit_frame memory_map).
Proof.
  intros Hc [_ Hnd]. apply NoDup_filter.
  induction memory_map as [|region rest IH]; [constructor|]. rewrite map_frames_cons in *.
  apply NoDup_app in Hnd as (H1 & H2 & H3).
  destruct (check _) eqn:Ec; [rewrite (Hc _ Ec) in *|by apply IH].
  apply NoDup_app. split_and!; [done| |by apply IH].
  intros f Hf1 Hf2. apply (H2 f Hf1). by eapply map_frames_mono.
Qed.

(** Marking a list of distinct frames free, one after the other. *)
Lemma mark_loop (body : Z → list Z * Z → outcome (list Z * Z)) start_frame l bm n :
  (∀ f bm n, start_frame ≤ f → f - start_frame < bit_count bm →
     bit_at bm (f - start_frame) = false →
     body (f - start_frame) (bm, n) =
       (bm' ← set_bit bm (f - start_frame) true; n' ← uadd n 1; Ret (bm', n'))) →
  bytes_ok bm → NoDup l → 0 ≤ n → n + bit_count bm < usize_limit →
  Forall (λ f, start_frame ≤ f ∧ f - start_frame < bit_count bm ∧
               bit_at bm (f - start_frame) = false) l →
  ∃ bm', for_each (λ f, body (f - start_frame)) l (bm, n) = Ret (bm', n + Z.of_nat (length l)) ∧
    bytes_ok bm' ∧ length bm' = length bm ∧
    ∀ f, start_frame ≤ f →
      bit_at bm' (f - start_frame) = bool_decide (f ∈ l) || bit_at bm (f - start_frame).
Proof.
  intros Hbody Hb Hnd Hn Hov HF. pose proof HF as HF0. rewrite Forall_forall in HF0.
  destruct (for_each_inv (λ f, body (f - start_frame))
    (λ done_ s, bytes_ok s.1 ∧ length s.1 = length bm ∧ s.2 = n + Z.of_nat (length done_) ∧
      ∀ f, start_frame ≤ f →
        bit_at s.1 (f - start_frame) = bool_decide (f ∈ done_) || bit_at bm (f - start_frame))
    l (bm, n)) as ([bm' n'] & Heq & ? & ? & ? & ?).
  - split_and!; cbn; [done|done|lia|]. intros f _. rewrite bool_decide_false; set_solver.
  - intros done_ f todo [bm1 n1] -> (Hb1 & Hl1 & Hn1 & Hbits). cbn in *.
    destruct (HF0 f) as (Hge & Hlt & Hun); [set_solver|].
    assert (f ∉ done_) as Hfd.
    { apply NoDup_app in Hnd as (_ & Hnd & _). intros Hd. apply (Hnd f Hd). set_solver. }
    assert (Z.of_nat (length (done_ ++ f :: todo)) ≤ bit_count bm) as Hlen.
    { rewrite <- (size_list_to_set (C := gset Z)) by done.
      rewrite <- (size_span_set start_frame (bit_count bm)) by (unfold bit_count; lia).
      apply Nat2Z.inj_le, subseteq_size. intros g Hg%elem_of_list_to_set.
      apply elem_of_span_set. destruct (HF0 g Hg). lia. }
    rewrite length_app in Hlen. cbn in Hlen.
    assert (bit_count bm1 = bit_count bm) as Hbc by (unfold bit_count; by rewrite Hl1).
    rewrite Hbody by (rewrite ?Hbits, ?Hun, ?bool_decide_false, ?Hbc by (done || lia); done || lia).
    destruct (set_bit_ok bm1 (f - start_frame) true Hb1 ltac:(lia)) as (bm2 & -> & Hb2 & Hl2 & Hbits2).
    cbn. rewrite uadd_ok by lia. cbn. eexists. split; [done|]. cbn.
    split_and!; [done|congruence|rewrite length_app; cbn; lia|].
    intros g Hg. rewrite Hbits2, Hbits by lia.
    destruct (Z.eqb_spec (g - start_frame) (f - start_frame)).
    + rewrite bool_decide_true; [done|]. assert (g = f) as -> by lia. set_solver.
    + assert (g ≠ f) by congruence. f_equal. apply bool_decide_ext. set_solver.
  - cbn in *. subst. eauto.
Qed.

Lemma free_set_mark start_frame limit_frame n u n' u' bm bm' l :
  Forall (λ f, start_frame ≤ f) l →
  (∀ f, start_frame ≤ f →
      bit_at bm' (f - start_frame) = bool_decide (f ∈ l) || bit_at bm (f - start_frame)) →
  free_set (mkRegion start_frame limit_frame n' u' bm') =
    list_to_set l ∪ free_set (mkRegion start_frame limit_frame n u bm).
Proof.
  intros Hl Hb. rewrite Forall_forall in Hl. apply set_eq. intros f.
  rewrite elem_of_union, !elem_of_free_set, elem_of_list_to_set. cbn.
  split.
  - intros [Hge Hbit]. rewrite Hb in Hbit by done.
    apply orb_true_iff in Hbit as [Hd%bool_decide_eq_true|]; auto.
  - intros [Hin|[Hge Hbit]].
    + split; [auto|]. rewrite Hb, bool_decide_true by auto. done.
    + split; [done|]. by rewrite Hb, Hbit, orb_true_r.
Qed.

Lemma bit_at_zeroed n i : bit_at (replicate n 0) i = false.
Proof.
  unfold bit_at. destruct (replicate n 0 !! _) eqn:E; [|done].
  apply lookup_replicate_1 in E as [-> _]. apply Z.bits_0.
Qed.

Lemma elem_of_window check start_frame limit_frame memory_map f :
  f ∈ window_frames check start_frame limit_frame memory_map ↔
  start_frame ≤ f < limit_frame ∧ f ∈ map_frames check memory_map.
Proof. unfold window_frames. by rewrite list_elem_of_filter. Qed.

Lemma Forall_window check start_frame limit_frame memory_map :
  Forall (λ f, start_frame ≤ f) (window_frames check start_frame limit_frame memory_map).
Proof. apply Forall_forall. intros f [? _]%elem_of_window. lia. Qed.

Lemma new_owns start_frame limit_frame memory_map bm :
  map_ok memory_map → 16 ≤ start_frame ≤ limit_frame → limit_frame < 4503599627370496 →
  bit_count bm ≤ 4503599627370496 →
  Forall (λ f, f - start_frame < bit_count bm)
    (window_frames usable start_frame limit_frame memory_map) →
  ∃ bm' n, new start_frame limit_frame memory_map bm = Ret (mkRegion start_frame limit_frame n 0 bm') ∧
    bit_count bm' = bit_count bm ∧
    region_owns (mkRegion start_frame limit_frame n 0 bm')
      (list_to_set (window_frames usable start_frame limit_frame memory_map)) ∅.
Proof.
  intros Hmap Hw Hlim Hbc HF. unfold new. rewrite <- bind_assoc, window_loop by (done || apply Hmap).
  set (l := window_frames usable start_frame limit_frame memory_map) in *.
  assert (NoDup l) as Hnd.
  { apply NoDup_window; [|done]. intros t Ht. unfold usable_or_reclaimable. by rewrite Ht. }
  destruct (mark_loop (λ free_frame s, bm ← set_bit s.1 free_frame true; n ← uadd s.2 1; Ret (bm, n))
    start_frame l (replicate (length bm) 0) 0) as (bm' & -> & Hb' & Hlen & Hbits).
  - done.
  - apply Forall_replicate. lia.
  - done.
  - done.
  - unfold bit_count in *. rewrite length_replicate. lia.
  - pose proof (Forall_window usable start_frame limit_frame memory_map) as HF'. fold l in HF'.
    rewrite Forall_forall in *. intros f Hf. split_and!; [by apply HF'| |apply bit_at_zeroed].
    unfold bit_count in *. rewrite length_replicate. by apply HF.
  - rewrite length_replicate in Hlen. cbn. eexists _, _. split; [done|].
    assert (bit_count bm' = bit_count bm) as Hbc' by (unfold bit_count; by rewrite Hlen).
    split; [done|].
    assert (∀ n, free_set (mkRegion start_frame limit_frame n 0 bm') = list_to_set l) as Hfs.
    { intros n. rewrite (free_set_mark _ _ 0 0 _ _ _ _ _ (Forall_window _ _ _ _) Hbits).
      enough (free_set (mkRegion start_frame limit_frame 0 0 (replicate (length bm) 0)) = ∅) as -> by set_solver.
      apply set_eq. intros f. rewrite elem_of_free_set. cbn. rewrite bit_at_zeroed. set_solver. }
    split; cbn; try done; [|set_solver..].
    split; cbn; try lia; try done.
    + rewrite Hfs. intros f Hf%elem_of_list_to_set%elem_of_window. lia.
    + by rewrite Hfs, size_list_to_set.
Qed.

Lemma reclaim_owns r F H0 memory_map :
  map_ok memory_map → region_owns r F H0 →
  16 ≤ start_frame r → limit_frame r < 4503599627370496 →
  Forall (λ f, f - start_frame r < bit_count (bitmask r) ∧ (f ∉ F) ∧ (f ∉ H0))
    (window_frames reclaimable (start_frame r) (limit_frame r) memory_map) →
  ∃ r', reclaim r memory_map = Ret r' ∧ start_frame r' = start_frame r ∧
    limit_frame r' = limit_frame r ∧ bit_count (bitmask r') = bit_count (bitmask r) ∧
    region_owns r' (F ∪ list_to_set (window_frames reclaimable (start_frame r) (limit_frame r) memory_map)) H0.
Proof.
  intros Hmap Hown Hs Hlim HF. pose proof (region_owns_size _ _ _ Hown) as Hsz.
  destruct Hown as [[_ Hl Hb Hbits Hin Hfree] -> Hu Hh Hhi Hd].
  unfold reclaim. rewrite <- bind_assoc, window_loop by (try done; try apply Hmap; lia).
  set (l := window_frames reclaimable (start_frame r) (limit_frame r) memory_map) in *.
  assert (NoDup l) as Hnd.
  { apply NoDup_window; [|done]. intros t Ht. unfold usable_or_reclaimable. by rewrite Ht, orb_true_r. }
  assert (Forall (λ f, start_frame r ≤ f) l) as Hge by apply Forall_window.
  destruct (mark_loop (λ free_frame s, b ← get_bit s.1 free_frame; assert_ (negb b);;
      bm ← set_bit s.1 free_frame true; n ← uadd s.2 1; Ret (bm, n))
    (start_frame r) l (bitmask r) (r_free_frames r)) as (bm' & -> & Hb' & Hlen & Hbits').
  - intros f bm n Hf Hlt Hun. cbn [fst snd]. rewrite get_bit_ok, bind_bind_Ret, Hun by lia. done.
  - done.
  - done.
  - lia.
  - lia.
  - rewrite Forall_forall in *. intros f Hf. destruct (HF f Hf) as (? & Hnf & _).
    split_and!; [by apply Hge|done|]. apply not_true_is_false. intros Hbit. apply Hnf.
    apply elem_of_free_set. auto.
  - cbn. eexists. split; [done|]. cbn.
    assert (bit_count bm' = bit_count (bitmask r)) as Hbc' by (unfold bit_count; by rewrite Hlen).
    split_and!; [done|done|done|].
    pose proof (free_set_mark (start_frame r) (limit_frame r) (r_free_frames r) (r_used_frames r)
      (r_free_frames r + Z.of_nat (length l)) (r_used_frames r) _ _ _ Hge Hbits') as Hfs.
    replace (mkRegion (start_frame r) (limit_frame r) (r_free_frames r) (r_used_frames r) (bitmask r))
      with r in Hfs by (by destruct r).
    assert (∀ f, f ∈ l → f < limit_frame r) as Hll by (intros f ?%elem_of_window; lia).
    rewrite Forall_forall in HF.
    split; cbn; rewrite ?Hfs, ?Hbc'; try done; [|set_solver..].
    split; cbn; rewrite ?Hfs, ?Hbc'; try lia; try done; [set_solver|].
    rewrite size_union by set_solver. rewrite size_list_to_set by done. lia.
Qed.

(** The bitmask that [alloc] asks the heap for has a bit for every frame that
    is, or becomes, free. *)
Lemma available_limit start_frame limit_frame memory_map :
  Forall (λ region, 0 ≤ start_addr region ≤ end_addr region ∧
      end_addr region < usize_limit ∧
      start_addr region mod PAGE_SIZE = 0 ∧ end_addr region mod PAGE_SIZE = 0) memory_map →
  16 ≤ start_frame ≤ limit_frame → limit_frame < 4503599627370496 →
  ∃ available, find_available_limit_frame start_frame limit_frame memory_map = Ret available ∧
    start_frame ≤ available ≤ limit_frame ∧
    Forall (λ f, f < available) (window_frames usable_or_reclaimable start_frame limit_frame memory_map).
Proof.
  intros Hall Hw Hlim. unfold find_available_limit_frame, filter_memory_map, PAGE_SIZE, MINIMUM_ADDRESS.
  do 3 step_by lia. rewrite !Z.max_l by lia. eexists. split; [done|].
  set (g := λ available region, Z.max available (Z.min (fr_limit region / 4096) limit_frame)).
  cut (∀ acc, start_frame ≤ acc ≤ limit_frame →
    let available := foldl g acc (map_filter (start_frame * 4096) (limit_frame * 4096)
                                    usable_or_reclaimable memory_map) in
    acc ≤ available ≤ limit_frame ∧
    Forall (λ f, f < available) (window_frames usable_or_reclaimable start_frame limit_frame memory_map)).
  { intros Hc. destruct (Hc start_frame ltac:(lia)). done. }
  induction Hall as [|region rest (Hse & Hlt & Hsa & Hea) _ IH]; intros acc Hacc; cbn zeta.
  { split; [cbn; lia|constructor]. }
  unfold window_frames, map_frames in *. cbn [map_filter]. rewrite filter_cons.
  destruct (usable_or_reclaimable (region_type region)) eqn:Ec;
    [rewrite decide_True by done|rewrite decide_False by done; rewrite andb_false_r; by apply IH].
  rewrite andb_true_r. cbn [fmap list_fmap mjoin list_join].
  assert (∀ f, f ∈ filter (in_window start_frame limit_frame) (entry_frames region) →
    start_frame ≤ f < limit_frame ∧ start_addr region / 4096 ≤ f < end_addr region / 4096) as He.
  { intros f. rewrite list_elem_of_filter. unfold entry_frames, in_window, PAGE_SIZE in *.
    rewrite elem_of_seqZ. mlia. }
  rewrite filter_app, Forall_app. destruct (Z.ltb_spec (Z.max (start_addr region) (start_frame * 4096))
    (Z.min (end_addr region) (limit_frame * 4096))) as [Hlt'|Hge].
  - cbn [foldl]. destruct (IH (g acc (mkFreeMemoryRegion (Z.max (start_addr region) (start_frame * 4096))
      (Z.min (end_addr region) (limit_frame * 4096))))) as [Hb HF].
    { unfold g. cbn. lia. }
    unfold g at 1 in Hb. cbn [fr_limit] in Hb. split_and!; [lia..| |done].
    apply Forall_forall. intros f Hf%He. eapply Z.lt_le_trans; [|apply Hb]. mlia.
  - destruct (IH acc Hacc) as [Hb HF]. split_and!; [lia..| |done].
    apply Forall_forall. intros f Hf%He. exfalso. unfold PAGE_SIZE in *. mlia.
Qed.

(** The bytes [alloc] asks the heap for. *)
Definition mask_bytes (start_frame limit_frame : Z) memory_map : Z :=
  match find_available_limit_frame start_frame limit_frame memory_map with
  | Ret available => (available - start_frame + 7) / 8
  | _ => 0
  end.

Lemma mask_bytes_nonneg start_frame limit_frame memory_map :
  map_ok memory_map → 16 ≤ start_frame ≤ limit_frame → limit_frame < 4503599627370496 →
  0 ≤ mask_bytes start_frame limit_frame memory_map ≤ (limit_frame - start_frame + 7) / 8.
Proof.
  intros Hmap Hw Hlim. destruct (available_limit start_frame limit_frame memory_map) as (available & Hav & Hb & _);
    [apply Hmap|done..|]. unfold mask_bytes. rewrite Hav. mlia.
Qed.

Lemma alloc_owns {M} (vec_alloc : Z → M → outcome M) start_frame limit_frame memory_map m m' :
  map_ok memory_map → 16 ≤ start_frame ≤ limit_frame → limit_frame < 4503599627370496 →
  vec_alloc (mask_bytes start_frame limit_frame memory_map) m = Ret m' →
  ∃ bm' n, alloc vec_alloc start_frame limit_frame memory_map m =
      Ret (mkRegion start_frame limit_frame n 0 bm', m') ∧
    Forall (λ f, f - start_frame < bit_count bm')
      (window_frames usable_or_reclaimable start_frame limit_frame memory_map) ∧
    region_owns (mkRegion start_frame limit_frame n 0 bm')
      (list_to_set (window_frames usable start_frame limit_frame memory_map)) ∅.
Proof.
  intros Hmap Hw Hlim. destruct (available_limit start_frame limit_frame memory_map)
    as (available & Hav & Hb & HF); [apply Hmap|done..|].
  unfold mask_bytes. rewrite Hav. intros Hm'. unfold alloc. rewrite Hav, bind_bind_Ret. do 2 step_by lia. rewrite Hm', bind_bind_Ret.
  set (bm := replicate (Z.to_nat ((available - start_frame + 7) / 8)) 0).
  assert (bit_count bm = 8 * ((available - start_frame + 7) / 8)) as Hbc.
  { unfold bit_count, bm. rewrite length_replicate. mlia. }
  assert (Forall (λ f, f - start_frame < bit_count bm)
    (window_frames usable_or_reclaimable start_frame limit_frame memory_map)) as HFb.
  { eapply Forall_impl; [exact HF|]. cbn. intros. mlia. }
  destruct (new_owns start_frame limit_frame memory_map bm) as (bm' & n & -> & Hbc' & Hown);
    [done|done|done|mlia| |].
  - rewrite Forall_forall in *. intros f [Hfw Hf]%elem_of_window. apply HFb, elem_of_window.
    split; [done|]. eapply map_frames_mono; [|exact Hf].
    intros t Ht. unfold usable_or_reclaimable. by rewrite Ht.
  - cbn. exists bm', n. by rewrite Hbc'.
Qed.

End map_frames.

(** ** What a frame allocator promises

    An allocator owns a set [F] of free frames and a set [H] of frames it has
    handed out, inside a fixed extent. *)
Class FrameAllocatorLaws (T : Type) `{LockedFrameAllocator T} := {
  extent : T → Z * Z;
  owns : T → gset Z → gset Z → Prop;
  owns_disjoint a F H : owns a F H → F ## H;
  owns_extent a F H f : owns a F H → f ∈ F ∪ H → (extent a).1 ≤ f < (extent a).2;
  owns_free a F H : owns a F H → free_frames a = Z.of_nat (size F);
  owns_used a F H : owns a F H → used_frames a = Z.of_nat (size H);
  contains_extent a f : contains_frame a f = true ↔ (extent a).1 ≤ f < (extent a).2;
  owns_allocate a F H : owns a F H →
    ∃ o a', allocate_frame a = Ret (o, a') ∧ extent a' = extent a ∧
      match o with
      | None => F = ∅ ∧ owns a' F H
      | Some f => f ∈ F ∧ (∀ g, g ∈ F → f ≤ g) ∧ owns a' (F ∖ {[f]}) (H ∪ {[f]})
      end;
  owns_deallocate a F H f : owns a F H → f ∈ H →
    ∃ a', deallocate_frame a f = Ret a' ∧ extent a' = extent a ∧ owns a' (F ∪ {[f]}) (H ∖ {[f]});
}.

#[global, refine] Instance PageFrameRegion_laws : FrameAllocatorLaws PageFrameRegion := {
  extent r := (start_frame r, limit_frame r);
  owns := region_owns;
}.
Proof.
  - by intros a F H []. 
  - intros a F H f [Hok -> _ Hh Hhi _]. cbn. rewrite elem_of_union. intros [Hf|Hf].
    + split; [by apply elem_of_free_set in Hf as [? _]|by apply ok_inside].
    + split; [|by apply Hhi]. apply Hh, elem_of_span_set in Hf. lia.
  - intros a F H [Hok -> _ _ _ _]. apply Hok.
  - by intros a F H [].
  - intros a f. cbn. unfold region_contains_frame, Frame.index. rewrite andb_true_iff, Z.leb_le, Z.ltb_lt. done.
  - intros a F H Hown. destruct (region_allocate_owns a F H Hown) as (o & a' & Heq & Ho).
    exists o, a'. split; [done|]. destruct o; cbn; [|by destruct Ho as [? ->]].
    destruct Ho as (? & ? & ? & -> & ->). done.
  - intros a F H f Hown Hf. destruct (region_deallocate_owns a F H f Hown Hf) as (a' & ? & ? & Hs & Hl).
    exists a'. cbn. by rewrite Hs, Hl.
Defined.

(** ** A locked allocator: nothing before it is initialised *)

Section locked.
Context {T : Type} `{FrameAllocatorLaws T}.

Definition locked_owns (m : option T) (e : Z * Z) (F H : gset Z) : Prop :=
  match m with
  | None => F = ∅ ∧ H = ∅
  | Some a => extent a = e ∧ owns a F H
  end.

Lemma locked_allocate m e F Hd :
  locked_owns m e F Hd →
  ∃ o m', FrameAllocator.allocate_frame m = Ret (o, m') ∧
    match o with
    | None => F = ∅ ∧ locked_owns m' e F Hd
    | Some f => f ∈ F ∧ (∀ g, g ∈ F → f ≤ g) ∧ locked_owns m' e (F ∖ {[f]}) (Hd ∪ {[f]})
    end.
Proof.
  intros Hm. unfold FrameAllocator.allocate_frame, InitMutex.try_lock.
  destruct m as [a|]; [|by exists None, None; destruct Hm].
  destruct Hm as [<- Hown]. destruct (owns_allocate a F Hd Hown) as (o & a' & -> & He & Ho).
  exists o, (Some a'). split; [done|]. destruct o; naive_solver.
Qed.

Lemma locked_deallocate m e F Hd f :
  locked_owns m e F Hd → f ∈ Hd →
  ∃ m', FrameAllocator.deallocate_frame m f = Ret m' ∧ locked_owns m' e (F ∪ {[f]}) (Hd ∖ {[f]}).
Proof.
  intros Hm Hf. unfold FrameAllocator.deallocate_frame, InitMutex.lock.
  destruct m as [a|]; [|destruct Hm; set_solver].
  destruct Hm as [<- Hown]. destruct (owns_deallocate a F Hd f Hown Hf) as (a' & Heq & He & Ho).
  exists (Some a'). cbn. rewrite Heq. done.
Qed.

Lemma locked_contains m e F Hd f :
  locked_owns m e F Hd → f ∈ F ∪ Hd → FrameAllocator.contains_frame m f = true.
Proof.
  unfold FrameAllocator.contains_frame, InitMutex.try_lock.
  destruct m as [a|]; [|intros []; set_solver].
  intros [_ Hown] Hf. by eapply contains_extent, owns_extent.
Qed.

Lemma locked_not_contains m e F Hd f :
  locked_owns m e F Hd → ¬ (e.1 ≤ f < e.2) → FrameAllocator.contains_frame m f = false.
Proof.
  unfold FrameAllocator.contains_frame, InitMutex.try_lock. destruct m as [a|]; [|done].
  intros [<- _] Hf. apply not_true_is_false. by rewrite contains_extent.
Qed.

Lemma locked_counts m e F Hd :
  locked_owns m e F Hd →
  FrameAllocator.free_frames m = Z.of_nat (size F) ∧ FrameAllocator.used_frames m = Z.of_nat (size Hd).
Proof.
  unfold FrameAllocator.free_frames, FrameAllocator.used_frames, InitMutex.try_lock.
  destruct m as [a|]; [|by intros [-> ->]].
  intros [_ Hown]. split; [by eapply owns_free|by eapply owns_used].
Qed.

End locked.

(** ** The three regions together *)

Definition zone_extent (z : zone) : Z * Z :=
  match z with
  | Low => (UNUSED_LOW_FRAMES, LOW_REGION_FRAMES)
  | Normal => (LOW_REGION_FRAMES, NORMAL_REGION_FRAMES)
  | High => (NORMAL_REGION_FRAMES, HIGH_REGION_FRAMES)
  end.

Definition in_zone (z : zone) (X : gset Z) : gset Z :=
  filter (λ f, (zone_extent z).1 ≤ f < (zone_extent z).2) X.

(** The machine owns the free frames [F] and has handed out [H]. *)
Record phys_owns (p : PhysMem) (F H : gset Z) : Prop := {
  phys_zones : ∀ z, locked_owns (region_of z p) (zone_extent z) (in_zone z F) (in_zone z H);
  phys_bounds : ∀ f, f ∈ F ∪ H → ∃ z, (zone_extent z).1 ≤ f < (zone_extent z).2;
}.

Lemma zone_extents :
  zone_extent Low = (16, 4096) ∧ zone_extent Normal = (4096, 1048576) ∧
  zone_extent High = (1048576, 4503599627370495).
Proof. by vm_compute. Qed.

Lemma zone_unique z z' f :
  (zone_extent z).1 ≤ f < (zone_extent z).2 → (zone_extent z').1 ≤ f < (zone_extent z').2 → z = z'.
Proof.
  destruct zone_extents as (El & En & Eh).
  destruct z, z'; rewrite ?El, ?En, ?Eh; cbn; intros; (done || lia).
Qed.

Lemma elem_of_in_zone z X f : f ∈ in_zone z X ↔ (zone_extent z).1 ≤ f < (zone_extent z).2 ∧ f ∈ X.
Proof. unfold in_zone. by rewrite elem_of_filter. Qed.

#[global] Instance set_unfold_in_zone z X f Q :
  SetUnfoldElemOf f X Q → SetUnfoldElemOf f (in_zone z X) ((zone_extent z).1 ≤ f < (zone_extent z).2 ∧ Q).
Proof. intros [Hq]. constructor. by rewrite elem_of_in_zone, Hq. Qed.

(** Moving a frame of one zone leaves the other zones alone. *)
Lemma in_zone_add z X f :
  in_zone z (X ∪ {[f]}) =
    if bool_decide ((zone_extent z).1 ≤ f < (zone_extent z).2) then in_zone z X ∪ {[f]} else in_zone z X.
Proof. case_bool_decide; set_solver. Qed.

Lemma in_zone_del z X f :
  in_zone z (X ∖ {[f]}) =
    if bool_decide ((zone_extent z).1 ≤ f < (zone_extent z).2) then in_zone z X ∖ {[f]} else in_zone z X.
Proof. case_bool_decide; set_solver. Qed.

Lemma region_of_set z z' p r :
  region_of z' (set_region z p r) = if bool_decide (z' = z) then r else region_of z' p.
Proof. by destruct z, z'. Qed.

(** Allocating from one zone. *)
Lemma allocate_in_owns z p F H :
  phys_owns p F H →
  ∃ o p', Physmem.allocate_in z p = Ret (o, p') ∧
    match o with
    | None => in_zone z F = ∅ ∧ phys_owns p' F H
    | Some f => f ∈ in_zone z F ∧ (∀ g, g ∈ in_zone z F → f ≤ g) ∧
        phys_owns p' (F ∖ {[f]}) (H ∪ {[f]})
    end.
Proof.
  intros [Hz Hb]. destruct (locked_allocate _ _ _ _ (Hz z)) as (o & m' & Heq & Ho).
  unfold Physmem.allocate_in. rewrite Heq, bind_bind_Ret. cbn [fst snd].
  eexists o, _. split; [done|]. destruct o as [f|].
  - destruct Ho as (Hf & Hleast & Hown). split_and!; [done|done|].
    apply elem_of_in_zone in Hf as [Hext HfF]. split; [|set_solver].
    intros z'. rewrite region_of_set, in_zone_add, in_zone_del.
    destruct (decide (z' = z)) as [->|Hne]; [by rewrite !bool_decide_true|].
    rewrite !bool_decide_false; [apply Hz| |done]. contradict Hne. by eapply zone_unique.
  - destruct Ho as [Hemp Hown]. split; [done|]. split; [|done].
    intros z'. rewrite region_of_set. case_bool_decide; [by subst|apply Hz].
Qed.

Lemma deallocate_in_owns z p F H f :
  phys_owns p F H → f ∈ in_zone z H →
  ∃ p', Physmem.deallocate_in z p f = Ret p' ∧ phys_owns p' (F ∪ {[f]}) (H ∖ {[f]}).
Proof.
  intros [Hz Hb] Hf. destruct (locked_deallocate _ _ _ _ _ (Hz z) Hf) as (m' & Heq & Hown).
  unfold Physmem.deallocate_in. rewrite Heq, bind_bind_Ret. eexists. split; [done|].
  apply elem_of_in_zone in Hf as [Hext HfH]. split; [|set_solver].
  intros z'. rewrite region_of_set, in_zone_add, in_zone_del.
  destruct (decide (z' = z)) as [->|Hne]; [by rewrite !bool_decide_true|].
  rewrite !bool_decide_false; [apply Hz| |done]. contradict Hne. by eapply zone_unique.
Qed.

Lemma phys_disjoint p F H : phys_owns p F H → F ## H.
Proof.
  intros [Hz Hb] f HF HH. destruct (Hb f ltac:(set_solver)) as [z Hext].
  specialize (Hz z). destruct (region_of z p) as [a|].
  - destruct Hz as [_ Hown]. apply owns_disjoint in Hown. set_solver.
  - destruct Hz. set_solver.
Qed.

(** The zones partition the frames. *)
Lemma zones_size X :
  (∀ f, f ∈ X → ∃ z, (zone_extent z).1 ≤ f < (zone_extent z).2) →
  size X = (size (in_zone Low X) + size (in_zone Normal X) + size (in_zone High X))%nat ∧
  Z.of_nat (size X) ≤ 4503599627370496.
Proof.
  intros Hb. destruct zone_extents as (El & En & Eh). split.
  - rewrite <- !size_union.
    + f_equal. apply set_eq. intros f. rewrite !elem_of_union, !elem_of_in_zone. split; [|tauto].
      intros Hf. destruct (Hb f Hf) as [[] ?]; tauto.
    + intros f. rewrite !elem_of_union, !elem_of_in_zone, El, En, Eh. cbn. lia.
    + intros f. rewrite !elem_of_in_zone, El, En. cbn. lia.
  - rewrite <- (size_span_set 0 4503599627370496) by lia.
    apply Nat2Z.inj_le, subseteq_size. intros f Hf. apply elem_of_span_set.
    destruct (Hb f Hf) as [[] Hz]; rewrite ?El, ?En, ?Eh in Hz; cbn in Hz; lia.
Qed.

(** The abstract allocation policy: the least free frame of the first zone, in
    an order of preference, that has one. *)
Fixpoint zone_pick (zs : list zone) (F : gset Z) (o : option Z) : Prop :=
  match zs with
  | [] => o = None
  | z :: zs' =>
      (∃ f, o = Some f ∧ f ∈ in_zone z F ∧ ∀ g, g ∈ in_zone z F → f ≤ g) ∨
      (in_zone z F = ∅ ∧ zone_pick zs' F o)
  end.

Definition frame_set (o : option Z) : gset Z :=
  match o with Some f => {[f]} | None => ∅ end.

(** An allocation routine implements the policy [zs]. *)
Definition implements (zs : list zone) (a : PhysMem → outcome (option Frame * PhysMem)) : Prop :=
  ∀ p F H, phys_owns p F H →
    ∃ o p', a p = Ret (o, p') ∧ zone_pick zs F o ∧
      phys_owns p' (F ∖ frame_set o) (H ∪ frame_set o).

Lemma zone_pick_app zs zs' F o :
  (zone_pick zs F None ∧ zone_pick zs' F o) ∨ (o ≠ None ∧ zone_pick zs F o) → zone_pick (zs ++ zs') F o.
Proof.
  induction zs as [|z zs IH]; cbn; [naive_solver|].
  intros [[[(f & ? & _)|[Hz Hp]] Hp']|[Hne [Hf|[Hz Hp]]]]; [done|right|by left|right]; auto.
Qed.

Lemma zone_pick_elem zs F f : zone_pick zs F (Some f) → ∃ z, z ∈ zs ∧ f ∈ in_zone z F.
Proof.
  induction zs as [|z zs IH]; cbn; [done|].
  intros [(f' & [= ->] & Hf & _)|[_ (z' & ? & ?)%IH]]; [exists z|exists z']; set_solver.
Qed.

Lemma phys_owns_none p F H : phys_owns p F H → phys_owns p (F ∖ frame_set None) (H ∪ frame_set None).
Proof.
  cbn. replace (F ∖ ∅) with F by set_solver. by replace (H ∪ ∅) with H by set_solver.
Qed.

Lemma implements_in z : implements [z] (Physmem.allocate_in z).
Proof.
  intros p F H Hown. destruct (allocate_in_owns z p F H Hown) as (o & p' & Heq & Ho).
  exists o, p'. split; [done|]. destruct o as [f|]; cbn.
  - destruct Ho as (? & ? & ?). eauto 8.
  - destruct Ho as [? Hown']. split; [by right|by apply phys_owns_none].
Qed.

Lemma implements_or_else zs zs' a b :
  implements zs a → implements zs' b → implements (zs ++ zs') (Physmem.or_else a b).
Proof.
  intros Ha Hb p F H Hown. destruct (Ha p F H Hown) as (o & p' & Heq & Hp & Hown').
  unfold Physmem.or_else. rewrite Heq. cbn. destruct o as [f|].
  - exists (Some f), p'. split_and!; [done|by apply zone_pick_app; right|done].
  - cbn in Hown'. replace (F ∖ ∅) with F in Hown' by set_solver.
    replace (H ∪ ∅) with H in Hown' by set_solver.
    destruct (Hb p' F H Hown') as (o & p'' & Heq' & Hp' & Hown'').
    exists o, p''. split_and!; [done|by apply zone_pick_app; left|done].
Qed.

(** ** The shape of the regions never changes *)

Definition region_shape (r : PageFrameRegion) : Z * Z * nat :=
  (start_frame r, limit_frame r, length (bitmask r)).

Definition mem_shape (p : PhysMem) (z : zone) : option (Z * Z * nat) := region_shape <$> region_of z p.

Lemma set_bit_length bm i v bm' : set_bit bm i v = Ret bm' → length bm' = length bm.
Proof.
  unfold set_bit, slice_set. intros Hs. inv_ret Hs. subst. destruct (bm !! _); [|done].
  injection Ha0 as <-. by rewrite length_insert.
Qed.

Lemma region_allocate_shape r o r' :
  region_allocate_frame r = Ret (o, r') → region_shape r' = region_shape r.
Proof.
  unfold region_allocate_frame. destruct (find_nonzero 0 (bitmask r)) as [[k b]|]; [|naive_solver].
  intros Hs. inv_ret Hs. simplify_eq. unfold region_shape. cbn.
  by erewrite set_bit_length.
Qed.

Lemma region_deallocate_shape r f r' :
  region_deallocate_frame r f = Ret r' → region_shape r' = region_shape r.
Proof.
  unfold region_deallocate_frame. intros Hs. inv_ret Hs. subst. unfold region_shape. cbn.
  by erewrite set_bit_length.
Qed.

Lemma allocate_in_shape z p o p' z' :
  Physmem.allocate_in z p = Ret (o, p') → mem_shape p' z' = mem_shape p z'.
Proof.
  unfold Physmem.allocate_in, FrameAllocator.allocate_frame, InitMutex.try_lock, mem_shape.
  intros Hs. inv_ret Hs. simplify_eq. rewrite region_of_set.
  case_bool_decide; [subst z'|done]. destruct (region_of z p) as [r|]; [|by simplify_eq].
  inv_ret Ha. subst. cbn. f_equal. destruct a0 as [o r']. by eapply region_allocate_shape.
Qed.

Lemma or_else_shape a b p o p' z :
  (∀ p o p', a p = Ret (o, p') → mem_shape p' z = mem_shape p z) →
  (∀ p o p', b p = Ret (o, p') → mem_shape p' z = mem_shape p z) →
  Physmem.or_else a b p = Ret (o, p') → mem_shape p' z = mem_shape p z.
Proof.
  intros Ha Hb. unfold Physmem.or_else. intros Hs. inv_ret Hs. destruct a0 as [[f|] q]; cbn in *.
  - injection Hs as _ <-. eauto.
  - transitivity (mem_shape q z); eauto.
Qed.

Lemma deallocate_frame_shape p f p' z :
  Physmem.deallocate_frame p f = Ret p' → mem_shape p' z = mem_shape p z.
Proof.
  assert (∀ z', Physmem.deallocate_in z' p f = Ret p' → mem_shape p' z = mem_shape p z) as Hin.
  { intros z'. unfold Physmem.deallocate_in, FrameAllocator.deallocate_frame, InitMutex.lock, mem_shape.
    intros Hs. inv_ret Hs. subst p'. rewrite region_of_set. case_bool_decide; [subst z|done].
    inv_ret Ha. destruct (region_of z' p) as [r|]; [|done]. injection Ha0 as ->. subst. cbn.
    f_equal. by eapply region_deallocate_shape. }
  unfold Physmem.deallocate_frame. repeat case_match; apply Hin.
Qed.

Lemma kernel_frame_shape p o p' z :
  Physmem.allocate_kernel_frame p = Ret (o, p') → mem_shape p' z = mem_shape p z.
Proof. apply or_else_shape; intros *; apply allocate_in_shape. Qed.

Lemma user_frame_shape p o p' z :
  Physmem.allocate_user_frame p = Ret (o, p') → mem_shape p' z = mem_shape p z.
Proof. apply or_else_shape; intros *; [apply or_else_shape; intros *; apply allocate_in_shape|apply allocate_in_shape]. Qed.

(** The masks of all regions have the same extents. *)
Definition same_shape (p p' : PhysMem) : Prop := ∀ z, mem_shape p' z = mem_shape p z.

#[global] Instance same_shape_equivalence : Equivalence same_shape.
Proof. split; [done|by intros p q Hpq z|]. intros p q r Hpq Hqr z. by rewrite Hqr. Qed.

(** ** Clients of the frame database

    A client state is the memory with the set of frames handed out. *)
Inductive mem_step : PhysMem * gset Z → PhysMem * gset Z → Prop :=
  | step_kernel p H o p' :
      Physmem.allocate_kernel_frame p = Ret (o, p') → mem_step (p, H) (p', H ∪ frame_set o)
  | step_user p H o p' :
      Physmem.allocate_user_frame p = Ret (o, p') → mem_step (p, H) (p', H ∪ frame_set o)
  | step_free p H f p' :
      f ∈ H → Physmem.deallocate_frame p f = Ret p' → mem_step (p, H) (p', H ∖ {[f]}).

Lemma implements_kernel : implements [Normal; Low] Physmem.allocate_kernel_frame.
Proof. apply (implements_or_else [Normal] [Low]); apply implements_in. Qed.

Lemma implements_user : implements [High; Normal; Low] Physmem.allocate_user_frame.
Proof.
  apply (implements_or_else [High; Normal] [Low]); [|apply implements_in].
  apply (implements_or_else [High] [Normal]); apply implements_in.
Qed.

Lemma deallocate_frame_owns p F H f :
  phys_owns p F H → f ∈ H →
  ∃ p', Physmem.deallocate_frame p f = Ret p' ∧ phys_owns p' (F ∪ {[f]}) (H ∖ {[f]}).
Proof.
  intros Hown Hf. pose proof Hown as [Hz Hb]. destruct (Hb f ltac:(set_solver)) as [z Hext].
  assert (f ∈ in_zone z H) as Hfz by set_solver.
  destruct (deallocate_in_owns z p F H f Hown Hfz) as (p' & Heq & Hown').
  exists p'. split; [|done]. rewrite <- Heq. unfold Physmem.deallocate_frame.
  assert (∀ z', FrameAllocator.contains_frame (region_of z' p) f = bool_decide (z' = z)) as Hc.
  { intros z'. case_bool_decide as Hd.
    - subst. eapply locked_contains; [apply Hz|set_solver].
    - eapply locked_not_contains; [apply Hz|]. intros ?. apply Hd. by eapply zone_unique. }
  pose proof (Hc Low) as Hlow. pose proof (Hc Normal) as Hnormal. cbn in Hlow, Hnormal.
  rewrite Hlow, Hnormal. by destruct z.
Qed.

Lemma zone_pick_free zs F o : zone_pick zs F o → frame_set o ⊆ F.
Proof. destruct o as [f|]; cbn; [|set_solver]. intros (z & _ & ?)%zone_pick_elem. set_solver. Qed.

Lemma mem_step_owns p F H p' H' :
  phys_owns p F H → mem_step (p, H) (p', H') →
  ∃ F', phys_owns p' F' H' ∧ F' ∪ H' = F ∪ H ∧ ∀ z, mem_shape p' z = mem_shape p z.
Proof.
  intros Hown Hstep. inversion Hstep as [? ? o q Heq|? ? o q Heq|? ? f q Hf Heq]; subst.
  - destruct (implements_kernel p F H Hown) as (o' & q' & Heq' & Hp & Hown').
    rewrite Heq in Heq'. injection Heq' as <- <-. apply zone_pick_free in Hp.
    exists (F ∖ frame_set o). split_and!; [done| |].
    + apply set_eq. intros f. destruct (decide (f ∈ frame_set o)); set_solver.
    + intros z. by eapply kernel_frame_shape.
  - destruct (implements_user p F H Hown) as (o' & q' & Heq' & Hp & Hown').
    rewrite Heq in Heq'. injection Heq' as <- <-. apply zone_pick_free in Hp.
    exists (F ∖ frame_set o). split_and!; [done| |].
    + apply set_eq. intros f. destruct (decide (f ∈ frame_set o)); set_solver.
    + intros z. by eapply user_frame_shape.
  - destruct (deallocate_frame_owns p F H f Hown Hf) as (q' & Heq' & Hown').
    rewrite Heq in Heq'. injection Heq' as <-. exists (F ∪ {[f]}). split_and!; [done| |].
    + apply set_eq. intros g. destruct (decide (g = f)); set_solver.
    + intros z. by eapply deallocate_frame_shape.
Qed.

Lemma mem_run_owns s s' F :
  rtc mem_step s s' → phys_owns s.1 F s.2 →
  ∃ F', phys_owns s'.1 F' s'.2 ∧ F' ∪ s'.2 = F ∪ s.2 ∧ ∀ z, mem_shape s'.1 z = mem_shape s.1 z.
Proof.
  intros Hrun. revert F. induction Hrun as [s|[p H] [q G] s' Hstep _ IH]; intros F Hown; [eauto|].
  destruct (mem_step_owns p F H q G Hown Hstep) as (F1 & Hown1 & Heq1 & Hs1).
  destruct (IH F1 Hown1) as (F' & Hown' & Heq' & Hs'). exists F'. split_and!; [done| |].
  - cbn in *. by rewrite Heq', Heq1.
  - intros z. cbn in *. by rewrite Hs', Hs1.
Qed.

(** The database determines the free frames. *)
Lemma phys_owns_free p F H F' H' : phys_owns p F H → phys_owns p F' H' → F = F'.
Proof.
  assert (∀ F H F' H', phys_owns p F H → phys_owns p F' H' → F ⊆ F') as Hs.
  { clear. intros F H F' H' [Hz Hb] [Hz' _] f Hf. destruct (Hb f ltac:(set_solver)) as [z Hext].
    specialize (Hz z). specialize (Hz' z). assert (f ∈ in_zone z F) as Hin by (by apply elem_of_in_zone).
    enough (f ∈ in_zone z F') as [_ ?]%elem_of_in_zone by done.
    destruct (region_of z p) as [r|]; [|destruct Hz as [E _]; set_solver].
    destruct Hz as [_ Ho], Hz' as [_ Ho']. by rewrite (own_free _ _ _ Ho'), <- (own_free _ _ _ Ho). }
  intros A B. apply (anti_symm (⊆)); eauto.
Qed.

(** ** Bringing the regions up *)

Section boot_proofs.
Context `{BootMemoryMap}.
Implicit Types memory_map : list MemoryRegion.

Lemma usable_not_reclaimable memory_map f :
  map_ok memory_map → f ∈ map_frames usable memory_map → f ∈ map_frames reclaimable memory_map → False.
Proof.
  intros [_ Hnd].
  assert (∀ t, usable t = true → reclaimable t = false) as Hx.
  { intros t ->%bool_decide_eq_true. unfold reclaimable. pose proof Usable_distinct as Hd.
    rewrite !bool_decide_false by set_solver. done. }
  assert (∀ rest, f ∈ map_frames usable rest ∨ f ∈ map_frames reclaimable rest →
            f ∈ map_frames usable_or_reclaimable rest) as Hm.
  { intros rest [Hf|Hf]; (eapply map_frames_mono; [|exact Hf]); intros t Ht;
      unfold usable_or_reclaimable; rewrite Ht; [done|apply orb_true_r]. }
  induction memory_map as [|region rest IH]; [set_solver|]. rewrite !map_frames_cons in *.
  apply NoDup_app in Hnd as (_ & Hd & Hnd).
  intros [Hf|Hf]%elem_of_app [Hr|Hr]%elem_of_app; [| | |by apply IH]; unfold usable_or_reclaimable in Hd;
    destruct (usable _) eqn:Eu; rewrite ?(Hx _ Eu) in *; set_solver.
Qed.

(** The usable frames of one zone. *)
Definition zone_usable (z : zone) memory_map : gset Z :=
  list_to_set (window_frames usable (zone_extent z).1 (zone_extent z).2 memory_map).
Definition zone_reclaimable (z : zone) memory_map : gset Z :=
  list_to_set (window_frames reclaimable (zone_extent z).1 (zone_extent z).2 memory_map).

(** Every region is initialised and its mask has a bit for every frame the
    memory map lets it ever have. *)
Definition covered (p : PhysMem) memory_map (z : zone) : Prop :=
  ∃ n, mem_shape p z = Some ((zone_extent z).1, (zone_extent z).2, n) ∧
    Forall (λ f, f - (zone_extent z).1 < 8 * Z.of_nat n)
      (window_frames usable_or_reclaimable (zone_extent z).1 (zone_extent z).2 memory_map).

Lemma zone_extent_bounds z :
  16 ≤ (zone_extent z).1 ≤ (zone_extent z).2 ∧ (zone_extent z).2 < 4503599627370496.
Proof. destruct zone_extents as (El & En & Eh). destruct z; rewrite ?El, ?En, ?Eh; cbn; lia. Qed.

(** One zone receives a set [G] of frames. *)
Lemma phys_owns_grow z p r F H0 G :
  phys_owns p F H0 → start_frame r = (zone_extent z).1 → limit_frame r = (zone_extent z).2 →
  region_owns r (in_zone z F ∪ G) (in_zone z H0) →
  phys_owns (set_region z p (Some r)) (F ∪ G) H0.
Proof.
  intros [Hz Hb] Hs Hl Hown.
  assert (∀ f, f ∈ G → (zone_extent z).1 ≤ f < (zone_extent z).2) as HG.
  { intros f Hf. rewrite <- Hs, <- Hl.
    exact (owns_extent (T := PageFrameRegion) r _ _ f Hown ltac:(set_solver)). }
  split.
  - intros z'. rewrite region_of_set. destruct (decide (z' = z)) as [->|Hne].
    + rewrite bool_decide_true by done. split; [cbn; rewrite Hs, Hl; by destruct (zone_extent z)|].
      by replace (in_zone z (F ∪ G)) with (in_zone z F ∪ G) by set_solver.
    + rewrite bool_decide_false by done.
      replace (in_zone z' (F ∪ G)) with (in_zone z' F); [apply Hz|].
      apply set_eq. intros f. rewrite !elem_of_in_zone, elem_of_union. split; [tauto|].
      intros [Hf' [?|Hf%HG]]; [done|]. destruct Hne. by eapply zone_unique.
  - intros f. rewrite !elem_of_union. intros [[?|Hf%HG]|?]; [|by eauto|]; apply Hb; set_solver.
Qed.

Lemma mem_shape_none p z : mem_shape p z = None ↔ region_of z p = None.
Proof. unfold mem_shape. by rewrite fmap_None. Qed.

Lemma mem_shape_set z z' p r :
  mem_shape (set_region z p (Some r)) z' = if bool_decide (z' = z) then Some (region_shape r) else mem_shape p z'.
Proof. unfold mem_shape. rewrite region_of_set. by case_bool_decide. Qed.

(** One call of [alloc] followed by [init], the heap taking what it needs. *)
Definition zone_mask (z : zone) memory_map : Z := mask_bytes (zone_extent z).1 (zone_extent z).2 memory_map.

(** A database gains the usable frames of a zone. *)
Definition gains memory_map (z : zone) (p p' : PhysMem) : Prop :=
  ∀ F H, phys_owns p F H → phys_owns p' (F ∪ zone_usable z memory_map) H.

Lemma alloc_zone {M} (vec_alloc : Z → M → outcome M) z m m1 p1 memory_map :
  map_ok memory_map → vec_alloc (zone_mask z memory_map) m = Ret m1 → region_of z p1 = None →
  ∃ r, alloc vec_alloc (zone_extent z).1 (zone_extent z).2 memory_map m = Ret (r, m1) ∧
    gains memory_map z p1 (set_region z p1 (Some r)) ∧
    covered (set_region z p1 (Some r)) memory_map z ∧
    (∀ z', z' ≠ z → mem_shape (set_region z p1 (Some r)) z' = mem_shape p1 z').
Proof.
  intros Hmap Hv Hnone1. pose proof (zone_extent_bounds z) as [Hb1 Hb2].
  destruct (alloc_owns vec_alloc (zone_extent z).1 (zone_extent z).2 memory_map m m1 Hmap Hb1 Hb2 Hv) as (bm & n & Heq & Hcov & Hr).
  set (r := mkRegion (zone_extent z).1 (zone_extent z).2 n 0 bm) in *.
  exists r. split_and!; [done| | |].
  - intros F1 H1 Hown1. apply phys_owns_grow; [done..|]. pose proof (phys_zones _ _ _ Hown1 z) as Hz.
    rewrite Hnone1 in Hz. destruct Hz as [-> ->]. by rewrite union_empty_l_L.
  - exists (length bm). rewrite mem_shape_set, bool_decide_true by done. done.
  - intros z' Hz'. by rewrite mem_shape_set, bool_decide_false.
Qed.

(** [init_post_paging], given what the two allocations of the heap do. *)
Lemma init_post_paging_steps {M} (db : M → PhysMem) (set_db : M → PhysMem → M) (vec_alloc : Z → M → outcome M)
    m m1 memory_map :
  map_ok memory_map → vec_alloc (zone_mask Normal memory_map) m = Ret m1 → region_of Normal (db m1) = None →
  ∃ r1, let p1 := set_region Normal (db m1) (Some r1) in
    gains memory_map Normal (db m1) p1 ∧ covered p1 memory_map Normal ∧
    (∀ z, z ≠ Normal → mem_shape p1 z = mem_shape (db m1) z) ∧
    ∀ m2, vec_alloc (zone_mask High memory_map) (set_db m1 p1) = Ret m2 → region_of High (db m2) = None →
    ∃ r2, let p2 := set_region High (db m2) (Some r2) in
      Physmem.init_post_paging db set_db vec_alloc m memory_map = Ret (set_db m2 p2) ∧
      gains memory_map High (db m2) p2 ∧ covered p2 memory_map High ∧
      (∀ z, z ≠ High → mem_shape p2 z = mem_shape (db m2) z).
Proof.
  intros Hmap Hv1 Hn1.
  destruct (alloc_zone vec_alloc Normal m m1 (db m1) memory_map Hmap Hv1 Hn1) as (r1 & Ha1 & Ho1 & Hc1 & Hs1).
  exists r1. cbn zeta. split_and!; [done..|]. intros m2 Hv2 Hn2.
  destruct (alloc_zone vec_alloc High (set_db m1 (set_region Normal (db m1) (Some r1))) m2 (db m2) memory_map Hmap Hv2 Hn2)
    as (r2 & Ha2 & Ho2 & Hc2 & Hs2).
  exists r2. split_and!; [|done..]. unfold Physmem.init_post_paging.
  change (alloc vec_alloc LOW_REGION_FRAMES NORMAL_REGION_FRAMES memory_map m = Ret (r1, m1)) in Ha1.
  change (alloc vec_alloc NORMAL_REGION_FRAMES HIGH_REGION_FRAMES memory_map
    (set_db m1 (set_region Normal (db m1) (Some r1))) = Ret (r2, m2)) in Ha2.
  rewrite Ha1, bind_bind_Ret. unfold InitMutex.init. cbn zeta. cbn [fst snd set_region] in Ha2 |- *. by rewrite Ha2.
Qed.

Lemma reclaim_zone z p F H0 memory_map :
  map_ok memory_map → phys_owns p F H0 → covered p memory_map z →
  in_zone z (F ∪ H0) ⊆ list_to_set (map_frames usable memory_map) →
  ∃ r r', region_of z p = Some r ∧ reclaim r memory_map = Ret r' ∧
    phys_owns (set_region z p (Some r')) (F ∪ zone_reclaimable z memory_map) H0.
Proof.
  intros Hmap Hown (n & Hshape & HF) Hus. pose proof (zone_extent_bounds z) as [Hb1 Hb2].
  unfold mem_shape in Hshape. destruct (region_of z p) as [r|] eqn:Hr; [|done].
  cbn in Hshape. injection Hshape as Es El En.
  pose proof (phys_zones _ _ _ Hown z) as Hz. rewrite Hr in Hz. destruct Hz as [_ Hro].
  destruct (reclaim_owns r (in_zone z F) (in_zone z H0) memory_map) as (r' & Heq & Es' & El' & _ & Hro');
    [done|done|lia|lia| |].
  { rewrite Forall_forall in *. intros f [Hw Hf]%elem_of_window.
    assert (f ∉ list_to_set (C := gset Z) (map_frames usable memory_map)) as Hnu.
    { intros Hu%elem_of_list_to_set. by eapply usable_not_reclaimable. }
    split_and!; [|set_solver..]. unfold bit_count. rewrite En, Es. apply HF, elem_of_window.
    rewrite <- Es, <- El. split; [done|]. eapply map_frames_mono; [|exact Hf].
    intros t Ht. unfold usable_or_reclaimable. by rewrite Ht, orb_true_r. }
  exists r, r'. split_and!; [done|done|].
  rewrite Es, El in Hro'. apply phys_owns_grow; [done|congruence..|done].
Qed.

End boot_proofs.

(** ** Properties of the frame database *)

(** [PageFrameRegion::allocate_frame] implements "take the least free
    frame": on a region that owns [F] free and [H] used frames it returns
    without panicking, nothing exactly when [F] is empty, otherwise the minimum
    of [F], and the region afterwards owns [F] without it and [H] with it. *)
Theorem region_allocate_correct r F H :
  region_owns r F H →
  ∃ o r', region_allocate_frame r = Ret (o, r') ∧
    (o = None ↔ F = ∅) ∧
    (∀ f, o = Some f → f ∈ F ∧ (∀ g, g ∈ F → f ≤ g)) ∧
    region_owns r' (F ∖ frame_set o) (H ∪ frame_set o) ∧
    r_free_frames r' = Z.of_nat (size (F ∖ frame_set o)).
Proof.
  intros Hown. destruct (region_allocate_owns r F H Hown) as (o & r' & Heq & Ho).
  exists o, r'. split; [done|]. destruct o as [f|]; cbn.
  - destruct Ho as (Hf & Hleast & Hown' & _). split_and!; [set_solver|naive_solver|done|].
    by apply region_counts in Hown' as [? _].
  - destruct Ho as [-> ->]. rewrite difference_empty_L, union_empty_r_L.
    split_and!; [done|done|done|]. by apply region_counts in Hown as [? _].
Qed.

(** Giving back a frame that a region handed out never panics and makes
    exactly that frame free again; the counters follow. *)
Theorem region_deallocate_correct r F H f :
  region_owns r F H → f ∈ H →
  ∃ r', region_deallocate_frame r f = Ret r' ∧ region_owns r' (F ∪ {[f]}) (H ∖ {[f]}) ∧
    r_free_frames r' = r_free_frames r + 1 ∧ r_used_frames r' = r_used_frames r - 1.
Proof.
  intros Hown Hf. destruct (region_deallocate_owns r F H f Hown Hf) as (r' & Heq & Hown' & _).
  exists r'. split_and!; [done|done| |].
  - assert (f ∉ F) by (pose proof (own_disjoint _ _ _ Hown); set_solver).
    apply region_counts in Hown as [Hown _], Hown' as [Hown' _].
    rewrite Hown, Hown', size_union, size_singleton by set_solver. lia.
  - apply region_counts in Hown as [_ Hown], Hown' as [_ Hown'].
    rewrite Hown, Hown', size_difference, size_singleton by set_solver.
    enough (size H ≠ 0%nat) by lia. intros E%size_empty_inv. set_solver.
Qed.

(** [allocate_kernel_frame] takes the least free frame of the normal
    region, or of the low region when that has none, and fails only when both
    are exhausted; so a kernel frame always lies below 4 GiB. *)
Theorem allocate_kernel_frame_correct p F H :
  phys_owns p F H →
  ∃ o p', Physmem.allocate_kernel_frame p = Ret (o, p') ∧
    zone_pick [Normal; Low] F o ∧ phys_owns p' (F ∖ frame_set o) (H ∪ frame_set o) ∧
    (∀ f, o = Some f → f * PAGE_SIZE + PAGE_SIZE ≤ 4294967296).
Proof.
  intros Hown.
  destruct (implements_kernel p F H Hown) as (o & p' & Heq & Hp & Hown').
  exists o, p'. split_and!; [done|done|done|]. intros f ->.
  apply zone_pick_elem in Hp as (z & Hz & [Hf _]%elem_of_in_zone). unfold PAGE_SIZE.
  destruct zone_extents as (El & En & _).
  assert (z = Normal ∨ z = Low) as [-> | ->] by set_solver;
    rewrite ?El, ?En in Hf; cbn in Hf; lia.
Qed.

(** [allocate_user_frame] prefers high memory, then normal, then low, and
    fails only when no frame of the machine is free. *)
Theorem allocate_user_frame_correct p F H :
  phys_owns p F H →
  ∃ o p', Physmem.allocate_user_frame p = Ret (o, p') ∧
    zone_pick [High; Normal; Low] F o ∧ phys_owns p' (F ∖ frame_set o) (H ∪ frame_set o) ∧
    (o = None ↔ F = ∅).
Proof.
  intros Hown. destruct (implements_user p F H Hown) as (o & p' & Heq & Hp & Hown').
  exists o, p'. split_and!; [done|done|done|]. split.
  - intros ->. destruct Hp as [(f & ? & _)|[Hh [(f & ? & _)|[Hn [(f & ? & _)|[Hl _]]]]]]; [done..|].
    apply set_eq. intros f. split; [|set_solver]. intros Hf.
    destruct (phys_bounds _ _ _ Hown f ltac:(set_solver)) as [z Hz].
    destruct z; set_solver.
  - intros ->. destruct o as [f|]; [|done]. apply zone_pick_elem in Hp. set_solver.
Qed.

(** [deallocate_frame] routes a frame to the region it came from: it never
    panics on a frame that was handed out, and makes it free again. *)
Theorem deallocate_frame_correct p F H f :
  phys_owns p F H → f ∈ H →
  ∃ p', Physmem.deallocate_frame p f = Ret p' ∧ phys_owns p' (F ∪ {[f]}) (H ∖ {[f]}).
Proof. apply deallocate_frame_owns. Qed.

(** C3: whatever sequence of allocations and of frees of held frames its
    clients run, the frame database never panics, never hands out a frame that
    is held, and neither loses nor invents a frame. *)
Theorem frames_exclusive p F H p' H' :
  phys_owns p F H → rtc mem_step (p, H) (p', H') →
  ∃ F', phys_owns p' F' H' ∧ F' ∪ H' = F ∪ H ∧ F' ## H' ∧
    (∃ o q, Physmem.allocate_kernel_frame p' = Ret (o, q) ∧ frame_set o ## H') ∧
    (∃ o q, Physmem.allocate_user_frame p' = Ret (o, q) ∧ frame_set o ## H') ∧
    (∀ f, f ∈ H' → ∃ q, Physmem.deallocate_frame p' f = Ret q).
Proof.
  intros Hown Hrun. destruct (mem_run_owns _ _ F Hrun Hown) as (F' & Hown' & Heq & _).
  cbn in *. pose proof (phys_disjoint _ _ _ Hown') as Hd.
  exists F'. split_and!; [done|done|done|..].
  - destruct (implements_kernel _ _ _ Hown') as (o & q & ? & Hp%zone_pick_free & _).
    exists o, q. split; [done|set_solver].
  - destruct (implements_user _ _ _ Hown') as (o & q & ? & Hp%zone_pick_free & _).
    exists o, q. split; [done|set_solver].
  - intros f Hf. destruct (deallocate_frame_owns _ _ _ _ Hown' Hf) as (q & ? & _). eauto.
Qed.

(** The totals [free_frames] and [used_frames] report the sizes of the
    two sets, without overflow. *)
Theorem frame_totals p F H :
  phys_owns p F H →
  Physmem.free_frames p = Ret (Z.of_nat (size F)) ∧
  Physmem.used_frames p = Ret (Z.of_nat (size H)).
Proof.
  intros Hown. pose proof Hown as [Hz Hb].
  pose proof (locked_counts _ _ _ _ (Hz Low)) as [Lf Lu].
  pose proof (locked_counts _ _ _ _ (Hz Normal)) as [Nf Nu].
  pose proof (locked_counts _ _ _ _ (Hz High)) as [Hf Hu]. cbn [region_of] in *.
  destruct (zones_size F) as [EF BF]; [intros f Hf'; apply Hb; set_solver|].
  destruct (zones_size H) as [EH BH]; [intros f Hf'; apply Hb; set_solver|].
  unfold Physmem.free_frames, Physmem.used_frames.
  rewrite Lf, Nf, Hf, Lu, Nu, Hu, !uadd_ok by lia. cbn. rewrite !uadd_ok by lia.
  split; f_equal; lia.
Qed.

Section boot_properties.
Context `{BootMemoryMap}.
Implicit Types memory_map : list MemoryRegion.

Lemma early_init_ok memory_map :
  map_ok memory_map →
  ∃ p, Physmem.early_init (mkPhysMem None None None) memory_map = Ret p ∧
    phys_owns p (zone_usable Low memory_map) ∅ ∧ covered p memory_map Low ∧
    mem_shape p Normal = None ∧ mem_shape p High = None.
Proof.
  intros Hmap. destruct zone_extents as (El & _ & _). unfold Physmem.early_init.
  change UNUSED_LOW_FRAMES with (zone_extent Low).1. change LOW_REGION_FRAMES with (zone_extent Low).2.
  set (bm := replicate (Z.to_nat Physmem.LOW_REGION_BITMASK_BYTES) 0).
  assert (bit_count bm = 4096) as Hbc by done.
  destruct (zone_extent_bounds Low) as [Hb1 Hb2].
  destruct (new_owns (zone_extent Low).1 (zone_extent Low).2 memory_map bm)
    as (bm' & n & -> & Hbc' & Hown); [done|done|done|lia| |].
  { apply Forall_forall. intros f [Hf _]%elem_of_window. rewrite El in *. cbn in *. lia. }
  rewrite bind_bind_Ret. eexists. split; [done|]. split_and!; [| |done|done].
  - pose proof (λ r, phys_owns_grow Low (mkPhysMem None None None) r ∅ ∅ (zone_usable Low memory_map)) as Hg.
    setoid_rewrite union_empty_l_L in Hg. apply (Hg _); [|done|done|].
    + split; [intros []; by split; apply set_eq; set_solver|set_solver].
    + by replace (in_zone Low ∅) with (∅ : gset Z) by set_solver.
  - exists (length bm'). split; [done|]. apply Forall_forall. intros f [Hf _]%elem_of_window.
    unfold bit_count in *. rewrite El in *. cbn in *. lia.
Qed.

(** [early_init] brings up the low region: it never panics on a memory map
    of disjoint page ranges, and afterwards exactly the usable frames from
    64 KiB to 16 MiB are free. *)
Theorem early_init_correct memory_map :
  map_ok memory_map →
  ∃ p, Physmem.early_init (mkPhysMem None None None) memory_map = Ret p ∧
    phys_owns p (zone_usable Low memory_map) ∅ ∧ covered p memory_map Low ∧
    mem_shape p Normal = None ∧ mem_shape p High = None.
Proof. apply early_init_ok. Qed.


(** [init_reclaim] adds exactly the frames the boot loader no longer needs:
    its assertion that none of them is already free never fires, and no mask is
    indexed out of bounds. *)
Theorem init_reclaim_correct p F H0 memory_map :
  map_ok memory_map → phys_owns p F H0 → (∀ z, covered p memory_map z) →
  F ∪ H0 ⊆ list_to_set (map_frames usable memory_map) →
  ∃ p', Physmem.init_reclaim p memory_map = Ret p' ∧
    phys_owns p' (F ∪ zone_reclaimable Low memory_map ∪ zone_reclaimable Normal memory_map
                    ∪ zone_reclaimable High memory_map) H0.
Proof.
  intros Hmap Hown Hc Hus.
  assert (∀ z z' G, z ≠ z' → in_zone z (G ∪ zone_reclaimable z' memory_map) = in_zone z G) as Hother.
  { intros z z' G Hne. apply set_eq. intros f. rewrite !elem_of_in_zone, elem_of_union.
    split; [|tauto]. intros [Hf [?|Hf']]; [done|]. destruct Hne.
    apply elem_of_list_to_set, elem_of_window in Hf' as [? _]. by eapply zone_unique. }
  destruct (reclaim_zone Low p F H0 memory_map) as (l & l' & El & Rl & Ol); [done|done|apply Hc|set_solver|].
  destruct (reclaim_zone Normal (set_region Low p (Some l')) (F ∪ zone_reclaimable Low memory_map) H0 memory_map)
    as (n & n' & En & Rn & On); [done|done| | |].
  { unfold covered. rewrite mem_shape_set, bool_decide_false by done. apply Hc. }
  { intros f Hf. apply Hus.
    assert (f ∈ in_zone Normal (F ∪ H0)) as [_ ?]%elem_of_in_zone; [|done].
    rewrite <- (Hother Normal Low) by done. clear -Hf. set_solver. }
  destruct (reclaim_zone High (set_region Normal (set_region Low p (Some l')) (Some n'))
    (F ∪ zone_reclaimable Low memory_map ∪ zone_reclaimable Normal memory_map) H0 memory_map)
    as (h & h' & Eh & Rh & Oh); [done|done| | |].
  { unfold covered. rewrite !mem_shape_set, !bool_decide_false by done. apply Hc. }
  { intros f Hf. apply Hus.
    assert (f ∈ in_zone High (F ∪ H0)) as [_ ?]%elem_of_in_zone; [|done].
    rewrite <- (Hother High Low), <- (Hother High Normal) by done. clear -Hf. set_solver. }
  eexists. split; [|exact Oh]. unfold Physmem.init_reclaim, InitMutex.lock. cbn in El, En, Eh.
  rewrite El. cbn. rewrite Rl. cbn. rewrite En. cbn. rewrite Rn. cbn. rewrite Eh. cbn. by rewrite Rh.
Qed.

End boot_properties.

(** ** Witnesses: a small machine *)

Lemma phys_owns_low r F H :
  region_owns r F H → start_frame r = 16 → limit_frame r = 4096 →
  phys_owns (mkPhysMem (Some r) None None) F H.
Proof.
  intros Hown Hs Hl. destruct zone_extents as (El & En & Eh).
  assert (∀ f, f ∈ F ∪ H → 16 ≤ f < 4096) as Hb.
  { intros f Hf. rewrite <- Hs, <- Hl. exact (owns_extent (T := PageFrameRegion) r F H f Hown Hf). }
  assert (∀ X, (∀ f, f ∈ X → 16 ≤ f < 4096) → in_zone Low X = X) as HL.
  { intros X HX. apply set_eq. intros f. rewrite elem_of_in_zone, El. cbn. split; [tauto|]. auto. }
  assert (∀ z X, (∀ f, f ∈ X → 16 ≤ f < 4096) → z ≠ Low → in_zone z X = ∅) as HO.
  { intros z X HX Hz. apply set_eq. intros f. rewrite elem_of_in_zone. split; [|set_solver].
    intros [Hf Hf'%HX]. destruct z; rewrite ?En, ?Eh in Hf; cbn in Hf; [done|lia..]. }
  assert (∀ f, f ∈ F → 16 ≤ f < 4096) as HF by (intros; apply Hb, elem_of_union; auto).
  assert (∀ f, f ∈ H → 16 ≤ f < 4096) as HH by (intros; apply Hb, elem_of_union; auto).
  split.
  - intros []; cbn [region_of locked_owns]; [|by rewrite !HO by done..].
    rewrite !HL, El by done. split; [cbn; by rewrite Hs, Hl|done].
  - intros f Hf. exists Low. rewrite El. by apply Hb.
Qed.

(** Eight frames from 64 KiB, of which 16, 18 and 19 are free and 17 is used. *)
Definition example_region : PageFrameRegion := mkRegion 16 4096 3 1 [13].

Lemma example_region_owns : region_owns example_region (free_set example_region) {[17]}.
Proof.
  assert (∀ f, f ∈ free_set example_region → 16 ≤ f < 24) as Hb.
  { intros f [Hge Hbit]%elem_of_free_set. pose proof (bit_at_true_lt [13] (f - 16) ltac:(cbn in *; lia) Hbit).
    cbn in *. unfold bit_count in *. cbn in *. lia. }
  split; cbn; [|done|done|..].
  - split; cbn; [lia..|by repeat constructor|by vm_compute|intros f Hf%Hb; lia|by vm_compute].
  - intros f ->%elem_of_singleton. by apply elem_of_span_set.
  - intros f ->%elem_of_singleton. lia.
  - intros f [_ Hbit]%elem_of_free_set ->%elem_of_singleton. done.
Qed.

Definition example_memory : PhysMem := mkPhysMem (Some example_region) None None.

Lemma example_memory_owns : phys_owns example_memory (free_set example_region) {[17]}.
Proof. by apply phys_owns_low; [apply example_region_owns| |]. Qed.

Lemma region_allocate_correct_witness :
  ∃ o r', region_allocate_frame example_region = Ret (o, r') ∧ (o = None ↔ free_set example_region = ∅) ∧
    o = Some 16.
Proof.
  destruct (region_allocate_correct example_region _ _ example_region_owns) as (o & r' & Heq & He & _).
  exists o, r'. split_and!; [done|done|]. vm_compute in Heq. injection Heq as <- _. reflexivity.
Defined.

Lemma region_deallocate_correct_witness :
  ∃ r', region_deallocate_frame example_region 17 = Ret r' ∧ r_free_frames r' = 4 ∧ r_used_frames r' = 0.
Proof.
  destruct (region_deallocate_correct example_region _ _ 17 example_region_owns)
    as (r' & Heq & _ & Hf & Hu); [set_solver|].
  exists r'. split_and!; [done|by rewrite Hf|by rewrite Hu].
Defined.

Lemma allocate_kernel_frame_correct_witness :
  ∃ o p', Physmem.allocate_kernel_frame example_memory = Ret (o, p') ∧
    zone_pick [Normal; Low] (free_set example_region) o.
Proof.
  destruct (allocate_kernel_frame_correct _ _ _ example_memory_owns) as (o & p' & Heq & Hp & _). eauto.
Defined.

Lemma allocate_user_frame_correct_witness :
  ∃ o p', Physmem.allocate_user_frame example_memory = Ret (o, p') ∧
    zone_pick [High; Normal; Low] (free_set example_region) o.
Proof.
  destruct (allocate_user_frame_correct _ _ _ example_memory_owns) as (o & p' & Heq & Hp & _). eauto.
Defined.

Lemma deallocate_frame_correct_witness :
  ∃ p', Physmem.deallocate_frame example_memory 17 = Ret p'.
Proof.
  destruct (deallocate_frame_correct _ _ _ 17 example_memory_owns) as (p' & Heq & _); [set_solver|eauto].
Defined.

(** Take frame 16, then give frame 17 back. *)
Lemma frames_exclusive_witness :
  ∃ p' H' F', rtc mem_step (example_memory, {[17]}) (p', H') ∧
    F' ∪ H' = free_set example_region ∪ {[17]} ∧ F' ## H'.
Proof.
  assert (rtc mem_step (example_memory, {[17]})
    (mkPhysMem (Some (mkRegion 16 4096 3 1 [14])) None None, ({[17]} ∪ {[16]}) ∖ {[17]})) as Hrun.
  { eapply rtc_l; [apply (step_user _ _ (Some 16)); reflexivity|].
    eapply rtc_l; [|apply rtc_refl]. eapply step_free; [set_solver|reflexivity]. }
  destruct (frames_exclusive _ _ _ _ _ example_memory_owns Hrun) as (F' & _ & Heq & Hd & _).
  eexists _, _, F'. eauto.
Defined.

Lemma frame_totals_witness :
  Physmem.free_frames example_memory = Ret (Z.of_nat (size (free_set example_region))) ∧
  Physmem.used_frames example_memory = Ret (Z.of_nat (size (C := gset Z) {[17]})).
Proof. exact (frame_totals _ _ _ example_memory_owns). Defined.

(** A boot memory map: type 0 is usable, 1 to 5 are the reclaimable ones. *)
Definition example_boot : BootMemoryMap := {|
  MemoryRegionType := Z; Usable := 0; KernelStack := 1; PageTable := 2; Bootloader := 3;
  BootInfo := 4; Package := 5; Usable_distinct := ltac:(set_solver);
  MemoryRegion := Z * Z * Z; start_addr := λ r, r.1.1; end_addr := λ r, r.1.2; region_type := snd |}.

Definition example_map : list (Z * Z * Z) :=
  [(65536, 81920, 0); (81920, 86016, 1); (16777216, 16785408, 0); (4294967296, 4294971392, 0)].

Lemma example_map_ok : map_ok (H := example_boot) example_map.
Proof.
  split.
  - repeat constructor; vm_compute; done.
  - apply (bool_decide_unpack _). vm_compute. done.
Qed.

Lemma early_init_correct_witness :
  ∃ p, Physmem.early_init (H := example_boot) (mkPhysMem None None None) example_map = Ret p ∧
    phys_owns p (zone_usable (H := example_boot) Low example_map) ∅.
Proof.
  destruct (early_init_correct (H := example_boot) example_map example_map_ok) as (p & Heq & Hown & _). eauto.
Defined.

(** A heap that takes one kernel frame for every bitmask. *)
Definition example_heap (n : Z) (p : PhysMem) : outcome PhysMem :=
  r ← Physmem.allocate_kernel_frame p; Ret r.2.

Lemma example_heap_ok n p F H :
  phys_owns p F H → ∃ p' H', example_heap n p = Ret p' ∧ rtc mem_step (p, H) (p', H').
Proof.
  intros Hown. destruct (implements_kernel p F H Hown) as (o & p' & Heq & _).
  exists p', (H ∪ frame_set o). unfold example_heap. rewrite Heq. split; [done|].
  apply rtc_once. by constructor.
Qed.

(** The example memory covers the map's part below 16 MiB. *)
Lemma example_covered : covered (H := example_boot) example_memory example_map Low.
Proof. exists 1%nat. split; [by vm_compute|]. repeat constructor; vm_compute; done. Qed.


Lemma region_owns_fresh r :
  0 ≤ start_frame r → start_frame r + bit_count (bitmask r) ≤ limit_frame r ≤ 4503599627370496 →
  bytes_ok (bitmask r) → r_free_frames r = Z.of_nat (size (free_set r)) → r_used_frames r = 0 →
  region_owns r (free_set r) ∅.
Proof.
  intros Hs Hl Hb Hf Hu. assert (0 ≤ bit_count (bitmask r)) by (unfold bit_count; lia).
  split; [|done|done|set_solver..]. split; try done; try lia.
  intros f [Hge Hbit]%elem_of_free_set. apply bit_at_true_lt in Hbit; lia.
Qed.

Definition example_normal : PageFrameRegion := mkRegion 4096 1048576 2 0 [3].
Definition example_high : PageFrameRegion := mkRegion 1048576 4503599627370495 1 0 [1].

Lemma example_full_owns :
  phys_owns (mkPhysMem (Some example_region) (Some example_normal) (Some example_high))
    (free_set example_region ∪ free_set example_normal ∪ free_set example_high) {[17]}.
Proof.
  assert (region_owns example_normal (free_set example_normal) ∅) as Hn.
  { apply region_owns_fresh; vm_compute; try done. by repeat constructor. }
  assert (region_owns example_high (free_set example_high) ∅) as Hh.
  { apply region_owns_fresh; vm_compute; try done. by repeat constructor. }
  apply (phys_owns_grow High (mkPhysMem (Some example_region) (Some example_normal) None));
    [apply (phys_owns_grow Normal example_memory); [apply example_memory_owns|..]|..]; done.
Qed.

Lemma example_full_covered z :
  covered (H := example_boot)
    (mkPhysMem (Some example_region) (Some example_normal) (Some example_high)) example_map z.
Proof. destruct z; exists 1%nat; (split; [by vm_compute|]); repeat constructor; vm_compute; done. Qed.

Lemma init_reclaim_correct_witness :
  ∃ p', Physmem.init_reclaim (H := example_boot)
    (mkPhysMem (Some example_region) (Some example_normal) (Some example_high)) example_map = Ret p'.
Proof.
  destruct (init_reclaim_correct (H := example_boot) _ _ _ example_map example_map_ok
    example_full_owns example_full_covered) as (p' & Heq & _); [|eauto].
  apply (bool_decide_unpack _). vm_compute. done.
Defined.
