(* ===== verification/PageEntry.v ===== *)
(** * Page table entries (paging/page_entry.rs)

    A page table entry is a 64-bit word, read in three ways: raw, present and
    not present. The constructors pack a frame, flags, a counter and (for an
    entry that is not present) a page type into disjoint fields; the accessors
    take them out again. *)
From S2P Require Import Prelude Align Physmem.

(** A 64-bit flag set of the [bitflags] macro is the word of its bits;
    [from_bits_truncate] keeps the declared ones. *)
Definition from_bits_truncate (all bits : Z) : Z := Z.land bits all.
Definition contains_flags (flags f : Z) : bool := Z.land flags f =? f.

Module RawPageFlags.
Definition PRESENT : Z := 1.
Definition all : Z := PRESENT.
End RawPageFlags.

Module PresentPageFlags.
Definition WRITABLE : Z := Z.shiftl 1 1.
Definition USER_ACCESSIBLE : Z := Z.shiftl 1 2.
Definition WRITE_THROUGH : Z := Z.shiftl 1 3.
Definition NO_CACHE : Z := Z.shiftl 1 4.
Definition ACCESSED : Z := Z.shiftl 1 5.
Definition DIRTY : Z := Z.shiftl 1 6.
Definition HUGE_PAGE : Z := Z.shiftl 1 7.
Definition GLOBAL : Z := Z.shiftl 1 8.
Definition REGION_HEADER : Z := Z.shiftl 1 9.
Definition BIT_10 : Z := Z.shiftl 1 10.
Definition BIT_11 : Z := Z.shiftl 1 11.
Definition NO_EXECUTE : Z := Z.shiftl 1 63.
Definition all : Z :=
  foldr Z.lor 0 [WRITABLE; USER_ACCESSIBLE; WRITE_THROUGH; NO_CACHE; ACCESSED; DIRTY;
                 HUGE_PAGE; GLOBAL; REGION_HEADER; BIT_10; BIT_11; NO_EXECUTE].
End PresentPageFlags.

Module NotPresentPageFlags.
Definition BIT_9 : Z := Z.shiftl 1 9.
Definition BIT_10 : Z := Z.shiftl 1 10.
Definition BIT_11 : Z := Z.shiftl 1 11.
Definition NO_EXECUTE : Z := Z.shiftl 1 63.
Definition all : Z := foldr Z.lor 0 [BIT_9; BIT_10; BIT_11; NO_EXECUTE].
Definition empty : Z := 0.
End NotPresentPageFlags.

Inductive NotPresentPageType := Unused | GuardPage | RegionHeader.
#[global] Instance NotPresentPageType_eq_dec : EqDecision NotPresentPageType.
Proof. solve_decision. Defined.

(** [page_type as u64] and the derived [FromPrimitive::from_u8]. *)
Definition page_type_code (t : NotPresentPageType) : Z :=
  match t with Unused => 0 | GuardPage => 1 | RegionHeader => 2 end.
Definition page_type_from_u8 (n : Z) : option NotPresentPageType :=
  if n =? 0 then Some Unused else if n =? 1 then Some GuardPage
  else if n =? 2 then Some RegionHeader else None.

(** The three readings of the word, as distinct types. *)
Record RawPte := mkRawPte { raw_bits : Z }.
Record RawPresentPte := mkRawPresentPte { present_bits : Z }.
Record RawNotPresentPte := mkRawNotPresentPte { not_present_bits : Z }.
Inductive KernelStackGuardPagePte := mkKernelStackGuardPagePte.

#[global] Instance RawPte_eq_dec : EqDecision RawPte.
Proof. solve_decision. Defined.
#[global] Instance RawNotPresentPte_eq_dec : EqDecision RawNotPresentPte.
Proof. solve_decision. Defined.

(** [Result<T, InvalidPteError>]. *)
Inductive pte_result (T : Type) := PteOk (t : T) | InvalidPteError (p : RawPte).
Arguments PteOk {T} t.
Arguments InvalidPteError {T} p.

Definition ADDRESS_BITS : Z := 0x000ffffffffff000.

Module Present.

Definition COUNTER_BITS : Z := 0x7ff0000000000000.
Definition COUNTER_SHIFT : Z := 52.
Definition MAX_COUNTER_VALUE : Z := truncate 16 (Z.shiftr COUNTER_BITS COUNTER_SHIFT + 1).

Definition from_frame_flags_and_counter (frame : Frame) (flags counter : Z) : outcome RawPresentPte :=
  assert_ (counter <? MAX_COUNTER_VALUE);;
  addr ← Frame.physical_address frame;
  Ret (mkRawPresentPte
    (Z.lor (Z.lor (Z.lor addr flags) RawPageFlags.PRESENT) (Z.shiftl counter COUNTER_SHIFT))).

Definition from_frame_and_flags (frame : Frame) (flags : Z) : outcome RawPresentPte :=
  from_frame_flags_and_counter frame flags 0.

Definition flags (p : RawPresentPte) : Z := from_bits_truncate PresentPageFlags.all (present_bits p).
Definition frame (p : RawPresentPte) : Frame :=
  Frame.containing_address (Z.land (present_bits p) ADDRESS_BITS).
Definition counter (p : RawPresentPte) : Z :=
  truncate 16 (Z.shiftr (Z.land (present_bits p) COUNTER_BITS) COUNTER_SHIFT).
Definition is_huge (p : RawPresentPte) : bool := contains_flags (flags p) PresentPageFlags.HUGE_PAGE.
Definition to_raw (p : RawPresentPte) : RawPte := mkRawPte (present_bits p).

End Present.

Module NotPresent.

Definition COUNTER_BITS : Z := Present.COUNTER_BITS.
Definition COUNTER_SHIFT : Z := Present.COUNTER_SHIFT.
Definition MAX_COUNTER_VALUE : Z := Present.MAX_COUNTER_VALUE.
Definition TYPE_BITS : Z := 0x00000000000001fe.
Definition TYPE_SHIFT : Z := 1.

Definition unused : RawNotPresentPte := mkRawNotPresentPte 0.
Definition is_unused (p : RawNotPresentPte) : bool := bool_decide (p = unused).

Definition from_type_flags_frame_and_counter (page_type : NotPresentPageType) (flags : Z)
    (frame : Frame) (counter : Z) : outcome RawNotPresentPte :=
  assert_ (counter <? MAX_COUNTER_VALUE);;
  addr ← Frame.physical_address frame;
  Ret (mkRawNotPresentPte
    (Z.lor (Z.lor (Z.lor addr flags) (Z.shiftl (page_type_code page_type) TYPE_SHIFT))
           (Z.shiftl counter COUNTER_SHIFT))).

Definition from_type (page_type : NotPresentPageType) : outcome RawNotPresentPte :=
  from_type_flags_frame_and_counter page_type NotPresentPageFlags.empty (Frame.containing_address 0) 0.
Definition from_type_and_counter (page_type : NotPresentPageType) (counter : Z)
    : outcome RawNotPresentPte :=
  from_type_flags_frame_and_counter page_type NotPresentPageFlags.empty (Frame.containing_address 0)
    counter.

Definition page_type (p : RawNotPresentPte) : outcome NotPresentPageType :=
  unwrap (page_type_from_u8
    (truncate 8 (Z.land (Z.shiftr (not_present_bits p) TYPE_SHIFT) TYPE_BITS))).
Definition flags (p : RawNotPresentPte) : Z :=
  from_bits_truncate NotPresentPageFlags.all (not_present_bits p).
Definition frame (p : RawNotPresentPte) : Frame :=
  Frame.containing_address (Z.land (not_present_bits p) ADDRESS_BITS).
Definition counter (p : RawNotPresentPte) : Z :=
  truncate 16 (Z.shiftr (Z.land (not_present_bits p) COUNTER_BITS) COUNTER_SHIFT).
Definition to_raw (p : RawNotPresentPte) : RawPte := mkRawPte (not_present_bits p).

End NotPresent.

Module Raw.

Definition unused : RawPte := mkRawPte 0.
Definition is_unused (p : RawPte) : bool := bool_decide (p = unused).
Definition flags (p : RawPte) : Z := from_bits_truncate RawPageFlags.all (raw_bits p).
Definition is_present (p : RawPte) : bool := contains_flags (flags p) RawPageFlags.PRESENT.
Definition present (p : RawPte) : pte_result RawPresentPte :=
  if is_present p then PteOk (mkRawPresentPte (raw_bits p)) else InvalidPteError p.
Definition not_present (p : RawPte) : pte_result RawNotPresentPte :=
  if is_present p then InvalidPteError p else PteOk (mkRawNotPresentPte (raw_bits p)).

End Raw.

Module GuardPagePte.

Definition to_not_present (g : KernelStackGuardPagePte) : outcome RawNotPresentPte :=
  NotPresent.from_type GuardPage.
Definition try_from (p : RawNotPresentPte) : outcome (pte_result KernelStackGuardPagePte) :=
  t ← NotPresent.page_type p;
  Ret (if bool_decide (t = GuardPage) then PteOk mkKernelStackGuardPagePte
       else InvalidPteError (NotPresent.to_raw p)).

End GuardPagePte.

(** * Proofs *)

(** ** Fields of a word *)

(** A run of [w] ones from bit [lo]. *)
Definition field_mask (lo w : Z) : Z := Z.shiftl (Z.ones w) lo.

Lemma testbit_field_mask lo w i :
  0 ≤ lo → 0 ≤ w → 0 ≤ i → Z.testbit (field_mask lo w) i = (lo <=? i) && (i <? lo + w).
Proof.
  intros Hlo Hw Hi. unfold field_mask. rewrite Z.shiftl_spec by done.
  destruct (Z.leb_spec lo i); cbn.
  - rewrite Z.testbit_ones_nonneg by lia. repeat case_bool; (done || lia).
  - apply Z.testbit_neg_r. lia.
Qed.

Lemma high_bits_zero x n i : 0 ≤ x < 2 ^ n → n ≤ i → Z.testbit x i = false.
Proof.
  intros Hx Hi. destruct (decide (0 ≤ n)) as [Hn|Hn].
  - apply (Z.bounded_iff_bits_nonneg n); lia.
  - rewrite Z.pow_neg_r in Hx by lia. lia.
Qed.

Lemma bits_bound x n : 0 ≤ n → 0 ≤ x → (∀ i, n ≤ i → Z.testbit x i = false) → x < 2 ^ n.
Proof. intros Hn Hx Hb. by apply (Z.bounded_iff_bits_nonneg n). Qed.

(** The bits of a flag set lie among the declared ones. *)
Definition valid_flags (all flags : Z) : Prop := Z.land flags all = flags.

Lemma valid_flags_bit all flags i : valid_flags all flags → Z.testbit all i = false → Z.testbit flags i = false.
Proof. intros Hv Ha. rewrite <- Hv, Z.land_spec, Ha. apply andb_false_r. Qed.

Lemma present_all : PresentPageFlags.all = Z.lor (field_mask 1 11) (field_mask 63 1).
Proof. done. Qed.
Lemma not_present_all : NotPresentPageFlags.all = Z.lor (field_mask 9 3) (field_mask 63 1).
Proof. done. Qed.
Lemma address_bits : ADDRESS_BITS = field_mask 12 40.
Proof. done. Qed.
Lemma counter_bits : Present.COUNTER_BITS = field_mask 52 11.
Proof. done. Qed.

Lemma containing_address_shiftr a : is_usize a → Frame.containing_address a = Z.shiftr a 12.
Proof.
  intros Ha. unfold Frame.containing_address. rewrite page_align_down_spec by done.
  rewrite Z.shiftr_div_pow2 by done. change (2 ^ 12) with 4096. unfold round_down, PAGE_SIZE. mlia.
Qed.

(** The word both constructors build: an address, two groups of low bits and a
    counter. *)
Definition pack (frame low1 low2 counter : Z) : Z :=
  Z.lor (Z.lor (Z.lor (frame * PAGE_SIZE) low1) low2) (Z.shiftl counter 52).

Section pack.
Context (frame low1 low2 counter : Z).
Context (Hframe : 0 ≤ frame < 2 ^ 40) (Hcounter : 0 ≤ counter < 2 ^ 11).
Context (Hlow1 : 0 ≤ low1 < 2 ^ 64) (Hlow2 : 0 ≤ low2 < 2 ^ 64).
(** The low bits keep clear of the address and the counter. *)
Context (Hclear : ∀ i, 12 ≤ i < 63 → Z.testbit (Z.lor low1 low2) i = false).

Lemma pack_bit i :
  0 ≤ i →
  Z.testbit (pack frame low1 low2 counter) i =
    if i <? 12 then Z.testbit (Z.lor low1 low2) i
    else if i <? 52 then Z.testbit frame (i - 12)
    else if i <? 63 then Z.testbit counter (i - 52)
    else if i =? 63 then Z.testbit (Z.lor low1 low2) i
    else false.
Proof.
  intros Hi. unfold pack. change PAGE_SIZE with (2 ^ 12). rewrite <- Z.shiftl_mul_pow2 by done.
  rewrite <- (Z.lor_assoc _ low1 low2).
  assert (∀ j, 64 ≤ j → Z.testbit (Z.lor low1 low2) j = false) as Hhigh.
  { intros j Hj. by rewrite Z.lor_spec, (high_bits_zero low1 64), (high_bits_zero low2 64). }
  pose proof Hclear as Hc. revert Hc Hhigh. generalize (Z.lor low1 low2). intros low Hc Hhigh.
  rewrite !Z.lor_spec, !Z.shiftl_spec by done.
  destruct (Z.ltb_spec i 12).
  { rewrite (Z.testbit_neg_r frame), (Z.testbit_neg_r counter) by lia. apply orb_false_r. }
  destruct (Z.ltb_spec i 52).
  { rewrite Hc, (Z.testbit_neg_r counter) by lia. by rewrite !orb_false_r. }
  rewrite (high_bits_zero frame 40) by lia. cbn [orb].
  destruct (Z.ltb_spec i 63); [rewrite Hc by lia; done|].
  rewrite (high_bits_zero counter 11) by lia. rewrite orb_false_r.
  destruct (Z.eqb_spec i 63); [done|]. apply Hhigh. lia.
Qed.

Lemma pack_nonneg : 0 ≤ pack frame low1 low2 counter.
Proof.
  unfold pack, PAGE_SIZE. rewrite !Z.lor_nonneg, Z.shiftl_nonneg. lia.
Qed.

Lemma pack_word : 0 ≤ pack frame low1 low2 counter < 2 ^ 64.
Proof.
  split; [apply pack_nonneg|]. apply bits_bound; [done|apply pack_nonneg|].
  intros i Hi. rewrite pack_bit by lia. by repeat (case_bool; try lia).
Qed.

Lemma pack_frame :
  Frame.containing_address (Z.land (pack frame low1 low2 counter) ADDRESS_BITS) = frame.
Proof.
  pose proof pack_word as Hw. pose proof pack_nonneg as Hn.
  assert (0 ≤ Z.land (pack frame low1 low2 counter) ADDRESS_BITS) as Hn'.
  { apply Z.land_nonneg. by left. }
  rewrite containing_address_shiftr.
  - apply Z.bits_inj'. intros i Hi. rewrite Z.shiftr_spec, Z.land_spec, address_bits by done.
    rewrite testbit_field_mask, pack_bit by lia.
    destruct (Z.ltb_spec (i + 12) 52).
    + repeat (case_bool; try lia). rewrite andb_true_r. f_equal. lia.
    + rewrite (high_bits_zero frame 40) by lia. repeat (case_bool; try lia); by rewrite ?andb_false_r.
  - split; [done|]. change usize_limit with (2 ^ 64). apply bits_bound; [done|done|].
    intros i Hi. rewrite Z.land_spec, (high_bits_zero (pack _ _ _ _) 64) by lia. done.
Qed.

Lemma pack_counter :
  truncate 16 (Z.shiftr (Z.land (pack frame low1 low2 counter) Present.COUNTER_BITS) 52) = counter.
Proof.
  unfold truncate. rewrite Z.mod_small.
  all: assert (Z.shiftr (Z.land (pack frame low1 low2 counter) Present.COUNTER_BITS) 52 = counter)
    as ->; [|try done; lia].
  all: apply Z.bits_inj'; intros i Hi; rewrite Z.shiftr_spec, Z.land_spec, counter_bits by done;
    rewrite testbit_field_mask, pack_bit by lia.
  all: destruct (Z.ltb_spec (i + 52) 63);
    [repeat (case_bool; try lia); rewrite andb_true_r; f_equal; lia|].
  all: rewrite (high_bits_zero counter 11) by lia; repeat (case_bool; try lia); by rewrite ?andb_false_r.
Qed.

End pack.

Lemma valid_flags_word all flags :
  0 ≤ all < 2 ^ 64 → valid_flags all flags → 0 ≤ flags < 2 ^ 64.
Proof.
  intros Ha Hv. assert (0 ≤ flags) by (rewrite <- Hv; apply Z.land_nonneg; lia).
  split; [done|]. apply bits_bound; [done|done|]. intros i Hi.
  apply (valid_flags_bit all); [done|]. by apply (high_bits_zero all 64).
Qed.

Lemma truncated_valid all bits : valid_flags all (from_bits_truncate all bits).
Proof. unfold valid_flags, from_bits_truncate. by rewrite <- Z.land_assoc, Z.land_diag. Qed.

Lemma present_all_bit i :
  0 ≤ i → Z.testbit PresentPageFlags.all i = ((1 <=? i) && (i <? 12)) || (i =? 63).
Proof.
  intros Hi. rewrite present_all, Z.lor_spec, !testbit_field_mask by lia.
  f_equal. repeat (case_bool; try lia); done.
Qed.

Lemma not_present_all_bit i :
  0 ≤ i → Z.testbit NotPresentPageFlags.all i = ((9 <=? i) && (i <? 12)) || (i =? 63).
Proof.
  intros Hi. rewrite not_present_all, Z.lor_spec, !testbit_field_mask by lia.
  f_equal. repeat (case_bool; try lia); done.
Qed.

Lemma testbit_1 i : 0 ≤ i → Z.testbit 1 i = (i =? 0).
Proof.
  intros Hi. change 1 with (2 ^ 0) at 1. rewrite Z.pow2_bits_eqb by lia. apply Z.eqb_sym.
Qed.

Lemma present_clear flags i :
  valid_flags PresentPageFlags.all flags → 12 ≤ i < 63 → Z.testbit (Z.lor flags 1) i = false.
Proof.
  intros Hv Hi. rewrite Z.lor_spec, testbit_1 by lia.
  rewrite (valid_flags_bit _ _ _ Hv) by (rewrite present_all_bit by lia; repeat (case_bool; try lia); done).
  case_bool; (lia || done).
Qed.

(** Taking the flags back out of a packed word. *)
Lemma pack_flags all frame flags low counter :
  0 ≤ frame < 2 ^ 40 → 0 ≤ counter < 2 ^ 11 → 0 ≤ flags < 2 ^ 64 → 0 ≤ low < 2 ^ 64 →
  (∀ i, 12 ≤ i < 63 → Z.testbit (Z.lor flags low) i = false) →
  valid_flags all flags → Z.land all low = 0 →
  (∀ i, 0 ≤ i → Z.testbit all i = true → i < 12 ∨ i = 63) →
  from_bits_truncate all (pack frame flags low counter) = flags.
Proof.
  intros Hf Hc Hfl Hlow Hclear Hv Hdisj Hall. apply Z.bits_inj'. intros i Hi.
  unfold from_bits_truncate. rewrite Z.land_spec.
  destruct (Z.testbit all i) eqn:Ea; [|rewrite andb_false_r; by rewrite (valid_flags_bit all)].
  assert (Z.testbit low i = false) as Hl.
  { apply (f_equal (λ z, Z.testbit z i)) in Hdisj. rewrite Z.land_spec, Ea, Z.bits_0 in Hdisj. done. }
  rewrite andb_true_r, pack_bit by done. rewrite !Z.lor_spec, Hl, orb_false_r.
  destruct (Hall i Hi Ea); repeat (case_bool; try lia); done.
Qed.

Lemma not_present_clear flags t i :
  valid_flags NotPresentPageFlags.all flags → 12 ≤ i < 63 →
  Z.testbit (Z.lor flags (Z.shiftl (page_type_code t) 1)) i = false.
Proof.
  intros Hv Hi. rewrite Z.lor_spec.
  rewrite (valid_flags_bit _ _ _ Hv)
    by (rewrite not_present_all_bit by lia; repeat (case_bool; try lia); done).
  apply (high_bits_zero _ 12); [by destruct t|lia].
Qed.

(** The type field as [page_type] decodes it: the mask is applied to the
    shifted word, so bit 0 of the type is lost. *)
Lemma packed_type frame flags t counter :
  0 ≤ frame < 2 ^ 40 → 0 ≤ counter < 2 ^ 11 → valid_flags NotPresentPageFlags.all flags →
  truncate 8 (Z.land (Z.shiftr (pack frame flags (Z.shiftl (page_type_code t) 1) counter)
                        NotPresent.TYPE_SHIFT) NotPresent.TYPE_BITS)
  = Z.land (page_type_code t) (field_mask 1 7).
Proof.
  intros Hf Hc Hv. pose proof (valid_flags_word NotPresentPageFlags.all flags ltac:(done) Hv).
  assert (0 ≤ Z.shiftl (page_type_code t) 1 < 2 ^ 64) by (by destruct t).
  apply Z.bits_inj'. intros i Hi. unfold truncate.
  destruct (Z.ltb_spec i 8); [rewrite Z.mod_pow2_bits_low by lia|
    rewrite Z.mod_pow2_bits_high by lia].
  - change NotPresent.TYPE_BITS with (field_mask 1 8). change NotPresent.TYPE_SHIFT with 1.
    rewrite !Z.land_spec, Z.shiftr_spec, !testbit_field_mask by lia.
    rewrite pack_bit by (try done; try lia; intros; by apply not_present_clear).
    rewrite Z.lor_spec, Z.shiftl_spec by lia.
    destruct (decide (1 ≤ i)); [|repeat (case_bool; try lia); by rewrite ?andb_false_r].
    replace (i + 1 - 1) with i by lia. destruct (decide (i < 8)); [|lia].
    rewrite (valid_flags_bit _ flags (i + 1) Hv)
      by (rewrite not_present_all_bit by lia; repeat (case_bool; try lia); done).
    repeat (case_bool; try lia); done.
  - rewrite Z.land_spec, testbit_field_mask by lia. repeat (case_bool; try lia); by rewrite ?andb_false_r.
Qed.

Lemma present_bit0 x : Raw.is_present (mkRawPte x) = true → Z.testbit x 0 = true.
Proof.
  unfold Raw.is_present, contains_flags, Raw.flags, from_bits_truncate. cbn [raw_bits].
  intros E%Z.eqb_eq. apply (f_equal (λ z, Z.testbit z 0)) in E. rewrite !Z.land_spec in E.
  change (Z.testbit RawPageFlags.PRESENT 0) with true in E.
  change (Z.testbit RawPageFlags.all 0) with true in E. by rewrite !andb_true_r in E.
Qed.

(** The address and counter fields of any word, in range. *)
Lemma word_fields x :
  0 ≤ x < 2 ^ 64 →
  0 ≤ Z.land (Z.shiftr x 12) (Z.ones 40) < 2 ^ 40 ∧
  Frame.containing_address (Z.land x ADDRESS_BITS) = Z.land (Z.shiftr x 12) (Z.ones 40) ∧
  0 ≤ Z.land (Z.shiftr x 52) (Z.ones 11) < 2 ^ 11 ∧
  truncate 16 (Z.shiftr (Z.land x Present.COUNTER_BITS) 52) = Z.land (Z.shiftr x 52) (Z.ones 11).
Proof.
  intros Hx.
  assert (0 ≤ Z.land x ADDRESS_BITS) as Ha by (apply Z.land_nonneg; left; lia).
  assert (0 ≤ Z.land (Z.shiftr x 52) (Z.ones 11) < 2 ^ 11) as Hc.
  { rewrite Z.land_ones by done. by apply Z.mod_pos_bound. }
  split_and!; try apply Hc.
  1,2: rewrite Z.land_ones by done; by apply Z.mod_pos_bound.
  - rewrite containing_address_shiftr.
    + rewrite Z.shiftr_land. done.
    + split; [done|]. change usize_limit with (2 ^ 64). apply bits_bound; [done|done|].
      intros i Hi. by rewrite Z.land_spec, (high_bits_zero x 64).
  - rewrite Z.shiftr_land. change (Z.shiftr Present.COUNTER_BITS 52) with (Z.ones 11).
    unfold truncate. apply Z.mod_small. lia.
Qed.

Lemma present_fields frame flags counter :
  0 ≤ frame < 2 ^ 40 → valid_flags PresentPageFlags.all flags →
  0 ≤ counter < Present.MAX_COUNTER_VALUE →
  ∃ p, Present.from_frame_flags_and_counter frame flags counter = Ret p ∧
    0 ≤ present_bits p < 2 ^ 64 ∧
    Present.frame p = frame ∧ Present.flags p = flags ∧ Present.counter p = counter ∧
    Raw.present (Present.to_raw p) = PteOk p.
Proof.
  intros Hf Hv Hc. change Present.MAX_COUNTER_VALUE with (2 ^ 11) in Hc.
  pose proof (valid_flags_word PresentPageFlags.all flags ltac:(done) Hv) as Hfl.
  assert (∀ i, 12 ≤ i < 63 → Z.testbit (Z.lor flags 1) i = false) as Hclear
    by (intros; by apply present_clear).
  unfold Present.from_frame_flags_and_counter, Frame.physical_address, Frame.index.
  change Present.MAX_COUNTER_VALUE with (2 ^ 11). step_by lia.
  rewrite umul_ok, bind_bind_Ret by (unfold PAGE_SIZE; lia).
  change (Z.lor (Z.lor (Z.lor (frame * PAGE_SIZE) flags) RawPageFlags.PRESENT)
    (Z.shiftl counter Present.COUNTER_SHIFT)) with (pack frame flags 1 counter).
  eexists. split; [done|]. unfold Present.frame, Present.flags, Present.counter. cbn [present_bits].
  split_and!; [by apply pack_word..|by apply pack_frame| |by apply pack_counter|].
  - apply pack_flags; try done. intros i Hi. rewrite present_all_bit by done.
    repeat (case_bool; try lia); done.
  - unfold Raw.present, Raw.is_present, Raw.flags, contains_flags, from_bits_truncate, Present.to_raw.
    cbn [raw_bits present_bits].
    replace (Z.land (Z.land (pack frame flags 1 counter) RawPageFlags.all) RawPageFlags.PRESENT) with 1; [done|].
    apply Z.bits_inj'. intros i Hi. rewrite !Z.land_spec, pack_bit by done.
    change (Z.testbit RawPageFlags.all i) with (Z.testbit 1 i).
    change (Z.testbit RawPageFlags.PRESENT i) with (Z.testbit 1 i).
    rewrite Z.lor_spec, testbit_1 by done. repeat (case_bool; try lia); by rewrite ?orb_true_r, ?andb_false_r.
Qed.

(** ** Properties *)

(** C34: a present entry gives back the frame, the flags and the counter it was
    built from, whatever they are in their ranges; it is a 64-bit word that
    reads as present. *)
Theorem present_pte_roundtrip frame flags counter :
  0 ≤ frame < 2 ^ 40 → valid_flags PresentPageFlags.all flags →
  0 ≤ counter < Present.MAX_COUNTER_VALUE →
  ∃ p, Present.from_frame_flags_and_counter frame flags counter = Ret p ∧
    0 ≤ present_bits p < 2 ^ 64 ∧
    Present.frame p = frame ∧ Present.flags p = flags ∧ Present.counter p = counter ∧
    Raw.present (Present.to_raw p) = PteOk p.
Proof. apply present_fields. Qed.

(** A not-present entry gives back its frame, flags and counter, and reads
    as not present; its page type is recovered, except that a guard page reads
    back as unused. *)
Theorem not_present_pte_roundtrip t flags frame counter :
  0 ≤ frame < 2 ^ 40 → valid_flags NotPresentPageFlags.all flags →
  0 ≤ counter < NotPresent.MAX_COUNTER_VALUE →
  ∃ p, NotPresent.from_type_flags_frame_and_counter t flags frame counter = Ret p ∧
    0 ≤ not_present_bits p < 2 ^ 64 ∧
    NotPresent.frame p = frame ∧ NotPresent.flags p = flags ∧ NotPresent.counter p = counter ∧
    Raw.not_present (NotPresent.to_raw p) = PteOk p ∧
    NotPresent.page_type p = Ret (if bool_decide (t = GuardPage) then Unused else t).
Proof.
  intros Hf Hv Hc. change NotPresent.MAX_COUNTER_VALUE with (2 ^ 11) in Hc.
  pose proof (valid_flags_word NotPresentPageFlags.all flags ltac:(done) Hv) as Hfl.
  pose proof (not_present_clear flags t) as Hclear.
  assert (0 ≤ Z.shiftl (page_type_code t) 1 < 2 ^ 64) as Hlow by (by destruct t).
  unfold NotPresent.from_type_flags_frame_and_counter, Frame.physical_address, Frame.index.
  change NotPresent.MAX_COUNTER_VALUE with (2 ^ 11). step_by lia.
  rewrite umul_ok, bind_bind_Ret by (unfold PAGE_SIZE; lia).
  change (Z.lor (Z.lor (Z.lor (frame * PAGE_SIZE) flags) (Z.shiftl (page_type_code t) NotPresent.TYPE_SHIFT))
    (Z.shiftl counter NotPresent.COUNTER_SHIFT)) with (pack frame flags (Z.shiftl (page_type_code t) 1) counter).
  eexists. split; [done|]. unfold NotPresent.frame, NotPresent.flags, NotPresent.counter.
  cbn [not_present_bits].
  split_and!; [by apply pack_word; auto..|by apply pack_frame; auto| |by apply pack_counter; auto| |].
  - apply pack_flags; try done; [by auto|by destruct t|].
    intros i Hi. rewrite not_present_all_bit by done. repeat (case_bool; try lia); done.
  - unfold Raw.not_present, Raw.is_present, Raw.flags, contains_flags, from_bits_truncate.
    replace (Z.land _ RawPageFlags.PRESENT) with 0; [done|].
    symmetry. apply Z.bits_inj'. intros i Hi. cbn [NotPresent.to_raw raw_bits not_present_bits].
    rewrite !Z.land_spec, pack_bit, Z.bits_0 by auto.
    change (Z.testbit RawPageFlags.PRESENT i) with (Z.testbit 1 i). rewrite testbit_1 by done.
    destruct (Z.eqb_spec i 0) as [->|]; [|by rewrite andb_false_r]. cbn [Z.ltb Z.compare].
    rewrite Z.lor_spec, (valid_flags_bit _ _ _ Hv) by done. by destruct t.
  - unfold NotPresent.page_type. cbn [not_present_bits].
    rewrite (packed_type frame flags t counter) by done. by destruct t.
Qed.

(** Every 64-bit word that reads as present is exactly what the
    constructor builds from its own frame, flags and counter: together with
    [present_pte_roundtrip], present entries and their fields correspond one to
    one. *)
Theorem present_pte_complete x p :
  0 ≤ x < 2 ^ 64 → Raw.present (mkRawPte x) = PteOk p →
  Present.from_frame_flags_and_counter (Present.frame p) (Present.flags p) (Present.counter p) = Ret p.
Proof.
  intros Hx Hp. unfold Raw.present in Hp. destruct (Raw.is_present (mkRawPte x)) eqn:E; [|done].
  injection Hp as <-. cbn [raw_bits].
  assert (Z.testbit x 0 = true) as H0 by (by apply present_bit0).
  destruct (word_fields x Hx) as (Hf & Efr & Hc & Ect).
  pose proof (truncated_valid PresentPageFlags.all x) as Hv.
  pose proof (valid_flags_word PresentPageFlags.all _ ltac:(done) Hv) as Hfl.
  unfold Present.from_frame_flags_and_counter, Present.frame, Present.counter, Present.flags.
  cbn [present_bits]. change Present.COUNTER_SHIFT with 52. rewrite Efr, Ect.
  change Present.MAX_COUNTER_VALUE with (2 ^ 11). step_by lia.
  unfold Frame.physical_address, Frame.index. rewrite umul_ok, bind_bind_Ret by (unfold PAGE_SIZE; lia).
  do 2 f_equal. apply Z.bits_inj'. intros i Hi.
  change (Z.testbit (pack (Z.land (Z.shiftr x 12) (Z.ones 40)) (from_bits_truncate PresentPageFlags.all x) 1
    (Z.land (Z.shiftr x 52) (Z.ones 11))) i = Z.testbit x i).
  rewrite pack_bit by (try done; intros; by apply present_clear).
  unfold from_bits_truncate. rewrite Z.lor_spec, Z.land_spec, present_all_bit, testbit_1 by done.
  rewrite !Z.land_spec. destruct (Z.ltb_spec i 12).
  { destruct (Z.eqb_spec i 0) as [->|]; [by rewrite orb_true_r|].
    repeat (case_bool; try lia). by rewrite andb_true_r, orb_false_r. }
  destruct (Z.ltb_spec i 52).
  { rewrite Z.shiftr_spec, Z.testbit_ones_nonneg by lia. repeat (case_bool; try lia).
    rewrite andb_true_r. f_equal. lia. }
  destruct (Z.ltb_spec i 63).
  { rewrite Z.shiftr_spec, Z.testbit_ones_nonneg by lia. repeat (case_bool; try lia).
    rewrite andb_true_r. f_equal. lia. }
  destruct (Z.eqb_spec i 63) as [->|]; [cbn; by rewrite andb_true_r, orb_false_r|].
  symmetry. apply (high_bits_zero x 64); lia.
Qed.

(** The guard page below a kernel stack cannot be recognised: the entry
    that [KernelStackGuardPagePte] converts to is rejected by the conversion
    back, because [page_type] masks the type field after shifting it. *)
Theorem guard_page_not_recognised :
  ∃ p, GuardPagePte.to_not_present mkKernelStackGuardPagePte = Ret p ∧
    GuardPagePte.try_from p = Ret (InvalidPteError (NotPresent.to_raw p)) ∧
    NotPresent.page_type p = Ret Unused.
Proof. eexists. by vm_compute. Qed.

(** ** Witnesses *)

Lemma present_pte_roundtrip_witness :
  ∃ p, Present.from_frame_flags_and_counter 0x12345
         (Z.lor PresentPageFlags.WRITABLE PresentPageFlags.NO_EXECUTE) 0x7ff = Ret p ∧
    Present.frame p = 0x12345 ∧ Present.counter p = 0x7ff.
Proof.
  destruct (present_pte_roundtrip 0x12345 (Z.lor PresentPageFlags.WRITABLE PresentPageFlags.NO_EXECUTE) 0x7ff)
    as (p & Heq & _ & Hf & _ & Hc & _); [lia|reflexivity|by vm_compute|]. eauto.
Defined.

Lemma not_present_pte_roundtrip_witness :
  ∃ p, NotPresent.from_type_flags_frame_and_counter RegionHeader NotPresentPageFlags.BIT_9 7 3 = Ret p ∧
    NotPresent.page_type p = Ret RegionHeader.
Proof.
  destruct (not_present_pte_roundtrip RegionHeader NotPresentPageFlags.BIT_9 7 3)
    as (p & Heq & _ & _ & _ & _ & _ & Ht); [lia|reflexivity|by vm_compute|]. eauto.
Defined.

Lemma present_pte_complete_witness :
  Present.from_frame_flags_and_counter 0x12345 2 0x7ff = Ret (mkRawPresentPte 0x7ff0000012345003).
Proof.
  exact (present_pte_complete 0x7ff0000012345003 (mkRawPresentPte 0x7ff0000012345003)
    ltac:(lia) eq_refl).
Defined.
