(* ===== verification/PageTable.v ===== *)
(** * Page tables (paging/table.rs, paging/mapper.rs and the page-table part of
    paging/mod.rs)

    Page tables live in physical frames and are reached through the identity
    map of the first 4 GiB. The state is the memory of the machine: the words
    of every frame, the frame database, the root register, the page-table lock
    and the TLB flushes performed. *)
From S2P Require Import Prelude Align Physmem PageEntry.

(** ** The error type of paging/mod.rs *)

Inductive MemoryError :=
  | NotMapped | NoRegionAddressSpaceAvailable | OutOfMemory | InvalidStack | InvalidRegion.

Inductive result (A : Type) := Ok (a : A) | Err (e : MemoryError).
Arguments Ok {A} a.
Arguments Err {A} e.

#[global] Instance MemoryError_eq_dec : EqDecision MemoryError.
Proof. solve_decision. Defined.

(** ** Indices *)

Definition ENTRY_COUNT : Z := 512.

Definition new_truncate (val : Z) : Z := val mod ENTRY_COUNT.

(** [TryFrom<..> for PageTableIndex]: first into a [u16], then in range. *)
Definition index_try_from (val : Z) : option Z :=
  if val <? 65536 then if val <? ENTRY_COUNT then Some val else None else None.

Definition p1_index (va : Z) : Z := new_truncate (truncate 16 (Z.shiftr va 12)).
Definition p2_index (va : Z) : Z := new_truncate (truncate 16 (Z.shiftr (Z.shiftr va 12) 9)).
Definition p3_index (va : Z) : Z :=
  new_truncate (truncate 16 (Z.shiftr (Z.shiftr (Z.shiftr va 12) 9) 9)).
Definition p4_index (va : Z) : Z :=
  new_truncate (truncate 16 (Z.shiftr (Z.shiftr (Z.shiftr (Z.shiftr va 12) 9) 9) 9)).

Definition IDENTITY_MAP_REGION : Z := 0xffff808000000000.
Definition IDENTITY_MAP_SIZE : Z := 0x100000000.
Definition KERNEL_HEAP_BASE : Z := 0xffffff8000000000.
Definition KERNEL_HEAP_LIMIT : Z := 0xffffff80c0000000.
Definition KERNEL_PML4 : Z := p4_index 0xffff800000000000.
Definition IDENTITY_MAP_PML4 : Z := p4_index IDENTITY_MAP_REGION.
Definition KERNEL_DATA_PML4 : Z := p4_index KERNEL_HEAP_BASE.

(** ** The machine *)

(** [MapperFlush(addr)]: the page whose translation must be flushed. *)
Record MapperFlush := mkMapperFlush { flush_page : Z }.

(** [tlb::flush(addr)] and [tlb::flush_all()] with the TLB shootdown. *)
Inductive tlb_event := FlushPage (addr : Z) | FlushAll.

Record Machine := mkMachine {
  ram : Z → Z → Z;             (** the [i]-th 64-bit word of a frame *)
  frames : PhysMem;            (** the frame database *)
  cr3 : Z;
  page_lock : bool;            (** [PAGE_LOCK] is held *)
  tlb_events : list tlb_event; (** most recent first *)
}.

Definition set_ram (m : Machine) (r : Z → Z → Z) : Machine :=
  mkMachine r (frames m) (cr3 m) (page_lock m) (tlb_events m).
Definition set_frames (m : Machine) (p : PhysMem) : Machine :=
  mkMachine (ram m) p (cr3 m) (page_lock m) (tlb_events m).
Definition set_page_lock (m : Machine) (b : bool) : Machine :=
  mkMachine (ram m) (frames m) (cr3 m) b (tlb_events m).
Definition add_tlb_event (m : Machine) (e : tlb_event) : Machine :=
  mkMachine (ram m) (frames m) (cr3 m) (page_lock m) (e :: tlb_events m).

(** [self[index]] and [self[index] = pte] of the table in frame [f]. *)
Definition read_pte (m : Machine) (f i : Z) : RawPte := mkRawPte (ram m f i).
Definition write_pte (m : Machine) (f i : Z) (pte : RawPte) : Machine :=
  set_ram m (λ f' i', if bool_decide (f' = f ∧ i' = i) then raw_bits pte else ram m f' i').

Definition allocate_kernel_frame (m : Machine) : outcome (option Frame * Machine) :=
  r ← Physmem.allocate_kernel_frame (frames m); Ret (r.1, set_frames m r.2).
Definition allocate_user_frame (m : Machine) : outcome (option Frame * Machine) :=
  r ← Physmem.allocate_user_frame (frames m); Ret (r.1, set_frames m r.2).
Definition deallocate_frame (m : Machine) (f : Frame) : outcome Machine :=
  p ← Physmem.deallocate_frame (frames m) f; Ret (set_frames m p).

(** ** The identity map *)

Definition phys_to_virt_addr (phys_addr length : Z) : outcome Z :=
  s ← uadd phys_addr length;
  assert_ (s <? IDENTITY_MAP_SIZE);;
  uadd phys_addr IDENTITY_MAP_REGION.

(** The table in frame [f], reached at its identity-mapped address. *)
Definition table_in_frame (f : Frame) : outcome Frame :=
  phys ← Frame.physical_address f;
  va ← phys_to_virt_addr phys PAGE_SIZE;
  Ret (Frame.containing_address (va - IDENTITY_MAP_REGION)).

(** ** One table *)

Definition zero (m : Machine) (f : Frame) : Machine :=
  foldl (λ m i, write_pte m f i Raw.unused) m (seqZ 0 ENTRY_COUNT).

Definition next_table_frame (m : Machine) (f i : Z) : option Frame :=
  match Raw.present (read_pte m f i) with
  | PteOk present_pte => Some (Present.frame present_pte)
  | InvalidPteError _ => None
  end.

Definition next_table (m : Machine) (f i : Z) : outcome (option Frame) :=
  match next_table_frame m f i with
  | Some g => t ← table_in_frame g; Ret (Some t)
  | None => Ret None
  end.

(** It only ever returns [Ok]: running out of frames panics. *)
Definition create_next_table (m : Machine) (f i : Z) : outcome (result Frame * Machine) :=
  m' ← match next_table_frame m f i with
       | None =>
           assert_ (negb (match Raw.present (read_pte m f i) with
                          | PteOk present_pte => Present.is_huge present_pte
                          | InvalidPteError _ => false end));;
           r ← allocate_kernel_frame m;
           new_page_table ← unwrap r.1;
           pte ← Present.from_frame_and_flags new_page_table
                   (Z.lor PresentPageFlags.WRITABLE PresentPageFlags.USER_ACCESSIBLE);
           Ret (write_pte r.2 f i (Present.to_raw pte))
       | Some _ => Ret m
       end;
  t ← next_table m' f i;
  t' ← unwrap t;
  Ret (Ok t', m').

(** [PageTable<L1>::set_present] and [set_not_present]. *)
Definition l1_do_set_pte (m : Machine) (f i : Z) (new_pte : RawPte) : outcome Machine :=
  assert_ (negb (Raw.is_present (read_pte m f i)));;
  Ret (write_pte m f i new_pte).

(** ** The mapper *)

Definition mapper_new (p4_frame : Frame) : outcome Frame := table_in_frame p4_frame.

(** [o.and_then(|t| t.next_table(i))]. *)
Definition and_then_table (m : Machine) (o : option Frame) (i : Z) : outcome (option Frame) :=
  match o with Some t => next_table m t i | None => Ret None end.

(** The place of an entry: its table and its index. *)
Definition get_pte_for_address (m : Machine) (p4 addr : Z) : outcome (option (Frame * Z)) :=
  p3 ← next_table m p4 (p4_index addr);
  p2 ← and_then_table m p3 (p3_index addr);
  p1 ← and_then_table m p2 (p2_index addr);
  Ret (match p1 with Some t => Some (t, p1_index addr) | None => None end).

(** [r?] on the state-passing side. *)
Definition try_ {A B} (r : result A * Machine) (k : A → Machine → outcome (result B * Machine))
    : outcome (result B * Machine) :=
  match r.1 with Ok a => k a r.2 | Err e => Ret (Err e, r.2) end.

Definition create_pte_mut_for_address (m : Machine) (p4 addr : Z)
    : outcome (result (Frame * Z) * Machine) :=
  r ← create_next_table m p4 (p4_index addr);
  try_ r (λ p3 m,
    r ← create_next_table m p3 (p3_index addr);
    try_ r (λ p2 m,
      r ← create_next_table m p2 (p2_index addr);
      try_ r (λ p1 m, Ret (Ok (p1, p1_index addr), m)))).

Definition map_to (m : Machine) (p4 page : Z) (frame : Frame) (flags : Z)
    : outcome (result MapperFlush * Machine) :=
  r ← create_pte_mut_for_address m p4 page;
  try_ r (λ loc m,
    assert_ (bool_decide (read_pte m loc.1 loc.2 = Raw.unused));;
    assert_ (Raw.is_unused (read_pte m loc.1 loc.2));;
    pte ← Present.from_frame_and_flags frame flags;
    Ret (Ok (mkMapperFlush page), write_pte m loc.1 loc.2 (Present.to_raw pte))).

Definition unmap (m : Machine) (p4 page : Z) (free : bool) : outcome (MapperFlush * Machine) :=
  loc ← get_pte_for_address m p4 page;
  m' ← match loc with
       | Some (t, i) =>
           m' ← (if free then
                   match Raw.present (read_pte m t i) with
                   | PteOk present_pte => deallocate_frame m (Present.frame present_pte)
                   | InvalidPteError _ => Ret m
                   end
                 else Ret m);
           Ret (write_pte m' t i (NotPresent.to_raw NotPresent.unused))
       | None => Ret m
       end;
  Ret (mkMapperFlush page, m').

Definition do_set_pte (m : Machine) (p4 page : Z) (new_pte : RawPte)
    : outcome (result MapperFlush * Machine) :=
  r ← create_pte_mut_for_address m p4 page;
  try_ r (λ loc m,
    assert_ (negb (Raw.is_present (read_pte m loc.1 loc.2)));;
    Ret (Ok (mkMapperFlush page), write_pte m loc.1 loc.2 new_pte)).

Definition set_present (m : Machine) (p4 page : Z) (new_pte : RawPresentPte) :=
  do_set_pte m p4 page (Present.to_raw new_pte).
Definition set_not_present (m : Machine) (p4 page : Z) (new_pte : RawNotPresentPte) :=
  do_set_pte m p4 page (NotPresent.to_raw new_pte).

(** ** The active page table: the lock, the flushers *)

(** Taking [PAGE_LOCK] a second time on the same CPU spins for ever. *)
Definition lock_page_table (m : Machine) : outcome (Frame * Machine) :=
  if page_lock m then Hang
  else p4 ← mapper_new (Frame.containing_address (cr3 m));
       Ret (p4, set_page_lock m true).
Definition unlock_page_table (m : Machine) : Machine := set_page_lock m false.

Module MapperFlushAll.
Definition new : bool := false.
Definition consume (self : bool) (flush : MapperFlush) : bool := true.
Definition flush (self : bool) (m : Machine) : Machine :=
  if self then add_tlb_event m FlushAll else m.
End MapperFlushAll.

Definition flush (f : MapperFlush) (m : Machine) : Machine := add_tlb_event m (FlushPage (flush_page f)).

(** * Proofs *)

(** ** Index arithmetic *)

Lemma index_trunc x : 0 ≤ x → new_truncate (truncate 16 x) = x mod 512.
Proof.
  intros Hx. unfold new_truncate, truncate, ENTRY_COUNT. change (2 ^ 16) with 65536. mlia.
Qed.

Lemma index_values va :
  0 ≤ va →
  p1_index va = va / 2 ^ 12 mod 512 ∧ p2_index va = va / 2 ^ 21 mod 512 ∧
  p3_index va = va / 2 ^ 30 mod 512 ∧ p4_index va = va / 2 ^ 39 mod 512.
Proof.
  intros Hva. unfold p1_index, p2_index, p3_index, p4_index.
  rewrite !Z.shiftr_shiftr by done. cbn [Z.add Pos.add].
  rewrite !index_trunc by (apply Z.shiftr_nonneg; lia).
  rewrite !Z.shiftr_div_pow2 by done. done.
Qed.

Lemma index_range i : 0 ≤ new_truncate i < 512.
Proof. unfold new_truncate, ENTRY_COUNT. apply Z.mod_pos_bound. lia. Qed.

(** The four indices of an address are its canonical 48-bit page number. *)
Definition same_page (va va' : Z) : Prop :=
  p4_index va = p4_index va' ∧ p3_index va = p3_index va' ∧
  p2_index va = p2_index va' ∧ p1_index va = p1_index va'.

#[global] Instance same_page_dec va va' : Decision (same_page va va').
Proof. unfold same_page. apply _. Defined.

Lemma same_page_iff va va' :
  0 ≤ va → 0 ≤ va' →
  same_page va va' ↔ (va / PAGE_SIZE) mod 2 ^ 36 = (va' / PAGE_SIZE) mod 2 ^ 36.
Proof.
  intros Hva Hva'. unfold same_page.
  destruct (index_values va Hva) as (-> & -> & -> & ->).
  destruct (index_values va' Hva') as (-> & -> & -> & ->). unfold PAGE_SIZE.
  change (2 ^ 12) with 4096. change (2 ^ 36) with 68719476736.
  replace (va / 2 ^ 21) with (va / 4096 / 512) by (rewrite Z.div_div by lia; done).
  replace (va / 2 ^ 30) with (va / 4096 / 512 / 512) by (rewrite !Z.div_div by lia; done).
  replace (va / 2 ^ 39) with (va / 4096 / 512 / 512 / 512) by (rewrite !Z.div_div by lia; done).
  replace (va' / 2 ^ 21) with (va' / 4096 / 512) by (rewrite Z.div_div by lia; done).
  replace (va' / 2 ^ 30) with (va' / 4096 / 512 / 512) by (rewrite !Z.div_div by lia; done).
  replace (va' / 2 ^ 39) with (va' / 4096 / 512 / 512 / 512) by (rewrite !Z.div_div by lia; done).
  generalize (va / 4096) (va' / 4096). clear. intros n n'.
  assert (∀ x, x mod 68719476736 =
    x mod 512 + 512 * (x / 512 mod 512) + 262144 * (x / 512 / 512 mod 512)
    + 134217728 * (x / 512 / 512 / 512 mod 512)) as Hx by (intros; mlia).
  rewrite (Hx n), (Hx n').
  assert (∀ x, 0 ≤ x mod 512 < 512) as Hb by (intros; apply Z.mod_pos_bound; lia).
  pose proof (Hb n). pose proof (Hb n'). pose proof (Hb (n / 512)). pose proof (Hb (n' / 512)).
  pose proof (Hb (n / 512 / 512)). pose proof (Hb (n' / 512 / 512)).
  pose proof (Hb (n / 512 / 512 / 512)). pose proof (Hb (n' / 512 / 512 / 512)). lia.
Qed.

(** ** Reaching a table through the identity map *)

Definition table_frame (f : Z) : Prop := 0 ≤ f < 1048575.

Lemma table_in_frame_ok f : table_frame f → table_in_frame f = Ret f.
Proof.
  unfold table_frame. intros Hf. unfold table_in_frame, Frame.physical_address, Frame.index, phys_to_virt_addr.
  unfold PAGE_SIZE, IDENTITY_MAP_SIZE, IDENTITY_MAP_REGION.
  do 4 step_by lia. rewrite containing_address_shiftr by (unfold is_usize; lia).
  rewrite Z.shiftr_div_pow2 by done. f_equal. change (2 ^ 12) with 4096. mlia.
Qed.

(** ** The walk as a pure function *)

Definition huge_entry (m : Machine) (f i : Z) : bool :=
  match Raw.present (read_pte m f i) with
  | PteOk present_pte => Present.is_huge present_pte
  | InvalidPteError _ => false
  end.

Definition walk (m : Machine) (p4 va : Z) : option (Z * Z) :=
  p3 ← next_table_frame m p4 (p4_index va);
  p2 ← next_table_frame m p3 (p3_index va);
  p1 ← next_table_frame m p2 (p2_index va);
  Some (p1, p1_index va).

(** What the tables say about an address. *)
Definition translate (m : Machine) (p4 va : Z) : RawPte :=
  match walk m p4 va with Some (t, i) => read_pte m t i | None => Raw.unused end.

(** No entry on the way to an address maps a huge page. *)
Definition plain (m : Machine) (p4 va : Z) : Prop :=
  huge_entry m p4 (p4_index va) = false ∧
  ∀ t3, next_table_frame m p4 (p4_index va) = Some t3 →
    huge_entry m t3 (p3_index va) = false ∧
    ∀ t2, next_table_frame m t3 (p3_index va) = Some t2 → huge_entry m t2 (p2_index va) = false.

(** The page tables form a tree: [G] gives every table frame the indices that
    lead to it from the root. *)
Record tables_ok (m : Machine) (p4 : Z) (G : gmap Z (list Z)) (F H : gset Z) : Prop := {
  tab_root : G !! p4 = Some [];
  tab_child : ∀ f pre i c, G !! f = Some pre → (length pre < 3)%nat →
    next_table_frame m f i = Some c → huge_entry m f i = false → G !! c = Some (pre ++ [i]);
  tab_range : ∀ f pre, G !! f = Some pre → table_frame f;
  tab_held : ∀ f pre, G !! f = Some pre → f ∈ H;
  tab_phys : phys_owns (frames m) F H;
  tab_last : 1048575 ∉ F;
}.

(** The free frames hold zeroes. *)
Definition clean (m : Machine) (F : gset Z) : Prop := ∀ f i, f ∈ F → ram m f i = 0.

(** A frame the database does not know is no table. *)
Lemma outside_table m p4 G F H f : tables_ok m p4 G F H → f ∉ F ∪ H → G !! f = None.
Proof.
  intros Hok Hf. apply eq_None_not_Some. intros [pre Hpre]. apply Hf, elem_of_union_r. exact (tab_held _ _ _ _ _ Hok f pre Hpre).
Qed.

Lemma same_next m m' f i : ram m' f i = ram m f i → next_table_frame m' f i = next_table_frame m f i.
Proof. unfold next_table_frame, read_pte. by intros ->. Qed.

Lemma read_write m f i pte f' i' :
  read_pte (write_pte m f i pte) f' i' =
    if bool_decide (f' = f ∧ i' = i) then pte else read_pte m f' i'.
Proof. unfold read_pte, write_pte. cbn. case_bool_decide; [by destruct pte|done]. Qed.

Lemma next_table_ok m p4 G F H f pre i :
  tables_ok m p4 G F H → G !! f = Some pre → (length pre < 3)%nat → huge_entry m f i = false →
  next_table m f i = Ret (next_table_frame m f i).
Proof.
  intros Hok Hf Hlen Hh. unfold next_table.
  destruct (next_table_frame m f i) as [c|] eqn:E; [|done].
  rewrite table_in_frame_ok; [done|]. eapply tab_range; [done|]. by eapply tab_child.
Qed.

Lemma walk_ok m p4 G F H va :
  tables_ok m p4 G F H → plain m p4 va →
  get_pte_for_address m p4 va = Ret (walk m p4 va) ∧
  ∀ t i, walk m p4 va = Some (t, i) →
    G !! t = Some [p4_index va; p3_index va; p2_index va] ∧ i = p1_index va.
Proof.
  intros Hok (H4 & Hp). unfold get_pte_for_address, walk.
  rewrite (next_table_ok _ _ _ _ _ _ _ _ Hok (tab_root _ _ _ _ _ Hok)) by (done || cbn; lia).
  rewrite bind_bind_Ret. destruct (next_table_frame m p4 (p4_index va)) as [t3|] eqn:E3; [|done].
  destruct (Hp t3 eq_refl) as [H3 Hp3].
  assert (G !! t3 = Some [p4_index va]) as G3 by (by eapply (tab_child _ _ _ _ _ Hok p4 []); [apply Hok|cbn; lia|..]).
  cbn [and_then_table]. rewrite (next_table_ok _ _ _ _ _ _ _ _ Hok G3) by (done || cbn; lia).
  rewrite bind_bind_Ret. cbn [mbind option_bind].
  destruct (next_table_frame m t3 (p3_index va)) as [t2|] eqn:E2; [|done].
  specialize (Hp3 t2 eq_refl).
  assert (G !! t2 = Some [p4_index va; p3_index va]) as G2 by (by eapply (tab_child _ _ _ _ _ Hok t3 [_]); [..|cbn; lia| |]).
  cbn [and_then_table]. rewrite (next_table_ok _ _ _ _ _ _ _ _ Hok G2) by (done || cbn; lia).
  rewrite bind_bind_Ret. cbn [mbind option_bind].
  destruct (next_table_frame m t2 (p2_index va)) as [t1|] eqn:E1; [|done].
  split; [done|]. intros t i [= <- <-]. split; [|done].
  by eapply (tab_child _ _ _ _ _ Hok t2 [_; _]); [..|cbn; lia| |].
Qed.

(** ** Adding a table *)

(** How [create_next_table] changes the machine: tables are added, nothing an
    address translates to changes. *)
Record grown (p4 : Z) (m : Machine) (G : gmap Z (list Z)) (F H : gset Z)
    (m' : Machine) (G' : gmap Z (list Z)) (F' H' : gset Z) : Prop := {
  gr_ok : tables_ok m' p4 G' F' H';
  gr_clean : clean m' F';
  gr_sub : G ⊆ G';
  gr_total : F' ∪ H' = F ∪ H;
  gr_held : H ⊆ H';
  gr_plain : ∀ va, plain m p4 va → plain m' p4 va;
  gr_translate : ∀ va, plain m p4 va → translate m' p4 va = translate m p4 va;
  gr_next : ∀ f i c, next_table_frame m f i = Some c →
    next_table_frame m' f i = Some c ∧ huge_entry m' f i = huge_entry m f i;
  gr_state : cr3 m' = cr3 m ∧ page_lock m' = page_lock m ∧ tlb_events m' = tlb_events m;
  gr_old : ∀ f, f ∈ H → G' !! f = G !! f;
  gr_taken : ∀ f, f ∈ H' → f ∈ H ∨ is_Some (G' !! f);
  gr_ram : ∀ f i, G' !! f = None → ram m' f i = ram m f i;
}.

Lemma grown_refl p4 m G F H : tables_ok m p4 G F H → clean m F → grown p4 m G F H m G F H.
Proof. intros. split; auto. Qed.

Lemma grown_trans p4 m1 G1 F1 H1 m2 G2 F2 H2 m3 G3 F3 H3 :
  grown p4 m1 G1 F1 H1 m2 G2 F2 H2 → grown p4 m2 G2 F2 H2 m3 G3 F3 H3 →
  grown p4 m1 G1 F1 H1 m3 G3 F3 H3.
Proof.
  intros A B. split; try apply B.
  - etransitivity; [apply A|apply B].
  - etransitivity; [apply B|apply A].
  - etransitivity; [apply A|apply B].
  - intros va Hp. apply B, A, Hp.
  - intros va Hp. rewrite (gr_translate _ _ _ _ _ _ _ _ _ B) by (by eapply gr_plain).
    by eapply gr_translate.
  - intros f i c Hn. apply (gr_next _ _ _ _ _ _ _ _ _ A) in Hn as [Hn E1].
    apply (gr_next _ _ _ _ _ _ _ _ _ B) in Hn as [Hn E2]. split; [done|congruence].
  - destruct (gr_state _ _ _ _ _ _ _ _ _ A) as (? & ? & ?).
    destruct (gr_state _ _ _ _ _ _ _ _ _ B) as (? & ? & ?). split_and!; congruence.
  - intros f Hf. rewrite (gr_old _ _ _ _ _ _ _ _ _ B) by (by apply A). by apply A.
  - intros f [Hf|?]%(gr_taken _ _ _ _ _ _ _ _ _ B); [|by right].
    apply (gr_taken _ _ _ _ _ _ _ _ _ A) in Hf as [?|[pre Hpre]]; [by left|right].
    exists pre. eapply lookup_weaken; [done|apply B].
  - intros f i Hf. rewrite (gr_ram _ _ _ _ _ _ _ _ _ B) by done. apply A.
    by eapply lookup_weaken_None; [|apply B].
Qed.

Lemma absent_not_huge m f i : next_table_frame m f i = None → huge_entry m f i = false.
Proof. unfold next_table_frame, huge_entry. by destruct (Raw.present _). Qed.

Lemma zero_entry m f i : ram m f i = 0 → next_table_frame m f i = None.
Proof. intros E. unfold next_table_frame, read_pte. by rewrite E. Qed.

(** Linking a fresh zeroed frame [c] at an entry that was not present. *)
Section link.
Context (m : Machine) (p4 : Z) (G : gmap Z (list Z)) (F H : gset Z).
Context (f i c : Z) (pre : list Z) (p' : PhysMem) (pte : RawPresentPte).
Context (Hok : tables_ok m p4 G F H) (Hclean : clean m F).
Context (Hf : G !! f = Some pre) (Hlen : (length pre < 3)%nat).
Context (Habsent : next_table_frame m f i = None).
Context (Hc : c ∈ F) (Hcr : table_frame c) (Hp' : phys_owns p' (F ∖ {[c]}) (H ∪ {[c]})).
Context (Hpte : Raw.present (Present.to_raw pte) = PteOk pte)
  (Hframe : Present.frame pte = c) (Hhuge : Present.is_huge pte = false).

Abbreviation linked := (write_pte (set_frames m p') f i (Present.to_raw pte)).

Lemma link_next f' i' :
  next_table_frame linked f' i' =
    if bool_decide (f' = f ∧ i' = i) then Some c else next_table_frame m f' i'.
Proof.
  unfold next_table_frame. rewrite read_write. case_bool_decide; [|done].
  by rewrite Hpte, Hframe.
Qed.

Lemma link_huge f' i' : huge_entry linked f' i' = huge_entry m f' i'.
Proof.
  unfold huge_entry. rewrite read_write. case_bool_decide as E; [|done].
  destruct E as [-> ->]. rewrite Hpte, Hhuge. symmetry. by apply absent_not_huge.
Qed.

Lemma link_fresh : G !! c = None.
Proof.
  destruct (G !! c) as [pre'|] eqn:E; [|done]. apply (tab_held _ _ _ _ _ Hok) in E.
  pose proof (phys_disjoint _ _ _ (tab_phys _ _ _ _ _ Hok)). set_solver.
Qed.

Lemma link_ne f' pre' : G !! f' = Some pre' → f' ≠ c.
Proof. intros Hf' ->. by rewrite link_fresh in Hf'. Qed.

(** The new table is empty. *)
Lemma link_new j : next_table_frame linked c j = None ∧ read_pte linked c j = Raw.unused.
Proof.
  assert (c ≠ f) as Hne by (symmetry; by eapply link_ne).
  rewrite link_next, read_write, !bool_decide_false by naive_solver.
  unfold read_pte, Raw.unused. cbn. rewrite Hclean by done.
  split; [|done]. apply zero_entry. by apply Hclean.
Qed.

Lemma link_tables : tables_ok linked p4 (<[c := pre ++ [i]]> G) (F ∖ {[c]}) (H ∪ {[c]}).
Proof.
  split.
  - rewrite lookup_insert_ne; [apply Hok|]. symmetry. eapply link_ne, Hok.
  - intros f' pre' i' c' Hf' Hlen' Hn Hh. rewrite link_huge in Hh.
    destruct (decide (f' = c)) as [->|Hne].
    { destruct (link_new i') as [E _]. congruence. }
    rewrite lookup_insert_ne in Hf' by done. rewrite link_next in Hn. case_bool_decide as E.
    + destruct E as [-> ->]. injection Hn as <-. rewrite Hf in Hf'. injection Hf' as <-.
      apply lookup_insert_eq.
    + pose proof (tab_child _ _ _ _ _ Hok _ _ _ _ Hf' Hlen' Hn Hh) as Hg.
      rewrite lookup_insert_ne; [done|]. symmetry. by eapply link_ne.
  - intros f' pre' [[<- _]|[_ Hg]]%lookup_insert_Some; [done|by eapply tab_range].
  - intros f' pre' [[<- _]|[_ Hg]]%lookup_insert_Some; [set_solver|].
    apply (tab_held _ _ _ _ _ Hok) in Hg. set_solver.
  - done.
  - pose proof (tab_last _ _ _ _ _ Hok). set_solver.
Qed.

Lemma link_walk_dir t idx :
  next_table_frame linked t idx = next_table_frame m t idx ∨
  (next_table_frame m t idx = None ∧ next_table_frame linked t idx = Some c).
Proof.
  rewrite link_next. case_bool_decide as E; [|by left]. destruct E as [-> ->]. auto.
Qed.

Lemma link_plain va : plain m p4 va → plain linked p4 va.
Proof.
  intros [H4 Hp]. split; [by rewrite link_huge|]. intros t3.
  assert (∀ j, huge_entry linked c j = false) as Hnew
    by (intros j; apply absent_not_huge; by destruct (link_new j)).
  destruct (link_walk_dir p4 (p4_index va)) as [-> | [_ ->]].
  - intros E. destruct (Hp t3 E) as [H3 Hp3]. split; [by rewrite link_huge|].
    intros t2. destruct (link_walk_dir t3 (p3_index va)) as [-> | [_ ->]].
    + intros E2. rewrite link_huge. by apply Hp3.
    + intros [= <-]. apply Hnew.
  - intros [= <-]. split; [apply Hnew|]. intros t2. destruct (link_new (p3_index va)) as [-> _]. done.
Qed.

Lemma link_translate va : plain m p4 va → translate linked p4 va = translate m p4 va.
Proof.
  intros Hplain. destruct (walk_ok m p4 G F H va Hok Hplain) as [_ Hw]. unfold translate, walk in *.
  destruct (link_walk_dir p4 (p4_index va)) as [-> | [-> ->]]; cbn.
  2: { by destruct (link_new (p3_index va)) as [-> _]. }
  destruct (next_table_frame m p4 (p4_index va)) as [t3|]; cbn in *; [|done].
  destruct (link_walk_dir t3 (p3_index va)) as [-> | [-> ->]]; cbn.
  2: { by destruct (link_new (p2_index va)) as [-> _]. }
  destruct (next_table_frame m t3 (p3_index va)) as [t2|]; cbn in *; [|done].
  destruct (link_walk_dir t2 (p2_index va)) as [-> | [-> ->]]; cbn.
  2: { by destruct (link_new (p1_index va)) as [_ ->]. }
  destruct (next_table_frame m t2 (p2_index va)) as [t1|]; cbn in *; [|done].
  destruct (Hw _ _ eq_refl) as [Ht1 _]. rewrite read_write, bool_decide_false; [done|].
  intros [-> _]. rewrite Hf in Ht1. injection Ht1 as ->. cbn in Hlen. lia.
Qed.

Lemma link_grown : grown p4 m G F H linked (<[c := pre ++ [i]]> G) (F ∖ {[c]}) (H ∪ {[c]}).
Proof.
  split.
  - apply link_tables.
  - intros f' i' Hf'. unfold write_pte. cbn. rewrite bool_decide_false; [apply Hclean; set_solver|].
    intros [-> _]. pose proof (tab_held _ _ _ _ _ Hok _ _ Hf).
    pose proof (phys_disjoint _ _ _ (tab_phys _ _ _ _ _ Hok)). set_solver.
  - apply insert_subseteq, link_fresh.
  - apply set_eq. intros g. destruct (decide (g = c)); set_solver.
  - set_solver.
  - apply link_plain.
  - apply link_translate.
  - intros f' i' d Hn. rewrite link_huge, link_next. split; [|done].
    case_bool_decide as E; [|done]. destruct E as [-> ->]. congruence.
  - done.
  - intros f' Hf'. rewrite lookup_insert_ne; [done|]. intros ->.
    pose proof (phys_disjoint _ _ _ (tab_phys _ _ _ _ _ Hok)). set_solver.
  - intros f' Hf'. apply elem_of_union in Hf' as [?|E]; [by left|right].
    apply elem_of_singleton in E as ->. by rewrite lookup_insert_eq.
  - intros f' i' Hf'. cbn. rewrite bool_decide_false; [done|]. intros [-> _].
    destruct (decide (f = c)) as [->|Hne]; [by rewrite lookup_insert_eq in Hf'|].
    by rewrite lookup_insert_ne, Hf in Hf'.
Qed.

End link.

(** The frames [allocate_kernel_frame] can hand out. *)
Definition kernel_free (F : gset Z) : gset Z := in_zone Normal F ∪ in_zone Low F.

Lemma kernel_frame_available p F H :
  phys_owns p F H → kernel_free F ≠ ∅ →
  ∃ c p', Physmem.allocate_kernel_frame p = Ret (Some c, p') ∧ c ∈ kernel_free F ∧
    phys_owns p' (F ∖ {[c]}) (H ∪ {[c]}).
Proof.
  intros Hown Hne. destruct (implements_kernel p F H Hown) as (o & p' & Heq & Hp & Hown').
  destruct o as [c|]; cbn in Hp.
  - exists c, p'. split_and!; [done| |done]. unfold kernel_free.
    destruct Hp as [(? & [= ->] & Hc & _)|[_ [(? & [= ->] & Hc & _)|[_ ?]]]]; [set_solver..|done].
  - destruct Hne. destruct Hp as [(? & ? & _)|[E1 [(? & ? & _)|[E2 _]]]]; [done..|].
    unfold kernel_free. by rewrite E1, E2, union_empty_l_L.
Qed.

Lemma kernel_free_range c F : c ∈ kernel_free F → c ∈ F ∧ 0 ≤ c < 1048576.
Proof.
  destruct zone_extents as (El & En & _). unfold kernel_free.
  rewrite elem_of_union, !elem_of_in_zone, El, En. cbn. intuition lia.
Qed.

Lemma kernel_free_delete c F :
  c ∈ kernel_free F → size (kernel_free F) = S (size (kernel_free (F ∖ {[c]}))).
Proof.
  intros Hc. replace (kernel_free (F ∖ {[c]})) with (kernel_free F ∖ {[c]}) by (unfold kernel_free; set_solver).
  rewrite size_difference, size_singleton by set_solver.
  enough (size (kernel_free F) ≠ 0%nat) by lia. intros E%size_empty_inv. set_solver.
Qed.

Lemma create_next_table_ok m p4 G F H f i pre :
  tables_ok m p4 G F H → clean m F → G !! f = Some pre → (length pre < 3)%nat →
  huge_entry m f i = false → (0 < size (kernel_free F))%nat →
  ∃ c m' G' F' H', create_next_table m f i = Ret (Ok c, m') ∧ grown p4 m G F H m' G' F' H' ∧
    G' !! c = Some (pre ++ [i]) ∧ next_table_frame m' f i = Some c ∧ huge_entry m' f i = false ∧
    (size (kernel_free F) ≤ S (size (kernel_free F')))%nat.
Proof.
  intros Hok Hclean Hf Hlen Hh Hfree. unfold create_next_table.
  destruct (next_table_frame m f i) as [c|] eqn:En.
  - pose proof (tab_child _ _ _ _ _ Hok _ _ _ _ Hf Hlen En Hh) as Hc.
    exists c, m, G, F, H. rewrite bind_bind_Ret.
    rewrite (next_table_ok _ _ _ _ _ _ _ _ Hok Hf Hlen Hh), En. cbn.
    split_and!; try done; [by apply grown_refl|lia].
  - destruct (kernel_frame_available _ _ _ (tab_phys _ _ _ _ _ Hok)) as (c & p' & Ha & Hck & Hown').
    { intros E. rewrite E, size_empty in Hfree. lia. }
    destruct (kernel_free_range _ _ Hck) as [HcF Hcr].
    assert (table_frame c) as Hcf.
    { pose proof (tab_last _ _ _ _ _ Hok). unfold table_frame.
      destruct (decide (c = 1048575)) as [->|]; [done|lia]. }
    destruct (present_fields c (Z.lor PresentPageFlags.WRITABLE PresentPageFlags.USER_ACCESSIBLE) 0)
      as (pte & Hpte & _ & Hfr & Hfl & _ & Hpr); [unfold table_frame in Hcf; lia|done|done|].
    assert (Present.is_huge pte = false) as Hnh by (unfold Present.is_huge; by rewrite Hfl).
    pose proof (link_grown m p4 G F H f i c pre p' pte Hok Hclean Hf Hlen En HcF Hcf Hown' Hpr Hfr Hnh) as Hg.
    pose proof (link_next m f i c p' pte Hpr Hfr f i) as Hn. rewrite bool_decide_true in Hn by done.
    pose proof (link_huge m f i p' pte En Hpr Hnh f i) as Hh'.
    set (m' := write_pte (set_frames m p') f i (Present.to_raw pte)) in *.
    exists c, m', (<[c := pre ++ [i]]> G), (F ∖ {[c]}), (H ∪ {[c]}).
    split_and!; [|done|apply lookup_insert_eq|done|by rewrite Hh'|rewrite (kernel_free_delete c F Hck); lia].
    fold (huge_entry m f i). rewrite Hh. unfold allocate_kernel_frame, Present.from_frame_and_flags.
    rewrite Ha. cbn [assert_ negb mbind outcome_bind fst snd unwrap]. rewrite Hpte. cbn [mbind outcome_bind].
    fold m'. assert ((<[c := pre ++ [i]]> G) !! f = Some pre) as Hf'.
    { eapply lookup_weaken; [exact Hf|apply Hg]. }
    rewrite (next_table_ok _ _ _ _ _ _ _ _ (gr_ok _ _ _ _ _ _ _ _ _ Hg) Hf' Hlen) by (by rewrite Hh').
    by rewrite Hn.
Qed.

Lemma create_pte_ok m p4 G F H va :
  tables_ok m p4 G F H → clean m F → plain m p4 va → (3 ≤ size (kernel_free F))%nat →
  ∃ t m' G' F' H',
    create_pte_mut_for_address m p4 va = Ret (Ok (t, p1_index va), m') ∧
    grown p4 m G F H m' G' F' H' ∧ walk m' p4 va = Some (t, p1_index va) ∧
    (size (kernel_free F) ≤ 3 + size (kernel_free F'))%nat.
Proof.
  intros Hok Hclean Hplain Hfree. pose proof Hplain as [H4 _].
  destruct (create_next_table_ok m p4 G F H p4 (p4_index va) []) as
    (t3 & m1 & G1 & F1 & H1 & C1 & g1 & T3 & N1 & _ & S1); [done|done|apply Hok|cbn; lia|done|lia|].
  pose proof (gr_plain _ _ _ _ _ _ _ _ _ g1 _ Hplain) as Hp1.
  destruct (proj2 Hp1 t3 N1) as [H3 _].
  destruct (create_next_table_ok m1 p4 G1 F1 H1 t3 (p3_index va) [p4_index va]) as
    (t2 & m2 & G2 & F2 & H2 & C2 & g2 & T2 & N2 & _ & S2);
    [apply g1|apply g1|done|cbn; lia|done|lia|].
  pose proof (gr_plain _ _ _ _ _ _ _ _ _ g2 _ Hp1) as Hp2.
  pose proof (gr_next _ _ _ _ _ _ _ _ _ g2 _ _ _ N1) as [N1' _].
  pose proof (proj2 (proj2 Hp2 t3 N1') t2 N2) as H2'.
  destruct (create_next_table_ok m2 p4 G2 F2 H2 t2 (p2_index va) [p4_index va; p3_index va]) as
    (t1 & m3 & G3 & F3 & H3' & C3 & g3 & T1 & N3 & _ & S3);
    [apply g2|apply g2|done|cbn; lia|done|lia|].
  pose proof (gr_next _ _ _ _ _ _ _ _ _ g3 _ _ _ N1') as [N1'' _].
  pose proof (gr_next _ _ _ _ _ _ _ _ _ g3 _ _ _ N2) as [N2' _].
  exists t1, m3, G3, F3, H3'. split_and!.
  - unfold create_pte_mut_for_address, try_. rewrite C1. cbn. rewrite C2. cbn. by rewrite C3.
  - eapply grown_trans; [exact g1|]. by eapply grown_trans.
  - unfold walk. rewrite N1''. cbn. rewrite N2'. cbn. by rewrite N3.
  - lia.
Qed.

(** Writing the last-level entry of an address. *)
Section leaf.
Context (m : Machine) (p4 : Z) (G : gmap Z (list Z)) (F H : gset Z) (va t i : Z) (pte : RawPte).
Context (Hok : tables_ok m p4 G F H) (Hplain : plain m p4 va) (Hwalk : walk m p4 va = Some (t, i)).

Abbreviation written := (write_pte m t i pte).

Lemma leaf_table : G !! t = Some [p4_index va; p3_index va; p2_index va] ∧ i = p1_index va.
Proof. by apply (walk_ok m p4 G F H va Hok Hplain). Qed.

Lemma leaf_dir f pre j : G !! f = Some pre → (length pre < 3)%nat → read_pte written f j = read_pte m f j.
Proof.
  intros Hf Hlen. destruct leaf_table as [Ht _]. rewrite read_write, bool_decide_false; [done|].
  intros [-> _]. rewrite Hf in Ht. injection Ht as ->. cbn in Hlen. lia.
Qed.

Lemma leaf_tables : tables_ok written p4 G F H.
Proof.
  split; try apply Hok. intros f pre j c Hf Hlen. unfold next_table_frame, huge_entry.
  rewrite (leaf_dir f pre) by done. by apply (tab_child _ _ _ _ _ Hok).
Qed.

Lemma leaf_clean : clean m F → clean written F.
Proof.
  intros Hc f j Hf. unfold write_pte. cbn. rewrite bool_decide_false; [by apply Hc|].
  intros [-> _]. destruct leaf_table as [Ht _]. apply (tab_held _ _ _ _ _ Hok) in Ht.
  pose proof (phys_disjoint _ _ _ (tab_phys _ _ _ _ _ Hok)). set_solver.
Qed.

(** The way to every other address is unchanged. *)
Lemma leaf_path va' :
  plain m p4 va' → plain written p4 va' ∧ walk written p4 va' = walk m p4 va'.
Proof.
  intros [H4 Hp]. unfold plain, walk.
  assert (∀ f pre j, G !! f = Some pre → (length pre < 3)%nat →
    next_table_frame written f j = next_table_frame m f j ∧
    huge_entry written f j = huge_entry m f j) as Hdir.
  { intros f pre j Hf Hlen. unfold next_table_frame, huge_entry. by rewrite (leaf_dir f pre). }
  pose proof (tab_root _ _ _ _ _ Hok) as G4.
  destruct (Hdir p4 [] (p4_index va') G4 ltac:(cbn; lia)) as [-> ->].
  destruct (next_table_frame m p4 (p4_index va')) as [t3|] eqn:E3; [|naive_solver].
  destruct (Hp t3 eq_refl) as [H3 Hp3].
  pose proof (tab_child _ _ _ _ _ Hok _ _ _ _ G4 ltac:(cbn; lia) E3 H4) as G3.
  destruct (Hdir t3 _ (p3_index va') G3 ltac:(cbn; lia)) as [E3' E3''].
  destruct (next_table_frame m t3 (p3_index va')) as [t2|] eqn:E2; cbn.
  2: { split; [split; [done|]|by rewrite E3', E2]. intros ? [= <-]. rewrite E3', E3''. done. }
  pose proof (tab_child _ _ _ _ _ Hok _ _ _ _ G3 ltac:(cbn; lia) E2 H3) as G2.
  destruct (Hdir t2 _ (p2_index va') G2 ltac:(cbn; lia)) as [E2' E2''].
  split.
  - split; [done|]. intros ? [= <-]. rewrite E3', E3''. split; [done|].
    intros ? [= <-]. rewrite E2''. by apply Hp3.
  - rewrite E3', E2. cbn. by rewrite E2'.
Qed.

Lemma leaf_translate va' :
  plain m p4 va' →
  translate written p4 va' = if decide (same_page va va') then pte else translate m p4 va'.
Proof.
  intros Hp'. destruct (leaf_path va' Hp') as [_ Hw']. unfold translate. rewrite Hw'.
  destruct leaf_table as [Ht Hi]. destruct (walk_ok m p4 G F H va' Hok Hp') as [_ Hg'].
  destruct (decide (same_page va va')) as [(E4 & E3 & E2 & E1)|Hne].
  - replace (walk m p4 va') with (Some (t, i)); [by rewrite read_write, bool_decide_true|].
    rewrite <- Hwalk. unfold walk. by rewrite E4, E3, E2, E1.
  - destruct (walk m p4 va') as [[t' i']|] eqn:E; [|done].
    destruct (Hg' t' i' eq_refl) as [Ht' Hi']. rewrite read_write, bool_decide_false; [done|].
    intros [-> ->]. apply Hne. rewrite Ht in Ht'. injection Ht' as E4 E3 E2. by split_and!; congruence.
Qed.

End leaf.

(** How a successful write of the entry of [page] changes the machine. *)
Record mapped (p4 : Z) (m : Machine) (G : gmap Z (list Z)) (F H : gset Z) (page : Z) (pte : RawPte)
    (m' : Machine) (G' : gmap Z (list Z)) (F' H' : gset Z) : Prop := {
  mp_ok : tables_ok m' p4 G' F' H';
  mp_clean : clean m' F';
  mp_total : F' ∪ H' = F ∪ H;
  mp_held : H ⊆ H';
  mp_free : (size (kernel_free F) ≤ 3 + size (kernel_free F'))%nat;
  mp_plain : ∀ va, plain m p4 va → plain m' p4 va;
  mp_translate : ∀ va, plain m p4 va →
    translate m' p4 va = if decide (same_page page va) then pte else translate m p4 va;
  mp_state : cr3 m' = cr3 m ∧ page_lock m' = page_lock m ∧ tlb_events m' = tlb_events m;
  mp_sub : G ⊆ G';
  mp_old : ∀ f, f ∈ H → G' !! f = G !! f;
  mp_taken : ∀ f, f ∈ H' → f ∈ H ∨ is_Some (G' !! f);
  mp_ram : ∀ f i, G' !! f = None → ram m' f i = ram m f i;
  mp_other : ∀ f i c, f ∉ F ∪ H ∨ (∃ pre, G' !! f = Some pre ∧ (length pre < 3)%nat) →
    next_table_frame m f i = Some c →
    next_table_frame m' f i = Some c ∧ huge_entry m' f i = huge_entry m f i;
}.

(** The entries of the directories, the tables [G] names above the last level,
    lead where they did. *)
Definition dirs_kept (G : gmap Z (list Z)) (m m' : Machine) : Prop :=
  ∀ f pre i c, G !! f = Some pre → (length pre < 3)%nat → next_table_frame m f i = Some c →
    next_table_frame m' f i = Some c ∧ huge_entry m' f i = huge_entry m f i.

Lemma dirs_kept_trans G1 G2 m1 m2 m3 :
  G1 ⊆ G2 → dirs_kept G1 m1 m2 → dirs_kept G2 m2 m3 → dirs_kept G1 m1 m3.
Proof.
  intros Hsub A B f pre i c Hf Hpre Hn. destruct (A f pre i c Hf Hpre Hn) as [Hn2 E2].
  destruct (B f pre i c) as [Hn3 E3]; [by eapply lookup_weaken|done|done|]. split; [done|congruence].
Qed.

Lemma dirs_kept_ram G m m' : ram m' = ram m → dirs_kept G m m'.
Proof. intros E f pre i c _ _. unfold next_table_frame, huge_entry, read_pte. by rewrite E. Qed.

Lemma mapped_dirs p4 m G F H page pte m' G' F' H' : mapped p4 m G F H page pte m' G' F' H' → dirs_kept G m m'.
Proof.
  intros Hm f pre i c Hf Hpre. apply (mp_other _ _ _ _ _ _ _ _ _ _ _ Hm). right. exists pre. split; [|done].
  eapply lookup_weaken; [done|apply Hm].
Qed.

Lemma write_entry_ok m p4 G F H page pte :
  tables_ok m p4 G F H → clean m F → (3 ≤ size (kernel_free F))%nat → plain m p4 page →
  ∃ t m1 G' F' H',
    create_pte_mut_for_address m p4 page = Ret (Ok (t, p1_index page), m1) ∧
    read_pte m1 t (p1_index page) = translate m p4 page ∧
    mapped p4 m G F H page pte (write_pte m1 t (p1_index page) pte) G' F' H'.
Proof.
  intros Hok Hclean Hfree Hplain.
  destruct (create_pte_ok m p4 G F H page Hok Hclean Hplain Hfree)
    as (t & m1 & G1 & F1 & H1 & Hc & Hg & Hw & Hsz).
  pose proof (gr_ok _ _ _ _ _ _ _ _ _ Hg) as Hok1.
  pose proof (gr_plain _ _ _ _ _ _ _ _ _ Hg) as Hpl1.
  exists t, m1, G1, F1, H1. split_and!; [done| |].
  - rewrite <- (gr_translate _ _ _ _ _ _ _ _ _ Hg page Hplain). unfold translate. by rewrite Hw.
  - split.
    + eapply leaf_tables; [done| |done]. auto.
    + eapply leaf_clean; [done| |done|apply Hg]. auto.
    + apply Hg.
    + apply Hg.
    + done.
    + intros va Hva. eapply leaf_path; [done| |done|]; auto.
    + intros va Hva. rewrite (leaf_translate m1 p4 G1 F1 H1 page t) by auto.
      destruct (decide _); [done|]. by eapply gr_translate.
    + apply Hg.
    + apply Hg.
    + apply Hg.
    + apply Hg.
    + intros f i Hf. cbn. rewrite bool_decide_false; [by apply Hg|]. intros [-> _].
      destruct (walk_ok m1 p4 G1 F1 H1 page Hok1 (Hpl1 page Hplain)) as [_ Ht].
      destruct (Ht _ _ Hw) as [Ht' _]. congruence.
    + intros f i c Hf Hn. apply (gr_next _ _ _ _ _ _ _ _ _ Hg) in Hn.
      assert (f ≠ t) as Hne.
      { intros ->. destruct (walk_ok m1 p4 G1 F1 H1 page Hok1 (Hpl1 page Hplain)) as [_ Ht].
        destruct (Ht _ _ Hw) as [Ht' _]. destruct Hf as [Hf|(pre & Hpre & Hlen)].
        - apply (tab_held _ _ _ _ _ Hok1) in Ht'. pose proof (gr_total _ _ _ _ _ _ _ _ _ Hg). set_solver.
        - rewrite Hpre in Ht'. injection Ht' as ->. cbn in Hlen. lia. }
      unfold next_table_frame, huge_entry in *. by rewrite read_write, bool_decide_false by naive_solver.
Qed.

Lemma map_to_ok m p4 G F H page frame flags :
  tables_ok m p4 G F H → clean m F → (3 ≤ size (kernel_free F))%nat →
  plain m p4 page → translate m p4 page = Raw.unused →
  0 ≤ frame < 2 ^ 40 → valid_flags PresentPageFlags.all flags →
  ∃ pte m' G' F' H', map_to m p4 page frame flags = Ret (Ok (mkMapperFlush page), m') ∧
    mapped p4 m G F H page (Present.to_raw pte) m' G' F' H' ∧
    Raw.present (Present.to_raw pte) = PteOk pte ∧
    Present.frame pte = frame ∧ Present.flags pte = flags.
Proof.
  intros Hok Hclean Hfree Hplain Hun Hfr Hfl.
  destruct (present_fields frame flags 0) as (pte & Hpte & _ & Ef & Efl & _ & Hpr); [done|done|done|].
  destruct (write_entry_ok m p4 G F H page (Present.to_raw pte) Hok Hclean Hfree Hplain)
    as (t & m1 & G1 & F1 & H1 & Hc & Hread & Hm).
  eexists pte, _, G1, F1, H1. split_and!; [|exact Hm|done|done|done].
  unfold map_to. rewrite Hc, bind_bind_Ret. cbn [try_ fst snd]. rewrite Hread, Hun. cbn.
  unfold Present.from_frame_and_flags. by rewrite Hpte.
Qed.

Lemma set_not_present_ok m p4 G F H page pte :
  tables_ok m p4 G F H → clean m F → (3 ≤ size (kernel_free F))%nat →
  plain m p4 page → Raw.is_present (translate m p4 page) = false →
  ∃ m' G' F' H', set_not_present m p4 page pte = Ret (Ok (mkMapperFlush page), m') ∧
    mapped p4 m G F H page (NotPresent.to_raw pte) m' G' F' H'.
Proof.
  intros Hok Hclean Hfree Hplain Hun.
  destruct (write_entry_ok m p4 G F H page (NotPresent.to_raw pte) Hok Hclean Hfree Hplain)
    as (t & m1 & G1 & F1 & H1 & Hc & Hread & Hm).
  eexists _, G1, F1, H1. split; [|exact Hm].
  unfold set_not_present, do_set_pte. rewrite Hc, bind_bind_Ret. cbn [try_ fst snd]. by rewrite Hread, Hun.
Qed.

(** The part of [unmap] that gives the frame back. *)
Definition freed_frames (pte : RawPte) (free : bool) : gset Z :=
  match Raw.present pte with
  | PteOk pte => if free then {[Present.frame pte]} else ∅
  | InvalidPteError _ => ∅
  end.

Lemma unmap_free m p4 G F H t i free :
  tables_ok m p4 G F H →
  (∀ pte, free = true → Raw.present (read_pte m t i) = PteOk pte →
     Present.frame pte ∈ H ∧ G !! Present.frame pte = None ∧ Present.frame pte ≠ 1048575) →
  ∃ m', (if free then
           match Raw.present (read_pte m t i) with
           | PteOk present_pte => deallocate_frame m (Present.frame present_pte)
           | InvalidPteError _ => Ret m
           end
         else Ret m) = Ret m' ∧ ram m' = ram m ∧
    (cr3 m' = cr3 m ∧ page_lock m' = page_lock m ∧ tlb_events m' = tlb_events m) ∧
    tables_ok m' p4 G (F ∪ freed_frames (read_pte m t i) free) (H ∖ freed_frames (read_pte m t i) free).
Proof.
  intros Hok Hfr. unfold freed_frames.
  assert (∃ m', Ret m = Ret m' ∧ ram m' = ram m ∧
    (cr3 m' = cr3 m ∧ page_lock m' = page_lock m ∧ tlb_events m' = tlb_events m) ∧
    tables_ok m' p4 G (F ∪ ∅) (H ∖ ∅)) as Hsame.
  { exists m. by rewrite union_empty_r_L, difference_empty_L. }
  destruct (Raw.present (read_pte m t i)) as [pte|]; destruct free; [|done..].
  destruct (Hfr pte eq_refl eq_refl) as (HH & HG & Hl).
  destruct (deallocate_frame_owns _ _ _ _ (tab_phys _ _ _ _ _ Hok) HH) as (p' & Heq & Hown).
  exists (set_frames m p'). unfold deallocate_frame. rewrite Heq. split_and!; [done..|].
  split; try apply Hok; [|done|].
  - intros f pre Hf. apply elem_of_difference. split; [by eapply tab_held|].
    rewrite elem_of_singleton. intros ->. congruence.
  - pose proof (tab_last _ _ _ _ _ Hok). set_solver.
Qed.

(** ** What the processor makes of the tables *)

(** The physical address of a virtual one, huge pages included. *)
Definition hw_translate (m : Machine) (p4 va : Z) : option Z :=
  p3 ← next_table_frame m p4 (p4_index va);
  p2 ← next_table_frame m p3 (p3_index va);
  if huge_entry m p3 (p3_index va) then Some (p2 * PAGE_SIZE + va mod 2 ^ 30)
  else
    p1 ← next_table_frame m p2 (p2_index va);
    if huge_entry m p2 (p2_index va) then Some (p1 * PAGE_SIZE + va mod 2 ^ 21)
    else c ← next_table_frame m p1 (p1_index va); Some (c * PAGE_SIZE + va mod 2 ^ 12).

(** A page whose entry is present, reached through plain tables. *)
Lemma plain_hw m p4 va pte :
  plain m p4 va → Raw.present (translate m p4 va) = PteOk pte →
  hw_translate m p4 va = Some (Present.frame pte * PAGE_SIZE + va mod 2 ^ 12).
Proof.
  intros [H4 Hp] Hpr. unfold hw_translate, translate, walk in *.
  assert (Raw.present Raw.unused ≠ PteOk pte) as Hun by (by vm_compute).
  destruct (next_table_frame m p4 (p4_index va)) as [t3|] eqn:N4; cbn in *; [|congruence].
  destruct (Hp t3 eq_refl) as [H3 Hp3].
  destruct (next_table_frame m t3 (p3_index va)) as [t2|] eqn:N3; cbn in *; [|congruence].
  rewrite H3. destruct (next_table_frame m t2 (p2_index va)) as [t1|] eqn:N2; cbn in *; [|congruence].
  rewrite (Hp3 t2 eq_refl). unfold next_table_frame. by rewrite Hpr.
Qed.

(** A page whose entry is absent faults. *)
Lemma absent_hw m p4 va :
  plain m p4 va → Raw.is_present (translate m p4 va) = false → hw_translate m p4 va = None.
Proof.
  intros [H4 Hp] Hpr. unfold hw_translate, translate, walk in *.
  destruct (next_table_frame m p4 (p4_index va)) as [t3|] eqn:N4; cbn in *; [|done].
  destruct (Hp t3 eq_refl) as [H3 Hp3].
  destruct (next_table_frame m t3 (p3_index va)) as [t2|] eqn:N3; cbn in *; [|done].
  rewrite H3. destruct (next_table_frame m t2 (p2_index va)) as [t1|] eqn:N2; cbn in *; [|done].
  rewrite (Hp3 t2 eq_refl). unfold next_table_frame, Raw.present. by rewrite Hpr.
Qed.

(** How [unmap] changes the machine. *)
Record unmapped (p4 : Z) (m : Machine) (G : gmap Z (list Z)) (F H : gset Z) (page : Z) (free : bool)
    (m' : Machine) : Prop := {
  um_ok : tables_ok m' p4 G (F ∪ freed_frames (translate m p4 page) free)
            (H ∖ freed_frames (translate m p4 page) free);
  um_plain : ∀ va, plain m p4 va → plain m' p4 va;
  um_translate : ∀ va, plain m p4 va →
    translate m' p4 va = if decide (same_page page va) then Raw.unused else translate m p4 va;
  um_state : cr3 m' = cr3 m ∧ page_lock m' = page_lock m ∧ tlb_events m' = tlb_events m;
  um_ram : ∀ f i, G !! f = None → ram m' f i = ram m f i;
}.

Lemma unmap_ok m p4 G F H page free :
  tables_ok m p4 G F H → plain m p4 page →
  (∀ pte, free = true → Raw.present (translate m p4 page) = PteOk pte →
     Present.frame pte ∈ H ∧ G !! Present.frame pte = None ∧ Present.frame pte ≠ 1048575) →
  ∃ m', unmap m p4 page free = Ret (mkMapperFlush page, m') ∧ unmapped p4 m G F H page free m'.
Proof.
  intros Hok Hplain Hfr. destruct (walk_ok m p4 G F H page Hok Hplain) as [Hget Hw].
  unfold unmap. rewrite Hget, bind_bind_Ret.
  assert (translate m p4 page = match walk m p4 page with Some (t, i) => read_pte m t i | None => Raw.unused end)
    as Htr by done.
  destruct (walk m p4 page) as [[t i]|] eqn:Ew.
  2: { exists m. split; [done|]. split; [|done| |done|done].
       - rewrite Htr. change (freed_frames Raw.unused free) with (∅ : gset Z).
         by rewrite union_empty_r_L, difference_empty_L.
       - intros va Hva. destruct (decide _) as [(E4 & E3 & E2 & E1)|]; [|done].
         unfold translate, walk in *. by rewrite <- E4, <- E3, <- E2, <- E1, Ew. }
  destruct (unmap_free m p4 G F H t i free Hok) as (m1 & Hm1 & Hram & Hst & Hok1).
  { intros pte Hf Hp. apply Hfr; [done|]. by rewrite Htr. }
  assert (∀ f j, read_pte m1 f j = read_pte m f j) as Hread by (intros; unfold read_pte; by rewrite Hram).
  assert (∀ va, plain m p4 va → plain m1 p4 va) as Hpl.
  { intros va. unfold plain, next_table_frame, huge_entry, read_pte. by rewrite Hram. }
  assert (∀ va, walk m1 p4 va = walk m p4 va) as Hwk.
  { intros va. unfold walk, next_table_frame, read_pte. by rewrite Hram. }
  assert (walk m1 p4 page = Some (t, i)) as Ew1 by (by rewrite Hwk).
  set (z := NotPresent.to_raw NotPresent.unused).
  exists (write_pte m1 t i z). rewrite Hm1, bind_bind_Ret. split; [done|]. split.
  - rewrite Htr. by eapply leaf_tables; [| |exact Ew1]; auto.
  - intros va Hva. eapply leaf_path; [done| |exact Ew1|]; auto.
  - intros va Hva. rewrite (leaf_translate m1 p4 _ _ _ page t i z Hok1 (Hpl _ Hplain) Ew1) by auto.
    destruct (decide _); [done|]. unfold translate. rewrite Hwk.
    destruct (walk m p4 va) as [[? ?]|]; [apply Hread|done].
  - exact Hst.
  - intros f j Hf. cbn. rewrite bool_decide_false; [by rewrite Hram|]. intros [-> _].
    destruct (Hw _ _ eq_refl) as [Ht _]. congruence.
Qed.

(** ** Properties of the page tables *)

(** C12: mapping a page. With at least three kernel frames left and the free
    frames zeroed, [map_to] never panics on an address that translates to
    nothing; afterwards the address translates to a present entry with exactly
    the frame and flags given, every other address translates as before, and
    the tables are still a tree of held frames. *)
Theorem map_to_correct m p4 G F H page frame flags :
  tables_ok m p4 G F H → clean m F → (3 ≤ size (kernel_free F))%nat →
  plain m p4 page → translate m p4 page = Raw.unused →
  0 ≤ frame < 2 ^ 40 → valid_flags PresentPageFlags.all flags →
  ∃ pte m' G' F' H', map_to m p4 page frame flags = Ret (Ok (mkMapperFlush page), m') ∧
    tables_ok m' p4 G' F' H' ∧ clean m' F' ∧ F' ∪ H' = F ∪ H ∧
    Raw.present (translate m' p4 page) = PteOk pte ∧
    Present.frame pte = frame ∧ Present.flags pte = flags ∧
    ∀ va, plain m p4 va → ¬ same_page page va → translate m' p4 va = translate m p4 va.
Proof.
  intros Hok Hclean Hfree Hplain Hun Hfr Hfl.
  destruct (map_to_ok m p4 G F H page frame flags) as (pte & m' & G' & F' & H' & Heq & Hm & Hpr & Ef & Efl); [done..|].
  exists pte, m', G', F', H'. destruct Hm as [Hok' Hclean' Htot Hheld Hfree' Hplain' Htr Hst].
  split_and!; [done|done|done|done| |done|done|].
  - rewrite Htr by done. by rewrite decide_True.
  - intros va Hva Hne. rewrite Htr by done. by rewrite decide_False.
Qed.

(** C13: unmapping a page. [unmap] never panics on an address whose frame, if
    it is to be freed, is held and is not a table; afterwards the address
    translates to nothing, every other address translates as before, and the
    frame is free exactly when that was asked for. *)
Theorem unmap_correct m p4 G F H page free :
  tables_ok m p4 G F H → plain m p4 page →
  (∀ pte, free = true → Raw.present (translate m p4 page) = PteOk pte →
     Present.frame pte ∈ H ∧ G !! Present.frame pte = None ∧ Present.frame pte ≠ 1048575) →
  ∃ m', unmap m p4 page free = Ret (mkMapperFlush page, m') ∧
    translate m' p4 page = Raw.unused ∧
    (∀ va, plain m p4 va → ¬ same_page page va → translate m' p4 va = translate m p4 va) ∧
    tables_ok m' p4 G (F ∪ freed_frames (translate m p4 page) free)
                      (H ∖ freed_frames (translate m p4 page) free).
Proof.
  intros Hok Hplain Hfr. destruct (unmap_ok m p4 G F H page free Hok Hplain Hfr) as (m' & Heq & [H1 H2 H3 _ _]).
  exists m'. split_and!; [done| | |done].
  - rewrite H3 by done. by rewrite decide_True.
  - intros va Hva Hne. rewrite H3 by done. by rewrite decide_False.
Qed.

(** The four table indices of an address are exactly its 48-bit page
    number: two addresses go through the same last-level entry if and only if
    they lie in the same page of the 48-bit address space. *)
Theorem same_page_spec va va' :
  0 ≤ va → 0 ≤ va' →
  same_page va va' ↔ (va / PAGE_SIZE) mod 2 ^ 36 = (va' / PAGE_SIZE) mod 2 ^ 36.
Proof. apply same_page_iff. Qed.

(** The check "Huge page not supported" of [create_next_table] can never
    fire: an entry that maps a huge page is followed as if it pointed to a
    table, so the words of the data page are read as page table entries. *)
Theorem huge_entry_followed m f i :
  huge_entry m f i = true →
  ∃ pte, Raw.present (read_pte m f i) = PteOk pte ∧ Present.is_huge pte = true ∧
    create_next_table m f i = (t ← table_in_frame (Present.frame pte); Ret (Ok t, m)).
Proof.
  unfold huge_entry, create_next_table, next_table, next_table_frame.
  destruct (Raw.present (read_pte m f i)) as [pte|] eqn:E; [|done]. intros Hh.
  exists pte. split_and!; [done|done|]. rewrite bind_bind_Ret, E.
  by destruct (table_in_frame (Present.frame pte)).
Qed.

(** ** A small machine, for the counterexample and the witnesses

    Frame 17 is an empty root table; frames 16, 18 and 19 are free. *)
Definition example_machine (r : Z → Z → Z) : Machine := mkMachine r example_memory 69632 false [].
Definition zeroed : Z → Z → Z := λ _ _, 0.

Lemma example_tables r :
  (∀ i, r 17 i = 0) →
  tables_ok (example_machine r) 17 {[17 := []]} (free_set example_region) {[17]}.
Proof.
  intros Hr. split.
  - apply lookup_singleton_eq.
  - intros f pre i c [<- _]%lookup_singleton_Some _.
    rewrite zero_entry by apply Hr. done.
  - intros f pre [<- _]%lookup_singleton_Some. unfold table_frame. lia.
  - intros f pre [<- _]%lookup_singleton_Some. set_solver.
  - apply example_memory_owns.
  - intros [_ Hb]%elem_of_free_set. by vm_compute in Hb.
Qed.

Lemma example_plain r va : (∀ i, r 17 i = 0) → plain (example_machine r) 17 va.
Proof.
  intros Hr. assert (∀ i, next_table_frame (example_machine r) 17 i = None) as Hn
    by (intros; by apply zero_entry).
  split; [by apply absent_not_huge|]. intros t3. by rewrite Hn.
Qed.

(** Nothing zeroes the frame that becomes a page table. If a free frame
    still holds words from its last use, [map_to] can panic on an address that
    translates to nothing, and mapping one page can make an unrelated address
    translate to whatever the stale words say. *)
Theorem stale_table_entries :
  (∃ m p4 G F H page, tables_ok m p4 G F H ∧ (3 ≤ size (kernel_free F))%nat ∧
     plain m p4 page ∧ translate m p4 page = Raw.unused ∧
     map_to m p4 page 1 PresentPageFlags.WRITABLE = Panic AssertFailed) ∧
  (∃ m m' p4 G F H page va, tables_ok m p4 G F H ∧ (3 ≤ size (kernel_free F))%nat ∧
     plain m p4 page ∧ translate m p4 page = Raw.unused ∧
     map_to m p4 page 1 PresentPageFlags.WRITABLE = Ret (Ok (mkMapperFlush page), m') ∧
     ¬ same_page page va ∧ translate m p4 va = Raw.unused ∧ translate m' p4 va ≠ Raw.unused).
Proof.
  split.
  - exists (example_machine (λ f i, if bool_decide (f = 19 ∧ i = 0) then 5 else 0)),
      17, {[17 := []]}, (free_set example_region), {[17]}, KERNEL_HEAP_BASE.
    split_and!; [by apply example_tables|vm_compute; lia|by apply example_plain|by vm_compute|by vm_compute].
  - set (m := example_machine (λ f i, if bool_decide (f = 19 ∧ i = 5) then 4099 else 0)).
    set (va := KERNEL_HEAP_BASE + 5 * 4096).
    assert (match map_to m 17 KERNEL_HEAP_BASE 1 PresentPageFlags.WRITABLE with
            | Ret (Ok fl, m') => (flush_page fl =? KERNEL_HEAP_BASE) && negb (raw_bits (translate m' 17 va) =? 0)
            | _ => false end = true) as Hcheck by (by vm_compute).
    destruct (map_to m 17 KERNEL_HEAP_BASE 1 PresentPageFlags.WRITABLE) as [[[[fl]|] m']| |] eqn:E; [|done..].
    apply andb_true_iff in Hcheck as [Hfl%Z.eqb_eq Hne%negb_true_iff%Z.eqb_neq]. cbn in Hfl. subst fl.
    exists m, m', 17, {[17 := []]}, (free_set example_region), {[17]}, KERNEL_HEAP_BASE, va.
    split_and!; [by apply example_tables|vm_compute; lia|by apply example_plain|by vm_compute|done| |by vm_compute|].
    + vm_compute. intuition congruence.
    + clear -Hne. intros Hu. apply Hne. by rewrite Hu.
Qed.

(** ** Witnesses *)

Lemma map_to_correct_witness :
  ∃ pte m', map_to (example_machine zeroed) 17 KERNEL_HEAP_BASE 7 PresentPageFlags.WRITABLE =
      Ret (Ok (mkMapperFlush KERNEL_HEAP_BASE), m') ∧
    Raw.present (translate m' 17 KERNEL_HEAP_BASE) = PteOk pte ∧ Present.frame pte = 7.
Proof.
  destruct (map_to_correct (example_machine zeroed) 17 {[17 := []]} (free_set example_region) {[17]}
    KERNEL_HEAP_BASE 7 PresentPageFlags.WRITABLE) as (pte & m' & G' & F' & H' & Heq & _ & _ & _ & Hp & Hf & _).
  - by apply example_tables.
  - done.
  - vm_compute. lia.
  - by apply example_plain.
  - by vm_compute.
  - lia.
  - by vm_compute.
  - eauto.
Defined.

(** Tables 16, 18 and 19 lead from the root to one page, mapped to frame 20. *)
Definition one_page_tables : Z → Z → Z := λ f i,
  if bool_decide (f = 17 ∧ i = 511) then 65543
  else if bool_decide (f = 16 ∧ i = 0) then 73735
  else if bool_decide (f = 18 ∧ i = 0) then 77831
  else if bool_decide (f = 19 ∧ i = 0) then 81923 else 0.

Definition one_page_machine : Machine :=
  mkMachine one_page_tables (mkPhysMem (Some (mkRegion 16 4096 3 5 [224])) None None) 69632 false [].

Definition one_page_region : PageFrameRegion := mkRegion 16 4096 3 5 [224].
Definition one_page_held : gset Z := {[16; 17; 18; 19; 20]}.
Definition one_page_owner : gmap Z (list Z) :=
  {[17 := []; 16 := [511]; 18 := [511; 0]; 19 := [511; 0; 0]]}.

Lemma one_page_owns :
  phys_owns (frames one_page_machine) (free_set one_page_region) one_page_held.
Proof.
  apply phys_owns_low; [|done|done].
  assert (∀ f, f ∈ one_page_held → 16 ≤ f ≤ 20) as Hh by (unfold one_page_held; set_solver by lia).
  split; [|done|by vm_compute|..].
  - split; [done|done|by repeat constructor|by vm_compute| |by vm_compute].
    intros f [Hge Hbit]%elem_of_free_set. apply bit_at_true_lt in Hbit; [|cbn in *; lia].
    unfold bit_count in *. cbn in *. lia.
  - intros f Hf%Hh. apply elem_of_span_set. unfold bit_count. cbn. lia.
  - intros f Hf%Hh. cbn. lia.
  - intros f [Hge Hbit]%elem_of_free_set Hf. cbn in Hge. apply Hh in Hf.
    assert (f = 16 ∨ f = 17 ∨ f = 18 ∨ f = 19 ∨ f = 20) as Hcases by lia.
    by repeat (destruct Hcases as [-> | Hcases]); subst.
Qed.

Lemma one_page_tables_ok :
  tables_ok one_page_machine 17 one_page_owner (free_set one_page_region) one_page_held.
Proof.
  assert (∀ f pre, one_page_owner !! f = Some pre →
    (f = 17 ∧ pre = []) ∨ (f = 16 ∧ pre = [511]) ∨ (f = 18 ∧ pre = [511; 0]) ∨ (f = 19 ∧ pre = [511; 0; 0])) as Hg.
  { unfold one_page_owner. intros f pre.
    repeat setoid_rewrite lookup_insert_Some. rewrite lookup_empty. naive_solver. }
  split; [by vm_compute| | | |apply one_page_owns|].
  - intros f pre i c Hf Hlen Hn _.
    assert (∀ f i, next_table_frame one_page_machine f i =
      if bool_decide (f = 17 ∧ i = 511) then Some 16 else if bool_decide (f = 16 ∧ i = 0) then Some 18
      else if bool_decide (f = 18 ∧ i = 0) then Some 19
      else if bool_decide (f = 19 ∧ i = 0) then Some 20 else None) as Hnext.
    { clear. intros f i. unfold next_table_frame, read_pte. cbn. unfold one_page_tables.
      repeat case_bool_decide; by vm_compute. }
    rewrite Hnext in Hn. apply Hg in Hf as [[-> ->]|[[-> ->]|[[-> ->]|[-> ->]]]]; cbn in Hlen; [..|lia];
      repeat case_bool_decide; naive_solver.
  - intros f pre Hf. unfold table_frame. apply Hg in Hf. naive_solver lia.
  - intros f pre Hf. unfold one_page_held. apply Hg in Hf. set_solver.
  - intros [_ Hb]%elem_of_free_set. by vm_compute in Hb.
Qed.

Lemma unmap_correct_witness :
  ∃ m', unmap one_page_machine 17 KERNEL_HEAP_BASE true = Ret (mkMapperFlush KERNEL_HEAP_BASE, m') ∧
    translate m' 17 KERNEL_HEAP_BASE = Raw.unused.
Proof.
  destruct (unmap_correct one_page_machine 17 _ _ _ KERNEL_HEAP_BASE true one_page_tables_ok)
    as (m' & Heq & Ht & _); [| |eauto].
  - split; [by vm_compute|]. intros t3 E3. vm_compute in E3. injection E3 as <-.
    split; [by vm_compute|]. intros t2 E2. vm_compute in E2. injection E2 as <-. by vm_compute.
  - intros pte _ E. vm_compute in E. injection E as <-. split_and!; [|by vm_compute|by vm_compute].
    change (Present.frame _) with 20. unfold one_page_held. set_solver.
Defined.

Lemma same_page_spec_witness : ¬ same_page KERNEL_HEAP_BASE (KERNEL_HEAP_BASE + 4096).
Proof.
  intros H%(same_page_spec KERNEL_HEAP_BASE (KERNEL_HEAP_BASE + 4096) ltac:(done) ltac:(done)).
  by vm_compute in H.
Defined.

(** Entry 3 of table 17 maps a huge page at frame 512. *)
Lemma huge_entry_followed_witness :
  create_next_table (example_machine (λ _ _, 2097283)) 17 3 =
    Ret (Ok 512, example_machine (λ _ _, 2097283)).
Proof.
  destruct (huge_entry_followed (example_machine (λ _ _, 2097283)) 17 3 eq_refl) as (pte & Hp & _ & ->).
  vm_compute in Hp. injection Hp as <-. reflexivity.
Defined.
