(* ===== verification/Regions.v ===== *)
(** * Kernel address-space regions (paging/heap_region.rs)

    The region manager keeps the kernel's heap address range as a table of
    entries that tile it, in address order, each free or in use. The table is a
    chain of pages of [N] entries; pages are added and dropped as entries are
    shifted up and down. Mapping and unmapping the memory behind a region is
    the business of a backend: the frame database and the page tables. *)
From S2P Require Import Prelude Align Physmem PageEntry PageTable.

(** ** Data *)

Module PhysicalMappingFlags.
Definition UNCACHED : Z := Z.shiftl 1 0.
Definition READ_ONLY : Z := Z.shiftl 1 1.

(** [From<PhysicalMappingFlags> for PresentPageFlags]. *)
Definition into_present (pmf : Z) : Z :=
  let ret := Z.lor PresentPageFlags.GLOBAL PresentPageFlags.NO_EXECUTE in
  let ret := if negb (contains_flags pmf READ_ONLY) then Z.lor ret PresentPageFlags.WRITABLE else ret in
  if contains_flags pmf UNCACHED then Z.lor ret PresentPageFlags.NO_CACHE else ret.
End PhysicalMappingFlags.

Record PhysicalMapping := mkPhysicalMapping { pm_physical_address : Z; pm_flags : Z }.

Inductive RegionType := Free | Heap | KernelStackRegion | PhysicalMappingRegion (pm : PhysicalMapping).

Record RegionMapEntry := mkEntry { base : Z; limit : Z; region_type_of : option RegionType }.

#[global] Instance PhysicalMapping_eq_dec : EqDecision PhysicalMapping.
Proof. solve_decision. Defined.
#[global] Instance RegionType_eq_dec : EqDecision RegionType.
Proof. solve_decision. Defined.
#[global] Instance RegionMapEntry_eq_dec : EqDecision RegionMapEntry.
Proof. solve_decision. Defined.

Definition empty_entry : RegionMapEntry := mkEntry 0 0 None.
Definition entry_size (e : RegionMapEntry) : outcome Z := usub (limit e) (base e).

Record RegionInfo := mkRegionInfo { start_va : Z; limit_va : Z }.
Definition region_info (e : RegionMapEntry) : RegionInfo := mkRegionInfo (base e) (limit e).

(** A page of the table: the frame it lives in, if it is not the first one,
    and its entries. The [next_entry] links are the order of a list of pages. *)
Record RegionMapPage := mkPage { page_frame : option Frame; entries : list RegionMapEntry }.

(** A page and the pages after it. *)
Definition chain : Type := RegionMapPage * list RegionMapPage.
Definition link (p : RegionMapPage) (c : chain) : chain := (p, c.1 :: c.2).

Definition set_entry (p : RegionMapPage) (i : nat) (e : RegionMapEntry) : RegionMapPage :=
  mkPage (page_frame p) (<[i := e]> (entries p)).

(** ** What the manager needs from the rest of the kernel *)
Class RegionBackend (S : Type) := {
  be_allocate_kernel_frame : S → outcome (option Frame * S);
  be_deallocate_frame : S → Frame → outcome S;
  be_map_region : RegionType → Z → Z → S → outcome (result () * S);
  be_unmap_region : RegionType → Z → Z → S → outcome S;
}.

(** The promises the manager relies on: [backend_ok s T] says that the backend
    is in order and that the frames [T] (with multiplicity) are held by the
    table of regions. *)
Class RegionBackendLaws (S : Type) `{RegionBackend S} := {
  backend_ok : S → list Frame → Prop;
  backend_perm s T T' : T ≡ₚ T' → backend_ok s T → backend_ok s T';
  law_allocate s T : backend_ok s T →
    ∃ o s', be_allocate_kernel_frame s = Ret (o, s') ∧ backend_ok s' (option_list o ++ T) ∧
      ∀ f, o = Some f → table_frame f;
  law_deallocate s f T : backend_ok s (f :: T) →
    ∃ s', be_deallocate_frame s f = Ret s' ∧ backend_ok s' T;
  law_map t b l s T r s' : backend_ok s T → be_map_region t b l s = Ret (r, s') → backend_ok s' T;
}.

(** Giving frames back, one after the other. *)
Definition given_back {S : Type} `{RegionBackend S} (T : list Frame) (s s' : S) : Prop :=
  for_each (λ f s, be_deallocate_frame s f) T s = Ret s'.

(** ** The address range as the manager should keep it *)

Definition is_free (e : RegionMapEntry) : bool := bool_decide (region_type_of e = Some Free).

(** The entries tile the range from [b] to [e]. *)
Fixpoint tiled (b : Z) (l : list RegionMapEntry) (e : Z) : Prop :=
  match l with
  | [] => b = e
  | x :: l' => base x = b ∧ base x < limit x ∧ tiled (limit x) l' e
  end.

(** No two neighbours are both free. *)
Fixpoint coalesced (l : list RegionMapEntry) : Prop :=
  match l with
  | x :: ((y :: _) as l') => is_free x && is_free y = false ∧ coalesced l'
  | _ => True
  end.

Lemma tiled_app b l1 l2 e : tiled b (l1 ++ l2) e ↔ ∃ m, tiled b l1 m ∧ tiled m l2 e.
Proof.
  revert b; induction l1 as [|x l1 IH]; intros b; cbn; [naive_solver|].
  rewrite IH. naive_solver.
Qed.

Lemma tiled_le b l e : tiled b l e → b ≤ e.
Proof. revert b; induction l as [|x l IH]; intros b; cbn; [lia|]. intros (<- & ? & ?%IH). lia. Qed.

Lemma tiled_inside b l e :
  tiled b l e → Forall (λ x, b ≤ base x ∧ base x < limit x ∧ limit x ≤ e) l.
Proof.
  revert b; induction l as [|x l IH]; intros b; cbn; [done|]. intros (<- & Hlt & Ht).
  pose proof (tiled_le _ _ _ Ht). constructor; [lia|].
  eapply Forall_impl; [by apply IH|]. cbn. lia.
Qed.

Lemma coalesced_app l1 x y l2 :
  coalesced (l1 ++ x :: y :: l2) ↔
  coalesced (l1 ++ [x]) ∧ is_free x && is_free y = false ∧ coalesced (y :: l2).
Proof.
  induction l1 as [|z l1 IH]; [cbn; naive_solver|]. destruct l1 as [|w l1]; cbn in *; naive_solver.
Qed.

Lemma tiled_before b l m :
  tiled b l m → Forall (λ y, base y < m ∧ (limit y = m → last l = Some y)) l.
Proof.
  revert b; induction l as [|x l IH]; intros b; cbn [tiled]; [done|]. intros (<- & Hlt & Ht).
  pose proof (tiled_le _ _ _ Ht) as Hle. constructor.
  - split; [lia|]. intros Heq. destruct l as [|y l]; [done|]. cbn in Ht. destruct Ht as (Hb & Hly & Ht).
    pose proof (tiled_le _ _ _ Ht). lia.
  - eapply Forall_impl; [by eapply IH|]. cbn. intros y [? Hlast]. split; [done|].
    intros E. specialize (Hlast E). by rewrite last_cons, Hlast.
Qed.

(** Whether a list ends with a free entry, and begins with one. *)
Definition ends_free (l : list RegionMapEntry) : bool :=
  match last l with Some x => is_free x | None => false end.
Definition starts_free (l : list RegionMapEntry) : bool :=
  match l with y :: _ => is_free y | [] => false end.

Lemma coalesced_middle l1 x l2 :
  coalesced (l1 ++ x :: l2) ↔
  coalesced l1 ∧ coalesced l2 ∧ ends_free l1 && is_free x = false ∧ is_free x && starts_free l2 = false.
Proof.
  induction l1 as [|z l1 IH].
  - cbn. destruct l2 as [|y l2]; cbn; rewrite ?andb_false_r; naive_solver.
  - destruct l1 as [|w l1].
    + cbn in *. destruct l2 as [|y l2]; cbn; rewrite ?andb_false_r; naive_solver.
    + change (ends_free (z :: w :: l1)) with (ends_free (w :: l1)).
      change ((z :: w :: l1) ++ x :: l2) with (z :: (w :: l1) ++ x :: l2). cbn [coalesced app].
      cbn [app] in IH. rewrite IH. naive_solver.
Qed.

(** ** The region manager *)
Module RegionManager.
Section manager.
Context {S : Type} `{RegionBackend S}.
(** [REGION_MAP_ENTRIES_IN_PAGE] and [size_of::<RegionMapPage>()] follow from
    the compiler's layout of the entry type. *)
Context (N : nat) (page_size : Z).

Definition from_frame (frame : Frame) : RegionMapPage :=
  mkPage (Some frame) (replicate N empty_entry).

Definition new (base limit : Z) : chain :=
  (mkPage None (<[0%nat := mkEntry base limit (Some Free)]> (replicate N empty_entry)), []).

(** [self.entries[i]]: out of range panics. *)
Definition get_entry (p : RegionMapPage) (i : nat) : outcome RegionMapEntry :=
  match entries p !! i with Some e => Ret e | None => Panic IndexOutOfBounds end.

(** The inner [while] of [shuffle_entries_up]: swap the entry to insert with
    each entry in turn until an empty one comes out or the page ends. *)
Fixpoint fill_from (es : list RegionMapEntry) (fill : RegionMapEntry)
    : list RegionMapEntry * RegionMapEntry :=
  match region_type_of fill, es with
  | None, _ => (es, fill)
  | Some _, [] => ([], fill)
  | Some _, e :: es' => let r := fill_from es' e in (fill :: r.1, r.2)
  end.

Definition fill_page (p : RegionMapPage) (pos : nat) (fill : RegionMapEntry)
    : RegionMapPage * RegionMapEntry :=
  let r := fill_from (drop pos (entries p)) fill in
  (mkPage (page_frame p) (take pos (entries p) ++ r.1), r.2).

(** The table frame, once taken, is gone: a second new page would panic. *)
Fixpoint shuffle_entries_up (this_page : RegionMapPage) (rest : list RegionMapPage) (pos : nat)
    (fill_entry : RegionMapEntry) (table_frame : option Frame)
    : outcome (chain * option Frame) :=
  let r := fill_page this_page pos fill_entry in
  match region_type_of r.2 with
  | None => Ret ((r.1, rest), table_frame)
  | Some _ =>
      match rest with
      | next :: rest' =>
          t ← shuffle_entries_up next rest' 0 r.2 table_frame;
          Ret (link r.1 t.1, t.2)
      | [] =>
          new_frame ← unwrap table_frame;
          phys ← Frame.physical_address new_frame;
          va ← phys_to_virt_addr phys page_size;
          let r' := fill_page (from_frame new_frame) 0 r.2 in
          match region_type_of r'.2 with
          | None => Ret ((r.1, [r'.1]), None)
          | Some _ => Panic UnwrapNone
          end
      end
  end.

(** From [pos] to the end of the page: every entry takes the value of the next
    one, stopping at the first empty one; [true] when the last entry of the
    page still waits for its successor. *)
Fixpoint shift_down (es : list RegionMapEntry) : list RegionMapEntry * bool :=
  match es with
  | e :: ((e' :: _) as es') =>
      match region_type_of e' with
      | None => (e' :: es', false)
      | Some _ => let r := shift_down es' in (e' :: r.1, r.2)
      end
  | _ => (es, true)
  end.

Fixpoint shuffle_entries_down (this_page : RegionMapPage) (rest : list RegionMapPage) (pos : nat) (s : S)
    : outcome (chain * S) :=
  let r := shift_down (drop pos (entries this_page)) in
  let es := take pos (entries this_page) ++ r.1 in
  if r.2 then
    match rest with
    | [] => Ret ((mkPage (page_frame this_page) (<[pred N := empty_entry]> es), []), s)
    | next :: rest' =>
        first ← get_entry next 0;
        let this' := mkPage (page_frame this_page) (<[pred N := first]> es) in
        match region_type_of first with
        | None =>
            s' ← match page_frame next with
                 | Some frame => be_deallocate_frame s frame
                 | None => Ret s
                 end;
            Ret ((this', []), s')
        | Some _ =>
            t ← shuffle_entries_down next rest' 0 s;
            Ret (link this' t.1, t.2)
        end
    end
  else Ret ((mkPage (page_frame this_page) es, rest), s).

Definition map_region (region_entry : RegionMapEntry) (region_type : RegionType) (s : S)
    : outcome (result () * S) :=
  t ← unwrap (region_type_of region_entry);
  assert_ (bool_decide (t = Free));;
  match region_type with
  | Free => Panic ExplicitPanic
  | _ => be_map_region region_type (base region_entry) (limit region_entry) s
  end.

Definition unmap_region (region_entry : RegionMapEntry) (s : S) : outcome S :=
  t ← unwrap (region_type_of region_entry);
  assert_ (bool_decide (t ≠ Free));;
  match t with
  | Free => Panic ExplicitPanic
  | _ => be_unmap_region t (base region_entry) (limit region_entry) s
  end.

(** The closure [allocate_region] passes to [allocate_first_fit]. *)
Definition mapper (required_size : Z) (region_type : RegionType) (entry : RegionMapEntry) (s : S)
    : outcome (result RegionType * S) :=
  sz ← entry_size entry;
  assert_ (sz =? required_size);;
  t ← unwrap (region_type_of entry);
  assert_ (bool_decide (t = Free));;
  r ← map_region entry region_type s;
  Ret (match r.1 with Ok _ => Ok region_type | Err e => Err e end, r.2).

(** A free entry that is too big: the front of it is mapped, the rest becomes
    an entry of its own. *)
Definition split_entry (required_size : Z) (region_type : RegionType)
    (this_page : RegionMapPage) (rest : list RegionMapPage) (i : nat) (e : RegionMapEntry) (s : S)
    : outcome (result RegionInfo * chain * S) :=
  f ← be_allocate_kernel_frame s;
  match f.1 with
  | None => Ret (Err OutOfMemory, (this_page, rest), f.2)
  | Some table_frame =>
      split ← uadd (base e) required_size;
      let last_entry := mkEntry split (limit e) (Some Free) in
      let e' := mkEntry (base e) split (region_type_of e) in
      r ← mapper required_size region_type e' f.2;
      match r.1 with
      | Err err =>
          s' ← be_deallocate_frame r.2 table_frame;
          Ret (Err err, (set_entry this_page i (mkEntry (base e) (limit e) (region_type_of e)), rest), s')
      | Ok t =>
          let e'' := mkEntry (base e) split (Some t) in
          u ← shuffle_entries_up (set_entry this_page i e'') rest (i + 1) last_entry (Some table_frame);
          s' ← match u.2 with
               | Some unused_frame => be_deallocate_frame r.2 unused_frame
               | None => Ret r.2
               end;
          Ret (Ok (region_info e''), u.1, s')
      end
  end.

(** The body of the [for] loop at entry [i]: [None] to go on. *)
Definition try_entry (required_size : Z) (region_type : RegionType)
    (this_page : RegionMapPage) (rest : list RegionMapPage) (i : nat) (s : S)
    : outcome (option (result RegionInfo * chain * S)) :=
  e ← get_entry this_page i;
  match region_type_of e with
  | None =>
      assert_ (bool_decide (rest = []));;
      Ret (Some (Err NoRegionAddressSpaceAvailable, (this_page, rest), s))
  | Some Free =>
      sz ← entry_size e;
      if required_size <? sz then
        r ← split_entry required_size region_type this_page rest i e s; Ret (Some r)
      else if sz =? required_size then
        r ← mapper required_size region_type e s;
        match r.1 with
        | Err err => Ret (Some (Err err, (this_page, rest), r.2))
        | Ok t =>
            let e' := mkEntry (base e) (limit e) (Some t) in
            Ret (Some (Ok (region_info e'), (set_entry this_page i e', rest), r.2))
        end
      else Ret None
  | Some _ => Ret None
  end.

(** [for i in ..]: the first entry that settles the call. *)
Fixpoint try_entries (required_size : Z) (region_type : RegionType)
    (this_page : RegionMapPage) (rest : list RegionMapPage) (indices : list nat) (s : S)
    : outcome (option (result RegionInfo * chain * S)) :=
  match indices with
  | [] => Ret None
  | i :: indices' =>
      r ← try_entry required_size region_type this_page rest i s;
      match r with
      | Some r => Ret (Some r)
      | None => try_entries required_size region_type this_page rest indices' s
      end
  end.

Fixpoint allocate_first_fit (required_size : Z) (region_type : RegionType)
    (this_page : RegionMapPage) (rest : list RegionMapPage) (s : S)
    : outcome (result RegionInfo * chain * S) :=
  r ← try_entries required_size region_type this_page rest (seq 0 N) s;
  match r with
  | Some r => Ret r
  | None =>
      match rest with
      | [] => Ret (Err NoRegionAddressSpaceAvailable, (this_page, []), s)
      | next :: rest' =>
          t ← allocate_first_fit required_size region_type next rest' s;
          Ret (t.1.1, link this_page t.1.2, t.2)
      end
  end.

Definition allocate_region (c : chain) (pages : Z) (region_type : RegionType) (s : S)
    : outcome (result RegionInfo * chain * S) :=
  required_size ← umul pages PAGE_SIZE;
  allocate_first_fit required_size region_type c.1 c.2 s.

(** The free entry before the region, if there is one, is dropped from the
    table and its size remembered; [None]: entry [j] is not the region. *)
Definition drop_region_info (this_page : RegionMapPage) (rest : list RegionMapPage) (j : nat)
    (info : RegionInfo) (s : S) : outcome (option Z * chain * S) :=
  e ← get_entry this_page j;
  free ← (if limit e =? start_va info
          then t ← unwrap (region_type_of e); Ret (bool_decide (t = Free)) else Ret false);
  if free : bool then
    lead_bytes ← entry_size e;
    if (j + 1 <? N)%nat then
      next ← get_entry this_page (j + 1);
      r ← shuffle_entries_down (set_entry this_page j next) rest (j + 1) s;
      Ret (Some lead_bytes, r.1, r.2)
    else
      match rest with
      | [] => Panic UnwrapNone
      | next_page :: rest' =>
          next ← get_entry next_page 0;
          r ← shuffle_entries_down next_page rest' 0 s;
          Ret (Some lead_bytes, link (set_entry this_page j next) r.1, r.2)
      end
  else if base e =? start_va info then Ret (Some 0, (this_page, rest), s)
  else Ret (None, (this_page, rest), s).

(** The free entry after entry [j] is dropped and its size returned. *)
Definition drop_tail (c : chain) (j : nat) (s : S) : outcome (Z * chain * S) :=
  if (j + 1 <? N)%nat then
    e ← get_entry c.1 (j + 1);
    if bool_decide (region_type_of e = Some Free) then
      tail_bytes ← entry_size e;
      r ← shuffle_entries_down c.1 c.2 (j + 1) s;
      Ret (tail_bytes, r.1, r.2)
    else Ret (0, c, s)
  else
    match c.2 with
    | next_page :: rest' =>
        e ← get_entry next_page 0;
        if bool_decide (region_type_of e = Some Free) then
          tail_bytes ← entry_size e;
          r ← shuffle_entries_down next_page rest' 0 s;
          Ret (tail_bytes, link c.1 r.1, r.2)
        else Ret (0, c, s)
    | [] => Ret (0, c, s)
    end.

(** The region found at entry [j]: unmap it and merge it with its neighbours. *)
Definition release_entry (c : chain) (j : nat) (lead_bytes : Z) (info : RegionInfo) (s : S)
    : outcome (chain * S) :=
  e ← get_entry c.1 j;
  t ← unwrap (region_type_of e);
  assert_ (bool_decide (t ≠ Free));;
  assert_ (limit e =? limit_va info);;
  s' ← unmap_region e s;
  r ← drop_tail c j s';
  b ← usub (base e) lead_bytes;
  l ← uadd (limit e) r.1.1;
  Ret ((set_entry r.1.2.1 j (mkEntry b l (Some Free)), r.1.2.2), r.2).

(** The body of the [for] loop at entry [j]: [None] to go on. *)
Definition free_entry (this_page : RegionMapPage) (rest : list RegionMapPage) (j : nat)
    (info : RegionInfo) (s : S) : outcome (option (chain * S)) :=
  e ← get_entry this_page j;
  assert_ (base e <=? start_va info);;
  assert_ (bool_decide (is_Some (region_type_of e)));;
  d ← drop_region_info this_page rest j info s;
  match d.1.1 with
  | None => Ret None
  | Some lead_bytes => r ← release_entry d.1.2 j lead_bytes info d.2; Ret (Some r)
  end.

Fixpoint free_entries (this_page : RegionMapPage) (rest : list RegionMapPage) (indices : list nat)
    (info : RegionInfo) (s : S) : outcome (option (chain * S)) :=
  match indices with
  | [] => Ret None
  | j :: indices' =>
      r ← free_entry this_page rest j info s;
      match r with
      | Some r => Ret (Some r)
      | None => free_entries this_page rest indices' info s
      end
  end.

Fixpoint deallocate_recurse_thing (this_page : RegionMapPage) (rest : list RegionMapPage)
    (info : RegionInfo) (s : S) : outcome (chain * S) :=
  r ← free_entries this_page rest (seq 0 N) info s;
  match r with
  | Some r => Ret r
  | None =>
      match rest with
      | [] => Panic AssertFailed
      | next :: rest' =>
          t ← deallocate_recurse_thing next rest' info s;
          Ret (link this_page t.1, t.2)
      end
  end.

Definition deallocate_region (c : chain) (info : RegionInfo) (s : S) : outcome (chain * S) :=
  deallocate_recurse_thing c.1 c.2 info s.

(** ** The table as one list of entries *)

Definition typed (e : RegionMapEntry) : Prop := is_Some (region_type_of e).

(** The chain of pages holds the entries [l]: every page but the last is full,
    the last one holds the rest and empty entries. *)
Inductive repr : RegionMapPage → list RegionMapPage → list RegionMapEntry → Prop :=
  | repr_last p l :
      (length l ≤ N)%nat → Forall typed l →
      entries p = l ++ replicate (N - length l) empty_entry → repr p [] l
  | repr_full p q rest l1 l2 :
      length l1 = N → Forall typed l1 → entries p = l1 → repr q rest l2 →
      repr p (q :: rest) (l1 ++ l2).

Definition chain_repr (c : chain) (l : list RegionMapEntry) : Prop := repr c.1 c.2 l.

(** There is one such list. *)
Lemma typed_prefix l : ∀ l' n n',
  Forall typed l → Forall typed l' → l ++ replicate n empty_entry = l' ++ replicate n' empty_entry → l = l'.
Proof.
  induction l as [|x l IH]; intros [|y l'] n n' Hl Hl' E; [done|..].
  - apply Forall_cons in Hl' as [[t Ht] _]. destruct n; [done|]. cbn in E. injection E as <- _. done.
  - apply Forall_cons in Hl as [[t Ht] _]. destruct n'; [done|]. cbn in E. injection E as -> _. done.
  - apply Forall_cons in Hl as [_ Hl], Hl' as [_ Hl']. injection E as -> E. f_equal. by eapply IH.
Qed.

Lemma repr_unique p rest l l' : repr p rest l → repr p rest l' → l = l'.
Proof.
  intros H1. revert l'. induction H1 as [p l _ Ht E|p q rest l1 l2 _ _ E _ IH]; intros l' H2; inversion H2; subst.
  - eapply typed_prefix; [done|done|]. by rewrite <- E.
  - f_equal. by apply IH.
Qed.

Definition chain_frames (c : chain) : list Frame := omap page_frame (c.1 :: c.2).

Definition frame_list (p : RegionMapPage) : list Frame :=
  match page_frame p with Some f => [f] | None => [] end.

Lemma chain_frames_cons p rest : chain_frames (p, rest) = frame_list p ++ omap page_frame rest.
Proof. unfold chain_frames, frame_list. cbn. by destruct (page_frame p). Qed.

Lemma chain_frames_link p c : chain_frames (link p c) = frame_list p ++ chain_frames c.
Proof. unfold chain_frames, frame_list, link. cbn. by destruct (page_frame p). Qed.

Lemma frame_list_eq p q : page_frame p = page_frame q → frame_list p = frame_list q.
Proof. unfold frame_list. by intros ->. Qed.

Context (HN : (2 ≤ N)%nat).

Lemma repr_length p rest l : repr p rest l → length (entries p) = N.
Proof.
  destruct 1 as [p l Hl _ He|p q rest l1 l2 Hl _ He _]; rewrite He; [|done].
  rewrite length_app, length_replicate. lia.
Qed.

Lemma repr_typed p rest l : repr p rest l → Forall typed l.
Proof. induction 1; [done|]. by apply Forall_app. Qed.

Lemma repr_entry p rest l i e :
  repr p rest l → (i < N)%nat → l !! i = Some e → get_entry p i = Ret e.
Proof.
  intros Hr Hi Hl. unfold get_entry. destruct Hr as [p l _ _ ->|p q rest l1 l2 H1 _ -> _].
  - by rewrite (lookup_app_l_Some _ _ _ _ Hl).
  - rewrite lookup_app_l in Hl by lia. by rewrite Hl.
Qed.

Lemma repr_past_end p rest l i :
  repr p rest l → (i < N)%nat → (length l ≤ i)%nat → rest = [] ∧ get_entry p i = Ret empty_entry.
Proof.
  intros Hr Hi Hl. unfold get_entry. destruct Hr as [p l _ _ ->|p q rest l1 l2 H1 _ -> _].
  - rewrite lookup_app_r by done. rewrite lookup_replicate_2 by lia. done.
  - rewrite length_app in Hl. lia.
Qed.

Lemma repr_set p rest l i e e' :
  repr p rest l → (i < N)%nat → l !! i = Some e → typed e' →
  repr (set_entry p i e') rest (<[i := e']> l).
Proof.
  intros Hr Hi Hl Ht. pose proof (lookup_lt_Some _ _ _ Hl) as Hlt.
  destruct Hr as [p l Hn Hf He|p q rest l1 l2 H1 Hf He Hr].
  - apply repr_last; rewrite ?length_insert; [done|by apply Forall_insert|].
    unfold set_entry. cbn. rewrite He. by rewrite insert_app_l.
  - rewrite insert_app_l by lia. apply repr_full; rewrite ?length_insert; [done|by apply Forall_insert| |done].
    unfold set_entry. cbn. by rewrite He.
Qed.

(** *** Shifting up *)

Lemma fill_from_typed es l k fill :
  es = l ++ replicate k empty_entry → Forall typed l → typed fill →
  let r := fill_from es fill in
  r.1 ++ [r.2] = fill :: es ∧ (region_type_of r.2 = None → r.2 = empty_entry) ∧
  (region_type_of r.2 = None ↔ (0 < k)%nat).
Proof.
  intros -> Hl. revert fill. induction Hl as [|e l He Hl IH]; intros fill [t Ht]; cbn.
  - destruct k as [|k]; cbn; rewrite Ht; cbn.
    + split_and!; [done|congruence|]. rewrite Ht. split; [done|lia].
    + assert (fill_from (replicate k empty_entry) empty_entry = (replicate k empty_entry, empty_entry)) as ->
        by (by destruct k).
      cbn. split_and!; [by rewrite <- replicate_S_end|done|]. split; [lia|done].
  - rewrite Ht. cbn. destruct (IH e He) as (E & ? & ?). split_and!; [by rewrite E|done|done].
Qed.

(** A frame whose page the identity map reaches. *)
Definition reachable_frame (f : Frame) : Prop := 0 ≤ f ∧ f * PAGE_SIZE + page_size < IDENTITY_MAP_SIZE.

Lemma phys_page_ok f :
  reachable_frame f → 0 ≤ page_size →
  ∃ phys va, Frame.physical_address f = Ret phys ∧ phys_to_virt_addr phys page_size = Ret va.
Proof.
  intros [H0 Hf] Hs. unfold Frame.physical_address, Frame.index, phys_to_virt_addr, IDENTITY_MAP_SIZE,
    IDENTITY_MAP_REGION, PAGE_SIZE in *.
  eexists _, _. split; [apply umul_ok; lia|]. step_by lia. step_by lia. apply uadd_ok. lia.
Qed.

Definition insert_at (pos : nat) (e : RegionMapEntry) (l : list RegionMapEntry) : list RegionMapEntry :=
  take pos l ++ e :: drop pos l.

Lemma fill_page_ok p pos fill l k :
  entries p = l ++ replicate k empty_entry → Forall typed l → (pos ≤ length l)%nat → typed fill →
  let r := fill_page p pos fill in
  entries r.1 ++ [r.2] = insert_at pos fill l ++ replicate k empty_entry ∧
  page_frame r.1 = page_frame p ∧
  (k = 0%nat → typed r.2) ∧ ((0 < k)%nat → r.2 = empty_entry ∧ entries r.1 = insert_at pos fill l ++ replicate (pred k) empty_entry).
Proof.
  intros He Hl Hpos Ht. unfold fill_page, insert_at. cbn. rewrite He.
  rewrite drop_app_le, take_app_le by done.
  destruct (fill_from_typed (drop pos l ++ replicate k empty_entry) (drop pos l) k fill)
    as (Hsplit & Hempty & Hroom); [done|by apply Forall_drop|done|].
  set (r := fill_from _ fill) in *.
  assert ((take pos l ++ r.1) ++ [r.2] = (take pos l ++ fill :: drop pos l) ++ replicate k empty_entry) as Heq.
  { rewrite <- !app_assoc. f_equal. by rewrite Hsplit. }
  split_and!; [done|done| |].
  - intros ->. unfold typed. destruct (region_type_of r.2) eqn:E; [done|].
    assert (0 < 0)%nat by (by apply Hroom). lia.
  - intros Hk. assert (r.2 = empty_entry) as Er by (by apply Hempty, Hroom).
    split; [done|]. destruct k as [|k]; [lia|]. rewrite replicate_S_end, app_assoc, Er in Heq.
    by apply app_inj_tail in Heq as [Heq _].
Qed.

Lemma length_insert_at pos e l : (pos ≤ length l)%nat → length (insert_at pos e l) = Datatypes.S (length l).
Proof. intros. unfold insert_at. rewrite length_app, length_take. cbn. rewrite length_drop. lia. Qed.

Lemma insert_at_typed pos e l : Forall typed l → typed e → Forall typed (insert_at pos e l).
Proof.
  intros. unfold insert_at. apply Forall_app. split; [by apply Forall_take|].
  constructor; [done|by apply Forall_drop].
Qed.

(** Inserting an entry, the last page spilling into a new one when it is full. *)
Lemma shuffle_up_ok p rest l pos fill f :
  repr p rest l → (pos ≤ length l)%nat → (pos ≤ N)%nat → typed fill →
  reachable_frame f → 0 ≤ page_size →
  ∃ c o, shuffle_entries_up p rest pos fill (Some f) = Ret (c, o) ∧
    chain_repr c (insert_at pos fill l) ∧
    ((o = Some f ∧ chain_frames c = chain_frames (p, rest)) ∨
     (o = None ∧ chain_frames c = chain_frames (p, rest) ++ [f])).
Proof.
  intros Hr. revert pos fill.
  induction Hr as [p l Hn Hf He|p q rest l1 l2 H1 Hf He Hr IH]; intros pos fill Hpos HposN Ht Hfr Hps;
    cbn [shuffle_entries_up].
  - destruct (fill_page_ok p pos fill l _ He Hf Hpos Ht) as (Hsplit & Hfrm & Hfull & Hroom).
    set (r := fill_page p pos fill) in *. clearbody r. pose proof (insert_at_typed pos fill l Hf Ht) as Hty.
    destruct (decide (length l = N)) as [Hlen|Hlen].
    + rewrite Hlen, Nat.sub_diag in *. rewrite app_nil_r in Hsplit.
      destruct (Hfull eq_refl) as [t Hrt]. rewrite Hrt. cbn [unwrap mbind outcome_bind].
      destruct (phys_page_ok f Hfr Hps) as (phys & va & -> & Hva). cbn [mbind outcome_bind].
      rewrite Hva. cbn [mbind outcome_bind].
      destruct (fill_page_ok (from_frame f) 0 r.2 [] N) as (_ & Hfrm' & _ & Hroom');
        [done|apply Forall_nil_2|cbn; lia|unfold typed; by rewrite Hrt|].
      destruct (Hroom' ltac:(lia)) as [-> Hent]. cbn [empty_entry region_type_of].
      eexists _, _. split; [done|]. split.
      * rewrite <- Hsplit. rewrite <- Hsplit in Hty. apply Forall_app in Hty as [Hty1 _].
        apply repr_full; [|done|done|].
        { apply (f_equal length) in Hsplit. rewrite length_app, length_insert_at in Hsplit by lia. cbn [length] in Hsplit. lia. }
        apply repr_last; [cbn; lia|apply Forall_singleton; by exists t|].
        rewrite Hent. cbn. do 2 f_equal. lia.
      * right. split; [done|]. rewrite !chain_frames_cons, (frame_list_eq _ _ Hfrm), <- app_assoc.
        by f_equal.
    + destruct (Hroom ltac:(lia)) as [Hr2 Hent]. rewrite Hr2. cbn [empty_entry region_type_of].
      eexists _, _. split; [done|]. split.
      * apply repr_last; [rewrite length_insert_at by done; lia|done|]. cbn. rewrite Hent.
        do 2 f_equal. rewrite length_insert_at by done. lia.
      * left. split; [done|]. by rewrite !chain_frames_cons, (frame_list_eq _ _ Hfrm).
  - rewrite length_app in Hpos.
    destruct (fill_page_ok p pos fill l1 0) as (Hsplit & Hfrm & Hfull & _);
      [by rewrite He, app_nil_r|done|lia|done|].
    set (r := fill_page p pos fill) in *. clearbody r. rewrite app_nil_r in Hsplit.
    destruct (Hfull eq_refl) as [t Hrt]. rewrite Hrt.
    destruct (IH 0%nat r.2) as (c & o & -> & Hrep & Hfr'); [lia|lia|unfold typed; by rewrite Hrt|done|done|].
    cbn [mbind outcome_bind fst snd]. eexists _, _. split; [done|]. split.
    + unfold chain_repr, link. cbn [fst snd].
      replace (insert_at pos fill (l1 ++ l2)) with (entries r.1 ++ insert_at 0 r.2 l2).
      * apply repr_full; [| |done|done].
        { apply (f_equal length) in Hsplit. rewrite length_app, length_insert_at in Hsplit by lia. cbn [length] in Hsplit. lia. }
        pose proof (insert_at_typed pos fill l1 Hf Ht) as Hty. rewrite <- Hsplit in Hty.
        by apply Forall_app in Hty as [? _].
      * change (insert_at 0 r.2 l2) with ([r.2] ++ l2). rewrite app_assoc, Hsplit.
        unfold insert_at. rewrite take_app_le, drop_app_le by lia. by rewrite <- app_assoc.
    + rewrite chain_frames_link, (frame_list_eq _ _ Hfrm).
      change (chain_frames (p, q :: rest)) with (chain_frames (link p (q, rest))). rewrite chain_frames_link.
      destruct Hfr' as [[-> ->]|[-> ->]]; [by left|right]. by rewrite app_assoc.
Qed.

(** *** Shifting down *)

Lemma shift_down_step x y l t :
  region_type_of y = Some t →
  shift_down (x :: y :: l) = (y :: (shift_down (y :: l)).1, (shift_down (y :: l)).2).
Proof. intros Ht. change (shift_down (x :: y :: l)) with
    (match region_type_of y with
     | None => (y :: y :: l, false)
     | Some _ => let r := shift_down (y :: l) in (y :: r.1, r.2) end). by rewrite Ht.
Qed.

Lemma shift_down_last l x :
  Forall typed l → ∃ z, shift_down (x :: l) = (l ++ [z], true).
Proof.
  intros Hl. revert x. induction Hl as [|y l [t Ht] Hl IH]; intros x; [by exists x|].
  destruct (IH y) as [z Hz]. exists z. by rewrite (shift_down_step _ _ _ _ Ht), Hz.
Qed.

Lemma shift_down_room l x k :
  Forall typed l → (0 < k)%nat →
  shift_down (x :: l ++ replicate k empty_entry) = (l ++ replicate (Datatypes.S k) empty_entry, false).
Proof.
  intros Hl Hk. revert x. induction Hl as [|y l [t Ht] Hl IH]; intros x.
  - destruct k; [lia|done].
  - cbn [app]. by rewrite (shift_down_step _ _ _ _ Ht), IH.
Qed.

Context `{!RegionBackendLaws S}.

Lemma insert_pred_N (l : list RegionMapEntry) z e :
  length l = pred N → <[pred N := e]> (l ++ [z]) = l ++ [e].
Proof. intros <-. by rewrite <- (Nat.add_0_r (length l)), insert_app_r. Qed.

(** Deleting an entry: the pages after it shift down, an empty last page is
    given back. *)
(** The only page left. *)
Lemma shuffle_last_ok p l pos s T :
  (length l ≤ N)%nat → Forall typed l → entries p = l ++ replicate (N - length l) (mkEntry 0 0 None) →
  (pos < length l)%nat → backend_ok s (chain_frames (p, []) ++ T) →
  ∃ c s' T0, shuffle_entries_down p [] pos s = Ret (c, s') ∧ chain_repr c (delete pos l) ∧
    page_frame c.1 = page_frame p ∧ backend_ok s' (chain_frames c ++ T) ∧
    chain_frames (p, []) ≡ₚ T0 ++ chain_frames c ∧ given_back T0 s s'.
Proof.
  intros Hn Hf He Hpos Hb. cbn [shuffle_entries_down].
  destruct (lookup_lt_is_Some_2 l pos Hpos) as [x Hx].
  pose proof (Forall_delete typed l pos Hf) as Hdt.
  pose proof (length_delete l pos ltac:(eauto)) as Hdl.
  rewrite He, drop_app_le, take_app_le, (drop_S l x) by (done || lia). cbn [app].
  destruct (decide (length l = N)) as [Hlen|Hlen].
  + rewrite Hlen, Nat.sub_diag. cbn [replicate]. rewrite app_nil_r.
    destruct (shift_down_last (drop (Datatypes.S pos) l) x) as [z ->]; [by apply Forall_drop|]. cbn [fst snd].
    rewrite app_assoc, <- delete_take_drop, insert_pred_N by lia.
    eexists _, _, []. split; [done|]. split_and!; [|done|done|done|done].
    apply repr_last; [lia|done|]. cbn. rewrite Hdl, Hlen. by replace (N - (N - 1))%nat with 1%nat by lia.
  + rewrite shift_down_room by (try lia; by apply Forall_drop). cbn [fst snd].
    rewrite app_assoc, <- delete_take_drop.
    eexists _, _, []. split; [done|]. split_and!; [|done|done|done|done].
    apply repr_last; [lia|done|]. cbn [entries fst]. rewrite Hdl.
    replace (N - (length l - 1))%nat with (Datatypes.S (N - length l)) by lia. done.
Qed.

(** The frame of a page that has become empty is given back. *)
Lemma drop_page_ok p q s T :
  backend_ok s ((frame_list p ++ chain_frames (q, [])) ++ T) →
  ∃ s', match page_frame q with Some f => be_deallocate_frame s f | None => Ret s end = Ret s' ∧
    backend_ok s' (frame_list p ++ T) ∧ given_back (frame_list q) s s'.
Proof.
  intros Hb. rewrite chain_frames_cons in Hb. unfold frame_list at 2 in Hb. cbn in Hb. rewrite app_nil_r in Hb.
  unfold given_back, frame_list at 2. destruct (page_frame q) as [f|]; [|exists s; by rewrite app_nil_r in Hb].
  destruct (law_deallocate s f (frame_list p ++ T)) as (s' & Hd & Hb').
  { eapply backend_perm; [|exact Hb]. rewrite <- app_assoc. symmetry. apply Permutation_middle. }
  exists s'. cbn. by rewrite Hd.
Qed.

Lemma shuffle_down_ok p rest l pos s T :
  repr p rest l → (pos < N)%nat → (pos < length l)%nat →
  backend_ok s (chain_frames (p, rest) ++ T) →
  ∃ c s' T0, shuffle_entries_down p rest pos s = Ret (c, s') ∧ chain_repr c (delete pos l) ∧
    page_frame c.1 = page_frame p ∧ backend_ok s' (chain_frames c ++ T) ∧
    chain_frames (p, rest) ≡ₚ T0 ++ chain_frames c ∧ given_back T0 s s'.
Proof.
  intros Hr. revert pos T.
  induction Hr as [p l Hn Hf He|p q rest l1 l2 H1 Hf He Hr IH]; intros pos T HposN Hpos Hb;
    cbn [shuffle_entries_down].
  - by eapply shuffle_last_ok.
  - assert (pos < length l1)%nat as Hpos1 by lia.
    destruct (lookup_lt_is_Some_2 l1 pos Hpos1) as [x Hx].
    pose proof (Forall_delete typed l1 pos Hf) as Hdt.
    pose proof (length_delete l1 pos ltac:(eauto)) as Hdl.
    rewrite He, (drop_S l1 x) by done.
    destruct (shift_down_last (drop (Datatypes.S pos) l1) x) as [z ->]; [by apply Forall_drop|]. cbn [fst snd].
    rewrite app_assoc, <- delete_take_drop.
    assert (delete pos (l1 ++ l2) = delete pos l1 ++ l2) as Hdel.
    { rewrite !delete_take_drop, take_app_le, drop_app_le by lia. by rewrite app_assoc. }
    change (chain_frames (p, q :: rest)) with (chain_frames (link p (q, rest))) in Hb.
    rewrite chain_frames_link in Hb. destruct l2 as [|y l2'].
    + destruct (repr_past_end q rest [] 0 Hr) as [-> ->]; [lia|cbn; lia|].
      cbn [mbind outcome_bind empty_entry region_type_of]. rewrite insert_pred_N by lia.
      set (p' := mkPage (page_frame p) (delete pos l1 ++ [mkEntry 0 0 None])).
      destruct (drop_page_ok p q s T) as (s' & -> & Hb' & Hg); [exact Hb|].
      eexists _, _, (frame_list q). split; [done|]. rewrite Hdel, app_nil_r. split_and!; [|done| | |done].
      * apply repr_last; [lia|done|]. cbn. rewrite Hdl, H1. by replace (N - (N - 1))%nat with 1%nat by lia.
      * rewrite chain_frames_cons. cbn. by rewrite app_nil_r.
      * unfold chain_frames, frame_list. cbn. destruct (page_frame p), (page_frame q); (done || apply perm_swap).
    + rewrite (repr_entry q rest (y :: l2') 0 y Hr) by (done || lia). cbn [mbind outcome_bind].
      pose proof (repr_typed _ _ _ Hr) as Hty. apply Forall_cons in Hty as [[t Ht] _]. rewrite Ht.
      rewrite insert_pred_N by lia.
      destruct (IH 0%nat (frame_list p ++ T)) as (c & s' & T0 & -> & Hc & _ & Hb' & HT0 & Hg); [lia|cbn; lia| |].
      { eapply backend_perm; [|exact Hb]. by rewrite !app_assoc, (Permutation_app_comm (frame_list p)). }
      cbn [mbind outcome_bind fst snd]. eexists _, _, T0. split; [done|]. split_and!; [|done| | |done].
      * rewrite Hdel. unfold chain_repr, link. cbn [fst snd].
        change (y :: l2') with ([y] ++ l2'). rewrite app_assoc. apply repr_full; [| |done|done].
        { rewrite length_app. cbn. lia. }
        { apply Forall_app. split; [done|]. apply Forall_singleton. by exists t. }
      * rewrite chain_frames_link. eapply backend_perm; [|exact Hb'].
        unfold frame_list at 2. cbn. fold (frame_list p).
        by rewrite !app_assoc, (Permutation_app_comm (frame_list p)).
      * change (chain_frames (p, q :: rest)) with (chain_frames (link p (q, rest))). rewrite !chain_frames_link, HT0.
        change (frame_list (mkPage (page_frame p) (delete pos l1 ++ [y]))) with (frame_list p).
        by rewrite !app_assoc, (Permutation_app_comm (frame_list p)).
Qed.

(** *** First fit *)

Definition entry_ok (e : RegionMapEntry) : Prop := 0 ≤ base e ≤ limit e ∧ limit e < usize_limit.

Definition fits (req : Z) (e : RegionMapEntry) : bool :=
  bool_decide (region_type_of e = Some Free) && (req <=? limit e - base e).

(** The table after the front of the free entry [e] was taken. *)
Definition alloc_flat (l1 : list RegionMapEntry) (e : RegionMapEntry) (l2 : list RegionMapEntry)
    (req : Z) (t : RegionType) : list RegionMapEntry :=
  l1 ++ mkEntry (base e) (base e + req) (Some t) ::
    (if limit e - base e =? req then l2 else mkEntry (base e + req) (limit e) (Some Free) :: l2).

(** The state that the range is mapped in: if the free entry is too big, a frame
    for a new page of the table was taken first. *)
Definition before_map (e : RegionMapEntry) (req : Z) (s : S) (spare : list Frame) (s1 : S) : Prop :=
  (limit e - base e = req ∧ spare = [] ∧ s1 = s) ∨
  (∃ f, spare = [f] ∧ table_frame f ∧ be_allocate_kernel_frame s = Ret (Some f, s1)).

(** What an allocation that finds room in [e] comes to: it runs out of table
    frames, or it follows the outcome of mapping the range. The frame taken before
    is given back, or becomes a page of the table. *)
Definition alloc_spec (c : chain) (l1 : list RegionMapEntry) (e : RegionMapEntry) (l2 : list RegionMapEntry)
    (req : Z) (t : RegionType) (s : S) (T : list Frame)
    (o : outcome (result RegionInfo * chain * S)) : Prop :=
  (∃ s', be_allocate_kernel_frame s = Ret (None, s') ∧ o = Ret (Err OutOfMemory, c, s') ∧
     backend_ok s' (chain_frames c ++ T)) ∨
  ∃ spare s1, before_map e req s spare s1 ∧
    match be_map_region t (base e) (base e + req) s1 with
    | Panic w => o = Panic w
    | Hang => o = Hang
    | Ret (Err er, s2) => ∃ s', o = Ret (Err er, c, s') ∧ given_back spare s2 s' ∧ backend_ok s' (chain_frames c ++ T)
    | Ret (Ok _, s2) => ∃ c' s' rest,
        o = Ret (Ok (mkRegionInfo (base e) (base e + req)), c', s') ∧
        chain_repr c' (alloc_flat l1 e l2 req t) ∧ backend_ok s' (chain_frames c' ++ T) ∧
        ((rest = spare ∧ chain_frames c' = chain_frames c) ∨
         (rest = [] ∧ chain_frames c' ≡ₚ spare ++ chain_frames c)) ∧
        given_back rest s2 s'
    end.

Context (Hpage : 0 ≤ page_size ≤ PAGE_SIZE).

Lemma table_frame_reachable f : table_frame f → reachable_frame f.
Proof. unfold table_frame, reachable_frame, IDENTITY_MAP_SIZE, PAGE_SIZE in *. lia. Qed.

Lemma mapper_eq req t b l s :
  l - b = req → b ≤ l → t ≠ Free →
  mapper req t (mkEntry b l (Some Free)) s =
    (r ← be_map_region t b l s; Ret (match r.1 with Ok _ => Ok t | Err e => Err e end, r.2)).
Proof.
  intros Hsz Hle Ht. unfold mapper, entry_size, map_region. cbn [limit base region_type_of].
  step_by lia. rewrite Hsz, Z.eqb_refl. cbn. by destruct t.
Qed.

Lemma set_entry_same p i e : entries p !! i = Some e → set_entry p i (mkEntry (base e) (limit e) (region_type_of e)) = p.
Proof.
  intros He. unfold set_entry. replace (mkEntry _ _ _) with e by (by destruct e).
  rewrite list_insert_id by done. by destruct p.
Qed.

Lemma repr_lookup p rest l i e :
  repr p rest l → (i < N)%nat → l !! i = Some e → entries p !! i = Some e.
Proof.
  intros Hr Hi Hl. pose proof (repr_entry p rest l i e Hr Hi Hl) as Hg. unfold get_entry in Hg.
  destruct (entries p !! i); congruence.
Qed.

Lemma try_entry_skip p rest l i e req t s :
  repr p rest l → (i < N)%nat → l !! i = Some e → entry_ok e → fits req e = false →
  try_entry req t p rest i s = Ret None.
Proof.
  intros Hr Hi Hl He Hf. unfold try_entry. rewrite (repr_entry _ _ _ _ _ Hr Hi Hl). cbn [mbind outcome_bind].
  pose proof (repr_typed _ _ _ Hr) as Hty. rewrite Forall_lookup in Hty. destruct (Hty _ _ Hl) as [t' Ht].
  unfold fits in Hf. rewrite Ht in *. destruct t'; try done. rewrite bool_decide_true in Hf by done. cbn in Hf.
  apply Z.leb_gt in Hf. unfold entry_size, entry_ok in *. step_by lia.
  rewrite (proj2 (Z.ltb_ge _ _)), (proj2 (Z.eqb_neq _ _)) by lia. done.
Qed.

(** A free entry that is too big: the rest of it becomes a new entry. *)
Lemma split_entry_ok p rest l1 e l2 req t s T :
  repr p rest (l1 ++ e :: l2) → (length l1 < N)%nat → base e ≤ limit e → region_type_of e = Some Free →
  0 ≤ req → req < limit e - base e → limit e < usize_limit → t ≠ Free → backend_ok s (chain_frames (p, rest) ++ T) →
  alloc_spec (p, rest) l1 e l2 req t s T (split_entry req t p rest (length l1) e s).
Proof.
  intros Hr Hi He Hfree Hreq Hlt Hlim Ht Hb.
  assert ((l1 ++ e :: l2) !! length l1 = Some e) as Hl by (by apply list_lookup_middle).
  pose proof (repr_lookup _ _ _ _ _ Hr Hi Hl) as Hent.
  unfold split_entry. destruct (law_allocate s _ Hb) as (o & s1 & Ha & Hb1 & Htf). rewrite Ha.
  cbn [mbind outcome_bind fst snd]. destruct o as [tf|]; [|left; by exists s1].
  right. exists [tf], s1. split; [right; by eauto|].
  step_by lia. cbn zeta. rewrite Hfree, mapper_eq by (done || lia).
  destruct (be_map_region t (base e) (base e + req) s1) as [[[u|er] s2]| |] eqn:Em; cbn [mbind outcome_bind fst snd]; try done.
  + pose proof (law_map _ _ _ _ _ _ _ Hb1 Em) as Hb2.
    set (e'' := mkEntry (base e) (base e + req) (Some t)).
    assert (repr (set_entry p (length l1) e'') rest (<[length l1 := e'']> (l1 ++ e :: l2))) as Hr'
      by (eapply repr_set; [done..|by exists t]).
    destruct (shuffle_up_ok _ _ _ (length l1 + 1) (mkEntry (base e + req) (limit e) (Some Free)) tf Hr')
      as (c & o & -> & Hc & Hfr); [|lia|by exists Free|by apply table_frame_reachable, Htf|lia|].
    { rewrite length_insert, length_app. cbn. lia. }
    cbn [mbind outcome_bind fst snd].
    assert (chain_repr c (alloc_flat l1 e l2 req t)) as Hc'.
    { unfold alloc_flat. rewrite (proj2 (Z.eqb_neq _ _)) by lia.
      replace (l1 ++ _) with (insert_at (length l1 + 1) (mkEntry (base e + req) (limit e) (Some Free))
        (<[length l1 := e'']> (l1 ++ e :: l2))); [done|].
      rewrite (list_insert_middle l1). unfold insert_at.
      rewrite take_app_add, drop_app_add. cbn. by rewrite <- app_assoc. }
    assert (chain_frames (set_entry p (length l1) e'', rest) = chain_frames (p, rest)) as Hfs by done.
    rewrite Hfs in Hfr. destruct Hfr as [[-> Hcf]|[-> Hcf]].
    * destruct (law_deallocate s2 tf (chain_frames (p, rest) ++ T) Hb2) as (s' & Hd & Hb'). rewrite Hd.
      eexists _, _, [tf]. split; [done|]. rewrite Hcf. split_and!; [done|done|by left|].
      unfold given_back. cbn. by rewrite Hd.
    * eexists _, _, []. split; [done|]. rewrite Hcf. split_and!; [done| | |done].
      { eapply backend_perm; [|exact Hb2]. cbn. by rewrite <- app_assoc, Permutation_middle. }
      right. split; [done|]. apply Permutation_app_comm.
  + pose proof (law_map _ _ _ _ _ _ _ Hb1 Em) as Hb2.
    destruct (law_deallocate s2 tf (chain_frames (p, rest) ++ T) Hb2) as (s' & Hd & Hb'). rewrite Hd.
    eexists. split_and!; [| |exact Hb'].
    * cbn [mbind outcome_bind]. rewrite <- Hfree, set_entry_same by done. done.
    * unfold given_back. cbn. by rewrite Hd.
Qed.

Lemma try_entry_found p rest l1 e l2 req t s T :
  repr p rest (l1 ++ e :: l2) → (length l1 < N)%nat → entry_ok e → fits req e = true → 0 ≤ req → t ≠ Free →
  backend_ok s (chain_frames (p, rest) ++ T) →
  ∃ o, try_entry req t p rest (length l1) s = (r ← o; Ret (Some r)) ∧
    alloc_spec (p, rest) l1 e l2 req t s T o.
Proof.
  intros Hr Hi He Hf Hreq Ht Hb.
  assert ((l1 ++ e :: l2) !! length l1 = Some e) as Hl by (by apply list_lookup_middle).
  pose proof (repr_lookup _ _ _ _ _ Hr Hi Hl) as Hent.
  unfold try_entry. rewrite (repr_entry _ _ _ _ _ Hr Hi Hl). cbn [mbind outcome_bind].
  apply andb_true_iff in Hf as [Hfree%bool_decide_eq_true Hsz%Z.leb_le]. rewrite Hfree.
  unfold entry_size. unfold entry_ok in He. step_by lia.
  destruct (Z.ltb_spec req (limit e - base e)) as [Hlt|Hge].
  - exists (split_entry req t p rest (length l1) e s). split; [done|].
    by apply split_entry_ok; (done || lia).
  - assert (limit e - base e = req) as Heq by lia. rewrite (proj2 (Z.eqb_eq _ _)) by done.
    exists (r ← be_map_region t (base e) (limit e) s;
       match r.1 with
       | Err err => Ret (Err err, (p, rest), r.2)
       | Ok _ => Ret (Ok (mkRegionInfo (base e) (limit e)),
                   (set_entry p (length l1) (mkEntry (base e) (limit e) (Some t)), rest), r.2)
       end).
    split.
    { assert (mapper req t e s = mapper req t (mkEntry (base e) (limit e) (Some Free)) s) as ->
        by (rewrite <- Hfree; by destruct e).
      rewrite mapper_eq by (done || lia).
      by destruct (be_map_region t (base e) (limit e) s) as [[[u|er] s2]| |]. }
    right. exists [], s. split; [by left|].
    replace (base e + req) with (limit e) by lia.
    destruct (be_map_region t (base e) (limit e) s) as [[[u|er] s2]| |] eqn:Em; cbn [mbind outcome_bind fst snd]; try done.
    + eexists _, _, []. split; [done|]. split_and!; [|by eapply law_map|by left|done].
      unfold alloc_flat. rewrite (proj2 (Z.eqb_eq _ _)) by done. replace (base e + req) with (limit e) by lia.
      rewrite <- (list_insert_middle l1 l2 e (mkEntry _ _ _)). eapply repr_set; [done..|by exists t].
    + eexists. split_and!; [done|done|]. by eapply law_map.
Qed.

Lemma try_entries_skip p rest l n req t s :
  repr p rest l → (n ≤ N)%nat → (n ≤ length l)%nat → Forall entry_ok l →
  Forall (λ e, fits req e = false) (take n l) →
  try_entries req t p rest (seq 0 N) s = try_entries req t p rest (seq n (N - n)) s.
Proof.
  intros Hr Hn Hlen Hok. induction n as [|n IH]; intros Hf.
  { by rewrite Nat.sub_0_r. }
  destruct (lookup_lt_is_Some_2 l n ltac:(lia)) as [e He].
  rewrite (take_S_r _ _ _ He), Forall_app, Forall_singleton in Hf. destruct Hf as [Hf Hfe].
  rewrite IH by (done || lia). replace (N - n)%nat with (Datatypes.S (N - Datatypes.S n)) by lia. cbn.
  rewrite Forall_lookup in Hok. rewrite (try_entry_skip p rest l n e) by (try done; try lia; eauto). done.
Qed.

Lemma first_fit_none p rest l req t s :
  repr p rest l → Forall entry_ok l → Forall (λ e, fits req e = false) l →
  allocate_first_fit req t p rest s = Ret (Err NoRegionAddressSpaceAvailable, (p, rest), s).
Proof.
  intros Hr. induction Hr as [p l Hn Hty He|p q rest l1 l2 H1 Hty He Hr IH]; intros Hok Hf;
    cbn [allocate_first_fit].
  - rewrite (try_entries_skip p [] l (length l)); [|by constructor|done|done|done|by rewrite firstn_all].
    destruct (decide (length l = N)) as [Hl|Hl].
    + by rewrite Hl, Nat.sub_diag.
    + replace (N - length l)%nat with (Datatypes.S (N - Datatypes.S (length l))) by lia. cbn [seq try_entries].
      unfold try_entry. destruct (repr_past_end p [] l (length l)) as [_ ->]; [by constructor|lia|done|]. done.
  - apply Forall_app in Hf as [Hf1 Hf2]. pose proof Hok as [_ Hok2]%Forall_app.
    rewrite (try_entries_skip p (q :: rest) (l1 ++ l2) N); [|by constructor|done|rewrite length_app; lia|done|].
    2: { rewrite <- H1, take_app_length. done. }
    rewrite Nat.sub_diag. cbn [seq try_entries mbind outcome_bind]. by rewrite (IH Hok2 Hf2).
Qed.

(** A result for the pages after a full page is a result for all of them. *)
Lemma alloc_spec_link p q rest l0 l1 e l2 req t s T o :
  length l0 = N → Forall typed l0 → entries p = l0 →
  alloc_spec (q, rest) l1 e l2 req t s (frame_list p ++ T) o →
  alloc_spec (p, q :: rest) (l0 ++ l1) e l2 req t s T
    (r ← o; Ret (r.1.1, link p r.1.2, r.2)).
Proof.
  intros Hl0 Hty Hent Ho. change (p, q :: rest) with (link p (q, rest)).
  assert (∀ s' c, backend_ok s' (chain_frames c ++ frame_list p ++ T) →
            backend_ok s' (chain_frames (link p c) ++ T)) as Hperm.
  { intros s' c Hb. rewrite chain_frames_link. eapply backend_perm; [|exact Hb].
    by rewrite !app_assoc, (Permutation_app_comm (frame_list p)). }
  destruct Ho as [(s' & Ha & -> & Hb)|(spare & s1 & Hb1 & Ho)]; [left|right].
  - exists s'. split_and!; [done|done|by apply Hperm].
  - exists spare, s1. split; [done|].
    destruct (be_map_region t (base e) (base e + req) s1) as [[[u|er] s2]| |].
    + destruct Ho as (c' & s' & r & -> & Hc & Hb & Hfr & Hg). exists (link p c'), s', r.
      split_and!; [done| |by apply Hperm| |done].
      * unfold alloc_flat in *. rewrite <- app_assoc. by apply repr_full.
      * rewrite !chain_frames_link. destruct Hfr as [[-> ->]|[-> Hfr]]; [by left|right]. split; [done|].
        rewrite Hfr. by rewrite !app_assoc, (Permutation_app_comm (frame_list p)).
    + destruct Ho as (s' & -> & Hg & Hb). exists s'. split_and!; [done|done|by apply Hperm].
    + by subst.
    + by subst.
Qed.

Lemma first_fit_found p rest l l1 e l2 req t s T :
  repr p rest l → l = l1 ++ e :: l2 → Forall entry_ok l → Forall (λ e, fits req e = false) l1 →
  fits req e = true → 0 ≤ req → t ≠ Free → backend_ok s (chain_frames (p, rest) ++ T) →
  alloc_spec (p, rest) l1 e l2 req t s T (allocate_first_fit req t p rest s).
Proof.
  intros Hr. revert l1 T. induction Hr as [p l Hn Hty He|p q rest l0 l' H0 Hty He Hr IH];
    intros l1 T Hl Hok Hf Hfe Hreq Ht Hb.
  - assert (length l1 < N)%nat as Hlt by (subst l; rewrite length_app in Hn; cbn in Hn; lia).
    assert (repr p [] l) as Hr by (by constructor). subst l.
    cbn [allocate_first_fit].
    rewrite (try_entries_skip p [] (l1 ++ e :: l2) (length l1)); [|done|lia|rewrite length_app; lia|done|by rewrite take_app_length].
    replace (N - length l1)%nat with (Datatypes.S (N - Datatypes.S (length l1))) by lia. cbn [seq try_entries].
    apply Forall_app in Hok as [_ [Hoe _]%Forall_cons].
    destruct (try_entry_found p [] l1 e l2 req t s T) as (o & -> & Ho); [done..|].
    by destruct o.
  - destruct (decide (length l1 < N)%nat) as [Hlt|Hge].
    + assert (repr p (q :: rest) (l0 ++ l')) as Hr' by (by constructor). rewrite Hl in Hr', Hok.
      cbn [allocate_first_fit].
      rewrite (try_entries_skip p (q :: rest) (l1 ++ e :: l2) (length l1)); [|done|lia|rewrite length_app; lia|done|by rewrite take_app_length].
      replace (N - length l1)%nat with (Datatypes.S (N - Datatypes.S (length l1))) by lia. cbn [seq try_entries].
      apply Forall_app in Hok as [_ [Hoe _]%Forall_cons].
      destruct (try_entry_found p (q :: rest) l1 e l2 req t s T) as (o & -> & Ho); [done..|].
      by destruct o.
    + assert (∃ l1', l1 = l0 ++ l1' ∧ l' = l1' ++ e :: l2) as (l1' & -> & Hl').
      { exists (drop N l1). apply app_eq_inv in Hl as [(k & -> & ->)|(k & -> & Hk)].
        - rewrite length_app in *. assert (k = []) as -> by (destruct k; [done|cbn in *; lia]).
          rewrite app_nil_r, drop_ge by lia. by rewrite app_nil_r.
        - rewrite <- H0, drop_app_length. done. }
      apply Forall_app in Hf as [Hf0 Hf1]. pose proof Hok as [Hok0 Hok1]%Forall_app.
      cbn [allocate_first_fit].
      rewrite (try_entries_skip p (q :: rest) (l0 ++ l') N); [|by constructor|done|rewrite length_app; lia|done|].
      2: { by rewrite <- H0, take_app_length. }
      rewrite Nat.sub_diag. cbn [seq try_entries]. rewrite bind_bind_Ret.
      apply alloc_spec_link with (l0 := l0); [done..|]. apply IH; try done.
      eapply backend_perm; [|exact Hb]. change (p, q :: rest) with (link p (q, rest)).
      by rewrite chain_frames_link, !app_assoc, (Permutation_app_comm (frame_list p)).
Qed.

(** *** Freeing *)

(** The free entry at the head of a list of entries: its size, and the rest. *)
Definition free_tail (l : list RegionMapEntry) : Z * list RegionMapEntry :=
  match l with
  | y :: l' => if bool_decide (region_type_of y = Some Free) then (limit y - base y, l') else (0, l)
  | [] => (0, [])
  end.

Lemma delete_after (k1 : list RegionMapEntry) x y k2 :
  delete (length k1 + 1)%nat (k1 ++ x :: y :: k2) = k1 ++ x :: k2.
Proof.
  change (x :: y :: k2) with ([x] ++ y :: k2). rewrite app_assoc.
  replace (length k1 + 1)%nat with (length (k1 ++ [x])) by (by rewrite length_app).
  rewrite delete_middle. by rewrite <- app_assoc.
Qed.

(** A full first page that ends with [x]. *)
Lemma repr_boundary p rest k1 x k2 :
  repr p rest (k1 ++ x :: k2) → (length k1 + 1 = N)%nat →
  (rest = [] ∧ k2 = []) ∨
  (∃ q rest', rest = q :: rest' ∧ entries p = k1 ++ [x] ∧ Forall typed (k1 ++ [x]) ∧ repr q rest' k2).
Proof.
  intros Hr Hlen. inversion Hr as [p' l Hn Hty He|p' q rest' l1 l2 H1 Hty He Hr' Hp Hrest Hl]; subst.
  - left. split; [done|]. rewrite length_app in Hn. cbn in Hn. destruct k2; [done|cbn in Hn; lia].
  - right. exists q, rest'. replace (k1 ++ x :: k2) with ((k1 ++ [x]) ++ k2) in Hl by (by rewrite <- app_assoc).
    apply app_inj_1 in Hl as [E1 E2]; [|rewrite length_app; cbn; lia]. by rewrite <- E1, <- E2.
Qed.

Lemma drop_tail_ok c k1 e k2 s T :
  chain_repr c (k1 ++ e :: k2) → (length k1 < N)%nat → Forall entry_ok k2 →
  backend_ok s (chain_frames c ++ T) →
  ∃ c' s' T0, drop_tail c (length k1) s = Ret ((free_tail k2).1, c', s') ∧
    chain_repr c' (k1 ++ e :: (free_tail k2).2) ∧ backend_ok s' (chain_frames c' ++ T) ∧
    chain_frames c ≡ₚ T0 ++ chain_frames c' ∧ given_back T0 s s'.
Proof.
  intros Hr Hlt Hok Hb.
  assert (∀ k, chain_repr c k →
    ∃ c' s' T0, Ret (0, c, s) = Ret (0, c', s') ∧ chain_repr c' k ∧ backend_ok s' (chain_frames c' ++ T) ∧
      chain_frames c ≡ₚ T0 ++ chain_frames c' ∧ given_back T0 s s') as Hsame by (intros k Hk; by exists c, s, []).
  destruct c as [p rest]. unfold chain_repr, drop_tail in *. cbn [fst snd] in *.
  destruct (Nat.ltb_spec (length k1 + 1) N) as [Hj|Hj].
  - destruct k2 as [|y k2]; cbn [free_tail].
    + destruct (repr_past_end p rest _ (length k1 + 1) Hr) as [_ ->]; [lia|rewrite length_app; cbn; lia|].
      by apply Hsame.
    + rewrite (repr_entry p rest _ (length k1 + 1) y Hr) by (done || by rewrite lookup_app_r by lia; rewrite Nat.add_comm, Nat.add_sub).
      apply Forall_cons in Hok as [Hy _]. unfold entry_ok in Hy.
      cbn [mbind outcome_bind]. case_bool_decide as Hfree; cbn [fst snd]; [|by apply Hsame].
      unfold entry_size. step_by lia.
      destruct (shuffle_down_ok p rest _ (length k1 + 1) s T Hr) as (c' & s' & T0 & -> & Hc & _ & Hb' & HT & Hg);
        [lia|rewrite length_app; cbn; lia|done|].
      rewrite delete_after in Hc. cbn. by exists c', s', T0.
  - destruct (repr_boundary p rest k1 e k2 Hr) as [[-> ->]|(q & rest' & -> & He & Hty & Hq)]; [lia|by apply Hsame|].
    destruct k2 as [|y k2]; cbn [free_tail].
    + destruct (repr_past_end q rest' [] 0 Hq) as [_ ->]; [lia|cbn; lia|]. by apply Hsame.
    + rewrite (repr_entry q rest' (y :: k2) 0 y Hq) by (done || lia).
      apply Forall_cons in Hok as [Hy _]. unfold entry_ok in Hy.
      cbn [mbind outcome_bind]. case_bool_decide as Hfree; cbn [fst snd]; [|by apply Hsame].
      unfold entry_size. step_by lia. clear Hsame.
      change (p, q :: rest') with (link p (q, rest')) in Hb. rewrite chain_frames_link in Hb.
      destruct (shuffle_down_ok q rest' _ 0 s (frame_list p ++ T) Hq) as (c' & s' & T0 & -> & Hc & _ & Hb' & HT & Hg);
        [lia|cbn; lia| |].
      { eapply backend_perm; [|exact Hb]. by rewrite !app_assoc, (Permutation_app_comm (frame_list p)). }
      cbn [mbind outcome_bind fst snd]. eexists _, _, T0. split; [done|]. split_and!; [| | |exact Hg].
      * unfold link. cbn [fst snd]. replace (k1 ++ e :: k2) with ((k1 ++ [e]) ++ k2) by (by rewrite <- app_assoc).
        apply repr_full; [rewrite length_app; cbn; lia|done|done|done].
      * rewrite chain_frames_link. eapply backend_perm; [|exact Hb'].
        by rewrite !app_assoc, (Permutation_app_comm (frame_list p)).
      * change (p, q :: rest') with (link p (q, rest')). rewrite !chain_frames_link, HT.
        by rewrite !app_assoc, (Permutation_app_comm (frame_list p)).
Qed.

Lemma drop_lead_ok p rest k1 x e k2 info s T :
  repr p rest (k1 ++ x :: e :: k2) → (length k1 < N)%nat →
  region_type_of x = Some Free → limit x = start_va info → entry_ok x →
  backend_ok s (chain_frames (p, rest) ++ T) →
  ∃ c s' T0, drop_region_info p rest (length k1) info s = Ret (Some (limit x - base x), c, s') ∧
    chain_repr c (k1 ++ e :: k2) ∧ backend_ok s' (chain_frames c ++ T) ∧
    chain_frames (p, rest) ≡ₚ T0 ++ chain_frames c ∧ given_back T0 s s'.
Proof.
  intros Hr Hlt Hfree Hlim Hok Hb. unfold drop_region_info. unfold entry_ok in Hok.
  assert ((k1 ++ x :: e :: k2) !! length k1 = Some x) as Hx by (by apply list_lookup_middle).
  rewrite (repr_entry p rest _ (length k1) x Hr) by done. cbn [mbind outcome_bind].
  rewrite (proj2 (Z.eqb_eq (limit x) (start_va info)) Hlim), Hfree. cbn [unwrap mbind outcome_bind].
  rewrite bool_decide_true by done. unfold entry_size. step_by lia.
  pose proof (repr_typed _ _ _ Hr) as Hty. rewrite Forall_app, !Forall_cons in Hty. destruct Hty as (Ht1 & Htx & Hte & _).
  destruct (Nat.ltb_spec (length k1 + 1) N) as [Hj|Hj].
  - rewrite (repr_entry p rest _ (length k1 + 1) e Hr) by (done || by rewrite lookup_app_r by lia; rewrite Nat.add_comm, Nat.add_sub).
    cbn [mbind outcome_bind].
    pose proof (repr_set p rest _ (length k1) x e Hr Hlt Hx Hte) as Hr'. rewrite list_insert_middle in Hr'.
    destruct (shuffle_down_ok _ _ _ (length k1 + 1) s T Hr') as (c & s' & T0 & -> & Hc & _ & Hb' & HT & Hg);
      [lia|rewrite length_app; cbn; lia|done|].
    rewrite delete_after in Hc. cbn [mbind outcome_bind fst snd]. by exists c, s', T0.
  - destruct (repr_boundary p rest k1 x (e :: k2) Hr) as [[_ ?]|(q & rest' & -> & He & Hty & Hq)]; [lia|done|].
    rewrite (repr_entry q rest' (e :: k2) 0 e Hq) by (done || lia). cbn [mbind outcome_bind].
    change (p, q :: rest') with (link p (q, rest')) in Hb. rewrite chain_frames_link in Hb.
    destruct (shuffle_down_ok q rest' _ 0 s (frame_list p ++ T) Hq) as (c & s' & T0 & -> & Hc & _ & Hb' & HT & Hg);
      [lia|cbn; lia| |].
    { eapply backend_perm; [|exact Hb]. by rewrite !app_assoc, (Permutation_app_comm (frame_list p)). }
    cbn [mbind outcome_bind fst snd]. eexists _, _, T0. split; [done|]. split_and!; [| | |exact Hg].
    + unfold chain_repr, link. cbn [fst snd]. replace (k1 ++ e :: k2) with ((k1 ++ [e]) ++ k2) by (by rewrite <- app_assoc).
      apply repr_full; [rewrite length_app; cbn; lia| | |done].
      * apply Forall_app. split; [done|by apply Forall_singleton].
      * cbn. rewrite He. apply list_insert_middle.
    + rewrite chain_frames_link. eapply backend_perm; [|exact Hb'].
      change (frame_list (set_entry p (length k1) e)) with (frame_list p).
      by rewrite !app_assoc, (Permutation_app_comm (frame_list p)).
    + change (p, q :: rest') with (link p (q, rest')). rewrite !chain_frames_link, HT.
      change (frame_list (set_entry p (length k1) e)) with (frame_list p).
      by rewrite !app_assoc, (Permutation_app_comm (frame_list p)).
Qed.

(** What freeing the used entry [e] comes to, with the frames [T'] in the table: it
    follows the outcome of unmapping the range, before and after which an empty
    page of the table may be given back; [R] is the table from the place of the
    merged entry. Unmapping has to leave the frames of the table held. *)
Definition free_spec (T' : list Frame) (k1 R : list RegionMapEntry) (e : RegionMapEntry) (t : RegionType)
    (s : S) (T : list Frame) (o : outcome (chain * S)) : Prop :=
  ∃ T0 T1 s1, T' ≡ₚ T0 ++ T1 ∧ given_back T0 s s1 ∧
    match be_unmap_region t (base e) (limit e) s1 with
    | Panic w => o = Panic w
    | Hang => o = Hang
    | Ret s2 => backend_ok s2 (T1 ++ T) → ∃ T2 c' s', o = Ret (c', s') ∧ chain_repr c' (k1 ++ R) ∧
        T1 ≡ₚ T2 ++ chain_frames c' ∧ given_back T2 s2 s' ∧ backend_ok s' (chain_frames c' ++ T)
    end.

Definition merged (b : Z) (e : RegionMapEntry) (k2 : list RegionMapEntry) : list RegionMapEntry :=
  mkEntry b (limit e + (free_tail k2).1) (Some Free) :: (free_tail k2).2.

Lemma release_ok c k1 e k2 t lead info s T :
  chain_repr c (k1 ++ e :: k2) → (length k1 < N)%nat → region_type_of e = Some t → t ≠ Free →
  limit e = limit_va info → Forall entry_ok k2 → 0 ≤ lead ≤ base e →
  limit e + (free_tail k2).1 < usize_limit →
  free_spec (chain_frames c) k1 (merged (base e - lead) e k2) e t s T (release_entry c (length k1) lead info s).
Proof.
  intros Hr Hlt Ht Hnf Hlim Hok Hlead Hov. exists [], (chain_frames c), s. split_and!; [done|done|].
  unfold release_entry. assert ((k1 ++ e :: k2) !! length k1 = Some e) as He by (by apply list_lookup_middle).
  rewrite (repr_entry c.1 c.2 _ (length k1) e Hr) by done. cbn [mbind outcome_bind]. unfold unmap_region.
  rewrite Ht. cbn [unwrap mbind outcome_bind]. rewrite !bool_decide_true by done. cbn [assert_ mbind outcome_bind].
  rewrite (proj2 (Z.eqb_eq (limit e) (limit_va info)) Hlim). cbn [assert_ mbind outcome_bind].
  assert (match t with Free => Panic ExplicitPanic | _ => be_unmap_region t (base e) (limit e) s end
          = be_unmap_region t (base e) (limit e) s) as -> by (by destruct t).
  destruct (be_unmap_region t (base e) (limit e) s) as [s1| |] eqn:Eu; cbn [mbind outcome_bind]; [|done..].
  intros Hb1.
  destruct (drop_tail_ok c k1 e k2 s1 T Hr Hlt Hok Hb1) as (c' & s' & T2 & -> & Hc & Hb' & HT & Hg).
  cbn [mbind outcome_bind fst snd]. do 2 step_by lia.
  eexists T2, _, _. split; [done|]. split_and!; [|exact HT|exact Hg|exact Hb'].
  unfold merged. rewrite <- (list_insert_middle k1 (free_tail k2).2 e (mkEntry _ _ _)).
  eapply repr_set; [exact Hc|done|by apply list_lookup_middle|by exists Free].
Qed.

Lemma free_entry_skip p rest l j x info s :
  repr p rest l → (j < N)%nat → l !! j = Some x → base x < start_va info →
  (limit x = start_va info → region_type_of x ≠ Some Free) →
  free_entry p rest j info s = Ret None.
Proof.
  intros Hr Hj Hx Hb Hl. unfold free_entry, drop_region_info.
  rewrite (repr_entry p rest _ j x Hr) by done. cbn [mbind outcome_bind].
  pose proof (repr_typed _ _ _ Hr) as Hty. rewrite Forall_lookup in Hty. destruct (Hty _ _ Hx) as [t Ht].
  step_by lia. rewrite Ht, bool_decide_true by (by exists t). cbn [assert_ mbind outcome_bind unwrap].
  rewrite (proj2 (Z.eqb_neq (base x) (start_va info))) by lia.
  destruct (Z.eqb_spec (limit x) (start_va info)) as [E|E]; [|done]. cbn [mbind outcome_bind].
  rewrite bool_decide_false; [done|]. intros ->. by apply Hl.
Qed.

Lemma free_entries_skip p rest l n info s :
  repr p rest l → (n ≤ N)%nat → (n ≤ length l)%nat →
  Forall (λ x, base x < start_va info ∧ (limit x = start_va info → region_type_of x ≠ Some Free)) (take n l) →
  free_entries p rest (seq 0 N) info s = free_entries p rest (seq n (N - n)) info s.
Proof.
  intros Hr Hn Hlen. induction n as [|n IH]; intros Hf.
  { by rewrite Nat.sub_0_r. }
  destruct (lookup_lt_is_Some_2 l n ltac:(lia)) as [x Hx].
  rewrite (take_S_r _ _ _ Hx), Forall_app, Forall_singleton in Hf. destruct Hf as [Hf [Hb Hl]].
  rewrite IH by (done || lia). replace (N - n)%nat with (Datatypes.S (N - Datatypes.S n)) by lia. cbn.
  rewrite (free_entry_skip p rest l n x) by (try done; lia). done.
Qed.

(** The entry that the search stops at: the region itself, or the free entry
    just before it. *)
Definition stops_at (info : RegionInfo) (m : list RegionMapEntry) (e : RegionMapEntry) (t : RegionType)
    (R : list RegionMapEntry) : Prop :=
  region_type_of e = Some t ∧ t ≠ Free ∧ base e = start_va info ∧ limit e = limit_va info ∧ base e < limit e ∧
  ∃ k2, Forall entry_ok k2 ∧ limit e + (free_tail k2).1 < usize_limit ∧
  ((m = e :: k2 ∧ 0 ≤ base e ∧ R = merged (base e) e k2) ∨
   (∃ x, m = x :: e :: k2 ∧ region_type_of x = Some Free ∧ limit x = base e ∧ base x < limit x ∧ entry_ok x ∧
      R = merged (base x) e k2)).

Lemma free_entry_found p rest k1 m e t R info s T :
  repr p rest (k1 ++ m) → (length k1 < N)%nat → stops_at info m e t R →
  backend_ok s (chain_frames (p, rest) ++ T) →
  ∃ o, free_entry p rest (length k1) info s = (r ← o; Ret (Some r)) ∧
    free_spec (chain_frames (p, rest)) k1 R e t s T o.
Proof.
  intros Hr Hlt (Ht & Hnf & Hs & Hl & Hsz & k2 & Hok & Hov & Hm) Hb. unfold free_entry.
  destruct Hm as [(-> & H0 & ->)|(x & -> & Hfree & Hlx & Hszx & Hokx & ->)].
  - assert ((k1 ++ e :: k2) !! length k1 = Some e) as He by (by apply list_lookup_middle).
    exists (release_entry (p, rest) (length k1) 0 info s). split.
    + unfold drop_region_info. rewrite (repr_entry p rest _ (length k1) e Hr) by done. cbn [mbind outcome_bind].
      step_by lia. rewrite Ht, bool_decide_true by (by exists t). cbn [assert_ mbind outcome_bind].
      rewrite (proj2 (Z.eqb_neq (limit e) (start_va info))) by lia. cbn [mbind outcome_bind].
      rewrite (proj2 (Z.eqb_eq (base e) (start_va info)) Hs). done.
    + replace (base e) with (base e - 0) by lia. apply release_ok; (done || lia).
  - assert ((k1 ++ x :: e :: k2) !! length k1 = Some x) as Hx by (by apply list_lookup_middle).
    destruct (drop_lead_ok p rest k1 x e k2 info s T) as (c & s' & T0 & Hd & Hc & Hb' & HT & Hg);
      [done|done|done|lia|done|done|].
    exists (release_entry c (length k1) (limit x - base x) info s'). split.
    + rewrite (repr_entry p rest _ (length k1) x Hr) by done. cbn [mbind outcome_bind].
      step_by lia. rewrite Hfree, bool_decide_true by (by exists Free). cbn [assert_ mbind outcome_bind].
      rewrite Hd. done.
    + replace (base x) with (base e - (limit x - base x)) at 1 by lia. unfold entry_ok in Hokx.
      destruct (release_ok c k1 e k2 t (limit x - base x) info s' T) as (T1 & T2 & s1 & HT1 & Hg1 & Ho); [(done || lia)..|].
      exists (T0 ++ T1), T2, s1. split_and!; [by rewrite HT, HT1, app_assoc| |exact Ho].
      unfold given_back. by rewrite for_each_app, Hg, bind_bind_Ret.
Qed.

Lemma free_spec_link T' p l0 k1 R e t s T o :
  length l0 = N → Forall typed l0 → entries p = l0 →
  free_spec T' k1 R e t s (frame_list p ++ T) o →
  free_spec (frame_list p ++ T') (l0 ++ k1) R e t s T (r ← o; Ret (link p r.1, r.2)).
Proof.
  intros Hl0 Hty Hent (T0 & T1 & s1 & HT & Hg1 & Ho). exists T0, (frame_list p ++ T1), s1. split_and!; [|done|].
  { rewrite HT. by rewrite !app_assoc, (Permutation_app_comm (frame_list p)). }
  destruct (be_unmap_region t (base e) (limit e) s1) as [s2| |]; [|by subst..]. intros Hb2.
  destruct Ho as (T2 & c' & s' & -> & Hc & HT2 & Hg2 & Hb).
  { eapply backend_perm; [|exact Hb2]. by rewrite !app_assoc, (Permutation_app_comm (frame_list p)). }
  exists T2, (link p c'), s'. split_and!; [done| | |done|].
  - rewrite <- app_assoc. destruct c' as [q rest']. by apply repr_full.
  - rewrite chain_frames_link, HT2. by rewrite !app_assoc, (Permutation_app_comm (frame_list p)).
  - rewrite chain_frames_link. eapply backend_perm; [|exact Hb].
    by rewrite !app_assoc, (Permutation_app_comm (frame_list p)).
Qed.

Lemma deallocate_found p rest l k1 m e t R info s T :
  repr p rest l → l = k1 ++ m → m ≠ [] → stops_at info m e t R →
  Forall (λ x, base x < start_va info ∧ (limit x = start_va info → region_type_of x ≠ Some Free)) k1 →
  backend_ok s (chain_frames (p, rest) ++ T) →
  free_spec (chain_frames (p, rest)) k1 R e t s T (deallocate_recurse_thing p rest info s).
Proof.
  intros Hr. revert k1 T. induction Hr as [p l Hn Hty He|p q rest l0 l' H0 Hty He Hr IH];
    intros k1 T Hl Hm Hst Hf Hb.
  - assert (repr p [] l) as Hr by (by constructor). subst l.
    assert (length k1 < N)%nat as Hlt by (rewrite length_app in Hn; destruct m; [done|cbn in Hn; lia]).
    cbn [deallocate_recurse_thing].
    rewrite (free_entries_skip p [] (k1 ++ m) (length k1)); [|done|lia|rewrite length_app; lia|by rewrite take_app_length].
    replace (N - length k1)%nat with (Datatypes.S (N - Datatypes.S (length k1))) by lia. cbn [seq free_entries].
    destruct (free_entry_found p [] k1 m e t R info s T) as (o & -> & Ho); [done..|]. by destruct o.
  - destruct (decide (length k1 < N)%nat) as [Hlt|Hge].
    + assert (repr p (q :: rest) (l0 ++ l')) as Hr' by (by constructor). rewrite Hl in Hr'.
      cbn [deallocate_recurse_thing].
      rewrite (free_entries_skip p (q :: rest) (k1 ++ m) (length k1)); [|done|lia|rewrite length_app; lia|by rewrite take_app_length].
      replace (N - length k1)%nat with (Datatypes.S (N - Datatypes.S (length k1))) by lia. cbn [seq free_entries].
      destruct (free_entry_found p (q :: rest) k1 m e t R info s T) as (o & -> & Ho); [done..|]. by destruct o.
    + assert (∃ k1', k1 = l0 ++ k1' ∧ l' = k1' ++ m) as (k1' & -> & Hl').
      { exists (drop N k1). apply app_eq_inv in Hl as [(k & -> & ->)|(k & -> & Hk)].
        - rewrite length_app in *. assert (k = []) as -> by (destruct k; [done|cbn in *; lia]).
          rewrite app_nil_r, drop_ge by lia. by rewrite app_nil_r.
        - rewrite <- H0, drop_app_length. done. }
      apply Forall_app in Hf as [Hf0 Hf1]. cbn [deallocate_recurse_thing].
      rewrite (free_entries_skip p (q :: rest) (l0 ++ l') N); [|by constructor|done|rewrite length_app; lia|].
      2: { by rewrite <- H0, take_app_length. }
      rewrite Nat.sub_diag. cbn [seq free_entries]. rewrite bind_bind_Ret.
      change (p, q :: rest) with (link p (q, rest)). rewrite chain_frames_link.
      apply free_spec_link with (l0 := l0); [done..|]. apply IH; try done.
      eapply backend_perm; [|exact Hb]. change (p, q :: rest) with (link p (q, rest)).
      by rewrite chain_frames_link, !app_assoc, (Permutation_app_comm (frame_list p)).
Qed.

(** *** The invariant *)

(** The table of regions: its pages hold entries that tile the range from [B]
    to [L], free neighbours merged. *)
Record table_ok (B L : Z) (c : chain) (l : list RegionMapEntry) : Prop := {
  tbl_repr : chain_repr c l;
  tbl_tiled : tiled B l L;
  tbl_coalesced : coalesced l;
  tbl_base : 0 ≤ B;
  tbl_limit : L < usize_limit;
}.

Lemma tiled_entry_ok B l L : 0 ≤ B → L < usize_limit → tiled B l L → Forall entry_ok l.
Proof.
  intros HB HL Ht%tiled_inside. eapply Forall_impl; [exact Ht|]. unfold entry_ok. cbn. lia.
Qed.

Lemma new_table_ok B L : 0 ≤ B < L → L < usize_limit → table_ok B L (new B L) [mkEntry B L (Some Free)].
Proof.
  intros HB HL. split; [|cbn; lia|done|lia|done].
  apply repr_last; [cbn; lia|apply Forall_singleton; by exists Free|].
  cbn. destruct N as [|n]; [lia|]. cbn. by rewrite Nat.sub_0_r.
Qed.

Lemma alloc_flat_ok B L l1 e l2 req t :
  tiled B (l1 ++ e :: l2) L → coalesced (l1 ++ e :: l2) → fits req e = true → 0 < req → t ≠ Free →
  tiled B (alloc_flat l1 e l2 req t) L ∧ coalesced (alloc_flat l1 e l2 req t).
Proof.
  intros Ht Hc Hf Hreq Hnf. apply andb_true_iff in Hf as [Hfree%bool_decide_eq_true Hsz%Z.leb_le].
  apply tiled_app in Ht as (m & Ht1 & <- & Hlt & Ht2).
  apply coalesced_middle in Hc as (Hc1 & Hc2 & He1 & He2).
  assert (is_free (mkEntry (base e) (base e + req) (Some t)) = false) as Hu.
  { unfold is_free. rewrite bool_decide_false; [done|]. cbn. congruence. }
  unfold alloc_flat. destruct (Z.eqb_spec (limit e - base e) req) as [E|E].
  - split.
    + apply tiled_app. exists (base e). split; [done|]. cbn. split_and!; [done|lia|].
      by replace (base e + req) with (limit e) by lia.
    + apply coalesced_middle. by rewrite Hu, andb_false_r.
  - split.
    + apply tiled_app. exists (base e). split; [done|]. cbn. split_and!; (done || lia).
    + apply coalesced_middle. rewrite Hu, andb_false_r. split_and!; try done.
      assert (is_free e = true) as Hfe by (by apply bool_decide_eq_true). rewrite Hfe in He2.
      by apply (coalesced_middle []).
Qed.

(** The table after the used entry [e] was freed. *)
Definition dealloc_flat (l1 : list RegionMapEntry) (e : RegionMapEntry) (l2 : list RegionMapEntry)
    : list RegionMapEntry :=
  match last l1 with
  | Some x => if is_free x then removelast l1 ++ merged (base x) e l2 else l1 ++ merged (base e) e l2
  | None => merged (base e) e l2
  end.

Lemma merged_ok b l1 e l2 B L m :
  tiled B l1 b → b < limit e → tiled (limit e) l2 L → coalesced l1 → ends_free l1 = false → coalesced l2 →
  m = l1 ++ merged b e l2 → tiled B m L ∧ coalesced m.
Proof.
  intros Ht1 Hlt Ht2 Hc1 He1 Hc2 ->. unfold merged. split.
  - apply tiled_app. exists b. split; [done|]. unfold free_tail. destruct l2 as [|y l2]; cbn in *.
    + split_and!; [done|lia|lia].
    + destruct Ht2 as (Hb & Hly & Ht2). case_bool_decide; cbn; split_and!; try done; try lia.
      by replace (limit e + (limit y - base y)) with (limit y) by lia.
  - apply coalesced_middle. split_and!; [done| | |].
    + unfold free_tail. destruct l2 as [|y l2]; [done|]. case_bool_decide; [|done]. destruct l2; [done|apply Hc2].
    + by rewrite He1.
    + cbn. unfold free_tail. destruct l2 as [|y l2]; [done|]. case_bool_decide as Hy; cbn; [|by apply bool_decide_eq_false].
      destruct l2 as [|z l2]; [done|]. cbn in Hc2. destruct Hc2 as [Hc2 _].
      unfold is_free at 1 in Hc2. by rewrite bool_decide_true in Hc2.
Qed.

Lemma free_tail_bound b l L : tiled b l L → b + (free_tail l).1 ≤ L.
Proof.
  destruct l as [|y l]; cbn; [lia|]. intros (<- & Hlt & Ht). pose proof (tiled_le _ _ _ Ht).
  case_bool_decide; cbn; lia.
Qed.

Lemma deallocate_region_ok B L c l1 e l2 t s T :
  table_ok B L c (l1 ++ e :: l2) → region_type_of e = Some t → t ≠ Free →
  backend_ok s (chain_frames c ++ T) →
  ∃ k1 R, free_spec (chain_frames c) k1 R e t s T (deallocate_region c (region_info e) s) ∧
    k1 ++ R = dealloc_flat l1 e l2 ∧
    tiled B (dealloc_flat l1 e l2) L ∧ coalesced (dealloc_flat l1 e l2).
Proof.
  intros [Hr Ht Hc HB HL] Hty Hnf Hb. pose proof (tiled_entry_ok _ _ _ HB HL Ht) as Hok.
  apply Forall_app in Hok as [Hok1 [Hoke Hok2]%Forall_cons].
  apply tiled_app in Ht as (m & Ht1 & <- & Hlt & Ht2). pose proof (tiled_le _ _ _ Ht1) as HBe.
  pose proof (free_tail_bound _ _ _ Ht2) as Hov.
  apply coalesced_middle in Hc as (Hc1 & Hc2 & He1 & He2).
  pose proof (tiled_before _ _ _ Ht1) as Hbefore.
  assert (∀ m R, (m = e :: l2 ∧ 0 ≤ base e ∧ R = merged (base e) e l2) ∨
   (∃ x, m = x :: e :: l2 ∧ region_type_of x = Some Free ∧ limit x = base e ∧ base x < limit x ∧ entry_ok x ∧
      R = merged (base x) e l2) → stops_at (region_info e) m e t R) as Hstop.
  { intros m R Hm. split_and!; [done|done|done|done|done|]. exists l2. split_and!; [done|lia|done]. }
  unfold deallocate_region, dealloc_flat.
  destruct (last l1) as [x|] eqn:Hlast; [destruct (is_free x) eqn:Hx|].
  - apply last_Some in Hlast as [k ->]. rewrite removelast_last.
    apply tiled_app in Ht1 as (mx & Htk & <- & Hltx & Hxe). cbn in Hxe.
    pose proof (tiled_before _ _ _ Htk) as Hbk.
    apply bool_decide_eq_true in Hx as Hxf. rewrite <- app_assoc in Hr. cbn in Hr.
    exists k, (merged (base x) e l2). split; [|split; [done|]].
    + eapply (deallocate_found _ _ _ k (x :: e :: l2)); [exact Hr|done|done| | |exact Hb].
      * apply Hstop. right. exists x. apply Forall_app in Hok1 as [_ Hokx]. rewrite Forall_singleton in Hokx. by split_and!.
      * apply Forall_forall. intros y Hy. rewrite Forall_forall in Hbk. destruct (Hbk y Hy) as [Hby Hly].
        pose proof (tiled_inside _ _ _ Htk) as Hin. rewrite Forall_forall in Hin. specialize (Hin y Hy).
        cbn in *. split; [lia|]. intros. exfalso. lia.
    + apply (merged_ok (base x) k e l2); [exact Htk|lia|exact Ht2| | |done|done].
      * apply (coalesced_middle k x []) in Hc1. apply Hc1.
      * apply (coalesced_middle k x []) in Hc1 as (_ & _ & Hck & _). by rewrite Hx, andb_true_r in Hck.
  - exists l1, (merged (base e) e l2). split; [|split; [done|]].
    + eapply (deallocate_found _ _ _ l1 (e :: l2)); [exact Hr|done|done| | |exact Hb].
      * apply Hstop. left. split_and!; [done|lia|done].
      * eapply Forall_impl; [exact Hbefore|]. cbn. intros y [Hby Hly]. split; [done|].
        intros E. specialize (Hly E). injection Hly as ->.
        intros Hf. unfold is_free in Hx. by rewrite bool_decide_true in Hx.
    + apply (merged_ok (base e) l1 e l2); try done. unfold ends_free. by rewrite Hlast.
  - apply last_None in Hlast as ->. exists [], (merged (base e) e l2). split; [|split; [done|]].
    + eapply (deallocate_found _ _ _ [] (e :: l2)); [exact Hr|done|done| |done|exact Hb].
      apply Hstop. left. split_and!; [done|lia|done].
    + apply (merged_ok (base e) [] e l2); done.
Qed.

Lemma find_fit req l :
  Forall (λ e, fits req e = false) l ∨
  ∃ l1 e l2, l = l1 ++ e :: l2 ∧ Forall (λ e, fits req e = false) l1 ∧ fits req e = true.
Proof.
  induction l as [|x l IH]; [by left|]. destruct (fits req x) eqn:E.
  - right. by exists [], x, l.
  - destruct IH as [IH|(l1 & e & l2 & -> & Hf & He)]; [left; by constructor|].
    right. exists (x :: l1), e, l2. split_and!; [done|by constructor|done].
Qed.

(** Freeing what was just allocated restores the table. *)
Lemma dealloc_alloc_flat l1 e l2 req t :
  coalesced (l1 ++ e :: l2) → fits req e = true → t ≠ Free →
  ∃ k2, alloc_flat l1 e l2 req t = l1 ++ mkEntry (base e) (base e + req) (Some t) :: k2 ∧
    dealloc_flat l1 (mkEntry (base e) (base e + req) (Some t)) k2 = l1 ++ e :: l2.
Proof.
  intros Hc Hf Hnf. apply andb_true_iff in Hf as [Hfree%bool_decide_eq_true Hsz%Z.leb_le].
  apply coalesced_middle in Hc as (_ & _ & He1 & He2).
  assert (is_free e = true) as Hfe by (by apply bool_decide_eq_true). rewrite Hfe, andb_true_r in He1.
  rewrite Hfe in He2. cbn in He2.
  unfold alloc_flat. eexists. split; [done|]. unfold dealloc_flat.
  set (k2 := if limit e - base e =? req then l2 else _).
  assert (merged (base e) (mkEntry (base e) (base e + req) (Some t)) k2 = e :: l2) as Hm.
  { assert (∀ x, x = limit e → mkEntry (base e) x (Some Free) = e) as Hme
      by (intros x ->; rewrite <- Hfree; by destruct e).
    unfold merged, k2. destruct (Z.eqb_spec (limit e - base e) req) as [E|E].
    - unfold free_tail. destruct l2 as [|y l2]; cbn.
      + f_equal. apply Hme. lia.
      + cbn in He2. unfold is_free in He2. rewrite He2. cbn. f_equal. apply Hme. lia.
    - cbn [free_tail region_type_of]. rewrite bool_decide_true by done. cbn. f_equal. apply Hme. lia. }
  cbn [base]. rewrite Hm. unfold ends_free in He1. destruct (last l1) as [x|] eqn:Hl; [by rewrite He1|].
  by apply last_None in Hl as ->.
Qed.

Lemma allocate_region_ok B L c l pages t s :
  table_ok B L c l → backend_ok s (chain_frames c) →
  0 < pages → pages * PAGE_SIZE < usize_limit → t ≠ Free →
  let req := pages * PAGE_SIZE in
  (Forall (λ e, fits req e = false) l ∧
   allocate_region c pages t s = Ret (Err NoRegionAddressSpaceAvailable, c, s)) ∨
  (∃ l1 e l2, l = l1 ++ e :: l2 ∧ Forall (λ e, fits req e = false) l1 ∧ fits req e = true ∧
     alloc_spec c l1 e l2 req t s [] (allocate_region c pages t s) ∧
     tiled B (alloc_flat l1 e l2 req t) L ∧ coalesced (alloc_flat l1 e l2 req t)).
Proof.
  intros [Hr Ht Hc HB HL] Hb Hp Hov Hnf req. unfold allocate_region.
  rewrite umul_ok, bind_bind_Ret by done. fold req. destruct c as [p rest].
  pose proof (tiled_entry_ok _ _ _ HB HL Ht) as Hok.
  assert (0 < req) by (unfold req, PAGE_SIZE; lia).
  destruct (find_fit req l) as [Hf|(l1 & e & l2 & -> & Hf & He)]; [left|right].
  - split; [done|]. by apply first_fit_none with (l := l).
  - exists l1, e, l2. split_and!; try done; try (by eapply alloc_flat_ok).
    eapply first_fit_found; try done; [lia|]. by rewrite app_nil_r.
Qed.

(** *** Properties *)

(** Allocating a region of [pages] pages. On a well-formed table, either no
    free entry is big enough and the call fails leaving everything as it was;
    or the first one that is (in address order) is used, and then the call
    fails for want of a table frame, or follows the mapping of exactly the
    front of that entry, in the state it was called in but for a frame taken for a
    new page of the table: when the mapping fails the table is unchanged, when it
    succeeds the table has the region and the rest of the entry in its place,
    still tiles the range and still has no two free neighbours. *)
Theorem allocate_region_correct B L c l pages t s :
  table_ok B L c l → backend_ok s (chain_frames c) →
  0 < pages → pages * PAGE_SIZE < usize_limit → t ≠ Free →
  let req := pages * PAGE_SIZE in
  (Forall (λ e, fits req e = false) l ∧
   allocate_region c pages t s = Ret (Err NoRegionAddressSpaceAvailable, c, s)) ∨
  (∃ l1 e l2, l = l1 ++ e :: l2 ∧ Forall (λ e, fits req e = false) l1 ∧ fits req e = true ∧
     alloc_spec c l1 e l2 req t s [] (allocate_region c pages t s) ∧
     tiled B (alloc_flat l1 e l2 req t) L ∧ coalesced (alloc_flat l1 e l2 req t)).
Proof. apply allocate_region_ok. Qed.

(** Freeing a region that is in use: the call follows the unmapping of
    exactly its range (a page of the table that has become empty is given back
    before or after); when that returns with the frames of the table still held, the region is free and merged with
    the free entries before and after it, every other entry is as it was, the
    table still tiles the range and has no two free neighbours. *)
Theorem deallocate_region_correct B L c l1 e l2 t s :
  table_ok B L c (l1 ++ e :: l2) → region_type_of e = Some t → t ≠ Free →
  backend_ok s (chain_frames c) →
  ∃ k1 R, free_spec (chain_frames c) k1 R e t s [] (deallocate_region c (region_info e) s) ∧
    k1 ++ R = dealloc_flat l1 e l2 ∧
    tiled B (dealloc_flat l1 e l2) L ∧ coalesced (dealloc_flat l1 e l2).
Proof.
  intros Hok Ht Hnf Hb. apply deallocate_region_ok; [done..|]. by rewrite app_nil_r.
Qed.

(** Allocating a region and freeing it again restores the table of
    regions: the free follows the unmapping of the region's range, and when that
    returns the chain of pages holds the same entries as before the
    allocation. *)
Theorem region_roundtrip B L c l pages t s info c1 s1 :
  table_ok B L c l → backend_ok s (chain_frames c) →
  0 < pages → pages * PAGE_SIZE < usize_limit → t ≠ Free →
  allocate_region c pages t s = Ret (Ok info, c1, s1) →
  limit_va info - start_va info = pages * PAGE_SIZE ∧
  ∃ T0 T1 s2, chain_frames c1 ≡ₚ T0 ++ T1 ∧ given_back T0 s1 s2 ∧
    match be_unmap_region t (start_va info) (limit_va info) s2 with
    | Panic w => deallocate_region c1 info s1 = Panic w
    | Hang => deallocate_region c1 info s1 = Hang
    | Ret s3 => backend_ok s3 T1 → ∃ c2 s4, deallocate_region c1 info s1 = Ret (c2, s4) ∧ table_ok B L c2 l
    end.
Proof.
  intros Hok Hb Hp Hov Hnf Ha. pose proof Hok as [Hr Ht Hc HB HL].
  pose proof (tiled_entry_ok _ _ _ HB HL Ht) as Hents. set (req := pages * PAGE_SIZE) in *.
  unfold allocate_region in Ha. rewrite umul_ok, bind_bind_Ret in Ha by done. fold req in Ha.
  destruct (find_fit req l) as [Hf|(l1 & e & l2 & -> & Hf & He)].
  { destruct c. rewrite (first_fit_none _ _ l) in Ha by done. done. }
  assert (0 < req) as Hreq by (unfold req, PAGE_SIZE; lia).
  pose proof (first_fit_found c.1 c.2 _ l1 e l2 req t s [] Hr eq_refl Hents Hf He ltac:(lia) Hnf) as Hs.
  destruct Hs as [(s' & _ & E & _)|(spare & s' & _ & Hm)]; [destruct c; by rewrite app_nil_r|congruence|].
  destruct (be_map_region t (base e) (base e + req) s') as [[[u|er] s'']| |];
    [|destruct Hm as (? & ? & _); congruence|congruence..].
  destruct Hm as (c' & s3 & _ & E & Hc' & Hb' & _). rewrite Ha in E. injection E as -> -> ->.
  split; [cbn; lia|].
  destruct (alloc_flat_ok B L l1 e l2 req t Ht Hc He Hreq Hnf) as [Ht1 Hc1].
  destruct (dealloc_alloc_flat l1 e l2 req t Hc He Hnf) as (k2 & Hk & Hdk). rewrite Hk in *.
  assert (table_ok B L c' (l1 ++ mkEntry (base e) (base e + req) (Some t) :: k2)) as Hok1 by done.
  destruct (deallocate_region_ok B L c' l1 _ k2 t s3 [] Hok1) as (k1 & R & Hspec & HR & Ht2 & Hc2); [done|done|done|].
  rewrite Hdk in *. destruct Hspec as (T0 & T1 & s4 & HT & Hg & Hspec).
  change (region_info (mkEntry (base e) (base e + req) (Some t))) with (mkRegionInfo (base e) (base e + req)) in Hspec.
  exists T0, T1, s4. split_and!; [done|done|]. cbn [start_va limit_va base limit] in *.
  destruct (be_unmap_region t (base e) (base e + req) s4) as [s5| |]; [|done..]. intros Hb5.
  destruct Hspec as (T2 & c5 & s6 & E & Hc5 & _); [by rewrite app_nil_r|]. rewrite HR in Hc5. exists c5, s6. done.
Qed.

End manager.
End RegionManager.

(** ** Witnesses: a backend that maps everything *)

#[global] Instance unit_backend : RegionBackend () := {
  be_allocate_kernel_frame := λ s, Ret (Some 5, s);
  be_deallocate_frame := λ s _, Ret s;
  be_map_region := λ _ _ _ s, Ret (Ok (), s);
  be_unmap_region := λ _ _ _ s, Ret s;
}.

#[global, refine] Instance unit_backend_laws : RegionBackendLaws () := { backend_ok := λ _ _, True }.
Proof.
  - done.
  - intros. exists (Some 5), s. split_and!; [done|done|]. intros f [= <-]. unfold table_frame. lia.
  - eauto.
  - done.
Defined.

(** A table with two entries per page: 16 KiB, all of it free. *)
Definition example_table : chain := RegionManager.new 2 4096 20480.

Lemma example_table_ok :
  RegionManager.table_ok 2 4096 20480 example_table [mkEntry 4096 20480 (Some Free)].
Proof. apply RegionManager.new_table_ok; lia. Qed.

Lemma allocate_region_correct_witness :
  ∃ c', RegionManager.allocate_region 2 4096 example_table 1 Heap () =
    Ret (Ok (mkRegionInfo 4096 8192), c', ()).
Proof.
  destruct (RegionManager.allocate_region_correct 2 4096 ltac:(lia) ltac:(unfold PAGE_SIZE; lia)
    4096 20480 example_table _ 1 Heap () example_table_ok ltac:(exact I) ltac:(lia) ltac:(unfold PAGE_SIZE; lia) ltac:(done))
    as [[Hf _]|(l1 & e & l2 & Hl & _ & _ & Hs & _)].
  - exfalso. apply Forall_cons in Hf as [Hf _]. by vm_compute in Hf.
  - assert (l1 = [] ∧ e = mkEntry 4096 20480 (Some Free) ∧ l2 = []) as (-> & -> & ->).
    { destruct l1 as [|x [|y l1]]; cbn in Hl; [by simplify_eq|by simplify_eq|by simplify_eq]. }
    destruct Hs as [(s' & Ha & _)|(spare & s1 & _ & c' & s' & rest & Heq & _)]; [done|].
    exists c'. by destruct s'.
Defined.

Lemma deallocate_region_correct_witness :
  ∃ c', RegionManager.deallocate_region 2
      (mkPage None [mkEntry 4096 8192 (Some Heap); mkEntry 8192 20480 (Some Free)], [])
      (mkRegionInfo 4096 8192) () = Ret (c', ()) ∧
    RegionManager.chain_repr 2 c' [mkEntry 4096 20480 (Some Free)].
Proof.
  destruct (RegionManager.deallocate_region_correct 2 ltac:(lia) 4096 20480
    (mkPage None [mkEntry 4096 8192 (Some Heap); mkEntry 8192 20480 (Some Free)], [])
    [] (mkEntry 4096 8192 (Some Heap)) [mkEntry 8192 20480 (Some Free)] Heap ()) as (k1 & R & Hs & HR & _).
  - split; [|cbn; lia|cbn; done|lia|lia].
    apply RegionManager.repr_last; [cbn; lia| |done]. repeat (apply Forall_cons; split; [by eexists|]). done.
  - done.
  - done.
  - done.
  - destruct Hs as (T0 & T1 & s1 & _ & _ & Hs). destruct (Hs I) as (T2 & c' & s' & Heq & Hc & _). exists c'. destruct s'. split; [exact Heq|].
    by rewrite HR in Hc.
Defined.

Lemma region_roundtrip_witness :
  ∃ c1 c2, RegionManager.allocate_region 2 4096 example_table 2 KernelStackRegion () =
      Ret (Ok (mkRegionInfo 4096 12288), c1, ()) ∧
    RegionManager.deallocate_region 2 c1 (mkRegionInfo 4096 12288) () = Ret (c2, ()) ∧
    RegionManager.table_ok 2 4096 20480 c2 [mkEntry 4096 20480 (Some Free)].
Proof.
  destruct (RegionManager.allocate_region 2 4096 example_table 2 KernelStackRegion ()) as [[[r c1] []]| |] eqn:E;
    [|by vm_compute in E..].
  assert (r = Ok (mkRegionInfo 4096 12288)) as -> by (vm_compute in E; by injection E as <- _).
  destruct (RegionManager.region_roundtrip 2 4096 ltac:(lia) ltac:(unfold PAGE_SIZE; lia)
    4096 20480 example_table _ 2 KernelStackRegion () (mkRegionInfo 4096 12288) c1 () example_table_ok ltac:(exact I)
    ltac:(lia) ltac:(unfold PAGE_SIZE; lia) ltac:(done) E) as (_ & T0 & T1 & s2 & _ & _ & Hd).
  destruct (Hd I) as (c2 & [] & Hd' & Hok). eauto.
Defined.
