(* ===== verification/RegionMapping.v ===== *)
(** * Mapping the memory behind regions (the mapping half of
    paging/heap_region.rs, and paging/kernel_stack.rs)

    The backend of the region manager over the machine of [PageTable]: user
    frames and page tables for heap regions and kernel stacks, page tables only
    for physical mappings; then the [Region] handle and the calls that the rest
    of the kernel makes, behind the lock of the region manager. *)
From S2P Require Import Prelude Align Physmem PageEntry PageTable Regions.

(** The flusher and the machine, threaded through a mapping loop. *)
Definition map_state : Type := bool * Machine.

(** A [for] loop in a [try] block: the first error ends it. *)
Fixpoint try_for {A} (body : A → map_state → outcome (result () * map_state)) (l : list A)
    (st : map_state) : outcome (result () * map_state) :=
  match l with
  | [] => Ret (Ok (), st)
  | a :: l' =>
      r ← body a st;
      match r.1 with Ok _ => try_for body l' r.2 | Err e => Ret (Err e, r.2) end
  end.

Definition page_indices (base limit : Z) : outcome (list Z) :=
  d ← usub limit base; Ret (seqZ 0 (d / PAGE_SIZE)).

(** The three debug assertions on a range. *)
Definition check_range (base limit : Z) : outcome () :=
  assert_ (base <? limit);;
  up ← align_up base PAGE_SIZE;
  assert_ (base =? up);;
  down ← align_down limit PAGE_SIZE;
  assert_ (limit =? down).

(** One page of [unmap_nonpaged]. *)
Definition unmap_page (p4 base : Z) (free_pages : bool) (page : Z) (st : map_state) : outcome map_state :=
  off ← umul page PAGE_SIZE;
  page_addr ← uadd base off;
  r ← unmap st.2 p4 page_addr free_pages;
  Ret (MapperFlushAll.consume st.1 r.1, r.2).

Definition unmap_nonpaged (base limit : Z) (free_pages : bool) (m : Machine) : outcome Machine :=
  check_range base limit;;
  lk ← lock_page_table m;
  pages ← page_indices base limit;
  st ← for_each (unmap_page lk.1 base free_pages) pages (MapperFlushAll.new, lk.2);
  Ret (unlock_page_table (MapperFlushAll.flush st.1 st.2)).

Definition NONPAGED_FLAGS : Z :=
  Z.lor (Z.lor PresentPageFlags.WRITABLE PresentPageFlags.GLOBAL) PresentPageFlags.NO_EXECUTE.

(** One page of a heap region or kernel stack. *)
Definition map_nonpaged_page (p4 base page : Z) (st : map_state) : outcome (result () * map_state) :=
  off ← umul page PAGE_SIZE;
  page_addr ← uadd base off;
  f ← allocate_user_frame st.2;
  match f.1 with
  | None => Ret (Err OutOfMemory, (st.1, f.2))
  | Some frame =>
      r ← map_to f.2 p4 page_addr frame NONPAGED_FLAGS;
      match r.1 with
      | Ok fl => Ret (Ok (), (MapperFlushAll.consume st.1 fl, r.2))
      | Err e => Ret (Err e, (st.1, r.2))
      end
  end.

(** The lock is already held by the caller when an error makes it undo the
    mapping with [unmap_nonpaged]. *)
Definition map_nonpaged_impl (p4 base limit unmap_base unmap_limit : Z) (st : map_state)
    : outcome (result () * map_state) :=
  pages ← page_indices base limit;
  r ← try_for (map_nonpaged_page p4 base) pages st;
  match r.1 with
  | Ok _ => Ret r
  | Err e => m' ← unmap_nonpaged unmap_base unmap_limit true r.2.2; Ret (Err e, (r.2.1, m'))
  end.

Definition map_nonpaged (base limit : Z) (m : Machine) : outcome (result () * Machine) :=
  check_range base limit;;
  lk ← lock_page_table m;
  r ← map_nonpaged_impl lk.1 base limit base limit (MapperFlushAll.new, lk.2);
  Ret (r.1, unlock_page_table (MapperFlushAll.flush r.2.1 r.2.2)).

Definition map_kernel_stack (base limit : Z) (m : Machine) : outcome (result () * Machine) :=
  stack_base ← uadd base PAGE_SIZE;
  assert_ (stack_base <? limit);;
  up ← align_up base PAGE_SIZE;
  assert_ (base =? up);;
  down ← align_down limit PAGE_SIZE;
  assert_ (limit =? down);;
  lk ← lock_page_table m;
  guard ← GuardPagePte.to_not_present mkKernelStackGuardPagePte;
  g ← set_not_present lk.2 lk.1 base guard;
  r ← match g.1 with
      | Err e => Ret (Err e, (MapperFlushAll.new, g.2))
      | Ok fl => map_nonpaged_impl lk.1 stack_base limit base limit
                   (MapperFlushAll.consume MapperFlushAll.new fl, g.2)
      end;
  Ret (r.1, unlock_page_table (MapperFlushAll.flush r.2.1 r.2.2)).

Definition map_physical_page (pm : PhysicalMapping) (p4 base page : Z) (st : map_state)
    : outcome (result () * map_state) :=
  off ← umul page PAGE_SIZE;
  page_addr ← uadd base off;
  phys ← uadd (pm_physical_address pm) off;
  r ← map_to st.2 p4 page_addr (Frame.containing_address phys)
        (PhysicalMappingFlags.into_present (pm_flags pm));
  match r.1 with
  | Ok fl => Ret (Ok (), (MapperFlushAll.consume st.1 fl, r.2))
  | Err e => Ret (Err e, (st.1, r.2))
  end.

Definition map_physical (pm : PhysicalMapping) (base limit : Z) (m : Machine)
    : outcome (result () * Machine) :=
  check_range base limit;;
  lk ← lock_page_table m;
  pages ← page_indices base limit;
  r ← try_for (map_physical_page pm lk.1 base) pages (MapperFlushAll.new, lk.2);
  Ret (r.1, unlock_page_table (MapperFlushAll.flush r.2.1 r.2.2)).

(** The [match] of [map_region] and of [unmap_region]. *)
Definition map_range (t : RegionType) (base limit : Z) (m : Machine) : outcome (result () * Machine) :=
  match t with
  | Heap => map_nonpaged base limit m
  | KernelStackRegion => map_kernel_stack base limit m
  | PhysicalMappingRegion pm => map_physical pm base limit m
  | Free => Panic ExplicitPanic
  end.

Definition unmap_range (t : RegionType) (base limit : Z) (m : Machine) : outcome Machine :=
  match t with
  | Heap | KernelStackRegion => unmap_nonpaged base limit true m
  | PhysicalMappingRegion _ => unmap_nonpaged base limit false m
  | Free => Panic ExplicitPanic
  end.

#[global] Instance Machine_backend : RegionBackend Machine := {
  be_allocate_kernel_frame := allocate_kernel_frame;
  be_deallocate_frame := deallocate_frame;
  be_map_region := map_range;
  be_unmap_region := unmap_range;
}.

(** ** Region handles *)

Module Region.

Record Region := mkRegion { info : RegionInfo; sub_region_offset : Z; sub_region_length : Z }.

Definition new (info : RegionInfo) : outcome Region :=
  len ← usub (limit_va info) (start_va info); Ret (mkRegion info 0 len).
Definition size (r : Region) : Z := sub_region_length r.
Definition start (r : Region) : outcome Z := uadd (start_va (info r)) (sub_region_offset r).
Definition limit (r : Region) : outcome Z := s ← start r; uadd s (size r).
Definition as_ptr_offset (r : Region) (offset : Z) : outcome Z := s ← start r; uadd s offset.

Definition apply_offset (r : Region) (offset length : Z) : outcome Region :=
  e ← uadd offset length;
  assert_ (e <=? size r);;
  o ← uadd (sub_region_offset r) offset;
  Ret (mkRegion (info r) o length).

End Region.

Record KernelStack := mkKernelStack { stack_region : Region.Region }.
Definition stack_top (k : KernelStack) : outcome Z := Region.limit (stack_region k).

(** ** The calls of the rest of the kernel

    [REGION_MANAGER] and the machine; the manager's lock is released when each
    call returns, and nothing below it takes the lock again. *)
Record Paging := mkPaging { manager : option chain; machine : Machine }.

Section calls.
Context (N : nat) (page_size : Z).

Definition init (p : Paging) (base limit : Z) : Paging :=
  mkPaging (InitMutex.init (manager p) (RegionManager.new N base limit)) (machine p).

(** [REGION_MANAGER.lock().allocate_region(..)] and [Region::new]. *)
Definition allocate_typed (p : Paging) (pages : Z) (t : RegionType)
    : outcome (result Region.Region * Paging) :=
  c ← InitMutex.lock (manager p);
  r ← RegionManager.allocate_region N page_size c pages t (machine p);
  let p' := mkPaging (Some r.1.2) r.2 in
  match r.1.1 with
  | Ok info => region ← Region.new info; Ret (Ok region, p')
  | Err e => Ret (Err e, p')
  end.

Definition allocate_region (p : Paging) (pages : Z) := allocate_typed p pages Heap.

Definition allocate_kernel_stack (p : Paging) (pages : Z) : outcome (result KernelStack * Paging) :=
  r ← allocate_typed p pages KernelStackRegion;
  Ret (match r.1 with Ok region => Ok (mkKernelStack region) | Err e => Err e end, r.2).

Definition map_physical_memory (p : Paging) (physical_address size flags : Z)
    : outcome (result Region.Region * Paging) :=
  aligned_start ← align_down physical_address PAGE_SIZE;
  e ← uadd physical_address size;
  aligned_limit ← align_up e PAGE_SIZE;
  d ← usub aligned_limit aligned_start;
  let pages := d / PAGE_SIZE in
  offset ← usub physical_address aligned_start;
  r ← allocate_typed p pages (PhysicalMappingRegion (mkPhysicalMapping aligned_start flags));
  match r.1 with
  | Ok region => region' ← Region.apply_offset region offset size; Ret (Ok region', r.2)
  | Err e => Ret (Err e, r.2)
  end.

(** [Drop for Region]. *)
Definition drop_region (p : Paging) (r : Region.Region) : outcome Paging :=
  c ← InitMutex.lock (manager p);
  t ← RegionManager.deallocate_region N c (Region.info r) (machine p);
  Ret (mkPaging (Some t.1) t.2).

End calls.

(** * Proofs *)

(** ** Mapping a range of pages *)

Lemma pages_distinct base i j :
  0 ≤ base → 0 ≤ i → 0 ≤ j → i ≠ j → i < 2 ^ 36 → j < 2 ^ 36 →
  ¬ same_page (base + i * PAGE_SIZE) (base + j * PAGE_SIZE).
Proof.
  intros Hb Hi Hj Hne Hi' Hj'. unfold PAGE_SIZE in *. rewrite same_page_iff by lia.
  unfold PAGE_SIZE. rewrite !Z.div_add by lia. change (2 ^ 36) with 68719476736 in *. mlia.
Qed.

Lemma same_page_sym va va' : same_page va va' → same_page va' va.
Proof. unfold same_page. naive_solver. Qed.

Lemma user_frame_available m F H :
  phys_owns (frames m) F H → F ≠ ∅ →
  ∃ f p', allocate_user_frame m = Ret (Some f, set_frames m p') ∧ f ∈ F ∧
    phys_owns p' (F ∖ {[f]}) (H ∪ {[f]}).
Proof.
  intros Hown Hne. destruct (implements_user (frames m) F H Hown) as (o & p' & Heq & Hp & Hown').
  unfold allocate_user_frame. rewrite Heq. cbn. destruct o as [f|].
  - exists f, p'. split_and!; [done| |done]. apply zone_pick_free in Hp. set_solver.
  - exfalso. apply Hne. destruct Hp as [(f & ? & _)|[Hh [(f & ? & _)|[Hn [(f & ? & _)|[Hl _]]]]]]; [done..|].
    apply set_eq. intros f. split; [|set_solver]. intros Hf.
    destruct (phys_bounds _ _ _ Hown f ltac:(set_solver)) as [z Hz]. destruct z; set_solver.
Qed.

(** The database changing under the tables. *)
Lemma tables_take m p4 G F H f p' :
  tables_ok m p4 G F H → phys_owns p' (F ∖ {[f]}) (H ∪ {[f]}) →
  tables_ok (set_frames m p') p4 G (F ∖ {[f]}) (H ∪ {[f]}).
Proof.
  intros Hok Hown. split; try apply Hok; [|done|].
  - intros g pre Hg. apply (tab_held _ _ _ _ _ Hok) in Hg. set_solver.
  - pose proof (tab_last _ _ _ _ _ Hok). set_solver.
Qed.

Lemma kernel_free_take f F : (size (kernel_free F) ≤ 1 + size (kernel_free (F ∖ {[f]})))%nat.
Proof.
  replace (kernel_free (F ∖ {[f]})) with (kernel_free F ∖ {[f]}) by (unfold kernel_free; set_solver).
  pose proof (subseteq_size (kernel_free F) (kernel_free F ∖ {[f]} ∪ {[f]})) as Hs.
  rewrite size_union, size_singleton in Hs by set_solver.
  enough (kernel_free F ⊆ kernel_free F ∖ {[f]} ∪ {[f]}) by (specialize (Hs H); lia).
  intros g Hg. destruct (decide (g = f)); set_solver.
Qed.

(** How mapping a run of pages changes the machine. [fs] are the frames of the
    pages from the [i]th on; the frames of an [own] run were free before. *)
Record run_mapped (p4 base flags : Z) (own : bool) (i : Z) (fs : list Z)
    (m : Machine) (G : gmap Z (list Z)) (F H : gset Z)
    (m' : Machine) (G' : gmap Z (list Z)) (F' H' : gset Z) : Prop := {
  rm_ok : tables_ok m' p4 G' F' H';
  rm_clean : clean m' F';
  rm_total : F' ∪ H' = F ∪ H;
  rm_held : H ⊆ H';
  rm_sub : G ⊆ G';
  rm_old : ∀ g, g ∈ H → G' !! g = G !! g;
  rm_taken : ∀ g, g ∈ H' → g ∈ H ∨ is_Some (G' !! g) ∨ (own = true ∧ g ∈ fs);
  rm_own : own = true → NoDup fs ∧ ∀ f, f ∈ fs → f ∈ F ∧ f ∈ H' ∧ G' !! f = None;
  rm_free : (size (kernel_free F) ≤ 4 * length fs + size (kernel_free F'))%nat;
  rm_pages : ∀ j f, fs !! j = Some f →
    ∃ pte, Raw.present (translate m' p4 (base + (i + Z.of_nat j) * PAGE_SIZE)) = PteOk pte ∧
      Present.frame pte = f ∧ Present.flags pte = flags;
  rm_others : ∀ va, plain m p4 va →
    (∀ j, 0 ≤ j < Z.of_nat (length fs) → ¬ same_page (base + (i + j) * PAGE_SIZE) va) →
    translate m' p4 va = translate m p4 va;
  rm_plain : ∀ va, plain m p4 va → plain m' p4 va;
  rm_state : cr3 m' = cr3 m ∧ page_lock m' = page_lock m ∧ tlb_events m' = tlb_events m;
  rm_ram : ∀ f j, G' !! f = None → ram m' f j = ram m f j;
  rm_dirs : dirs_kept G m m';
}.

Lemma run_mapped_nil p4 base flags own i m G F H :
  tables_ok m p4 G F H → clean m F → run_mapped p4 base flags own i [] m G F H m G F H.
Proof.
  intros Hok Hcl. split; auto.
  - intros _. split; [apply NoDup_nil_2|by intros f Hf%elem_of_nil].
  - intros j f Hf. by rewrite lookup_nil in Hf.
  - by apply dirs_kept_ram.
Qed.

(** The frames that stay free were free. *)
Lemma free_shrinks (F H F' H' : gset Z) f : F' ∪ H' = F ∪ H → H ⊆ H' → F' ## H' → f ∈ F' → f ∈ F.
Proof. set_solver. Qed.

Lemma tables_disjoint m p4 G F H : tables_ok m p4 G F H → F ## H.
Proof. intros Hok. eapply phys_disjoint, Hok. Qed.

(** One page, then the rest of the run. *)
Lemma run_mapped_cons p4 base flags own i f fs m G F H m1 G1 F1 H1 m2 G2 F2 H2 :
  0 ≤ base → 0 ≤ i → i + 1 + Z.of_nat (length fs) < 2 ^ 36 → plain m p4 (base + i * PAGE_SIZE) →
  run_mapped p4 base flags own i [f] m G F H m1 G1 F1 H1 →
  run_mapped p4 base flags own (i + 1) fs m1 G1 F1 H1 m2 G2 F2 H2 →
  run_mapped p4 base flags own i (f :: fs) m G F H m2 G2 F2 H2.
Proof.
  intros Hb Hi Hlen Hp0 A B. pose proof (tables_disjoint _ _ _ _ _ (rm_ok _ _ _ _ _ _ _ _ _ _ _ _ _ _ A)) as Hd1.
  assert (∀ j, 0 ≤ j < Z.of_nat (length fs) → ¬ same_page (base + (i + 1 + j) * PAGE_SIZE) (base + i * PAGE_SIZE)) as Hdist.
  { intros j Hj. apply pages_distinct; lia. }
  destruct A as [Aok Acl Atot Aheld Asub Aold Ataken Aown Afree Apages Aothers Aplain Ast Aram Adirs].
  destruct B as [Bok Bcl Btot Bheld Bsub Bold Btaken Bown Bfree Bpages Bothers Bplain Bst Bram Bdirs].
  split; try done.
  - by rewrite Btot.
  - by transitivity H1.
  - by transitivity G1.
  - intros g Hg. rewrite Bold by auto. auto.
  - intros g [Hg|[?|[? ?]]]%Btaken; [|by auto|right; right; split; [done|by right]].
    apply Ataken in Hg as [?|[[pre Hpre]|[? ->%list_elem_of_singleton]]]; [by auto| |right; right; split; [done|by left]].
    right; left. exists pre. by eapply lookup_weaken.
  - intros Ho. destruct (Aown Ho) as [_ Hf]. destruct (Bown Ho) as [Hnd Hfs].
    destruct (Hf f) as (HfF & HfH & HfG); [by left|]. split.
    + apply NoDup_cons. split; [|done]. intros (? & _)%Hfs. clear -H0 HfH Hd1. set_solver.
    + intros g [->|Hg]%elem_of_cons; [split_and!; [done|by apply Bheld|by rewrite Bold]|].
      destruct (Hfs g Hg) as (? & ? & ?). split_and!; [by eapply free_shrinks|done|done].
  - cbn [length] in *. lia.
  - intros [|j] g Hg; cbn in Hg.
    + injection Hg as <-. rewrite Z.add_0_r, Bothers; [|auto|done].
      destruct (Apages 0%nat f eq_refl) as (pte & Hpte). rewrite Z.add_0_r in Hpte. eauto.
    + destruct (Bpages j g Hg) as (pte & Hpte). exists pte.
      by replace (i + Z.of_nat (S j)) with (i + 1 + Z.of_nat j) by lia.
  - intros va Hva Hne. cbn [length] in Hne. rewrite Bothers; [|auto|].
    + apply Aothers; [done|]. intros j Hj. apply Hne. cbn in Hj. lia.
    + intros j Hj. specialize (Hne (1 + j) ltac:(lia)). by rewrite Z.add_assoc in Hne.
  - auto.
  - destruct Ast as (? & ? & ?), Bst as (? & ? & ?). split_and!; congruence.
  - intros g j Hg. rewrite Bram by done. apply Aram. by eapply lookup_weaken_None.
  - by eapply dirs_kept_trans.
Qed.

(** What the body of a mapping loop has to do with its page. *)
Definition maps_page (body : Z → map_state → outcome (result () * map_state)) (p4 base flags : Z) (own : bool)
    (fr : Z → Z → Prop) (n : Z) : Prop :=
  ∀ i m G F H fl, 0 ≤ i < n → tables_ok m p4 G F H → clean m F → (4 ≤ size (kernel_free F))%nat →
    (∀ f, f ∈ F → f < 2 ^ 40) →
    plain m p4 (base + i * PAGE_SIZE) → translate m p4 (base + i * PAGE_SIZE) = Raw.unused →
    ∃ f m' G' F' H', body i (fl, m) = Ret (Ok (), (true, m')) ∧ fr i f ∧
      run_mapped p4 base flags own i [f] m G F H m' G' F' H'.

(** The loop over the pages. *)
Lemma run_ok body p4 base flags own fr n :
  0 ≤ base → n < 2 ^ 36 → maps_page body p4 base flags own fr n →
  ∀ k i m G F H fl, 0 ≤ i → i + Z.of_nat k ≤ n → tables_ok m p4 G F H → clean m F →
  (4 * k ≤ size (kernel_free F))%nat → (∀ f, f ∈ F → f < 2 ^ 40) →
  (∀ j, 0 ≤ j < Z.of_nat k → plain m p4 (base + (i + j) * PAGE_SIZE) ∧
     translate m p4 (base + (i + j) * PAGE_SIZE) = Raw.unused) →
  ∃ fs m' G' F' H', try_for body (seqZ i (Z.of_nat k)) (fl, m) = Ret (Ok (), (fl || (0 <? Z.of_nat k), m')) ∧
    length fs = k ∧ (∀ j f, fs !! j = Some f → fr (i + Z.of_nat j) f) ∧
    run_mapped p4 base flags own i fs m G F H m' G' F' H'.
Proof.
  intros Hb Hn Hbody. induction k as [|k IH]; intros i m G F H fl Hi Hik Hok Hcl Hfree H40 Hpages.
  - exists [], m, G, F, H. rewrite seqZ_nil by lia. cbn. rewrite orb_false_r.
    split_and!; [done|done|done|by apply run_mapped_nil].
  - rewrite seqZ_cons by lia. cbn [try_for]. replace (Z.pred (Z.of_nat (S k))) with (Z.of_nat k) by lia.
    replace (Z.succ i) with (i + 1) by lia.
    destruct (Hpages 0 ltac:(lia)) as [Hp0 Hu0]. rewrite Z.add_0_r in Hp0, Hu0.
    destruct (Hbody i m G F H fl) as (f & m1 & G1 & F1 & H1 & -> & Hf & A); [lia|done|done|lia|done|done|done|].
    cbn [mbind outcome_bind fst snd]. pose proof (rm_free _ _ _ _ _ _ _ _ _ _ _ _ _ _ A) as Hfr. cbn in Hfr.
    destruct (IH (i + 1) m1 G1 F1 H1 true) as (fs & m2 & G2 & F2 & H2 & -> & Hlen & Hfs & B);
      [lia|lia|apply A|apply A|lia| | |].
    { intros g Hg. apply H40. eapply free_shrinks; [apply A|apply A| |done]. eapply tables_disjoint, A. }
    { intros j Hj. destruct (Hpages (1 + j) ltac:(lia)) as [Hpj Huj]. rewrite Z.add_assoc in *.
      split; [by apply A|]. rewrite (rm_others _ _ _ _ _ _ _ _ _ _ _ _ _ _ A); [done|done|].
      intros j' Hj'. cbn in Hj'. replace (i + j') with i by lia. apply pages_distinct; lia. }
    exists (f :: fs), m2, G2, F2, H2. split_and!.
    + replace (0 <? Z.of_nat (S k)) with true by (symmetry; apply Z.ltb_lt; lia). by rewrite orb_true_r.
    + cbn. by rewrite Hlen.
    + intros [|j] g Hg; cbn in Hg; [injection Hg as <-; by rewrite Z.add_0_r|].
      replace (i + Z.of_nat (S j)) with (i + 1 + Z.of_nat j) by lia. by apply Hfs.
    + apply (run_mapped_cons _ _ _ _ _ _ _ _ _ _ _ m1 G1 F1 H1); [done|done|lia|done|done|done].
Qed.

(** Mapping a page that translated to nothing, with the frames [H] and [f] held. *)
Lemma mapped_run p4 base i own f m m0 G F F0 H H0 pte m' G' F' H' :
  mapped p4 m0 G F0 H0 (base + i * PAGE_SIZE) (Present.to_raw pte) m' G' F' H' →
  (∀ va, plain m p4 va → plain m0 p4 va ∧ translate m0 p4 va = translate m p4 va) →
  (cr3 m0 = cr3 m ∧ page_lock m0 = page_lock m ∧ tlb_events m0 = tlb_events m) → ram m0 = ram m →
  plain m p4 (base + i * PAGE_SIZE) → Raw.present (Present.to_raw pte) = PteOk pte → Present.frame pte = f →
  F0 ∪ H0 = F ∪ H → H ⊆ H0 → (size (kernel_free F) ≤ 1 + size (kernel_free F0))%nat →
  (∀ g, g ∈ H0 → g ∈ H ∨ (own = true ∧ g = f)) →
  (own = true → f ∈ F ∧ f ∈ H0 ∧ G !! f = None) →
  run_mapped p4 base (Present.flags pte) own i [f] m G F H m' G' F' H'.
Proof.
  intros Hmap. pose proof (mapped_dirs _ _ _ _ _ _ _ _ _ _ _ Hmap) as Mdirs. revert Hmap.
  intros [Mok Mcl Mtot Mheld Mfree Mplain Mtr Mst Msub Mold Mtaken Mram _] Hm0 Hst0 Hram Hpl Hpr Ef Htot Hsub Hsz Hh0 Hown.
  split; try done.
  - by rewrite Mtot.
  - by transitivity H0.
  - intros g Hg. auto.
  - intros g [Hg|?]%Mtaken; [|by auto]. apply Hh0 in Hg as [?|[? ->]]; [by auto|].
    right; right. split; [done|by left].
  - intros (? & ? & ?)%Hown. split; [apply NoDup_singleton|]. intros ? ->%list_elem_of_singleton.
    split_and!; [done|by apply Mheld|by rewrite Mold].
  - cbn [length]. lia.
  - intros [|j] g Hg; [|done]. cbn in Hg. injection Hg as <-. rewrite Z.add_0_r.
    rewrite Mtr by (by apply Hm0). rewrite decide_True by done. eauto.
  - intros va Hva Hne. specialize (Hne 0 ltac:(cbn; lia)). rewrite Z.add_0_r in Hne.
    rewrite Mtr by (by apply Hm0). rewrite decide_False by done. by apply Hm0.
  - intros va Hva. by apply Mplain, Hm0.
  - destruct Mst as (? & ? & ?), Hst0 as (? & ? & ?). split_and!; congruence.
  - intros g j Hg. by rewrite Mram, Hram.
  - eapply dirs_kept_trans; [reflexivity|by apply dirs_kept_ram|exact Mdirs].
Qed.

(** A heap or stack page: a free frame is taken and mapped. *)
Lemma map_page_ok p4 base n :
  0 ≤ base → base + n * PAGE_SIZE < usize_limit →
  maps_page (map_nonpaged_page p4 base) p4 base NONPAGED_FLAGS true (λ _ _, True) n.
Proof.
  intros Hb Hov i m G F H fl Hi Hok Hcl Hfree H40 Hpl Hun. unfold map_nonpaged_page. unfold PAGE_SIZE in *.
  do 2 step_by lia.
  destruct (user_frame_available m F H) as (f & p' & Ha & HfF & Hown);
    [apply Hok|intros ->; vm_compute in Hfree; lia|].
  cbn [fst snd]. rewrite Ha, bind_bind_Ret. cbn [fst snd].
  pose proof (kernel_free_take f F) as Hkf. pose proof (phys_bounds _ _ _ Hown f ltac:(set_solver)) as [z Hz].
  destruct (map_to_ok (set_frames m p') p4 G (F ∖ {[f]}) (H ∪ {[f]}) (base + i * 4096) f NONPAGED_FLAGS)
    as (pte & m' & G' & F' & H' & -> & Hm & Hpr & Ef & Efl);
    [by apply tables_take|intros g j Hg; apply Hcl; set_solver|lia|exact Hpl|exact Hun| |by vm_compute|].
  { split; [|by apply H40]. pose proof (zone_extent_bounds z). lia. }
  cbn [mbind outcome_bind fst snd MapperFlushAll.consume]. exists f, m', G', F', H'. split_and!; [done|done|].
  rewrite <- Efl.
  apply (mapped_run p4 base i true f m (set_frames m p') G F (F ∖ {[f]}) H (H ∪ {[f]})); try done.
  - clear -HfF. apply set_eq. intros g. destruct (decide (g = f)); set_solver.
  - set_solver.
  - set_solver.
  - intros _. split_and!; [done|set_solver|]. destruct (G !! f) as [pre|] eqn:E; [|done].
    apply (tab_held _ _ _ _ _ Hok) in E. pose proof (tables_disjoint _ _ _ _ _ Hok). set_solver.
Qed.

Lemma map_run_ok p4 base n m G F H fl :
  0 ≤ base → 0 ≤ n → n < 2 ^ 36 → base + n * PAGE_SIZE < usize_limit →
  tables_ok m p4 G F H → clean m F → (4 * Z.to_nat n ≤ size (kernel_free F))%nat → (∀ f, f ∈ F → f < 2 ^ 40) →
  (∀ j, 0 ≤ j < n → plain m p4 (base + j * PAGE_SIZE) ∧ translate m p4 (base + j * PAGE_SIZE) = Raw.unused) →
  ∃ fs m' G' F' H', try_for (map_nonpaged_page p4 base) (seqZ 0 n) (fl, m) = Ret (Ok (), (fl || (0 <? n), m')) ∧
    length fs = Z.to_nat n ∧ run_mapped p4 base NONPAGED_FLAGS true 0 fs m G F H m' G' F' H'.
Proof.
  intros Hb Hn Hn36 Hov Hok Hcl Hfree H40 Hpages.
  destruct (run_ok _ p4 base NONPAGED_FLAGS true _ n Hb Hn36 (map_page_ok p4 base n Hb Hov) (Z.to_nat n) 0 m G F H fl)
    as (fs & m' & G' & F' & H' & Hrun & Hlen & _ & Hm); [lia|lia|done|done|done|done| |].
  { intros j Hj. apply Hpages. lia. }
  rewrite Z2Nat.id in Hrun by lia. by exists fs, m', G', F', H'.
Qed.

(** ** The checks and the lock *)

Lemma page_aligned_up x :
  0 ≤ x → x mod PAGE_SIZE = 0 → x + PAGE_SIZE < usize_limit → align_up x PAGE_SIZE = Ret x.
Proof.
  intros Hx Hm Hl. change PAGE_SIZE with (2 ^ 12) in *. by rewrite align_up_ok, round_up_id by lia.
Qed.

Lemma page_aligned_down x : 0 ≤ x < usize_limit → x mod PAGE_SIZE = 0 → align_down x PAGE_SIZE = Ret x.
Proof.
  intros Hx Hm. change PAGE_SIZE with (2 ^ 12) in *. rewrite align_down_ok by lia.
  unfold round_down. by rewrite Hm, Z.sub_0_r.
Qed.

Lemma check_range_ok base limit :
  0 ≤ base → base < limit → limit < usize_limit → base mod PAGE_SIZE = 0 → limit mod PAGE_SIZE = 0 →
  check_range base limit = Ret ().
Proof.
  intros Hb Hlt Hl Hbm Hlm. unfold check_range. step_by lia.
  rewrite page_aligned_up, bind_bind_Ret by (done || unfold PAGE_SIZE in *; mlia). step_by lia.
  rewrite page_aligned_down, bind_bind_Ret by (done || lia). by rewrite Z.eqb_refl.
Qed.

Lemma lock_ok m G F H :
  tables_ok m (Frame.containing_address (cr3 m)) G F H → page_lock m = false →
  lock_page_table m = Ret (Frame.containing_address (cr3 m), set_page_lock m true).
Proof.
  intros Hok Hl. unfold lock_page_table, mapper_new. rewrite Hl.
  rewrite table_in_frame_ok by (eapply tab_range; apply Hok). done.
Qed.

Lemma page_indices_ok base n :
  0 ≤ n → page_indices base (base + n * PAGE_SIZE) = Ret (seqZ 0 n).
Proof.
  intros Hn. unfold page_indices, PAGE_SIZE. step_by lia.
  replace (base + n * 4096 - base) with (n * 4096) by lia. by rewrite Z.div_mul.
Qed.

(** Locking changes neither the tables nor the frames. *)
Lemma tables_lock m b p4 G F H : tables_ok m p4 G F H → tables_ok (set_page_lock m b) p4 G F H.
Proof. intros Hok. split; apply Hok. Qed.

(** ** Properties *)

(** Mapping a heap region. With enough free frames (zeroed, and within the
    physical address space) [map_nonpaged] never panics on a range of unmapped
    pages: each page then translates to a frame of its own that was free, with
    the flags for kernel data; every other address translates as before; the
    page-table lock is released and the TLBs were flushed. *)
Theorem map_nonpaged_correct m G F H base n :
  let p4 := Frame.containing_address (cr3 m) in
  tables_ok m p4 G F H → clean m F → page_lock m = false → (∀ f, f ∈ F → f < 2 ^ 40) →
  0 ≤ base → base mod PAGE_SIZE = 0 → 0 < n → n < 2 ^ 36 → base + n * PAGE_SIZE < usize_limit →
  (4 * Z.to_nat n ≤ size (kernel_free F))%nat →
  (∀ j, 0 ≤ j < n → plain m p4 (base + j * PAGE_SIZE) ∧ translate m p4 (base + j * PAGE_SIZE) = Raw.unused) →
  ∃ fs m' G' F' H', map_nonpaged base (base + n * PAGE_SIZE) m = Ret (Ok (), m') ∧
    length fs = Z.to_nat n ∧ NoDup fs ∧ (∀ f, f ∈ fs → f ∈ F ∧ f ∈ H') ∧
    (∀ j f, fs !! j = Some f →
       ∃ pte, Raw.present (translate m' p4 (base + Z.of_nat j * PAGE_SIZE)) = PteOk pte ∧
         Present.frame pte = f ∧ Present.flags pte = NONPAGED_FLAGS) ∧
    (∀ va, plain m p4 va → (∀ j, 0 ≤ j < n → ¬ same_page (base + j * PAGE_SIZE) va) →
       translate m' p4 va = translate m p4 va) ∧
    tables_ok m' p4 G' F' H' ∧ F' ∪ H' = F ∪ H ∧
    page_lock m' = false ∧ tlb_events m' = FlushAll :: tlb_events m.
Proof.
  intros p4 Hok Hclean Hlock H40 Hb Hbm Hn Hn36 Hov Hfree Hpages. unfold map_nonpaged.
  rewrite check_range_ok; [|done|unfold PAGE_SIZE; lia|done|done|unfold PAGE_SIZE in *; mlia].
  cbn [mbind outcome_bind]. rewrite (lock_ok m G F H) by done. fold p4. cbn [mbind outcome_bind fst snd].
  unfold map_nonpaged_impl. rewrite page_indices_ok by lia. cbn [mbind outcome_bind].
  destruct (map_run_ok p4 base n (set_page_lock m true) G F H MapperFlushAll.new)
    as (fs & m1 & G1 & F1 & H1 & Hrun & Hlen & Hm); [done|lia|done|done|by apply tables_lock|done..|].
  rewrite Hrun, (proj2 (Z.ltb_lt 0 n)), orb_true_r by lia. cbn [mbind outcome_bind fst snd].
  exists fs, (unlock_page_table (MapperFlushAll.flush true m1)), G1, F1, H1.
  destruct Hm as [Hok1 _ Htot _ _ _ _ Hown _ Hpg Hoth _ (_ & _ & Htlb) _]. destruct (Hown eq_refl) as [Hnd Hfs].
  split_and!; try done.
  - intros f Hf. by destruct (Hfs f Hf) as (? & ? & _).
  - intros va Hva Hne. transitivity (translate m1 p4 va); [done|]. apply (Hoth va Hva). intros j Hj. apply Hne. lia.
  - split; apply Hok1.
  - cbn. by rewrite Htlb.
Qed.

(** When no frame is left, mapping a region does not fail but never
    returns: the call that should undo the partial mapping takes the page-table
    lock again, which the same CPU holds. *)
Theorem map_nonpaged_failure_hangs m G H base limit :
  let p4 := Frame.containing_address (cr3 m) in
  tables_ok m p4 G ∅ H → page_lock m = false →
  0 ≤ base → base < limit → limit < usize_limit → base mod PAGE_SIZE = 0 → limit mod PAGE_SIZE = 0 →
  map_nonpaged base limit m = Hang.
Proof.
  intros p4 Hok Hlock Hb Hlt Hl Hbm Hlm. unfold map_nonpaged. rewrite check_range_ok by done.
  cbn [mbind outcome_bind]. rewrite (lock_ok m G ∅ H) by done. fold p4. cbn [mbind outcome_bind fst snd].
  unfold map_nonpaged_impl, page_indices. step_by lia. step_by lia.
  assert (0 < (limit - base) / PAGE_SIZE) as Hn.
  { unfold PAGE_SIZE in *. mlia. }
  rewrite seqZ_cons by lia. cbn [try_for].
  destruct (implements_user _ _ _ (tab_phys _ _ _ _ _ Hok)) as (o & p' & Ha & Hp & _).
  assert (o = None) as ->.
  { destruct o as [f|]; [|done]. apply zone_pick_free in Hp. set_solver. }
  assert (map_nonpaged_page p4 base 0 (MapperFlushAll.new, set_page_lock m true) =
    Ret (Err OutOfMemory, (MapperFlushAll.new, set_frames (set_page_lock m true) p'))) as ->.
  { unfold map_nonpaged_page, PAGE_SIZE. do 2 step_by lia.
    unfold allocate_user_frame. cbn [fst snd frames set_page_lock]. by rewrite Ha. }
  cbn [mbind outcome_bind fst snd]. unfold unmap_nonpaged. rewrite check_range_ok by done. done.
Qed.

(** ** Witnesses: a machine with an empty root table in frame 17 *)

Definition byte_region (free : Z) (bs : list Z) : PageFrameRegion := Physmem.mkRegion 16 4096 free 1 bs.

(** The mask [bs] of a small region: frame 17 is in use. *)
Record small_mask (free : Z) (bs : list Z) : Prop := {
  sm_bytes : bytes_ok bs;
  sm_size : 8 ≤ bit_count bs ≤ 2048;
  sm_held : bit_at bs 1 = false;
  sm_free : free = Z.of_nat (size (free_set (byte_region free bs)));
}.

Lemma byte_region_range free bs f :
  small_mask free bs → f ∈ free_set (byte_region free bs) → 16 ≤ f < 2064.
Proof.
  intros [_ Hs _ _] [Hge Hbit]%elem_of_free_set. cbn in Hge, Hbit.
  pose proof (bit_at_true_lt bs (f - 16) ltac:(lia) Hbit). lia.
Qed.

Lemma byte_region_owns free bs :
  small_mask free bs → region_owns (byte_region free bs) (free_set (byte_region free bs)) {[17]}.
Proof.
  intros Hm. pose proof (λ f, byte_region_range free bs f Hm) as Hr. destruct Hm as [Hb Hs H1 Hfree].
  split; [|done|done|..].
  - split; cbn [start_frame limit_frame bitmask r_free_frames byte_region];
      [done|done|done|lia|intros f Hf%Hr; lia|done].
  - intros f ->%elem_of_singleton. apply elem_of_span_set. cbn. lia.
  - intros f ->%elem_of_singleton. done.
  - intros f [_ Hbit]%elem_of_free_set ->%elem_of_singleton.
    change (bit_at bs 1 = true) in Hbit. congruence.
Qed.

Definition root_machine (free : Z) (bs : list Z) : Machine :=
  mkMachine zeroed (mkPhysMem (Some (byte_region free bs)) None None) 69632 false [].

Lemma root_machine_ok free bs :
  small_mask free bs →
  tables_ok (root_machine free bs) 17 {[17 := []]} (free_set (byte_region free bs)) {[17]}.
Proof.
  intros Hm. split.
  - apply lookup_singleton_eq.
  - intros f pre i c [<- _]%lookup_singleton_Some _. rewrite zero_entry by done. done.
  - intros f pre [<- _]%lookup_singleton_Some. unfold table_frame. lia.
  - intros f pre [<- _]%lookup_singleton_Some. set_solver.
  - by apply phys_owns_low; [apply byte_region_owns| |].
  - intros Hf%(byte_region_range _ _ _ Hm). lia.
Qed.

(** Nothing is mapped on this machine. *)
Lemma root_machine_empty free bs va :
  plain (root_machine free bs) 17 va ∧ translate (root_machine free bs) 17 va = Raw.unused.
Proof.
  assert (∀ i, next_table_frame (root_machine free bs) 17 i = None) as Hn by (intros; by apply zero_entry).
  split.
  - split; [by apply absent_not_huge|]. intros t3. by rewrite Hn.
  - unfold translate, walk. by rewrite Hn.
Qed.

Lemma small_mask_7 : small_mask 7 [253].
Proof. split; [apply Forall_singleton; lia|by vm_compute|done|by vm_compute]. Qed.
Lemma small_mask_0 : small_mask 0 [0].
Proof. split; [apply Forall_singleton; lia|by vm_compute|done|by vm_compute]. Qed.

Lemma map_nonpaged_correct_witness :
  ∃ (fs : list Z) m', map_nonpaged KERNEL_HEAP_BASE (KERNEL_HEAP_BASE + 1 * PAGE_SIZE) (root_machine 7 [253]) =
      Ret (Ok (), m') ∧ length fs = 1%nat ∧ page_lock m' = false ∧ tlb_events m' = [FlushAll].
Proof.
  destruct (map_nonpaged_correct (root_machine 7 [253]) {[17 := []]} (free_set (byte_region 7 [253])) {[17]}
    KERNEL_HEAP_BASE 1) as (fs & m' & G' & F' & H' & Heq & Hlen & _ & _ & _ & _ & _ & _ & Hl & Ht).
  - exact (root_machine_ok _ _ small_mask_7).
  - done.
  - done.
  - intros f Hf%(byte_region_range _ _ _ small_mask_7). lia.
  - by vm_compute.
  - by vm_compute.
  - lia.
  - lia.
  - by vm_compute.
  - vm_compute. lia.
  - intros j Hj. apply root_machine_empty.
  - exists fs, m'. exact (conj Heq (conj Hlen (conj Hl Ht))).
Defined.

Lemma map_nonpaged_failure_hangs_witness :
  map_nonpaged KERNEL_HEAP_BASE (KERNEL_HEAP_BASE + 8192) (root_machine 0 [0]) = Hang.
Proof.
  apply (map_nonpaged_failure_hangs (root_machine 0 [0]) {[17 := []]} {[17]}); try (by vm_compute).
  change (Frame.containing_address (cr3 (root_machine 0 [0]))) with 17.
  replace (∅ : gset Z) with (free_set (byte_region 0 [0])) by (by vm_compute).
  exact (root_machine_ok _ _ small_mask_0).
Defined.
