(* ===== verification/RegionRanges.v ===== *)
(** * What mapping and unmapping a region does (paging/heap_region.rs)

    The ranges behind the three kinds of region: heap memory, kernel stacks with
    their guard page, and windows onto physical memory; giving a range back; and
    that mapping a region and unmapping it again leaves every translation as it
    was, with nothing but page tables kept. *)
From S2P Require Import Prelude Align Physmem PageEntry PageTable Regions RegionMapping.

(** ** Unmapping a range of pages *)

Lemma same_page_translate m p4 va va' : same_page va va' → translate m p4 va = translate m p4 va'.
Proof. intros (E4 & E3 & E2 & E1). unfold translate, walk. by rewrite E4, E3, E2, E1. Qed.

Lemma same_page_plain m p4 va va' : same_page va va' → plain m p4 va → plain m p4 va'.
Proof. intros (E4 & E3 & E2 & _). unfold plain. by rewrite E4, E3, E2. Qed.

(** An address lies in one of the pages or in none. *)
Lemma page_in_range base n va :
  (∃ j, 0 ≤ j < n ∧ same_page (base + j * PAGE_SIZE) va) ∨
  (∀ j, 0 ≤ j < n → ¬ same_page (base + j * PAGE_SIZE) va).
Proof.
  destruct (Z.neg_nonneg_cases n) as [Hn|Hn]; [right; lia|]. revert n Hn. apply natlike_ind; [right; lia|].
  intros n Hn IH. destruct (decide (same_page (base + n * PAGE_SIZE) va)) as [Hs|Hs].
  - left. exists n. split; [lia|done].
  - destruct IH as [(j & Hj & Hjs)|IH]; [left; exists j; split; [lia|done]|right].
    intros j Hj. destruct (decide (j = n)) as [->|]; [done|apply IH; lia].
Qed.

(** The frames that unmapping the pages [l] gives back. *)
Definition freed_run (m : Machine) (p4 base : Z) (free : bool) (l : list Z) : gset Z :=
  ⋃ ((λ j, freed_frames (translate m p4 (base + j * PAGE_SIZE)) free) <$> l).

Lemma elem_of_freed_run m p4 base free l f :
  f ∈ freed_run m p4 base free l ↔
  ∃ j, j ∈ l ∧ f ∈ freed_frames (translate m p4 (base + j * PAGE_SIZE)) free.
Proof. unfold freed_run. rewrite elem_of_union_list. set_solver. Qed.

Lemma elem_of_freed_frames pte free f :
  f ∈ freed_frames pte free ↔ free = true ∧ ∃ p, Raw.present pte = PteOk p ∧ Present.frame p = f.
Proof. unfold freed_frames. destruct (Raw.present pte), free; set_solver. Qed.

(** The pages [i], ..., [i + n - 1] of a range can be unmapped: if their frames
    are to be freed, those are held, not tables, and all different. *)
Record releasable (p4 base : Z) (free : bool) (i n : Z) (m : Machine) (G : gmap Z (list Z)) (H : gset Z) : Prop := {
  rl_plain : ∀ j, i ≤ j < i + n → plain m p4 (base + j * PAGE_SIZE);
  rl_frames : ∀ j f, i ≤ j < i + n → f ∈ freed_frames (translate m p4 (base + j * PAGE_SIZE)) free →
    f ∈ H ∧ G !! f = None ∧ f ≠ 1048575;
  rl_distinct : ∀ j j' f, i ≤ j < i + n → i ≤ j' < i + n →
    f ∈ freed_frames (translate m p4 (base + j * PAGE_SIZE)) free →
    f ∈ freed_frames (translate m p4 (base + j' * PAGE_SIZE)) free → j = j';
}.

(** How unmapping a run of pages changes the machine. *)
Record run_unmapped (p4 base : Z) (free : bool) (i n : Z) (m : Machine) (G : gmap Z (list Z)) (F H : gset Z)
    (m' : Machine) : Prop := {
  ru_ok : tables_ok m' p4 G (F ∪ freed_run m p4 base free (seqZ i n)) (H ∖ freed_run m p4 base free (seqZ i n));
  ru_plain : ∀ va, plain m p4 va → plain m' p4 va;
  ru_pages : ∀ j, i ≤ j < i + n → translate m' p4 (base + j * PAGE_SIZE) = Raw.unused;
  ru_others : ∀ va, plain m p4 va → (∀ j, i ≤ j < i + n → ¬ same_page (base + j * PAGE_SIZE) va) →
    translate m' p4 va = translate m p4 va;
  ru_state : cr3 m' = cr3 m ∧ page_lock m' = page_lock m ∧ tlb_events m' = tlb_events m;
  ru_ram : ∀ f i, G !! f = None → ram m' f i = ram m f i;
}.

Section unmap_run.
Context (p4 base : Z) (free : bool) (Hb : 0 ≤ base).

Lemma unmap_page_ok i m G F H fl n :
  0 ≤ i → 0 < n → base + (i + n) * PAGE_SIZE < usize_limit →
  tables_ok m p4 G F H → releasable p4 base free i n m G H →
  ∃ m', unmap_page p4 base free i (fl, m) = Ret (true, m') ∧
    unmapped p4 m G F H (base + i * PAGE_SIZE) free m'.
Proof.
  intros Hi Hn Hov Hok Hrl. unfold unmap_page. unfold PAGE_SIZE in *. do 2 step_by lia. cbn [fst snd].
  destruct (unmap_ok m p4 G F H (base + i * 4096) free) as (m' & -> & Hm); [done|by apply Hrl; lia| |by exists m'].
  intros pte Hfree Hp. apply (rl_frames _ _ _ _ _ _ _ _ Hrl i); [lia|]. apply elem_of_freed_frames. eauto.
Qed.

(** After the first page is unmapped, the rest can still be. *)
Lemma releasable_rest i n m G F H m1 :
  0 ≤ i → 0 < n → i + n < 2 ^ 36 → releasable p4 base free i n m G H →
  unmapped p4 m G F H (base + i * PAGE_SIZE) free m1 →
  (∀ j, i + 1 ≤ j < i + n → translate m1 p4 (base + j * PAGE_SIZE) = translate m p4 (base + j * PAGE_SIZE)) ∧
  releasable p4 base free (i + 1) (n - 1) m1 G (H ∖ freed_frames (translate m p4 (base + i * PAGE_SIZE)) free).
Proof.
  intros Hi Hn Hn36 [Rp Rf Rd] [_ Up Ut _ _].
  assert (∀ j, i + 1 ≤ j < i + n → translate m1 p4 (base + j * PAGE_SIZE) = translate m p4 (base + j * PAGE_SIZE)) as Ht.
  { intros j Hj. rewrite Ut by (apply Rp; lia). rewrite decide_False; [done|]. apply pages_distinct; lia. }
  split; [done|]. split.
  - intros j Hj. apply Up, Rp. lia.
  - intros j f Hj Hf. rewrite Ht in Hf by lia. destruct (Rf j f) as (? & ? & ?); [lia|done|].
    split_and!; [|done|done]. apply elem_of_difference. split; [done|]. intros Hf'.
    assert (i = j) by (apply (Rd i j f); (lia || done)). lia.
  - intros j j' f Hj Hj'. rewrite !Ht by lia. apply Rd; lia.
Qed.

Lemma unmap_run_ok k : ∀ i m G F H fl,
  0 ≤ i → i + Z.of_nat k < 2 ^ 36 → base + (i + Z.of_nat k) * PAGE_SIZE < usize_limit →
  tables_ok m p4 G F H → releasable p4 base free i (Z.of_nat k) m G H →
  ∃ m', for_each (unmap_page p4 base free) (seqZ i (Z.of_nat k)) (fl, m) = Ret (fl || (0 <? Z.of_nat k), m') ∧
    run_unmapped p4 base free i (Z.of_nat k) m G F H m'.
Proof.
  induction k as [|k IH]; intros i m G F H fl Hi Hn36 Hov Hok Hrl.
  - exists m. rewrite seqZ_nil by lia. cbn. rewrite orb_false_r. split; [done|].
    split; [|done|lia|done|done|done]. unfold freed_run. rewrite seqZ_nil by lia. cbn. by rewrite union_empty_r_L, difference_empty_L.
  - rewrite seqZ_cons by lia. cbn [for_each]. replace (Z.pred (Z.of_nat (S k))) with (Z.of_nat k) by lia.
    replace (Z.succ i) with (i + 1) by lia.
    destruct (unmap_page_ok i m G F H fl (Z.of_nat (S k))) as (m1 & -> & U); [lia|lia|done|done|done|].
    cbn [mbind outcome_bind].
    destruct (releasable_rest i (Z.of_nat (S k)) m G F H m1) as [Ht Hrl1]; [lia|lia|lia|done|done|].
    replace (Z.of_nat (S k) - 1) with (Z.of_nat k) in Hrl1 by lia.
    destruct (IH (i + 1) m1 G _ _ true ltac:(lia) ltac:(lia) ltac:(unfold PAGE_SIZE in *; lia)
      (um_ok _ _ _ _ _ _ _ _ U) Hrl1) as (m2 & -> & [Vok Vpl Vpg Voth Vst Vram]).
    exists m2. split.
    { replace (0 <? Z.of_nat (S k)) with true by (symmetry; apply Z.ltb_lt; lia). by rewrite orb_true_r. }
    destruct U as [_ Upl Ut Ust Uram]. assert (plain m p4 (base + i * PAGE_SIZE)) as Hp0 by (apply Hrl; lia).
    split.
    + assert (freed_run m p4 base free (seqZ i (Z.of_nat (S k))) =
        freed_frames (translate m p4 (base + i * PAGE_SIZE)) free ∪ freed_run m1 p4 base free (seqZ (i + 1) (Z.of_nat k))) as ->.
      { apply set_eq. intros f. rewrite elem_of_union, !elem_of_freed_run.
        setoid_rewrite elem_of_seqZ. split.
        - intros (j & Hj & Hf). destruct (decide (j = i)) as [->|]; [by left|right].
          exists j. rewrite Ht by lia. split; [lia|done].
        - intros [Hf|(j & Hj & Hf)]; [exists i; split; [lia|done]|].
          exists j. rewrite Ht in Hf by lia. split; [lia|done]. }
      by rewrite (assoc_L (∪)), <- difference_difference_l_L.
    + auto.
    + intros j Hj. destruct (decide (j = i)) as [->|]; [|apply Vpg; lia].
      rewrite Voth; [|auto|intros j' Hj'; apply pages_distinct; lia].
      rewrite Ut by done. by rewrite decide_True.
    + intros va Hva Hne. rewrite Voth; [|auto|intros j Hj; apply Hne; lia].
      rewrite Ut by done. rewrite decide_False; [done|]. apply Hne. lia.
    + destruct Ust as (? & ? & ?), Vst as (? & ? & ?). split_and!; congruence.
    + intros f j Hf. by rewrite Vram, Uram.
Qed.

End unmap_run.

(** ** What a mapped range is *)

(** A range of pages that a region is to be mapped on. *)
Record range_ready (m : Machine) (G : gmap Z (list Z)) (F H : gset Z) (base n : Z) : Prop := {
  rr_tables : tables_ok m (Frame.containing_address (cr3 m)) G F H;
  rr_clean : clean m F;
  rr_lock : page_lock m = false;
  rr_frames : ∀ f, f ∈ F → f < 2 ^ 40;
  rr_base : 0 ≤ base;
  rr_aligned : base mod PAGE_SIZE = 0;
  rr_pages : 0 < n < 2 ^ 36;
  rr_limit : base + n * PAGE_SIZE < usize_limit;
  rr_free : (4 * Z.to_nat n ≤ size (kernel_free F))%nat;
  rr_unused : ∀ j, 0 ≤ j < n → plain m (Frame.containing_address (cr3 m)) (base + j * PAGE_SIZE) ∧
    translate m (Frame.containing_address (cr3 m)) (base + j * PAGE_SIZE) = Raw.unused;
}.

(** The change that all three kinds of mapping have in common. [free] ranges own
    the frames of their pages. *)
Record range_mapped (p4 base n : Z) (free : bool) (m : Machine) (G : gmap Z (list Z)) (F H : gset Z)
    (m' : Machine) (G' : gmap Z (list Z)) (F' H' : gset Z) : Prop := {
  rg_ok : tables_ok m' p4 G' F' H';
  rg_total : F' ∪ H' = F ∪ H;
  rg_held : H ⊆ H';
  rg_plain : ∀ va, plain m p4 va → plain m' p4 va;
  rg_others : ∀ va, plain m p4 va → (∀ j, 0 ≤ j < n → ¬ same_page (base + j * PAGE_SIZE) va) →
    translate m' p4 va = translate m p4 va;
  rg_release : releasable p4 base free 0 n m' G' H';
  rg_fresh : ∀ f, f ∈ freed_run m' p4 base free (seqZ 0 n) → f ∈ F;
  rg_taken : ∀ f, f ∈ H' → f ∈ H ∨ is_Some (G' !! f) ∨ f ∈ freed_run m' p4 base free (seqZ 0 n);
  rg_state : cr3 m' = cr3 m ∧ page_lock m' = false ∧ tlb_events m' = FlushAll :: tlb_events m;
  rg_clean : clean m' F';
  rg_old : ∀ f, f ∈ H → G' !! f = G !! f;
  rg_ram : ∀ f i, G' !! f = None → ram m' f i = ram m f i;
  rg_free : (size (kernel_free F) ≤ 4 * Z.to_nat n + size (kernel_free F'))%nat;
  rg_dirs : dirs_kept G m m';
}.

Lemma not_present_freed pte free f : Raw.is_present pte = false → f ∉ freed_frames pte free.
Proof. unfold freed_frames, Raw.present. intros ->. set_solver. Qed.

Section release.
Context (p4 base off flags : Z) (free : bool) (fs : list Z) (n : Z).
Context (m m' : Machine) (G G' : gmap Z (list Z)) (F H F' H' : gset Z).
Context (Hrun : run_mapped p4 (base + off * PAGE_SIZE) flags free 0 fs m G F H m' G' F' H').
Context (Hoff : 0 ≤ off) (Hlen : Z.of_nat (length fs) = n - off).
Context (Hguard : ∀ j, 0 ≤ j < off → Raw.is_present (translate m' p4 (base + j * PAGE_SIZE)) = false).

(** The frame of a page. *)
Lemma run_freed j f :
  0 ≤ j < n →
  f ∈ freed_frames (translate m' p4 (base + j * PAGE_SIZE)) free ↔
  free = true ∧ off ≤ j ∧ fs !! Z.to_nat (j - off) = Some f.
Proof.
  intros Hj. destruct (decide (j < off)) as [Hlt|Hge].
  - split; [|lia]. intros Hf. by apply not_present_freed in Hf; [|apply Hguard; lia].
  - destruct (lookup_lt_is_Some_2 fs (Z.to_nat (j - off))) as [g Hg]; [lia|].
    destruct (rm_pages _ _ _ _ _ _ _ _ _ _ _ _ _ _ Hrun _ _ Hg) as (pte & Hp & Ef & _).
    replace (base + off * PAGE_SIZE + (0 + Z.of_nat (Z.to_nat (j - off))) * PAGE_SIZE)
      with (base + j * PAGE_SIZE) in Hp by (unfold PAGE_SIZE; lia).
    rewrite elem_of_freed_frames, Hg. split.
    + intros (-> & p & Hp' & <-). split_and!; [done|lia|]. congruence.
    + intros (-> & _ & [= <-]). eauto.
Qed.

Lemma run_freed_all f : f ∈ freed_run m' p4 base free (seqZ 0 n) ↔ free = true ∧ f ∈ fs.
Proof.
  rewrite elem_of_freed_run. setoid_rewrite elem_of_seqZ. split.
  - intros (j & Hj & (-> & _ & Hf)%run_freed); [|lia]. split; [done|]. by eapply list_elem_of_lookup_2.
  - intros (Hfree & [k Hk]%list_elem_of_lookup_1). pose proof (lookup_lt_Some _ _ _ Hk).
    exists (Z.of_nat k + off). split; [lia|]. apply run_freed; [lia|]. split_and!; [done|lia|].
    by replace (Z.to_nat (Z.of_nat k + off - off)) with k by lia.
Qed.

Lemma run_releasable :
  1048575 ∉ F → (∀ j, 0 ≤ j < n → plain m' p4 (base + j * PAGE_SIZE)) → releasable p4 base free 0 n m' G' H'.
Proof.
  intros Hlast Hpl. pose proof (rm_own _ _ _ _ _ _ _ _ _ _ _ _ _ _ Hrun) as Hown. split.
  - intros j Hj. apply Hpl. lia.
  - intros j f Hj (Hf & _ & Hk)%run_freed; [|lia]. destruct (Hown Hf) as [_ Hfs].
    destruct (Hfs f) as (HF & ? & ?); [by eapply list_elem_of_lookup_2|]. split_and!; [done|done|].
    intros ->. done.
  - intros j j' f Hj Hj' (Hf & ? & Hk)%run_freed (_ & ? & Hk')%run_freed; [|lia..].
    destruct (Hown Hf) as [Hnd _]. pose proof (NoDup_lookup _ _ _ _ Hnd Hk Hk'). lia.
Qed.

End release.

(** The end of each of the three calls: the run is mapped (behind [off] pages that
    stay absent), the TLBs are flushed and the lock is released. *)
Lemma range_finish p4 base off flags free fs n m G F H m0 G0 F0 H0 m1 G1 F1 H1 :
  run_mapped p4 (base + off * PAGE_SIZE) flags free 0 fs m0 G0 F0 H0 m1 G1 F1 H1 →
  0 ≤ off → Z.of_nat (length fs) = n - off →
  (∀ j, 0 ≤ j < off → Raw.is_present (translate m1 p4 (base + j * PAGE_SIZE)) = false) →
  (∀ va, plain m p4 va → plain m0 p4 va) →
  (∀ va, plain m p4 va → (∀ j, 0 ≤ j < off → ¬ same_page (base + j * PAGE_SIZE) va) →
     translate m0 p4 va = translate m p4 va) →
  F0 ∪ H0 = F ∪ H → H ⊆ H0 → F0 ⊆ F → (∀ f, f ∈ H0 → f ∈ H ∨ is_Some (G0 !! f)) →
  1048575 ∉ F → (∀ j, 0 ≤ j < n → plain m p4 (base + j * PAGE_SIZE)) →
  cr3 m0 = cr3 m → tlb_events m0 = tlb_events m →
  (∀ f, f ∈ H → G0 !! f = G !! f) → (∀ f i, G0 !! f = None → ram m0 f i = ram m f i) →
  (size (kernel_free F) ≤ 4 * Z.to_nat off + size (kernel_free F0))%nat → G ⊆ G0 → dirs_kept G m m0 →
  range_mapped p4 base n free m G F H (unlock_page_table (MapperFlushAll.flush true m1)) G1 F1 H1.
Proof.
  intros R Hoff Hlen Hguard Hpl0 Htr0 Htot0 Hsub0 HF0 Htak0 Hlast Hpl Hcr Htlb Hold0 Hram0 Hsz0 Hsub Hdirs0.
  set (m' := unlock_page_table (MapperFlushAll.flush true m1)).
  pose proof (run_freed_all _ _ _ _ _ _ _ _ _ _ _ _ _ _ _ R Hoff Hlen Hguard) as Hfreed.
  assert (releasable p4 base free 0 n m1 G1 H1) as Hrel.
  { apply (run_releasable _ _ _ _ _ _ _ _ _ _ _ _ _ _ _ R Hlen Hguard); [set_solver|].
    intros j Hj. apply R, Hpl0, Hpl, Hj. }
  change (freed_run m1 p4 base free (seqZ 0 n)) with (freed_run m' p4 base free (seqZ 0 n)) in Hfreed.
  destruct R as [Rok Rcl Rtot Rheld Rsub Rold Rtaken Rown Rfree _ Roth Rplain (Rcr & _ & Rtlb) Rram Rdirs]. split.
  - split; apply Rok.
  - by rewrite Rtot.
  - by transitivity H0.
  - intros va Hva. exact (Rplain va (Hpl0 va Hva)).
  - intros va Hva Hne. transitivity (translate m1 p4 va); [done|]. rewrite Roth; [|auto|].
    + apply Htr0; [done|]. intros j Hj. apply Hne. lia.
    + intros j Hj. specialize (Hne (off + j) ltac:(lia)).
      by replace (base + off * PAGE_SIZE + (0 + j) * PAGE_SIZE) with (base + (off + j) * PAGE_SIZE)
        by (unfold PAGE_SIZE; lia).
  - split; apply Hrel.
  - intros f [Hfree Hf]%Hfreed. destruct (Rown Hfree) as [_ Hfs]. destruct (Hfs f Hf) as (? & _). auto.
  - intros f Hf. apply Rtaken in Hf as [Hf|[?|[? ?]]]; [|by auto|right; right; by apply Hfreed].
    apply Htak0 in Hf as [?|[pre Hpre]]; [by auto|]. right; left. exists pre. by eapply lookup_weaken.
  - cbn. split_and!; congruence.
  - exact Rcl.
  - intros f Hf. rewrite Rold by auto. auto.
  - intros f i Hf. transitivity (ram m1 f i); [done|]. rewrite Rram by done. apply Hram0. by eapply lookup_weaken_None.
  - lia.
  - eapply dirs_kept_trans; [exact Hsub|exact Hdirs0|].
    eapply dirs_kept_trans; [reflexivity|exact Rdirs|by apply dirs_kept_ram].
Qed.

Section map_range.
Context (m : Machine) (G : gmap Z (list Z)) (F H : gset Z) (base n : Z).
Context (R : range_ready m G F H base n).

Abbreviation p4 := (Frame.containing_address (cr3 m)).
Abbreviation limit := (base + n * PAGE_SIZE).
Abbreviation finished m1 := (unlock_page_table (MapperFlushAll.flush true m1)).

Lemma ready_locks {A} (k : () → Frame * Machine → outcome A) :
  (u ← check_range base limit; lk ← lock_page_table m; k u lk) = k () (p4, set_page_lock m true).
Proof.
  destruct R. rewrite check_range_ok; [|done|unfold PAGE_SIZE; lia|done|done|unfold PAGE_SIZE in *; mlia].
  rewrite bind_bind_Ret. by rewrite (lock_ok m G F H), bind_bind_Ret.
Qed.

(** What [range_finish] asks for when nothing comes before the run. *)
Lemma finish_at_once flags free fs m1 G1 F1 H1 :
  run_mapped p4 base flags free 0 fs (set_page_lock m true) G F H m1 G1 F1 H1 → length fs = Z.to_nat n →
  range_mapped p4 base n free m G F H (finished m1) G1 F1 H1.
Proof.
  intros Hrun Hlen. destruct R. pose proof (tab_last _ _ _ _ _ rr_tables0) as Hlast.
  apply (range_finish _ _ 0 flags _ fs _ _ _ _ _ (set_page_lock m true) G F H); try done; try lia.
  - by rewrite Z.mul_0_l, Z.add_0_r.
  - by left.
  - intros j Hj. by apply rr_unused0.
Qed.

Lemma map_nonpaged_ok :
  ∃ fs m1 G' F' H', map_nonpaged base limit m = Ret (Ok (), finished m1) ∧ length fs = Z.to_nat n ∧
    run_mapped p4 base NONPAGED_FLAGS true 0 fs (set_page_lock m true) G F H m1 G' F' H' ∧
    range_mapped p4 base n true m G F H (finished m1) G' F' H'.
Proof.
  unfold map_nonpaged. rewrite ready_locks. cbn [fst snd]. unfold map_nonpaged_impl.
  pose proof R as [Rt Rc _ R40 Rb _ Rn Rl Rf Ru]. rewrite page_indices_ok by lia. cbn [mbind outcome_bind].
  destruct (map_run_ok p4 base n (set_page_lock m true) G F H MapperFlushAll.new)
    as (fs & m1 & G1 & F1 & H1 & Hrun & Hlen & Hm); [done|lia|lia|done|by apply tables_lock|done..|].
  rewrite Hrun, (proj2 (Z.ltb_lt 0 n)), orb_true_r by lia. cbn [mbind outcome_bind fst snd].
  exists fs, m1, G1, F1, H1. split_and!; [done|done|done|by eapply finish_at_once].
Qed.

(** A page of a window onto physical memory. *)
Lemma physical_page_ok pm :
  0 ≤ pm_physical_address pm → pm_physical_address pm + n * PAGE_SIZE ≤ 2 ^ 52 →
  pm_physical_address pm mod PAGE_SIZE = 0 →
  maps_page (map_physical_page pm p4 base) p4 base (PhysicalMappingFlags.into_present (pm_flags pm)) false
    (λ i f, f = pm_physical_address pm / PAGE_SIZE + i) n.
Proof.
  intros Hpa Hlim Hal i m0 G0 F0 H0 fl Hi Hok Hcl Hfree _ Hpl Hun. destruct R as [_ _ _ _ Rb _ _ Rl _ _].
  unfold map_physical_page. unfold PAGE_SIZE in *. do 3 step_by lia. cbn [fst snd].
  set (pa := pm_physical_address pm) in *.
  assert (Frame.containing_address (pa + i * 4096) = pa / 4096 + i) as ->.
  { rewrite containing_address_shiftr, Z.shiftr_div_pow2 by (unfold is_usize in *; lia).
    change (2 ^ 12) with 4096. by rewrite Z.div_add. }
  destruct (map_to_ok m0 p4 G0 F0 H0 (base + i * 4096) (pa / 4096 + i) (PhysicalMappingFlags.into_present (pm_flags pm)))
    as (pte & m' & G' & F' & H' & -> & Hm & Hpr & Ef & Efl); [done|done|lia|done|done|mlia| |].
  { unfold PhysicalMappingFlags.into_present. by repeat destruct (contains_flags _ _). }
  cbn [mbind outcome_bind fst snd MapperFlushAll.consume]. exists (pa / 4096 + i), m', G', F', H'. split_and!; [done|done|].
  rewrite <- Efl.
  apply (mapped_run p4 base i false _ m0 m0 G0 F0 F0 H0 H0); try done; [lia|]. by left.
Qed.

Lemma map_physical_ok pm :
  0 ≤ pm_physical_address pm → pm_physical_address pm + n * PAGE_SIZE ≤ 2 ^ 52 →
  pm_physical_address pm mod PAGE_SIZE = 0 →
  ∃ fs m1 G' F' H', map_physical pm base limit m = Ret (Ok (), finished m1) ∧ length fs = Z.to_nat n ∧
    (∀ j f, fs !! j = Some f → f = pm_physical_address pm / PAGE_SIZE + Z.of_nat j) ∧
    run_mapped p4 base (PhysicalMappingFlags.into_present (pm_flags pm)) false 0 fs
      (set_page_lock m true) G F H m1 G' F' H' ∧
    range_mapped p4 base n false m G F H (finished m1) G' F' H'.
Proof.
  intros Hpa Hlim Hal. unfold map_physical. rewrite ready_locks. cbn [fst snd].
  pose proof R as [Rt Rc _ R40 Rb _ Rn Rl Rf Ru]. rewrite page_indices_ok by lia. cbn [mbind outcome_bind].
  destruct (run_ok _ p4 base _ false _ n Rb ltac:(lia) (physical_page_ok pm Hpa Hlim Hal) (Z.to_nat n) 0
    (set_page_lock m true) G F H MapperFlushAll.new)
    as (fs & m1 & G1 & F1 & H1 & Hrun & Hlen & Hfs & Hm); [lia|lia|by apply tables_lock|done|done|done| |].
  { intros j Hj. apply Ru. lia. }
  rewrite Z2Nat.id in Hrun by lia. rewrite Hrun, (proj2 (Z.ltb_lt 0 n)), orb_true_r by lia.
  cbn [mbind outcome_bind fst snd].
  exists fs, m1, G1, F1, H1. split_and!; [done|done|done|done|by eapply finish_at_once].
Qed.

(** A kernel stack: the entry of the guard page is written first. *)
Definition guard_entry : RawPte := NotPresent.to_raw (mkRawNotPresentPte 2).

Lemma map_kernel_stack_ok :
  2 ≤ n →
  ∃ fs m0 G0 F0 H0 m1 G' F' H', map_kernel_stack base limit m = Ret (Ok (), finished m1) ∧
    length fs = Z.to_nat (n - 1) ∧ F0 ⊆ F ∧ translate m1 p4 base = guard_entry ∧
    run_mapped p4 (base + 1 * PAGE_SIZE) NONPAGED_FLAGS true 0 fs m0 G0 F0 H0 m1 G' F' H' ∧
    range_mapped p4 base n true m G F H (finished m1) G' F' H'.
Proof.
  intros Hn2. unfold map_kernel_stack. pose proof R as [Rt Rc Rlk R40 Rb Ral Rn Rl Rf Ru].
  destruct (Ru 0 ltac:(lia)) as [Hp0 Hu0]. rewrite Z.mul_0_l, Z.add_0_r in Hp0, Hu0.
  rewrite uadd_ok, bind_bind_Ret by (unfold PAGE_SIZE in *; lia). step_by ltac:(unfold PAGE_SIZE; lia).
  rewrite page_aligned_up, bind_bind_Ret by (done || unfold PAGE_SIZE in *; mlia). step_by lia.
  rewrite page_aligned_down, bind_bind_Ret by (unfold PAGE_SIZE in *; mlia). step_by lia.
  rewrite (lock_ok m G F H), bind_bind_Ret by done. cbn [fst snd].
  change (GuardPagePte.to_not_present _) with (Ret (mkRawNotPresentPte 2)). rewrite bind_bind_Ret.
  destruct (set_not_present_ok (set_page_lock m true) p4 G F H base (mkRawNotPresentPte 2))
    as (m0 & G0 & F0 & H0 & -> & Hmap);
    [by apply tables_lock|done|lia|done| |].
  { change (translate (set_page_lock m true)) with (translate m). by rewrite Hu0. }
  pose proof (mapped_dirs _ _ _ _ _ _ _ _ _ _ _ Hmap) as Mdirs.
  destruct Hmap as [Mok Mcl Mtot Mheld Mfree Mpl Mtr (Mcr & Mlk & Mtlb) Msub Mold Mtaken Mram _].
  cbn [mbind outcome_bind fst snd]. unfold map_nonpaged_impl.
  change (MapperFlushAll.consume MapperFlushAll.new _) with true.
  replace (base + PAGE_SIZE) with (base + 1 * PAGE_SIZE) by lia.
  replace limit with (base + 1 * PAGE_SIZE + (n - 1) * PAGE_SIZE) by lia.
  rewrite page_indices_ok by lia. cbn [mbind outcome_bind].
  assert (∀ j, 0 ≤ j < n - 1 → ¬ same_page base (base + 1 * PAGE_SIZE + j * PAGE_SIZE)) as Hdist.
  { intros j Hj. pose proof (pages_distinct base 0 (1 + j)) as Hd.
    replace (base + 0 * PAGE_SIZE) with base in Hd by lia.
    replace (base + 1 * PAGE_SIZE + j * PAGE_SIZE) with (base + (1 + j) * PAGE_SIZE) by lia. apply Hd; lia. }
  assert (F0 ⊆ F) as HF0 by (intros f; eapply free_shrinks; [done|done|by eapply tables_disjoint]).
  destruct (map_run_ok p4 (base + 1 * PAGE_SIZE) (n - 1) m0 G0 F0 H0 true)
    as (fs & m1 & G1 & F1 & H1 & Hrun & Hlen & Hm);
    [unfold PAGE_SIZE; lia|lia|lia|unfold PAGE_SIZE in *; lia|done|done|lia|by auto| |].
  { intros j Hj. destruct (Ru (1 + j) ltac:(lia)) as [Hpj Huj].
    replace (base + (1 + j) * PAGE_SIZE) with (base + 1 * PAGE_SIZE + j * PAGE_SIZE) in Hpj, Huj by lia.
    split; [by apply Mpl|]. rewrite Mtr by done. by rewrite decide_False by auto. }
  rewrite Hrun. cbn [mbind outcome_bind fst snd orb].
  assert (translate m1 p4 base = guard_entry) as Hg.
  { rewrite (rm_others _ _ _ _ _ _ _ _ _ _ _ _ _ _ Hm); [|by apply Mpl|].
    - rewrite Mtr by done. by rewrite decide_True.
    - intros j Hj Hs. eapply (Hdist j); [lia|]. by apply same_page_sym. }
  exists fs, m0, G0, F0, H0, m1, G1, F1, H1. split_and!; try done.
  apply (range_finish _ _ 1 NONPAGED_FLAGS _ fs _ _ _ _ _ m0 G0 F0 H0); try done; try lia.
  - intros j Hj. assert (j = 0) as -> by lia. by rewrite Z.mul_0_l, Z.add_0_r, Hg.
  - intros va Hva Hne. rewrite Mtr by done. rewrite decide_False; [done|].
    specialize (Hne 0 ltac:(lia)). by rewrite Z.mul_0_l, Z.add_0_r in Hne.
  - apply Rt.
  - intros j Hj. by apply Ru.
Qed.

End map_range.

(** Unmapping a whole range, behind the checks and the lock. *)
Lemma unmap_nonpaged_ok m G F H base n free :
  let p4 := Frame.containing_address (cr3 m) in
  tables_ok m p4 G F H → page_lock m = false → 0 ≤ base → base mod PAGE_SIZE = 0 → 0 < n < 2 ^ 36 →
  base + n * PAGE_SIZE < usize_limit → releasable p4 base free 0 n m G H →
  ∃ m1, unmap_nonpaged base (base + n * PAGE_SIZE) free m = Ret (unlock_page_table (MapperFlushAll.flush true m1)) ∧
    run_unmapped p4 base free 0 n (set_page_lock m true) G F H m1.
Proof.
  intros p4 Hok Hl Hb Hal Hn Hlim Hrel. unfold unmap_nonpaged.
  rewrite check_range_ok, bind_bind_Ret by (done || unfold PAGE_SIZE in *; mlia).
  rewrite (lock_ok m G F H), bind_bind_Ret by done. cbn [fst snd]. fold p4.
  rewrite page_indices_ok, bind_bind_Ret by lia.
  destruct (unmap_run_ok p4 base free Hb (Z.to_nat n) 0 (set_page_lock m true) G F H MapperFlushAll.new)
    as (m1 & Hrun & Hm); [lia|lia|rewrite Z2Nat.id by lia; done|by apply tables_lock|rewrite Z2Nat.id by lia; split; apply Hrel|].
  rewrite Z2Nat.id in Hrun, Hm by lia. rewrite Hrun, (proj2 (Z.ltb_lt 0 n)), orb_true_r by lia.
  cbn [mbind outcome_bind fst snd]. eauto.
Qed.

(** Any kind of region that [map_region] accepts. *)
Definition frees (t : RegionType) : bool := match t with PhysicalMappingRegion _ => false | _ => true end.

Definition mappable (t : RegionType) (n : Z) : Prop :=
  match t with
  | Free => False
  | Heap => True
  | KernelStackRegion => 2 ≤ n
  | PhysicalMappingRegion pm => 0 ≤ pm_physical_address pm ∧
      pm_physical_address pm + n * PAGE_SIZE ≤ 2 ^ 52 ∧ pm_physical_address pm mod PAGE_SIZE = 0
  end.

(** What the pages of a mapped region translate to. *)
Definition kernel_page (m : Machine) (p4 va : Z) : Prop :=
  ∃ pte, Raw.present (translate m p4 va) = PteOk pte ∧ Present.flags pte = NONPAGED_FLAGS.

Definition region_contents (t : RegionType) (m : Machine) (p4 base n : Z) : Prop :=
  match t with
  | Free => True
  | Heap => ∀ j, 0 ≤ j < n → kernel_page m p4 (base + j * PAGE_SIZE)
  | KernelStackRegion => translate m p4 base = guard_entry ∧ ∀ j, 1 ≤ j < n → kernel_page m p4 (base + j * PAGE_SIZE)
  | PhysicalMappingRegion pm => ∀ j, 0 ≤ j < n → ∃ pte,
      Raw.present (translate m p4 (base + j * PAGE_SIZE)) = PteOk pte ∧
      Present.frame pte * PAGE_SIZE = pm_physical_address pm + j * PAGE_SIZE ∧
      Present.flags pte = PhysicalMappingFlags.into_present (pm_flags pm)
  end.

(** The pages of a run, by their index in the range. *)
Lemma run_pages p4 base flags own fs m G F H m' G' F' H' j :
  run_mapped p4 base flags own 0 fs m G F H m' G' F' H' → 0 ≤ j < Z.of_nat (length fs) →
  ∃ pte f, fs !! Z.to_nat j = Some f ∧ Raw.present (translate m' p4 (base + j * PAGE_SIZE)) = PteOk pte ∧
    Present.frame pte = f ∧ Present.flags pte = flags.
Proof.
  intros Hrun Hj. destruct (lookup_lt_is_Some_2 fs (Z.to_nat j)) as [f Hf]; [lia|].
  destruct (rm_pages _ _ _ _ _ _ _ _ _ _ _ _ _ _ Hrun _ f Hf) as (pte & Hp & Ef & Efl).
  rewrite Z.add_0_l, Z2Nat.id in Hp by lia. by exists pte, f.
Qed.

Lemma map_range_ok t m G F H base n :
  range_ready m G F H base n → mappable t n →
  ∃ m' G' F' H', map_range t base (base + n * PAGE_SIZE) m = Ret (Ok (), m') ∧
    range_mapped (Frame.containing_address (cr3 m)) base n (frees t) m G F H m' G' F' H' ∧
    region_contents t m' (Frame.containing_address (cr3 m)) base n.
Proof.
  intros R Ht. pose proof (rr_pages _ _ _ _ _ _ R) as Hn.
  destruct t as [| | |pm]; [done|..]; cbn [map_range frees mappable] in *.
  - destruct (map_nonpaged_ok m G F H base n R) as (fs & m1 & G' & F' & H' & Heq & Hlen & Hrun & Hm).
    eexists _, G', F', H'. split_and!; [exact Heq|exact Hm|]. intros j Hj.
    destruct (run_pages _ _ _ _ _ _ _ _ _ _ _ _ _ j Hrun) as (pte & f & _ & Hp & _ & Hfl); [lia|]. by exists pte.
  - destruct (map_kernel_stack_ok m G F H base n R Ht)
      as (fs & m0 & G0 & F0 & H0 & m1 & G' & F' & H' & Heq & Hlen & _ & Hg & Hrun & Hm).
    eexists _, G', F', H'. split_and!; [exact Heq|exact Hm|]. split; [exact Hg|]. intros j Hj.
    destruct (run_pages _ _ _ _ _ _ _ _ _ _ _ _ _ (j - 1) Hrun) as (pte & f & _ & Hp & _ & Hfl); [lia|].
    replace (base + 1 * PAGE_SIZE + (j - 1) * PAGE_SIZE) with (base + j * PAGE_SIZE) in Hp by lia. by exists pte.
  - destruct Ht as (H1 & H2 & H3).
    destruct (map_physical_ok m G F H base n R pm H1 H2 H3) as (fs & m1 & G' & F' & H' & Heq & Hlen & Hfs & Hrun & Hm).
    eexists _, G', F', H'. split_and!; [exact Heq|exact Hm|]. intros j Hj.
    destruct (run_pages _ _ _ _ _ _ _ _ _ _ _ _ _ j Hrun) as (pte & f & Hf & Hp & Ef & Hfl); [lia|].
    exists pte. split_and!; [exact Hp| |done]. rewrite Ef, (Hfs _ _ Hf). unfold PAGE_SIZE in *. mlia.
Qed.

Lemma unmap_range_free t base limit m :
  t ≠ Free → unmap_range t base limit m = unmap_nonpaged base limit (frees t) m.
Proof. by destruct t. Qed.

(** ** Properties *)

(** Unmapping a range. [unmap_nonpaged] never panics on pages whose frames, if
    they are to be freed, are held, are no tables and are all different: every
    page of the range then translates to nothing, every other address translates
    as before, exactly the frames of the range are given back, the page-table
    lock is released and the TLBs were flushed. *)
Theorem unmap_nonpaged_correct m G F H base n free :
  let p4 := Frame.containing_address (cr3 m) in
  tables_ok m p4 G F H → page_lock m = false → 0 ≤ base → base mod PAGE_SIZE = 0 → 0 < n < 2 ^ 36 →
  base + n * PAGE_SIZE < usize_limit → releasable p4 base free 0 n m G H →
  ∃ m', unmap_nonpaged base (base + n * PAGE_SIZE) free m = Ret m' ∧
    (∀ j, 0 ≤ j < n → translate m' p4 (base + j * PAGE_SIZE) = Raw.unused) ∧
    (∀ va, plain m p4 va → (∀ j, 0 ≤ j < n → ¬ same_page (base + j * PAGE_SIZE) va) →
       translate m' p4 va = translate m p4 va) ∧
    tables_ok m' p4 G (F ∪ freed_run m p4 base free (seqZ 0 n)) (H ∖ freed_run m p4 base free (seqZ 0 n)) ∧
    page_lock m' = false ∧ tlb_events m' = FlushAll :: tlb_events m.
Proof.
  intros p4 Hok Hl Hb Hal Hn Hlim Hrel.
  destruct (unmap_nonpaged_ok m G F H base n free) as (m1 & Heq & [Uok Upl Upg Uoth (_ & _ & Ut) _]); [done..|].
  eexists. split_and!; [exact Heq|exact Upg|exact Uoth|split; apply Uok|done|]. cbn. by rewrite Ut.
Qed.

(** Mapping a kernel stack. On an unmapped range of at least two pages, with
    enough free frames, [map_kernel_stack] never panics: the lowest page holds the
    entry of a guard page, which is not present, so that running off the stack
    faults; every page above it translates to a frame of its own that was free,
    with the flags for kernel data; every other address translates as before. *)
Theorem map_kernel_stack_correct m G F H base n :
  let p4 := Frame.containing_address (cr3 m) in
  range_ready m G F H base n → 2 ≤ n →
  ∃ fs guard m' G' F' H', map_kernel_stack base (base + n * PAGE_SIZE) m = Ret (Ok (), m') ∧
    GuardPagePte.to_not_present mkKernelStackGuardPagePte = Ret guard ∧
    translate m' p4 base = NotPresent.to_raw guard ∧ Raw.is_present (translate m' p4 base) = false ∧
    length fs = Z.to_nat (n - 1) ∧ NoDup fs ∧ (∀ f, f ∈ fs → f ∈ F ∧ f ∈ H') ∧
    (∀ j f, fs !! j = Some f →
       ∃ pte, Raw.present (translate m' p4 (base + (1 + Z.of_nat j) * PAGE_SIZE)) = PteOk pte ∧
         Present.frame pte = f ∧ Present.flags pte = NONPAGED_FLAGS) ∧
    (∀ va, plain m p4 va → (∀ j, 0 ≤ j < n → ¬ same_page (base + j * PAGE_SIZE) va) →
       translate m' p4 va = translate m p4 va) ∧
    tables_ok m' p4 G' F' H' ∧ F' ∪ H' = F ∪ H ∧
    page_lock m' = false ∧ tlb_events m' = FlushAll :: tlb_events m.
Proof.
  intros p4 R Hn. destruct (map_kernel_stack_ok m G F H base n R Hn)
    as (fs & m0 & G0 & F0 & H0 & m1 & G' & F' & H' & Heq & Hlen & HF0 & Hg & Hrun & [Hok Htot _ _ Hoth _ _ _ (_ & Hl & Ht) _ _ _ _]).
  destruct (rm_own _ _ _ _ _ _ _ _ _ _ _ _ _ _ Hrun eq_refl) as [Hnd Hfs].
  exists fs, (mkRawNotPresentPte 2), (unlock_page_table (MapperFlushAll.flush true m1)), G', F', H'.
  split_and!; try done.
  - change (Raw.is_present (translate m1 p4 base) = false). unfold p4. by rewrite Hg.
  - intros f Hf. destruct (Hfs f Hf) as (? & ? & _). auto.
  - intros j f Hf. destruct (rm_pages _ _ _ _ _ _ _ _ _ _ _ _ _ _ Hrun j f Hf) as (pte & Hpte). exists pte.
    by replace (base + (1 + Z.of_nat j) * PAGE_SIZE) with (base + 1 * PAGE_SIZE + (0 + Z.of_nat j) * PAGE_SIZE) by lia.
Qed.

(** Mapping a window onto physical memory. On an unmapped range, with enough
    free frames for page tables, [map_physical] never panics: page [j] of the range
    translates to the [j]th frame from the physical address on, with the flags that
    were asked for; every other address translates as before; and every frame that
    was taken is a page table, none is taken from the memory that is mapped. *)
Theorem map_physical_correct pm m G F H base n :
  let p4 := Frame.containing_address (cr3 m) in
  range_ready m G F H base n → 0 ≤ pm_physical_address pm → pm_physical_address pm + n * PAGE_SIZE ≤ 2 ^ 52 →
  pm_physical_address pm mod PAGE_SIZE = 0 →
  ∃ m' G' F' H', map_physical pm base (base + n * PAGE_SIZE) m = Ret (Ok (), m') ∧
    (∀ j, 0 ≤ j < n →
       ∃ pte, Raw.present (translate m' p4 (base + j * PAGE_SIZE)) = PteOk pte ∧
         Present.frame pte * PAGE_SIZE = pm_physical_address pm + j * PAGE_SIZE ∧
         Present.flags pte = PhysicalMappingFlags.into_present (pm_flags pm)) ∧
    (∀ va, plain m p4 va → (∀ j, 0 ≤ j < n → ¬ same_page (base + j * PAGE_SIZE) va) →
       translate m' p4 va = translate m p4 va) ∧
    tables_ok m' p4 G' F' H' ∧ F' ∪ H' = F ∪ H ∧ (∀ f, f ∈ H' → f ∈ H ∨ is_Some (G' !! f)) ∧
    page_lock m' = false ∧ tlb_events m' = FlushAll :: tlb_events m.
Proof.
  intros p4 R Hpa Hlim Hal. destruct (map_physical_ok m G F H base n R pm Hpa Hlim Hal)
    as (fs & m1 & G' & F' & H' & Heq & Hlen & Hfs & Hrun & [Hok Htot _ _ Hoth _ _ _ (_ & Hl & Ht) _ _ _ _]).
  eexists _, G', F', H'. split_and!; [exact Heq| |exact Hoth|exact Hok|exact Htot| |exact Hl|exact Ht].
  - intros j Hj. destruct (run_pages _ _ _ _ _ _ _ _ _ _ _ _ _ j Hrun) as (pte & f & Hf & Hp & Ef & Efl); [lia|].
    exists pte. split_and!; [exact Hp| |done].
    rewrite Ef, (Hfs _ _ Hf). unfold PAGE_SIZE in *. mlia.
  - intros f Hf. destruct (rm_taken _ _ _ _ _ _ _ _ _ _ _ _ _ _ Hrun f Hf) as [?|[?|[? _]]]; [by auto..|done].
Qed.

(** Regions come and go without a trace. Mapping a region of any kind on an
    unmapped range and unmapping it again succeeds, and afterwards every address
    translates as it did before the first call; no frame is lost, and every frame
    that is held and was not before is a page table. *)
Theorem region_map_unmap_roundtrip t m G F H base n :
  let p4 := Frame.containing_address (cr3 m) in
  range_ready m G F H base n → mappable t n →
  ∃ m1 m2 G' F' H', map_range t base (base + n * PAGE_SIZE) m = Ret (Ok (), m1) ∧
    unmap_range t base (base + n * PAGE_SIZE) m1 = Ret m2 ∧
    (∀ va, plain m p4 va → translate m2 p4 va = translate m p4 va) ∧
    tables_ok m2 p4 G' F' H' ∧ F' ∪ H' = F ∪ H ∧ H ⊆ H' ∧ (∀ f, f ∈ H' → f ∈ H ∨ is_Some (G' !! f)) ∧
    page_lock m2 = false.
Proof.
  intros p4 R Ht. destruct (map_range_ok t m G F H base n R Ht)
    as (m1 & G' & F' & H' & Heq & [Hok Htot Hheld Hpl Hoth Hrel Hfresh Htaken (Hcr & Hl & _) _ _ _ _] & _).
  pose proof R as [Rt _ _ _ Rb Ral Rn Rl _ Ru].
  destruct (unmap_nonpaged_ok m1 G' F' H' base n (frees t)) as (m2 & Heq2 & [Uok _ Upg Uoth _ _]);
    [by rewrite Hcr|done..|by rewrite Hcr|]. rewrite Hcr in Uok, Upg, Uoth. fold p4 in Uok, Upg, Uoth.
  set (freed := freed_run m1 p4 base (frees t) (seqZ 0 n)).
  exists m1, (unlock_page_table (MapperFlushAll.flush true m2)), G', (F' ∪ freed), (H' ∖ freed).
  split_and!; [exact Heq| | |split; apply Uok| | | |done].
  - rewrite unmap_range_free by (by intros ->). exact Heq2.
  - intros va Hva. destruct (page_in_range base n va) as [(j & Hj & Hs)|Hne].
    + rewrite <- !(same_page_translate _ _ _ _ Hs). transitivity (Raw.unused); [apply Upg; lia|].
      symmetry. apply Ru. lia.
    + etransitivity; [exact (Uoth va (Hpl va Hva) Hne)|exact (Hoth va Hva Hne)].
  - assert (freed ⊆ H') as Hsub.
    { intros f Hf. apply elem_of_freed_run in Hf as (j & Hj%elem_of_seqZ & Hf).
      by apply (rl_frames _ _ _ _ _ _ _ _ Hrel) in Hf as (? & _ & _); [|lia]. }
    rewrite <- Htot. apply set_eq. intros f. destruct (decide (f ∈ freed)); set_solver.
  - pose proof (tables_disjoint _ _ _ _ _ Rt) as Hd. intros f Hf. apply elem_of_difference. split; [auto|].
    intros Hf'%Hfresh. set_solver.
  - intros f [Hf Hnf]%elem_of_difference. destruct (Htaken f Hf) as [?|[?|?]]; [by auto..|done].
Qed.

(** ** Witnesses: the machine with an empty root table, and 15 free frames *)

Lemma small_mask_15 : small_mask 15 [253; 255].
Proof. split; [unfold bytes_ok; rewrite !Forall_cons, Forall_nil; lia|by vm_compute|done|by vm_compute]. Qed.

Definition free_15 : gset Z := free_set (byte_region 15 [253; 255]).

Lemma ready_15 n :
  0 < n ≤ 3 → range_ready (root_machine 15 [253; 255]) {[17 := []]} free_15 {[17]} KERNEL_HEAP_BASE n.
Proof.
  intros Hn. assert (size free_15 = 15%nat ∧ size (kernel_free free_15) = 15%nat) as [_ Hs] by (by vm_compute).
  split; [exact (root_machine_ok _ _ small_mask_15)|done|done| |by vm_compute|by vm_compute|lia| | |].
  - intros f Hf%(byte_region_range _ _ _ small_mask_15). lia.
  - unfold KERNEL_HEAP_BASE, PAGE_SIZE. lia.
  - rewrite Hs. lia.
  - intros j Hj. apply root_machine_empty.
Qed.

Lemma map_kernel_stack_correct_witness :
  ∃ m', map_kernel_stack KERNEL_HEAP_BASE (KERNEL_HEAP_BASE + 3 * PAGE_SIZE) (root_machine 15 [253; 255]) = Ret (Ok (), m') ∧
    Raw.is_present (translate m' 17 KERNEL_HEAP_BASE) = false ∧ tlb_events m' = [FlushAll].
Proof.
  destruct (map_kernel_stack_correct (root_machine 15 [253; 255]) {[17 := []]} free_15 {[17]} KERNEL_HEAP_BASE 3
    (ready_15 3 ltac:(lia)) ltac:(lia)) as (fs & g & m' & G' & F' & H' & Heq & _ & _ & Hp & _ & _ & _ & _ & _ & _ & _ & _ & Ht).
  exists m'. exact (conj Heq (conj Hp Ht)).
Defined.

Lemma map_physical_correct_witness :
  ∃ m', map_physical (mkPhysicalMapping 0xfee00000 PhysicalMappingFlags.UNCACHED) KERNEL_HEAP_BASE
          (KERNEL_HEAP_BASE + 2 * PAGE_SIZE) (root_machine 15 [253; 255]) = Ret (Ok (), m') ∧
    ∃ pte, Raw.present (translate m' 17 (KERNEL_HEAP_BASE + 1 * PAGE_SIZE)) = PteOk pte ∧
      Present.frame pte * PAGE_SIZE = 0xfee01000.
Proof.
  destruct (map_physical_correct (mkPhysicalMapping 0xfee00000 PhysicalMappingFlags.UNCACHED)
    (root_machine 15 [253; 255]) {[17 := []]} free_15 {[17]} KERNEL_HEAP_BASE 2 (ready_15 2 ltac:(lia)))
    as (m' & G' & F' & H' & Heq & Hpg & _); [by vm_compute..|].
  exists m'. split; [exact Heq|]. destruct (Hpg 1 ltac:(lia)) as (pte & Hp & Hf & _). exact (ex_intro _ pte (conj Hp Hf)).
Defined.

Lemma region_map_unmap_roundtrip_witness :
  ∃ m1 m2, map_range KernelStackRegion KERNEL_HEAP_BASE (KERNEL_HEAP_BASE + 3 * PAGE_SIZE)
             (root_machine 15 [253; 255]) = Ret (Ok (), m1) ∧
    unmap_range KernelStackRegion KERNEL_HEAP_BASE (KERNEL_HEAP_BASE + 3 * PAGE_SIZE) m1 = Ret m2 ∧
    translate m2 17 KERNEL_HEAP_BASE = Raw.unused.
Proof.
  destruct (region_map_unmap_roundtrip KernelStackRegion (root_machine 15 [253; 255]) {[17 := []]} free_15 {[17]}
    KERNEL_HEAP_BASE 3 (ready_15 3 ltac:(lia))) as (m1 & m2 & G' & F' & H' & E1 & E2 & Htr & _); [by vm_compute|].
  exists m1, m2. split_and!; [exact E1|exact E2|].
  etransitivity; [exact (Htr KERNEL_HEAP_BASE (proj1 (root_machine_empty _ _ _)))|]. apply root_machine_empty.
Defined.

Lemma unmap_nonpaged_correct_witness :
  ∃ m', unmap_nonpaged KERNEL_HEAP_BASE (KERNEL_HEAP_BASE + 2 * PAGE_SIZE) true (root_machine 15 [253; 255]) = Ret m' ∧
    translate m' 17 KERNEL_HEAP_BASE = Raw.unused ∧ page_lock m' = false.
Proof.
  destruct (unmap_nonpaged_correct (root_machine 15 [253; 255]) {[17 := []]} free_15 {[17]} KERNEL_HEAP_BASE 2 true)
    as (m' & Heq & Hpg & _ & _ & Hl & _); [exact (root_machine_ok _ _ small_mask_15)|done|by vm_compute|done|lia|by vm_compute| |].
  - change (Frame.containing_address (cr3 (root_machine 15 [253; 255]))) with 17. split.
    + intros j _. apply root_machine_empty.
    + intros j f _. rewrite (proj2 (root_machine_empty _ _ _)). by intros ?%not_present_freed.
    + intros j j' f _ _. rewrite (proj2 (root_machine_empty _ _ _)). by intros ?%not_present_freed.
  - exists m'. split_and!; [exact Heq| |exact Hl]. specialize (Hpg 0 ltac:(lia)). by rewrite Z.add_0_r in Hpg.
Defined.
