(* ===== verification/PagingState.v ===== *)
(** * Regions on the real machine (paging/heap_region.rs over paging/table.rs)

    The region manager was verified against the interface [RegionBackend]. Here
    the page tables and the frame database keep the promises of that interface,
    and the two together are one component: the free entries of the region table
    are exactly the addresses that may be mapped, and an allocation that finds
    room and memory maps them. *)
From S2P Require Import Prelude Align Physmem PageEntry PageTable Regions RegionMapping RegionRanges.

(** ** The machine keeps the promises of a backend *)

(** Frames are taken from the database, none is given back, and its masks keep
    their extents. *)
Definition takes_frames (m m' : Machine) : Prop :=
  (∀ F H, phys_owns (frames m) F H → ∃ F' H', phys_owns (frames m') F' H' ∧ F' ⊆ F ∧ H ⊆ H') ∧
  same_shape (frames m) (frames m').

(** And the page-table lock, if held, stays so. *)
Definition takes (m m' : Machine) : Prop :=
  takes_frames m m' ∧ (page_lock m = true → page_lock m' = true).

#[global] Instance takes_frames_preorder : PreOrder takes_frames.
Proof.
  split.
  - intros m. split; [|done]. intros F H Hown. by exists F, H.
  - intros m1 m2 m3 [A SA] [B SB]. split; [|by transitivity (frames m2)].
    intros F H Hown. destruct (A F H Hown) as (F1 & H1 & Hown1 & HF1 & HH1).
    destruct (B F1 H1 Hown1) as (F2 & H2 & Hown2 & HF2 & HH2). exists F2, H2.
    split_and!; [done|by transitivity F1|by transitivity H1].
Qed.

#[global] Instance takes_preorder : PreOrder takes.
Proof.
  split.
  - intros m. by split.
  - intros m1 m2 m3 [A1 A2] [B1 B2]. split; [by transitivity m2|by auto].
Qed.

Lemma takes_same m m' : frames m' = frames m → page_lock m' = page_lock m → takes m m'.
Proof. intros Ef El. split; [split; [intros F H; rewrite <- Ef; by eauto|by rewrite Ef]|by rewrite El]. Qed.

(** Every state an operation returns, seen through [proj]. *)
Definition only_takes {A} (proj : A → Machine) (m : Machine) (o : outcome A) : Prop :=
  ∀ a, o = Ret a → takes m (proj a).

Lemma only_takes_ret {A} (proj : A → Machine) m a : takes m (proj a) → only_takes proj m (Ret a).
Proof. by intros ? ? [= <-]. Qed.

Lemma only_takes_bind {A B} (q : A → Machine) (proj : B → Machine) m (o : outcome A) (k : A → outcome B) :
  only_takes q m o → (∀ a, only_takes proj (q a) (k a)) → only_takes proj m (o ≫= k).
Proof.
  intros Ho Hk b (a & Ea & Eb)%bind_Ret_inv. etransitivity; [by apply Ho|by apply Hk].
Qed.

Lemma only_takes_pure {A B} (proj : B → Machine) m (o : outcome A) (k : A → outcome B) :
  (∀ a, only_takes proj m (k a)) → only_takes proj m (o ≫= k).
Proof. intros Hk b (a & _ & Eb)%bind_Ret_inv. by apply (Hk a). Qed.

Lemma only_takes_try {A B} (r : result A * Machine) (k : A → Machine → outcome (result B * Machine)) :
  (∀ a, only_takes snd r.2 (k a r.2)) → only_takes snd r.2 (try_ r k).
Proof. intros Hk. unfold try_. destruct r as [[a|e] m]; [apply Hk|]. by apply only_takes_ret. Qed.

Lemma takes_kernel m : only_takes snd m (allocate_kernel_frame m).
Proof.
  intros [o m'] E. apply bind_Ret_inv in E as ([o' p] & Er & [= -> <-]). split; [|done]. split; [|by intros z; eapply kernel_frame_shape].
  intros F H Hown. destruct (implements_kernel _ F H Hown) as (o' & p' & Hr & Hp%zone_pick_free & Hown').
  rewrite Er in Hr. injection Hr as <- <-. eexists _, _. split; [exact Hown'|]. set_solver.
Qed.

Lemma takes_user m : only_takes snd m (allocate_user_frame m).
Proof.
  intros [o m'] E. apply bind_Ret_inv in E as ([o' p] & Er & [= -> <-]). split; [|done]. split; [|by intros z; eapply user_frame_shape].
  intros F H Hown. destruct (implements_user _ F H Hown) as (o' & p' & Hr & Hp%zone_pick_free & Hown').
  rewrite Er in Hr. injection Hr as <- <-. eexists _, _. split; [exact Hown'|]. set_solver.
Qed.

Lemma takes_create_next m f i : only_takes snd m (create_next_table m f i).
Proof.
  unfold create_next_table. apply (only_takes_bind id).
  - destruct (next_table_frame m f i); [by apply only_takes_ret|].
    apply only_takes_pure. intros _. apply (only_takes_bind snd); [apply takes_kernel|]. intros r.
    do 2 (apply only_takes_pure; intros ?). by apply only_takes_ret, takes_same.
  - intros m'. do 2 (apply only_takes_pure; intros ?). by apply only_takes_ret, takes_same.
Qed.

Lemma takes_create_pte m p4 va : only_takes snd m (create_pte_mut_for_address m p4 va).
Proof.
  unfold create_pte_mut_for_address.
  do 3 (apply (only_takes_bind snd); [apply takes_create_next|]; intros ?; apply only_takes_try; intros ?).
  by apply only_takes_ret, takes_same.
Qed.

Lemma takes_map_to m p4 page f flags : only_takes snd m (map_to m p4 page f flags).
Proof.
  unfold map_to. apply (only_takes_bind snd); [apply takes_create_pte|]. intros r. apply only_takes_try. intros a.
  do 3 (apply only_takes_pure; intros ?). by apply only_takes_ret, takes_same.
Qed.

Lemma takes_set_not_present m p4 page pte : only_takes snd m (set_not_present m p4 page pte).
Proof.
  unfold set_not_present, do_set_pte. apply (only_takes_bind snd); [apply takes_create_pte|]. intros r.
  apply only_takes_try. intros a. apply only_takes_pure. intros _. by apply only_takes_ret, takes_same.
Qed.

(** The machine a mapping loop ends with. *)
Abbreviation mapping := (λ r : result () * map_state, r.2.2).

Lemma takes_try_for (body : Z → map_state → outcome (result () * map_state)) l :
  (∀ a st, only_takes mapping st.2 (body a st)) → ∀ st, only_takes mapping st.2 (try_for body l st).
Proof.
  intros Hb. induction l as [|a l IH]; intros st; [by apply only_takes_ret|]. cbn [try_for].
  apply (only_takes_bind mapping); [apply Hb|]. intros [[?|e] st']; [apply IH|by apply only_takes_ret, takes_same].
Qed.

Lemma takes_nonpaged_page p4 base page st : only_takes mapping st.2 (map_nonpaged_page p4 base page st).
Proof.
  unfold map_nonpaged_page. do 2 (apply only_takes_pure; intros ?).
  apply (only_takes_bind snd); [apply takes_user|]. intros [[f|] m']; [|by apply only_takes_ret, takes_same].
  apply (only_takes_bind snd); [apply takes_map_to|]. intros [[fl|e] m'']; by apply only_takes_ret, takes_same.
Qed.

Lemma takes_physical_page pm p4 base page st : only_takes mapping st.2 (map_physical_page pm p4 base page st).
Proof.
  unfold map_physical_page. do 3 (apply only_takes_pure; intros ?).
  apply (only_takes_bind snd); [apply takes_map_to|]. intros [[fl|e] m'']; by apply only_takes_ret, takes_same.
Qed.

Lemma locked m r : lock_page_table m = Ret r → takes_frames m r.2 ∧ page_lock r.2 = true.
Proof. unfold lock_page_table. destruct (page_lock m); [done|]. intros (p4 & _ & [= <-])%bind_Ret_inv. split; [|done].
  split; [|done]. intros F H Hown. by exists F, H.
Qed.

(** The call that should undo a mapping that failed never returns. *)
Lemma unmap_nonpaged_locked b l free m m' : page_lock m = true → unmap_nonpaged b l free m ≠ Ret m'.
Proof.
  intros Hl (? & _ & E)%bind_Ret_inv. apply bind_Ret_inv in E as (? & E & _).
  unfold lock_page_table in E. by rewrite Hl in E.
Qed.

Lemma takes_nonpaged_impl p4 b l ub ul st :
  page_lock st.2 = true → only_takes mapping st.2 (map_nonpaged_impl p4 b l ub ul st).
Proof.
  intros Hl. unfold map_nonpaged_impl. apply only_takes_pure. intros pages a (r & Er & Ea)%bind_Ret_inv.
  pose proof (takes_try_for _ pages (takes_nonpaged_page p4 b) st r Er) as Ht.
  destruct r as [[u|e] st']; [by injection Ea as <-|].
  apply bind_Ret_inv in Ea as (m' & E & _). by apply unmap_nonpaged_locked in E; [|apply Ht].
Qed.

Lemma takes_end m b : takes_frames m (unlock_page_table (MapperFlushAll.flush b m)).
Proof. by destruct b; (split; [intros F H Hown; exists F, H|]). Qed.

Lemma map_nonpaged_takes b l m r m' : map_nonpaged b l m = Ret (r, m') → takes_frames m m'.
Proof.
  unfold map_nonpaged. intros (? & _ & E)%bind_Ret_inv. apply bind_Ret_inv in E as (lk & [T1 L1]%locked & E).
  apply bind_Ret_inv in E as (st & [T2 _]%(takes_nonpaged_impl _ _ _ _ _ (MapperFlushAll.new, lk.2) L1) & [= _ <-]).
  transitivity lk.2; [done|]. etransitivity; [exact T2|apply takes_end].
Qed.

Lemma map_kernel_stack_takes b l m r m' : map_kernel_stack b l m = Ret (r, m') → takes_frames m m'.
Proof.
  unfold map_kernel_stack. intros E. do 6 apply bind_Ret_inv in E as (? & _ & E).
  apply bind_Ret_inv in E as (lk & [T1 L1]%locked & E). apply bind_Ret_inv in E as (pte & _ & E).
  apply bind_Ret_inv in E as ([fl m1] & [T2 L2]%takes_set_not_present & E). cbn [fst snd] in *.
  apply bind_Ret_inv in E as (st & Est & [= _ <-]). transitivity lk.2; [done|]. transitivity m1; [done|].
  etransitivity; [|apply takes_end]. destruct fl as [fl|e]; [|by injection Est as <-].
  by apply (takes_nonpaged_impl _ _ _ _ _ (true, m1) (L2 L1)) in Est as [T3 _].
Qed.

Lemma map_physical_takes pm b l m r m' : map_physical pm b l m = Ret (r, m') → takes_frames m m'.
Proof.
  unfold map_physical. intros (? & _ & E)%bind_Ret_inv. apply bind_Ret_inv in E as (lk & [T1 L1]%locked & E).
  apply bind_Ret_inv in E as (pages & _ & E).
  apply bind_Ret_inv in E as (st & [T2 _]%(takes_try_for _ _ (takes_physical_page _ _ _)) & [= _ <-]).
  transitivity lk.2; [done|]. etransitivity; [exact T2|apply takes_end].
Qed.

Lemma map_range_takes t b l m r m' : map_range t b l m = Ret (r, m') → takes_frames m m'.
Proof. destruct t; [done|apply map_nonpaged_takes|apply map_kernel_stack_takes|apply map_physical_takes]. Qed.

(** The frames [T] of the region table are held, and could be given back. *)
Definition frames_held (m : Machine) (T : list Frame) : Prop :=
  ∃ F H, phys_owns (frames m) F H ∧ (1048575 ∉ F) ∧ NoDup T ∧ ∀ f, f ∈ T → f ∈ H ∧ f ≠ 1048575.

#[global, refine] Instance Machine_backend_laws : RegionBackendLaws Machine := { backend_ok := frames_held }.
Proof.
  - intros m T T' HT (F & H & Hown & Hl & Hnd & HH). exists F, H. split_and!; [done|done|by rewrite <- HT|].
    intros f Hf. apply HH. by rewrite HT.
  - intros m T (F & H & Hown & Hl & Hnd & HH). cbn. unfold allocate_kernel_frame.
    destruct (implements_kernel _ F H Hown) as (o & p & Hr & Hp & Hown'). rewrite Hr.
    pose proof (zone_pick_free _ _ _ Hp) as HpF. pose proof (phys_disjoint _ _ _ Hown) as Hd.
    eexists o, _. split; [done|]. split.
    + exists (F ∖ frame_set o), (H ∪ frame_set o). split_and!; [done|set_solver| |].
      * destruct o as [f|]; [|done]. apply NoDup_cons. split; [|done]. intros (? & _)%HH.
        cbn in HpF. set_solver.
      * intros f [Hf|[? ?]%HH]%elem_of_app; [|set_solver]. destruct o as [g|]; [|by apply elem_of_nil in Hf].
        apply list_elem_of_singleton in Hf as ->. cbn in *. split; [set_solver|]. intros ->. set_solver.
    + intros f ->. cbn in HpF. assert (f ∈ kernel_free F) as [_ Hr']%kernel_free_range.
      { apply zone_pick_elem in Hp as (z & Hz & ?). unfold kernel_free. set_solver. }
      unfold table_frame. assert (f ≠ 1048575) by (intros ->; set_solver). lia.
  - intros m f T (F & H & Hown & Hl & Hnd & HH). apply NoDup_cons in Hnd as [HfT Hnd].
    destruct (HH f) as [HfH Hfl]; [by left|]. destruct (deallocate_frame_owns _ _ _ _ Hown HfH) as (p' & Heq & Hown').
    cbn. unfold deallocate_frame. rewrite Heq. eexists. split; [done|].
    exists (F ∪ {[f]}), (H ∖ {[f]}). split_and!; [done|set_solver|done|]. intros g Hg.
    destruct (HH g) as [? ?]; [by right|]. split; [|done]. apply elem_of_difference. split; [done|]. set_solver.
  - intros t b l m T r m' (F & H & Hown & Hl & Hnd & HH) E. destruct (proj1 (map_range_takes _ _ _ _ _ _ E) F H Hown)
      as (F' & H' & Hown' & HF & HHs). exists F', H'. split_and!; [done|set_solver|done|].
    intros f Hf. destruct (HH f Hf). split; [set_solver|done].
Defined.

(** ** Frames given back *)

Lemma given_back_ok p4 G T : ∀ m m' F H,
  tables_ok m p4 G F H → NoDup T → (∀ f, f ∈ T → f ∈ H ∧ G !! f = None ∧ f ≠ 1048575) → given_back T m m' →
  tables_ok m' p4 G (F ∪ list_to_set T) (H ∖ list_to_set T) ∧ ram m' = ram m ∧
  cr3 m' = cr3 m ∧ page_lock m' = page_lock m.
Proof.
  induction T as [|f T IH]; intros m m' F H Hok Hnd HT Hg.
  { injection Hg as <-. cbn. by rewrite union_empty_r_L, difference_empty_L. }
  apply NoDup_cons in Hnd as [HfT Hnd]. destruct (HT f) as (HfH & HfG & Hfl); [by left|].
  destruct (deallocate_frame_owns _ _ _ _ (tab_phys _ _ _ _ _ Hok) HfH) as (p' & Heq & Hown).
  unfold given_back in Hg. cbn [for_each] in Hg. change (be_deallocate_frame m f) with (deallocate_frame m f) in Hg.
  unfold deallocate_frame in Hg. rewrite Heq in Hg. cbn [mbind outcome_bind] in Hg.
  destruct (IH (set_frames m p') m' (F ∪ {[f]}) (H ∖ {[f]})) as (Hok' & Hram & Hcr & Hl); [|done| |exact Hg|].
  - split; try apply Hok; [|done|].
    + intros g pre Hpre. apply elem_of_difference. split; [by eapply tab_held|]. rewrite elem_of_singleton. congruence.
    + pose proof (tab_last _ _ _ _ _ Hok). set_solver.
  - intros g Hg'. destruct (HT g) as (? & ? & ?); [by right|]. split_and!; [|done|done].
    apply elem_of_difference. split; [done|]. set_solver.
  - split_and!; [|done|done|done].
    by rewrite list_to_set_cons, (assoc_L (∪)), <- difference_difference_l_L.
Qed.

Lemma given_back_shape T : ∀ m m', given_back T m m' → same_shape (frames m) (frames m').
Proof.
  induction T as [|f T IH]; intros m m' Hg; [by injection Hg as <-|].
  apply bind_Ret_inv in Hg as (m1 & (p & Ep & [= <-])%bind_Ret_inv & Hg).
  transitivity p; [|by apply (IH (set_frames m p))]. intros z. by eapply deallocate_frame_shape.
Qed.

Lemma before_map_shape e req m spare m1 :
  RegionManager.before_map e req m spare m1 → same_shape (frames m) (frames m1).
Proof.
  intros [(_ & _ & ->)|(f & _ & _ & E)]; [done|]. by apply (takes_kernel m (Some f, m1)) in E as [[_ ?] _].
Qed.

(** A machine with the same memory and root translates alike. *)
Lemma same_ram m m' p4 va :
  ram m' = ram m → translate m' p4 va = translate m p4 va ∧ (plain m p4 va → plain m' p4 va).
Proof.
  intros E. unfold translate, walk, plain, next_table_frame, huge_entry, read_pte. by rewrite E.
Qed.

(** ** Addresses of the window *)

Section window.
Context (B L : Z) (HB : 0 ≤ B) (HBL : L - B ≤ 2 ^ 47).

Lemma window_same_page va va' :
  B ≤ va < L → B ≤ va' < L → same_page va va' → va / PAGE_SIZE = va' / PAGE_SIZE.
Proof.
  intros Hv Hv'. rewrite same_page_iff by lia. unfold PAGE_SIZE. change (2 ^ 36) with 68719476736.
  change (2 ^ 47) with 140737488355328 in HBL. mlia.
Qed.

(** An address outside a range of whole pages shares no page with it. *)
Lemma outside_range b n va :
  B ≤ b → b + n * PAGE_SIZE ≤ L → b mod PAGE_SIZE = 0 → B ≤ va < L → va < b ∨ b + n * PAGE_SIZE ≤ va →
  ∀ j, 0 ≤ j < n → ¬ same_page (b + j * PAGE_SIZE) va.
Proof.
  intros Hb Hl Hal Hva Hout j Hj Hs. apply window_same_page in Hs; [|unfold PAGE_SIZE in *; lia..].
  unfold PAGE_SIZE in *. rewrite Z.div_add in Hs by lia. mlia.
Qed.

End window.

(** ** The paging subsystem *)

Definition entry_pages (e : RegionMapEntry) : Z := (limit e - base e) / PAGE_SIZE.
Definition frees_of (e : RegionMapEntry) : bool := match region_type_of e with Some t => frees t | None => true end.

(** The frames an entry of the region table owns. *)
Definition entry_frames (m : Machine) (p4 : Z) (e : RegionMapEntry) : gset Z :=
  freed_run m p4 (base e) (frees_of e) (seqZ 0 (entry_pages e)).

Section paging.
Context (N : nat) (page_size B L : Z).

(** The region table and the page tables agree: free entries are addresses that
    translate to nothing, what is mapped behind the others can be given back, and
    no frame is used twice, by the entries, the page tables and the pages of the
    region table itself. *)
Record paging_ok (p : Paging) (c : chain) (l : list RegionMapEntry) (G : gmap Z (list Z)) (F H : gset Z) : Prop := {
  pk_manager : manager p = Some c;
  pk_table : RegionManager.table_ok N B L c l;
  pk_aligned : Forall (λ e, base e mod PAGE_SIZE = 0 ∧ limit e mod PAGE_SIZE = 0) l;
  pk_tables : tables_ok (machine p) (Frame.containing_address (cr3 (machine p))) G F H;
  pk_lock : page_lock (machine p) = false;
  pk_reach : ∀ f, f ∈ F ∪ H → f < 2 ^ 40;
  pk_chain : NoDup (RegionManager.chain_frames c) ∧
    ∀ f, f ∈ RegionManager.chain_frames c → f ∈ H ∧ G !! f = None ∧ f ≠ 1048575;
  pk_free : ∀ e va, e ∈ l → region_type_of e = Some Free → base e ≤ va < limit e →
    plain (machine p) (Frame.containing_address (cr3 (machine p))) va ∧
    translate (machine p) (Frame.containing_address (cr3 (machine p))) va = Raw.unused;
  pk_entries : ∀ e, e ∈ l →
    releasable (Frame.containing_address (cr3 (machine p))) (base e) (frees_of e) 0 (entry_pages e) (machine p) G H;
  pk_own : ∀ e e' f, e ∈ l → e' ∈ l →
    f ∈ entry_frames (machine p) (Frame.containing_address (cr3 (machine p))) e →
    f ∈ entry_frames (machine p) (Frame.containing_address (cr3 (machine p))) e' → e = e';
  pk_sep : ∀ e f, e ∈ l → f ∈ entry_frames (machine p) (Frame.containing_address (cr3 (machine p))) e →
    f ∉ RegionManager.chain_frames c;
}.

Lemma paging_ok_entries p c l G F H c' l' G' F' H' :
  paging_ok p c l G F H → paging_ok p c' l' G' F' H' → l' = l.
Proof.
  intros H1 H2. pose proof (pk_manager _ _ _ _ _ _ H1) as E1. rewrite (pk_manager _ _ _ _ _ _ H2) in E1. injection E1 as ->.
  eapply RegionManager.repr_unique; eapply RegionManager.tbl_repr, pk_table; done.
Qed.

(** Two entries of a table are the same or apart. *)
Lemma tiled_apart b l e x y :
  tiled b l e → x ∈ l → y ∈ l → x = y ∨ limit x ≤ base y ∨ limit y ≤ base x.
Proof.
  revert b. induction l as [|z l IH]; intros b Ht Hx Hy; [by apply elem_of_nil in Hx|].
  destruct Ht as (_ & _ & Ht). pose proof (tiled_inside _ _ _ Ht) as Hin. rewrite Forall_forall in Hin.
  apply elem_of_cons in Hx as [->|Hx]; apply elem_of_cons in Hy as [->|Hy].
  - by left.
  - destruct (Hin y Hy) as (? & _). right; left. lia.
  - destruct (Hin x Hx) as (? & _). right; right. lia.
  - by apply (IH (limit z)).
Qed.

Lemma entry_size e : base e mod PAGE_SIZE = 0 → limit e mod PAGE_SIZE = 0 →
  limit e = base e + entry_pages e * PAGE_SIZE.
Proof. unfold entry_pages, PAGE_SIZE. intros. mlia. Qed.

(** An entry none of whose pages changes keeps its frames. *)
Lemma releasable_same p4 b free n m m' (G G' : gmap Z (list Z)) (H H' : gset Z) :
  releasable p4 b free 0 n m G H →
  (∀ j, 0 ≤ j < n → translate m' p4 (b + j * PAGE_SIZE) = translate m p4 (b + j * PAGE_SIZE)) →
  (∀ va, plain m p4 va → plain m' p4 va) →
  (∀ f, f ∈ freed_run m p4 b free (seqZ 0 n) → f ∈ H → f ∈ H' ∧ G' !! f = G !! f) →
  releasable p4 b free 0 n m' G' H'.
Proof.
  intros [Rp Rf Rd] Ht Hp HG. split.
  - intros j Hj. apply Hp, Rp. lia.
  - intros j f Hj Hf. rewrite Ht in Hf by lia. destruct (Rf j f) as (HfH & HfG & Hl); [lia|done|].
    destruct (HG f) as [? ->]; [|done|done]. apply elem_of_freed_run. exists j. split; [apply elem_of_seqZ; lia|done].
  - intros j j' f Hj Hj'. rewrite !Ht by lia. apply Rd; lia.
Qed.

Lemma freed_run_same p4 b free n m m' :
  (∀ j, 0 ≤ j < n → translate m' p4 (b + j * PAGE_SIZE) = translate m p4 (b + j * PAGE_SIZE)) →
  freed_run m' p4 b free (seqZ 0 n) = freed_run m p4 b free (seqZ 0 n).
Proof.
  intros Ht. apply set_eq. intros f. rewrite !elem_of_freed_run. setoid_rewrite elem_of_seqZ.
  split; intros (j & Hj & Hf); exists j; (split; [lia|]); [rewrite Ht in Hf by lia|rewrite Ht by lia]; done.
Qed.

Lemma freed_run_unused p4 b free n m :
  (∀ j, 0 ≤ j < n → translate m p4 (b + j * PAGE_SIZE) = Raw.unused) → freed_run m p4 b free (seqZ 0 n) = ∅.
Proof.
  intros Ht. apply set_eq. intros f. rewrite elem_of_freed_run. split; [|set_solver].
  intros (j & Hj%elem_of_seqZ & Hf). rewrite Ht in Hf by lia. by apply not_present_freed in Hf.
Qed.

Lemma releasable_frames p4 b free n m G H f :
  releasable p4 b free 0 n m G H → f ∈ freed_run m p4 b free (seqZ 0 n) → f ∈ H ∧ G !! f = None ∧ f ≠ 1048575.
Proof.
  intros R (j & Hj%elem_of_seqZ & Hf)%elem_of_freed_run. apply (rl_frames _ _ _ _ _ _ _ _ R j); [lia|done].
Qed.


Lemma unused_releasable q b free k mm (GG : gmap Z (list Z)) (HH : gset Z) :
  (∀ j, 0 ≤ j < k → plain mm q (b + j * PAGE_SIZE) ∧ translate mm q (b + j * PAGE_SIZE) = Raw.unused) →
  releasable q b free 0 k mm GG HH.
Proof.
  intros Hu. split.
  - intros j Hj. apply Hu. lia.
  - intros j f Hj. rewrite (proj2 (Hu j ltac:(lia))). by intros ?%not_present_freed.
  - intros j j' f Hj _. rewrite (proj2 (Hu j ltac:(lia))). by intros ?%not_present_freed.
Qed.

Context (HN : (2 ≤ N)%nat) (Hps : 0 ≤ page_size ≤ PAGE_SIZE) (HBL : L - B ≤ 2 ^ 47).

(** *** One allocation *)

Section allocated.
Context (p : Paging) (c : chain) (l1 : list RegionMapEntry) (e : RegionMapEntry) (l2 : list RegionMapEntry).
Context (G : gmap Z (list Z)) (F H : gset Z) (n : Z) (t : RegionType).
Abbreviation m := (machine p).
Abbreviation p4 := (Frame.containing_address (cr3 (machine p))).
Abbreviation req := (n * PAGE_SIZE).
Context (Hpk : paging_ok p c (l1 ++ e :: l2) G F H) (Hcl : clean m F).
Context (Hn : 0 < n) (Hfit : RegionManager.fits req e = true) (Ht : mappable t n).
Context (Hmem : (4 * Z.to_nat n + 1 ≤ size (kernel_free F))%nat).

Lemma fit_facts :
  region_type_of e = Some Free ∧ base e + req ≤ limit e ∧ B ≤ base e ∧ limit e ≤ L ∧ 0 ≤ B ∧ L < usize_limit ∧
  base e mod PAGE_SIZE = 0 ∧ limit e mod PAGE_SIZE = 0.
Proof.
  destruct Hpk as [_ [_ Hti _ HB HL] Hal _ _ _ _ _ _ _ _].
  apply andb_true_iff in Hfit as [Hfree%bool_decide_eq_true Hsz%Z.leb_le].
  pose proof (tiled_inside _ _ _ Hti) as Hin. apply Forall_app in Hin as [_ [Hin _]%Forall_cons].
  apply Forall_app in Hal as [_ [Hal _]%Forall_cons]. split_and!; (done || lia).
Qed.

(** The entries around the one that is used. *)
Lemma old_entry x :
  x ∈ l1 ++ l2 → x ∈ l1 ++ e :: l2 ∧ (limit x ≤ base e ∨ limit e ≤ base x) ∧ B ≤ base x ∧ limit x ≤ L ∧
    base x mod PAGE_SIZE = 0 ∧ limit x mod PAGE_SIZE = 0.
Proof.
  intros Hx. destruct Hpk as [_ [_ Hti _ HB HL] Hal _ _ _ _ _ _ _ _].
  assert (x ∈ l1 ++ e :: l2) as Hx' by set_solver. split; [done|].
  pose proof (tiled_inside _ _ _ Hti) as Hin. rewrite Forall_forall in Hin, Hal.
  destruct (Hin x Hx') as (? & ? & ?). destruct (Hal x Hx'). split; [|by split_and!].
  apply tiled_app in Hti as (b & T1 & <- & _ & T2). apply elem_of_app in Hx as [Hx|Hx].
  - left. pose proof (tiled_inside _ _ _ T1) as I1. rewrite Forall_forall in I1. destruct (I1 x Hx) as (? & ? & ?). lia.
  - right. pose proof (tiled_inside _ _ _ T2) as I2. rewrite Forall_forall in I2. destruct (I2 x Hx) as (? & ? & ?). lia.
Qed.

Context (spare : list Frame) (m1 : Machine) (Hbefore : RegionManager.before_map e req m spare m1).

Lemma before_ok :
  tables_ok m1 p4 G (F ∖ list_to_set spare) (H ∪ list_to_set spare) ∧ (∀ f, f ∈ spare → f ∈ F) ∧ NoDup spare ∧
  ram m1 = ram m ∧ cr3 m1 = cr3 m ∧ page_lock m1 = page_lock m ∧
  (size (kernel_free F) ≤ 1 + size (kernel_free (F ∖ list_to_set spare)))%nat.
Proof.
  pose proof (pk_tables _ _ _ _ _ _ Hpk) as Hok.
  destruct Hbefore as [(_ & -> & ->)|(f & -> & _ & Ha)].
  - cbn. rewrite union_empty_r_L, difference_empty_L. split_and!; try done; [|apply NoDup_nil_2|lia].
    intros f Hf. by apply elem_of_nil in Hf.
  - change (be_allocate_kernel_frame m) with (allocate_kernel_frame m) in Ha. unfold allocate_kernel_frame in Ha.
    destruct (implements_kernel _ _ _ (tab_phys _ _ _ _ _ Hok)) as (o & p' & Hr & Hp & Hown).
    rewrite Hr in Ha. injection Ha as -> <-. apply zone_pick_free in Hp. cbn in Hp |- *.
    rewrite union_empty_r_L. split_and!; try done.
    + by apply tables_take.
    + intros g ->%list_elem_of_singleton. set_solver.
    + apply NoDup_singleton.
    + apply kernel_free_take.
Qed.

Lemma range_is_ready : range_ready m1 G (F ∖ list_to_set spare) (H ∪ list_to_set spare) (base e) n.
Proof.
  destruct before_ok as (Hok & Hsp & _ & Hram & Hcr & Hlk & Hsz).
  destruct fit_facts as (Hfree & Hlim & HBe & HeL & HB & HL & Hal & _).
  assert (n < 2 ^ 36) as Hn36.
  { change (2 ^ 36) with 68719476736. change (2 ^ 47) with 140737488355328 in HBL. unfold PAGE_SIZE in *. lia. }
  split; rewrite ?Hcr.
  - done.
  - intros f i Hf. rewrite Hram. apply Hcl. set_solver.
  - rewrite Hlk. apply Hpk.
  - intros f Hf. apply (pk_reach _ _ _ _ _ _ Hpk). set_solver.
  - lia.
  - done.
  - lia.
  - lia.
  - lia.
  - intros j Hj. destruct (same_ram m m1 p4 (base e + j * PAGE_SIZE) Hram) as [-> Hpl].
    destruct (pk_free _ _ _ _ _ _ Hpk e (base e + j * PAGE_SIZE)) as [Hp Hu];
      [set_solver|done|unfold PAGE_SIZE in *; lia|]. auto.
Qed.


(** The range mapped, and the spare frame given back or kept as a page [c'] of the
    region table. *)
Context (m2 : Machine) (G' : gmap Z (list Z)) (F2 H2 : gset Z).
Context (Hmap : range_mapped p4 (base e) n (frees t) m1 G (F ∖ list_to_set spare) (H ∪ list_to_set spare) m2 G' F2 H2).
Context (rest : list Frame) (m' : Machine) (c' : chain) (Hgive : given_back rest m2 m').
Context (Hrest : (rest = spare ∧ RegionManager.chain_frames c' = RegionManager.chain_frames c) ∨
                 (rest = [] ∧ RegionManager.chain_frames c' ≡ₚ spare ++ RegionManager.chain_frames c)).
Abbreviation new_entry := (mkEntry (base e) (base e + req) (Some t)).

Lemma old_frame f : f ∈ H → f ∈ H2 ∧ (f ∉ rest) ∧ G' !! f = G !! f.
Proof.
  intros Hf. destruct before_ok as (_ & Hsp & _). pose proof (tables_disjoint _ _ _ _ _ (pk_tables _ _ _ _ _ _ Hpk)) as Hd.
  split_and!.
  - apply (rg_held _ _ _ _ _ _ _ _ _ _ _ _ Hmap). set_solver.
  - intros Hr. assert (f ∈ F); [|set_solver]. destruct Hrest as [[-> _]|[-> _]]; [by apply Hsp|by apply elem_of_nil in Hr].
  - apply (rg_old _ _ _ _ _ _ _ _ _ _ _ _ Hmap). set_solver.
Qed.

Lemma spare_frame f : f ∈ spare → f ∈ F ∧ f ∈ H2 ∧ G' !! f = None ∧ f ≠ 1048575.
Proof.
  intros Hf. destruct before_ok as (_ & Hsp & _). pose proof (pk_tables _ _ _ _ _ _ Hpk) as Hok.
  pose proof (tables_disjoint _ _ _ _ _ Hok) as Hd. specialize (Hsp f Hf). split_and!; [done| | |].
  - apply (rg_held _ _ _ _ _ _ _ _ _ _ _ _ Hmap). set_solver.
  - rewrite (rg_old _ _ _ _ _ _ _ _ _ _ _ _ Hmap) by set_solver. destruct (G !! f) eqn:E; [|done].
    apply (tab_held _ _ _ _ _ Hok) in E. set_solver.
  - intros ->. by apply (tab_last _ _ _ _ _ Hok).
Qed.

Lemma after_total : (F2 ∪ list_to_set rest) ∪ (H2 ∖ list_to_set rest) = F ∪ H.
Proof.
  destruct before_ok as (_ & Hsp & _). destruct Hmap as [_ Mtot Mheld _ _ _ _ _ _ _ _ _ _ _].
  assert (∀ f, f ∈ rest → f ∈ spare) as Hrs by (intros f; destruct Hrest as [[-> _]|[-> _]]; [done|by intros ?%elem_of_nil]).
  assert (list_to_set rest ⊆ H2) as Hr2 by (intros f Hf%elem_of_list_to_set%Hrs; apply Mheld; set_solver).
  assert (list_to_set spare ⊆ F) as HsF by (intros f Hf%elem_of_list_to_set; by apply Hsp).
  transitivity (F2 ∪ H2); [|rewrite Mtot]; apply set_eq; intros f;
    [destruct (decide (f ∈ (list_to_set rest : gset Z)))|destruct (decide (f ∈ (list_to_set spare : gset Z)))]; set_solver.
Qed.

Lemma after_tables :
  tables_ok m' p4 G' (F2 ∪ list_to_set rest) (H2 ∖ list_to_set rest) ∧ ram m' = ram m2 ∧
  cr3 m' = cr3 m ∧ page_lock m' = false.
Proof.
  destruct before_ok as (_ & _ & Hnd & _ & Hcr & _). destruct Hmap as [Mok _ _ _ _ _ _ _ (Mcr & Mlk & _) _ _ _ _ _].
  destruct (given_back_ok p4 G' rest m2 m' F2 H2 Mok) as (Hok' & Hram & Hcr' & Hlk'); [| |done|].
  - by destruct Hrest as [[-> _]|[-> _]]; [|apply NoDup_nil_2].
  - intros f Hf. assert (f ∈ spare) as Hs by (destruct Hrest as [[-> _]|[-> _]]; [done|by apply elem_of_nil in Hf]).
    by apply spare_frame.
  - split_and!; [done|done|congruence|congruence].
Qed.

(** Outside the range nothing changes. *)
Lemma after_outside va :
  B ≤ va < L → va < base e ∨ base e + req ≤ va → plain m p4 va →
  translate m' p4 va = translate m p4 va ∧ plain m' p4 va.
Proof.
  intros Hva Hout Hpl. destruct before_ok as (_ & _ & _ & Hram & _). destruct after_tables as (_ & Hram' & _).
  destruct fit_facts as (_ & Hlim & HBe & HeL & HB & _ & Hal & _).
  destruct (same_ram m m1 p4 va Hram) as [E1 P1]. destruct (same_ram m2 m' p4 va Hram') as [E2 P2].
  split; [|by apply P2, (rg_plain _ _ _ _ _ _ _ _ _ _ _ _ Hmap), P1].
  rewrite E2, <- E1. apply (rg_others _ _ _ _ _ _ _ _ _ _ _ _ Hmap); [auto|].
  apply (outside_range B L HB HBL); (done || lia).
Qed.

Lemma after_clean : clean m' (F2 ∪ list_to_set rest).
Proof.
  destruct after_tables as (_ & Hram & _). destruct before_ok as (_ & Hsp & _ & Hram1 & _).
  intros f i [Hf|Hf]%elem_of_union; rewrite Hram; [by apply (rg_clean _ _ _ _ _ _ _ _ _ _ _ _ Hmap)|].
  assert (f ∈ spare) as Hs.
  { apply elem_of_list_to_set in Hf. destruct Hrest as [[-> _]|[-> _]]; [done|by apply elem_of_nil in Hf]. }
  destruct (spare_frame f Hs) as (HF & _ & HG & _).
  rewrite (rg_ram _ _ _ _ _ _ _ _ _ _ _ _ Hmap) by done. rewrite Hram1. by apply Hcl.
Qed.

(** The frames of the new region were free. *)
Lemma new_frames f : f ∈ freed_run m2 p4 (base e) (frees t) (seqZ 0 n) → f ∈ F ∧ (f ∉ spare) ∧ f ∉ H.
Proof.
  intros Hf%(rg_fresh _ _ _ _ _ _ _ _ _ _ _ _ Hmap). pose proof (tables_disjoint _ _ _ _ _ (pk_tables _ _ _ _ _ _ Hpk)).
  apply elem_of_difference in Hf as [HF Hs]. rewrite elem_of_list_to_set in Hs. set_solver.
Qed.

Lemma new_entry_frames : entry_frames m' p4 new_entry = freed_run m2 p4 (base e) (frees t) (seqZ 0 n).
Proof.
  destruct after_tables as (_ & Hram & _). unfold entry_frames, entry_pages, frees_of. cbn [base limit region_type_of].
  replace (base e + req - base e) with req by lia. rewrite Z.div_mul by done.
  apply freed_run_same. intros j _. by apply same_ram.
Qed.

Lemma new_entry_releasable :
  releasable p4 (base e) (frees_of new_entry) 0 (entry_pages new_entry) m' G' (H2 ∖ list_to_set rest).
Proof.
  destruct after_tables as (_ & Hram & _). unfold entry_pages, frees_of. cbn [base limit region_type_of].
  replace (base e + req - base e) with req by lia. rewrite Z.div_mul by done.
  apply (releasable_same _ _ _ _ m2 m' G' G' H2); [apply Hmap|intros; by apply same_ram|intros va; by apply same_ram|].
  intros f Hf HH. split; [|done]. apply elem_of_difference. split; [done|]. rewrite elem_of_list_to_set.
  destruct (new_frames f Hf) as (_ & Hs & _). destruct Hrest as [[-> _]|[-> _]]; [done|]. by intros ?%elem_of_nil.
Qed.

(** The pages of an entry, if none is in the range. *)
Lemma entry_unchanged x :
  B ≤ base x → limit x ≤ L → limit x ≤ base e ∨ base e + req ≤ base x →
  base x mod PAGE_SIZE = 0 → limit x mod PAGE_SIZE = 0 →
  releasable p4 (base x) (frees_of x) 0 (entry_pages x) m G H →
  releasable p4 (base x) (frees_of x) 0 (entry_pages x) m' G' (H2 ∖ list_to_set rest) ∧
  entry_frames m' p4 x = entry_frames m p4 x.
Proof.
  intros HBx HxL Hout Hbm Hlm R. pose proof (entry_size x Hbm Hlm) as Hsz.
  assert (∀ j, 0 ≤ j < entry_pages x →
    translate m' p4 (base x + j * PAGE_SIZE) = translate m p4 (base x + j * PAGE_SIZE) ∧
    plain m' p4 (base x + j * PAGE_SIZE)) as Htr.
  { intros j Hj. apply after_outside; [unfold PAGE_SIZE in *; lia..|]. apply (rl_plain _ _ _ _ _ _ _ _ R). lia. }
  split; [|apply freed_run_same; intros; by apply Htr].
  destruct R as [Rp Rf Rd]. split.
  - intros j Hj. apply Htr. lia.
  - intros j f Hj. rewrite (proj1 (Htr j Hj)). intros Hf. destruct (Rf j f Hj Hf) as (HfH & HfG & Hl).
    destruct (old_frame f HfH) as (? & ? & ->). split_and!; [|done|done].
    apply elem_of_difference. by rewrite elem_of_list_to_set.
  - intros j j' f Hj Hj'. rewrite (proj1 (Htr j Hj)), (proj1 (Htr j' Hj')). by apply Rd.
Qed.


(** The entries of the table that are not the new one: those there were, and what
    is left of the free one. *)
Definition kept_entry (x : RegionMapEntry) : Prop :=
  x ∈ l1 ++ l2 ∨ (x = mkEntry (base e + req) (limit e) (Some Free) ∧ base e + req < limit e).

Lemma alloc_flat_elem x : x ∈ RegionManager.alloc_flat l1 e l2 req t → kept_entry x ∨ x = new_entry.
Proof.
  destruct fit_facts as (_ & Hlim & _). unfold RegionManager.alloc_flat, kept_entry.
  destruct (Z.eqb_spec (limit e - base e) req) as [E|E]; [set_solver|].
  assert (base e + req < limit e) by lia. set_solver.
Qed.

Lemma kept_facts x :
  kept_entry x →
  (B ≤ base x ∧ limit x ≤ L ∧ (limit x ≤ base e ∨ base e + req ≤ base x) ∧
   base x mod PAGE_SIZE = 0 ∧ limit x mod PAGE_SIZE = 0) ∧
  releasable p4 (base x) (frees_of x) 0 (entry_pages x) m G H ∧
  (x ∈ l1 ++ e :: l2 ∨ entry_frames m p4 x = ∅) ∧
  (region_type_of x = Some Free → ∀ va, base x ≤ va < limit x → plain m p4 va ∧ translate m p4 va = Raw.unused).
Proof.
  destruct fit_facts as (Hfree & Hlim & HBe & HeL & HB & HL & Hal & Hal').
  intros [Hx|[-> Hlt]].
  - destruct (old_entry x Hx) as (Hin & Hout & ? & ? & ? & ?). split_and!; try done; try lia.
    + by apply (pk_entries _ _ _ _ _ _ Hpk).
    + by left.
    + intros Hf va Hva. by apply (pk_free _ _ _ _ _ _ Hpk x).
  - set (x := mkEntry (base e + req) (limit e) (Some Free)). cbn [base limit].
    assert (∀ va, base e ≤ va < limit e → plain m p4 va ∧ translate m p4 va = Raw.unused) as Hu.
    { intros va Hva. apply (pk_free _ _ _ _ _ _ Hpk e); [set_solver|done|done]. }
    assert ((base e + req) mod PAGE_SIZE = 0) as Hbm by (unfold PAGE_SIZE in *; mlia).
    pose proof (entry_size x Hbm Hal') as Hsz. cbn [base limit x] in Hsz.
    assert (∀ j, 0 ≤ j < entry_pages x → plain m p4 (base x + j * PAGE_SIZE) ∧ translate m p4 (base x + j * PAGE_SIZE) = Raw.unused) as Hux.
    { intros j Hj. apply Hu. cbn [base x]. fold x in Hsz. unfold PAGE_SIZE in *. lia. }
    split_and!; [cbn; unfold PAGE_SIZE in *; lia|cbn; lia|cbn; lia|done|done|by apply unused_releasable| |].
    + right. apply freed_run_unused. intros j Hj. by apply Hux.
    + intros _ va Hva. apply Hu. cbn in Hva. unfold PAGE_SIZE in *. lia.
Qed.

Lemma kept_entry_ok x :
  kept_entry x →
  releasable p4 (base x) (frees_of x) 0 (entry_pages x) m' G' (H2 ∖ list_to_set rest) ∧
  entry_frames m' p4 x = entry_frames m p4 x.
Proof.
  intros Hx. destruct (kept_facts x Hx) as ((? & ? & ? & ? & ?) & HR & _ & _). by apply entry_unchanged.
Qed.

Lemma kept_frames x f : kept_entry x → f ∈ entry_frames m p4 x → f ∈ H ∧ x ∈ l1 ++ e :: l2.
Proof.
  intros Hx Hf. destruct (kept_facts x Hx) as (_ & HR & [Hin|E] & _).
  - split; [|done]. by apply (releasable_frames _ _ _ _ _ _ _ _ HR Hf).
  - rewrite E in Hf. set_solver.
Qed.

(** The frames of the region table. *)
Lemma chain_frame f :
  f ∈ RegionManager.chain_frames c' → f ∈ RegionManager.chain_frames c ∨ (rest = [] ∧ f ∈ spare).
Proof. destruct Hrest as [[_ ->]|[-> ->]]; [by left|]. rewrite elem_of_app. naive_solver. Qed.

Lemma chain_ok :
  NoDup (RegionManager.chain_frames c') ∧
  ∀ f, f ∈ RegionManager.chain_frames c' → f ∈ H2 ∖ list_to_set rest ∧ G' !! f = None ∧ f ≠ 1048575.
Proof.
  destruct (pk_chain _ _ _ _ _ _ Hpk) as [Hnd Hc]. destruct before_ok as (_ & Hsp & Hnds & _).
  pose proof (tables_disjoint _ _ _ _ _ (pk_tables _ _ _ _ _ _ Hpk)) as Hd. split.
  - destruct Hrest as [[_ ->]|[_ ->]]; [done|]. apply NoDup_app. split_and!; [done| |done].
    intros f Hf%Hsp (? & _)%Hc. set_solver.
  - intros f [Hf|[Hr Hf]]%chain_frame.
    + destruct (Hc f Hf) as (HfH & HfG & Hl). destruct (old_frame f HfH) as (? & ? & ->). split_and!; [|done|done].
      apply elem_of_difference. by rewrite elem_of_list_to_set.
    + destruct (spare_frame f Hf) as (_ & ? & ? & ?). rewrite Hr. split_and!; [|done|done]. set_solver.
Qed.

Lemma allocated_ok :
  RegionManager.table_ok N B L c' (RegionManager.alloc_flat l1 e l2 req t) →
  paging_ok (mkPaging (Some c') m') c' (RegionManager.alloc_flat l1 e l2 req t) G'
    (F2 ∪ list_to_set rest) (H2 ∖ list_to_set rest).
Proof.
  intros Htab. destruct after_tables as (Hok' & Hram & Hcr & Hlk). destruct before_ok as (_ & Hsp & _).
  destruct fit_facts as (_ & _ & _ & _ & _ & _ & Hal & _).
  assert (∀ f, f ∈ entry_frames m' p4 new_entry → f ∈ F ∧ (f ∉ spare) ∧ f ∉ H) as Hnew.
  { intros f. rewrite new_entry_frames. apply new_frames. }
  split; cbn [manager machine]; rewrite ?Hcr; try done.
  - apply Forall_forall. intros x [Hx| ->]%alloc_flat_elem.
    + by destruct (kept_facts x Hx) as ((_ & _ & _ & ?) & _).
    + cbn. unfold PAGE_SIZE in *. mlia.
  - intros f Hf. apply (pk_reach _ _ _ _ _ _ Hpk). by rewrite <- after_total.
  - apply chain_ok.
  - intros x va [Hx| ->]%alloc_flat_elem Hf Hva; [|cbn in Hf; by destruct t].
    destruct (kept_facts x Hx) as ((? & ? & ? & _) & _ & _ & Hu). destruct (Hu Hf va Hva) as [Hp Htr].
    destruct (after_outside va) as [-> ?]; [lia|lia|done|]. done.
  - intros x [Hx| ->]%alloc_flat_elem; [by apply kept_entry_ok|apply new_entry_releasable].
  - intros x y f [Hx| ->]%alloc_flat_elem [Hy| ->]%alloc_flat_elem; [| | |done].
    + rewrite (proj2 (kept_entry_ok x Hx)), (proj2 (kept_entry_ok y Hy)). intros Hfx Hfy.
      apply (pk_own _ _ _ _ _ _ Hpk x y f); [by eapply kept_frames|by eapply kept_frames|done|done].
    + rewrite (proj2 (kept_entry_ok x Hx)). intros [? _]%(kept_frames x f Hx) (_ & _ & ?)%Hnew. done.
    + rewrite (proj2 (kept_entry_ok y Hy)). intros (_ & _ & ?)%Hnew [? _]%(kept_frames y f Hy). done.
  - intros x f [Hx| ->]%alloc_flat_elem Hf Hc'; apply chain_frame in Hc'.
    + rewrite (proj2 (kept_entry_ok x Hx)) in Hf. destruct (kept_frames x f Hx Hf) as [HfH Hin].
      destruct Hc' as [Hc'|[_ Hs]]; [by apply (pk_sep _ _ _ _ _ _ Hpk x f)|].
      pose proof (tables_disjoint _ _ _ _ _ (pk_tables _ _ _ _ _ _ Hpk)). specialize (Hsp f Hs). set_solver.
    + destruct (Hnew f Hf) as (_ & Hns & HnH). destruct Hc' as [Hc'|[_ Hs]]; [|done].
      by destruct (proj2 (pk_chain _ _ _ _ _ _ Hpk) f Hc') as (? & _).
Qed.

End allocated.

(** Mapping fails only for want of memory or address space. *)
Lemma backend_of_paging p c l G F H : paging_ok p c l G F H → backend_ok (machine p) (RegionManager.chain_frames c).
Proof.
  intros Hpk. exists F, H. destruct (pk_chain _ _ _ _ _ _ Hpk) as [Hnd Hc].
  pose proof (pk_tables _ _ _ _ _ _ Hpk) as Hok. split_and!; [apply Hok|apply Hok|done|].
  intros f Hf. by destruct (Hc f Hf) as (? & _ & ?).
Qed.

Lemma kernel_free_mono F F' : F ⊆ F' → (size (kernel_free F) ≤ size (kernel_free F'))%nat.
Proof. intros Hs. apply subseteq_size. unfold kernel_free. set_solver. Qed.

(** What [allocate_typed] has done when it returns a region: the first free entry
    that is big enough, the [e] between [l1] and [l2], holds it. *)
Record typed_region (p : Paging) (l1 : list RegionMapEntry) (e : RegionMapEntry) (l2 : list RegionMapEntry)
    (G : gmap Z (list Z)) (F H : gset Z) (n : Z) (t : RegionType)
    (region : Region.Region) (p' : Paging) (c' : chain) (G' : gmap Z (list Z)) (F' H' : gset Z) : Prop := {
  tr_start : Region.start region = Ret (base e);
  tr_limit : Region.limit region = Ret (base e + n * PAGE_SIZE);
  tr_info : Region.info region = mkRegionInfo (base e) (base e + n * PAGE_SIZE);
  tr_ok : paging_ok p' c' (RegionManager.alloc_flat l1 e l2 (n * PAGE_SIZE) t) G' F' H';
  tr_clean : clean (machine p') F';
  tr_total : F' ∪ H' = F ∪ H;
  tr_memory : (size (kernel_free F) ≤ 4 * Z.to_nat n + 1 + size (kernel_free F'))%nat;
  tr_root : cr3 (machine p') = cr3 (machine p);
  tr_plain : ∀ va, plain (machine p) (Frame.containing_address (cr3 (machine p))) va →
    plain (machine p') (Frame.containing_address (cr3 (machine p))) va;
  tr_contents : region_contents t (machine p') (Frame.containing_address (cr3 (machine p))) (base e) n;
  tr_others : ∀ va, plain (machine p) (Frame.containing_address (cr3 (machine p))) va →
    (∀ j, 0 ≤ j < n → ¬ same_page (base e + j * PAGE_SIZE) va) →
    translate (machine p') (Frame.containing_address (cr3 (machine p))) va =
    translate (machine p) (Frame.containing_address (cr3 (machine p))) va;
  tr_dirs : dirs_kept G (machine p) (machine p');
  tr_handle : region = Region.mkRegion (mkRegionInfo (base e) (base e + n * PAGE_SIZE)) 0 (n * PAGE_SIZE);
  tr_shape : same_shape (frames (machine p)) (frames (machine p'));
  tr_ram : ∀ f i, f ∉ F ∪ H → ram (machine p') f i = ram (machine p) f i;
}.

Lemma region_new_ok b n :
  0 ≤ b → 0 ≤ n → b + n * PAGE_SIZE < usize_limit →
  ∃ region, Region.new (mkRegionInfo b (b + n * PAGE_SIZE)) = Ret region ∧ Region.start region = Ret b ∧
    Region.limit region = Ret (b + n * PAGE_SIZE) ∧
    region = Region.mkRegion (mkRegionInfo b (b + n * PAGE_SIZE)) 0 (n * PAGE_SIZE).
Proof.
  intros Hb Hn Hl. unfold Region.new. cbn [limit_va start_va].
  rewrite usub_ok, bind_bind_Ret by (unfold PAGE_SIZE in *; lia).
  eexists. split; [done|]. unfold Region.limit, Region.start, Region.size. cbn.
  rewrite (uadd_ok b 0) by (unfold PAGE_SIZE in *; lia). rewrite Z.add_0_r. split_and!; [done| |].
  - rewrite bind_bind_Ret. rewrite uadd_ok by (unfold PAGE_SIZE in *; lia). f_equal. lia.
  - f_equal. lia.
Qed.

Lemma contents_same t m m' p4 b n : ram m' = ram m → region_contents t m p4 b n → region_contents t m' p4 b n.
Proof.
  intros E. assert (∀ va, translate m' p4 va = translate m p4 va) as Ht by (intros va; by apply same_ram).
  unfold region_contents, kernel_page. destruct t; [done|setoid_rewrite Ht; done..].
Qed.

Lemma allocate_typed_ok p c l G F H n t :
  paging_ok p c l G F H → clean (machine p) F → 0 < n → n * PAGE_SIZE < usize_limit → mappable t n →
  (4 * Z.to_nat n + 1 ≤ size (kernel_free F))%nat →
  (Forall (λ e, RegionManager.fits (n * PAGE_SIZE) e = false) l ∧
   allocate_typed N page_size p n t = Ret (Err NoRegionAddressSpaceAvailable, p)) ∨
  ∃ l1 e l2 region p' c' G' F' H', l = l1 ++ e :: l2 ∧
    Forall (λ e, RegionManager.fits (n * PAGE_SIZE) e = false) l1 ∧ RegionManager.fits (n * PAGE_SIZE) e = true ∧
    allocate_typed N page_size p n t = Ret (Ok region, p') ∧
    typed_region p l1 e l2 G F H n t region p' c' G' F' H'.
Proof.
  intros Hpk Hcl Hn Hov Ht Hmem. unfold allocate_typed. rewrite (pk_manager _ _ _ _ _ _ Hpk). cbn [InitMutex.lock unwrap].
  rewrite bind_bind_Ret.
  destruct (RegionManager.allocate_region_ok N page_size HN Hps B L c l n t (machine p)
    (pk_table _ _ _ _ _ _ Hpk) (backend_of_paging _ _ _ _ _ _ Hpk) Hn Hov) as [[Hf ->]|(l1 & e & l2 & -> & Hf & Hfit & Hspec & Hti & Hco)].
  { by intros ->. }
  { left. split; [done|]. rewrite bind_bind_Ret. cbn [fst snd]. destruct p as [mg m]. by rewrite <- (pk_manager _ _ _ _ _ _ Hpk). }
  right. destruct Hspec as [(s' & Ha & _)|(spare & m1 & Hbefore & Hspec)].
  { exfalso. change (be_allocate_kernel_frame (machine p)) with (allocate_kernel_frame (machine p)) in Ha.
    destruct (kernel_frame_available _ _ _ (tab_phys _ _ _ _ _ (pk_tables _ _ _ _ _ _ Hpk))) as (f & p' & Hr & _).
    { intros E. rewrite E, size_empty in Hmem. lia. }
    unfold allocate_kernel_frame in Ha. by rewrite Hr in Ha. }
  pose proof (range_is_ready p c l1 e l2 G F H n t Hpk Hcl Hn Hfit Ht Hmem spare m1 Hbefore) as Hready.
  destruct (before_ok p c l1 e l2 G F H n t Hpk Hcl Hn Hfit Ht Hmem spare m1 Hbefore) as (Hok1 & Hsp & Hnd & Hram & Hcr & Hlk & Hsz).
  destruct (map_range_ok t m1 G _ _ (base e) n Hready Ht) as (m2 & G' & F2 & H2 & Emap & Hmap & Hcont). rewrite Hcr in Hmap, Hcont.
  change (be_map_region t (base e) (base e + n * PAGE_SIZE) m1) with (map_range t (base e) (base e + n * PAGE_SIZE) m1) in Hspec.
  rewrite Emap in Hspec. destruct Hspec as (c' & m' & rest & -> & Hrep & _ & Hrest & Hgive). rewrite bind_bind_Ret. cbn [fst snd].
  destruct (fit_facts p c l1 e l2 G F H n Hpk Hn Hfit Hmem) as (_ & Hlim & HBe & HeL & HB & HL & _ & _).
  destruct (region_new_ok (base e) n) as (region & -> & Hst & Hl & Hi); [lia|lia|lia|]. rewrite bind_bind_Ret.
  destruct (after_tables p c l1 e l2 G F H n t Hpk Hcl Hn Hfit Ht Hmem spare m1 Hbefore m2 G' F2 H2 Hmap rest m' c' Hgive Hrest) as (_ & Hram' & Hcr' & _).
  exists l1, e, l2, region, (mkPaging (Some c') m'), c', G', (F2 ∪ list_to_set rest), (H2 ∖ list_to_set rest).
  split_and!; [done|done|done|done|]. split; [done|done|by rewrite Hi|..]; cbn [machine].
  - apply (allocated_ok p c l1 e l2 G F H n t Hpk Hcl Hn Hfit Ht Hmem spare m1 Hbefore m2 G' F2 H2 Hmap rest m' c' Hgive Hrest).
    by split.
  - exact (after_clean p c l1 e l2 G F H n t Hpk Hcl Hn Hfit Ht Hmem spare m1 Hbefore m2 G' F2 H2 Hmap rest m' c' Hgive Hrest).
  - exact (after_total p c l1 e l2 G F H n t Hpk Hcl Hn Hfit Ht Hmem spare m1 Hbefore m2 G' F2 H2 Hmap rest m' c' Hgive Hrest).
  - pose proof (rg_free _ _ _ _ _ _ _ _ _ _ _ _ Hmap). pose proof (kernel_free_mono F2 (F2 ∪ list_to_set rest) ltac:(set_solver)). lia.
  - done.
  - intros va Hva. apply (same_ram m2 m' _ va Hram'), (rg_plain _ _ _ _ _ _ _ _ _ _ _ _ Hmap).
    by apply (same_ram (machine p) m1).
  - by eapply contents_same.
  - intros va Hva Hne. rewrite (proj1 (same_ram m2 m' _ va Hram')), <- (proj1 (same_ram (machine p) m1 _ va Hram)).
    apply (rg_others _ _ _ _ _ _ _ _ _ _ _ _ Hmap); [by apply (same_ram (machine p) m1)|done].
  - eapply dirs_kept_trans; [reflexivity|by apply dirs_kept_ram|].
    eapply dirs_kept_trans; [reflexivity|exact (rg_dirs _ _ _ _ _ _ _ _ _ _ _ _ Hmap)|by apply dirs_kept_ram].
  - exact Hi.
  - transitivity (frames m1); [by eapply before_map_shape|]. transitivity (frames m2); [by eapply map_range_takes|].
    by eapply given_back_shape.
  - intros f i Hfr. rewrite Hram', (rg_ram _ _ _ _ _ _ _ _ _ _ _ _ Hmap); [by rewrite Hram|].
    eapply outside_table; [exact (rg_ok _ _ _ _ _ _ _ _ _ _ _ _ Hmap)|]. rewrite (rg_total _ _ _ _ _ _ _ _ _ _ _ _ Hmap).
    intros Hf'. apply Hfr. clear -Hf' Hsp. set_unfold. naive_solver.
Qed.


(** *** Giving a region back *)

Section released.
Context (p : Paging) (c : chain) (l1 : list RegionMapEntry) (e : RegionMapEntry) (l2 : list RegionMapEntry).
Context (G : gmap Z (list Z)) (F H : gset Z) (t : RegionType).
Abbreviation m := (machine p).
Abbreviation p4 := (Frame.containing_address (cr3 (machine p))).
Context (Hpk : paging_ok p c (l1 ++ e :: l2) G F H) (Hty : region_type_of e = Some t) (Hnf : t ≠ Free).
Abbreviation freed := (entry_frames (machine p) p4 e).

Lemma used_facts :
  B ≤ base e ∧ base e < limit e ∧ limit e ≤ L ∧ 0 ≤ B ∧ L < usize_limit ∧ base e mod PAGE_SIZE = 0 ∧
  limit e mod PAGE_SIZE = 0 ∧ limit e = base e + entry_pages e * PAGE_SIZE ∧ 0 < entry_pages e < 2 ^ 36.
Proof.
  destruct Hpk as [_ [_ Hti _ HB HL] Hal _ _ _ _ _ _ _ _].
  pose proof (tiled_inside _ _ _ Hti) as Hin. apply Forall_app in Hin as [_ [Hin _]%Forall_cons].
  apply Forall_app in Hal as [_ [[Ha1 Ha2] _]%Forall_cons]. pose proof (entry_size e Ha1 Ha2) as Hsz.
  change (2 ^ 47) with 140737488355328 in HBL. change (2 ^ 36) with 68719476736.
  unfold PAGE_SIZE in *. split_and!; (done || lia).
Qed.

(** The frames of the region are held, and are not the region table's. *)
Lemma freed_frame f : f ∈ freed → f ∈ H ∧ G !! f = None ∧ f ≠ 1048575 ∧ f ∉ RegionManager.chain_frames c.
Proof.
  intros Hf. pose proof (pk_entries _ _ _ _ _ _ Hpk e ltac:(set_solver)) as HR.
  destruct (releasable_frames _ _ _ _ _ _ _ _ HR Hf) as (? & ? & ?). split_and!; [done..|].
  by apply (pk_sep _ _ _ _ _ _ Hpk e f); [set_solver|].
Qed.

(** The pages the region table gives back before the range is unmapped. *)
Context (T0 T1 : list Frame) (m1 : Machine).
Context (HT : RegionManager.chain_frames c ≡ₚ T0 ++ T1) (Hg0 : given_back T0 m m1).

Lemma table_frames f : f ∈ T0 ++ T1 → f ∈ H ∧ G !! f = None ∧ f ≠ 1048575 ∧ f ∉ freed.
Proof.
  intros Hf. assert (f ∈ RegionManager.chain_frames c) as Hc by (by rewrite HT).
  destruct (proj2 (pk_chain _ _ _ _ _ _ Hpk) f Hc) as (? & ? & ?). split_and!; [done..|].
  intros (_ & _ & _ & ?)%freed_frame. done.
Qed.

Lemma table_frames_once : NoDup (T0 ++ T1).
Proof. rewrite <- HT. apply Hpk. Qed.

Lemma unmap_ready :
  tables_ok m1 p4 G (F ∪ list_to_set T0) (H ∖ list_to_set T0) ∧ ram m1 = ram m ∧ cr3 m1 = cr3 m ∧ page_lock m1 = false ∧
  releasable p4 (base e) (frees t) 0 (entry_pages e) m1 G (H ∖ list_to_set T0) ∧
  freed_run m1 p4 (base e) (frees t) (seqZ 0 (entry_pages e)) = freed.
Proof.
  destruct (given_back_ok p4 G T0 m m1 F H) as (Hok1 & Hram & Hcr & Hlk); [apply Hpk| | |done|].
  { pose proof table_frames_once as Hnd. by apply NoDup_app in Hnd as [? _]. }
  { intros f Hf. destruct (table_frames f) as (? & ? & ? & _); [by apply elem_of_app; left|done]. }
  assert (∀ j, 0 ≤ j < entry_pages e → translate m1 p4 (base e + j * PAGE_SIZE) = translate m p4 (base e + j * PAGE_SIZE)) as Htr.
  { intros j _. by apply same_ram. }
  assert (frees t = frees_of e) as Hfe by (unfold frees_of; by rewrite Hty).
  pose proof (pk_entries _ _ _ _ _ _ Hpk e ltac:(set_solver)) as HR. split_and!; [done|done|done| | |].
  - rewrite Hlk. apply Hpk.
  - rewrite Hfe. apply (releasable_same _ _ _ _ m m1 G G H); [done|done|intros va; by apply same_ram|].
    intros f Hf HfH. split; [|done]. apply elem_of_difference. split; [done|]. rewrite elem_of_list_to_set.
    intros Hf0. destruct (table_frames f) as (_ & _ & _ & ?); [by apply elem_of_app; left|done].
  - rewrite Hfe. by apply freed_run_same.
Qed.

(** Then the range is unmapped. *)
Record range_gone (m2 : Machine) : Prop := {
  rn_tables : tables_ok m2 p4 G (F ∪ list_to_set T0 ∪ freed) (H ∖ list_to_set T0 ∖ freed);
  rn_plain : ∀ va, plain m p4 va → plain m2 p4 va;
  rn_pages : ∀ j, 0 ≤ j < entry_pages e → translate m2 p4 (base e + j * PAGE_SIZE) = Raw.unused;
  rn_others : ∀ va, plain m p4 va → (∀ j, 0 ≤ j < entry_pages e → ¬ same_page (base e + j * PAGE_SIZE) va) →
    translate m2 p4 va = translate m p4 va;
  rn_root : cr3 m2 = cr3 m;
  rn_lock : page_lock m2 = false;
}.

Lemma unmapped_state : ∃ m2, unmap_range t (base e) (limit e) m1 = Ret m2 ∧ range_gone m2.
Proof.
  destruct unmap_ready as (Hok1 & Hram & Hcr & Hlk & HR & Hfr).
  destruct used_facts as (HBe & Hlt & HeL & HB & HL & Hal & _ & Hsz & Hn).
  destruct (unmap_nonpaged_ok m1 G (F ∪ list_to_set T0) (H ∖ list_to_set T0) (base e) (entry_pages e) (frees t))
    as (m2 & Heq & [Uok Upl Upg Uoth (Ucr & _) _]); rewrite ?Hcr; try done; [lia|lia|].
  rewrite Hcr in *. change (freed_run (set_page_lock m1 true)) with (freed_run m1) in Uok. rewrite Hfr in Uok.
  exists (unlock_page_table (MapperFlushAll.flush true m2)). split.
  { rewrite unmap_range_free by done. by rewrite Hsz. }
  split.
  - split; apply Uok.
  - intros va Hva. exact (Upl va (proj2 (same_ram m m1 p4 va Hram) Hva)).
  - exact Upg.
  - intros va Hva Hne. rewrite <- (proj1 (same_ram m m1 p4 va Hram)).
    exact (Uoth va (proj2 (same_ram m m1 p4 va Hram) Hva) Hne).
  - cbn. rewrite Ucr. exact Hcr.
  - done.
Qed.


(** And another page of the table may go. *)
Context (m2 : Machine) (Hgone : range_gone m2).

Lemma table_still_held : frames_held m2 T1.
Proof.
  exists (F ∪ list_to_set T0 ∪ freed), (H ∖ list_to_set T0 ∖ freed). pose proof (rn_tables _ Hgone) as Hok.
  pose proof table_frames_once as Hnd. apply NoDup_app in Hnd as (_ & H01 & Hnd1).
  split_and!; [apply Hok|apply Hok|done|]. intros f Hf.
  destruct (table_frames f) as (? & _ & ? & ?); [by apply elem_of_app; right|]. split; [|done].
  rewrite !elem_of_difference, elem_of_list_to_set. split_and!; [done| |done]. intros Hf0. by apply (H01 f).
Qed.

Context (T2 : list Frame) (c' : chain) (m' : Machine).
Context (HT1 : T1 ≡ₚ T2 ++ RegionManager.chain_frames c') (Hg2 : given_back T2 m2 m').
Abbreviation F' := (F ∪ list_to_set T0 ∪ freed ∪ list_to_set T2).
Abbreviation H' := (H ∖ list_to_set T0 ∖ freed ∖ list_to_set T2).

Lemma final_once : NoDup (T0 ++ T2 ++ RegionManager.chain_frames c').
Proof. pose proof table_frames_once as Hnd. by rewrite HT1 in Hnd. Qed.

Lemma final_frame f : f ∈ T0 ++ T2 ++ RegionManager.chain_frames c' → f ∈ H ∧ G !! f = None ∧ f ≠ 1048575 ∧ f ∉ freed.
Proof. intros Hf. apply table_frames. by rewrite HT1. Qed.

Lemma final_tables : tables_ok m' p4 G F' H' ∧ ram m' = ram m2 ∧ cr3 m' = cr3 m ∧ page_lock m' = false.
Proof.
  pose proof final_once as Hnd. apply NoDup_app in Hnd as (_ & H02 & Hnd). apply NoDup_app in Hnd as (Hnd2 & _ & _).
  destruct (given_back_ok p4 G T2 m2 m' _ _ (rn_tables _ Hgone) Hnd2) as (Hok & Hram & Hcr & Hlk); [|done|].
  - intros f Hf. destruct (final_frame f) as (? & ? & ? & ?); [set_solver|]. split_and!; [|done|done].
    rewrite !elem_of_difference, elem_of_list_to_set. split_and!; [done| |done]. intros Hf0. apply (H02 f Hf0). set_solver.
  - split_and!; [done|done|rewrite Hcr; apply Hgone|rewrite Hlk; apply Hgone].
Qed.

Lemma final_total : F' ∪ H' = F ∪ H.
Proof.
  assert (∀ f, f ∈ F' → f ∈ F ∪ H) as Hsub.
  { intros f Hf. rewrite !elem_of_union, !elem_of_list_to_set in Hf.
    destruct Hf as [[[Hf|Hf]|Hf]|Hf]; [set_solver| | |].
    - destruct (final_frame f) as (? & _); [set_solver|set_solver].
    - destruct (freed_frame f Hf) as (? & _). set_solver.
    - destruct (final_frame f) as (? & _); [set_solver|set_solver]. }
  apply set_eq. intros f. destruct (decide (f ∈ F')) as [Hf|Hf]; [specialize (Hsub f Hf); set_solver|].
  revert Hf. clear. generalize (list_to_set T0 : gset Z), (list_to_set T2 : gset Z), freed. set_solver.
Qed.

Lemma final_outside va :
  plain m p4 va → (∀ j, 0 ≤ j < entry_pages e → ¬ same_page (base e + j * PAGE_SIZE) va) →
  translate m' p4 va = translate m p4 va.
Proof.
  intros Hva Hne. destruct final_tables as (_ & Hram & _). rewrite (proj1 (same_ram m2 m' p4 va Hram)).
  by apply (rn_others _ Hgone).
Qed.

Lemma final_plain va : plain m p4 va → plain m' p4 va.
Proof. intros Hva. destruct final_tables as (_ & Hram & _). by apply (same_ram m2 m' p4 va Hram), (rn_plain _ Hgone). Qed.

Lemma final_inside va : base e ≤ va < limit e → plain m p4 va ∧ translate m' p4 va = Raw.unused.
Proof.
  intros Hva. destruct used_facts as (HBe & Hlt & HeL & HB & HL & Hal & Hal' & Hsz & Hn).
  destruct final_tables as (_ & Hram & _). rewrite (proj1 (same_ram m2 m' p4 va Hram)).
  assert (0 ≤ (va - base e) / PAGE_SIZE < entry_pages e) as Hj by (unfold entry_pages, PAGE_SIZE in *; mlia).
  assert (same_page (base e + (va - base e) / PAGE_SIZE * PAGE_SIZE) va) as Hs.
  { apply same_page_iff; [unfold PAGE_SIZE in *; lia|lia|]. f_equal. unfold PAGE_SIZE in *. mlia. }
  split.
  - apply (same_page_plain _ _ _ _ Hs), (rl_plain _ _ _ _ _ _ _ _ (pk_entries _ _ _ _ _ _ Hpk e ltac:(set_solver))). lia.
  - rewrite <- (same_page_translate _ _ _ _ Hs). by apply Hgone.
Qed.


(** The entries of the table afterwards: those around the region, and the free
    entry it became, with its free neighbours. *)
Definition merged_entry (x : RegionMapEntry) : Prop :=
  region_type_of x = Some Free ∧
  (base x = base e ∨ ∃ y, y ∈ l1 ∧ region_type_of y = Some Free ∧ base x = base y ∧ limit y = base e) ∧
  (limit x = limit e ∨ ∃ z, z ∈ l2 ∧ region_type_of z = Some Free ∧ base z = limit e ∧ limit x = limit z).

Lemma around x :
  x ∈ l1 ++ l2 → x ∈ l1 ++ e :: l2 ∧ (limit x ≤ base e ∨ limit e ≤ base x) ∧ B ≤ base x ∧ base x < limit x ∧ limit x ≤ L ∧
    base x mod PAGE_SIZE = 0 ∧ limit x mod PAGE_SIZE = 0.
Proof.
  intros Hx. destruct Hpk as [_ [_ Hti _ HB HL] Hal _ _ _ _ _ _ _ _].
  assert (x ∈ l1 ++ e :: l2) as Hx' by set_solver. split; [done|].
  pose proof (tiled_inside _ _ _ Hti) as Hin. rewrite Forall_forall in Hin, Hal.
  destruct (Hin x Hx') as (? & ? & ?). destruct (Hal x Hx'). split; [|by split_and!].
  apply tiled_app in Hti as (b & Ti1 & <- & _ & Ti2). apply elem_of_app in Hx as [Hx|Hx].
  - left. pose proof (tiled_inside _ _ _ Ti1) as I1. rewrite Forall_forall in I1. destruct (I1 x Hx) as (? & ? & ?). lia.
  - right. pose proof (tiled_inside _ _ _ Ti2) as I2. rewrite Forall_forall in I2. destruct (I2 x Hx) as (? & ? & ?). lia.
Qed.

Lemma merged_elem b x :
  tiled (limit e) l2 L →
  (base e = b ∨ ∃ y, y ∈ l1 ∧ region_type_of y = Some Free ∧ b = base y ∧ limit y = base e) →
  x ∈ RegionManager.merged b e l2 → x ∈ l2 ∨ merged_entry x.
Proof.
  intros Hti Hb. unfold RegionManager.merged. intros [->|Hx]%elem_of_cons.
  - right. split; [done|]. cbn [base limit]. split; [naive_solver|].
    destruct l2 as [|z k2]; cbn; [left; lia|]. destruct Hti as (Hz & _). case_bool_decide; cbn; [right|left; lia].
    exists z. split_and!; [by left|done|done|lia].
  - left. destruct l2 as [|z k2]; cbn in Hx; [done|]. case_bool_decide; cbn in Hx; [by right|done].
Qed.

Lemma dealloc_flat_elem x : x ∈ RegionManager.dealloc_flat l1 e l2 → x ∈ l1 ++ l2 ∨ merged_entry x.
Proof.
  destruct Hpk as [_ [_ Hti _ _ _] _ _ _ _ _ _ _ _ _]. apply tiled_app in Hti as (b & Ti1 & <- & _ & Ti2).
  unfold RegionManager.dealloc_flat. destruct (last l1) as [y|] eqn:Hl.
  - apply last_Some in Hl as [k Hk]. destruct (is_free y) eqn:Hy.
    + rewrite Hk, removelast_last. rewrite elem_of_app. intros [Hx|Hx]; [left; set_solver|].
      apply merged_elem in Hx as [?|?]; [left; set_solver|by right|done|]. right. exists y.
      rewrite Hk in Ti1. apply tiled_app in Ti1 as (? & _ & _ & _ & Hy'). cbn in Hy'.
      apply bool_decide_eq_true in Hy. split_and!; [set_solver|done|done|done].
    + rewrite elem_of_app. intros [Hx|Hx]; [left; set_solver|].
      apply merged_elem in Hx as [?|?]; [left; set_solver|by right|done|by left].
  - intros Hx. apply merged_elem in Hx as [?|?]; [left; set_solver|by right|done|by left].
Qed.

(** Every address of the merged entry translates to nothing. *)
Lemma merged_facts x :
  merged_entry x →
  (∀ va, base x ≤ va < limit x → plain m' p4 va ∧ translate m' p4 va = Raw.unused) ∧
  base x mod PAGE_SIZE = 0 ∧ limit x mod PAGE_SIZE = 0.
Proof.
  intros (_ & Hb & Hl). destruct used_facts as (HBe & Hlt & HeL & HB & HL & Hal & Hal' & Hsz & Hn).
  assert (∀ y va, y ∈ l1 ++ l2 → region_type_of y = Some Free → base y ≤ va < limit y →
    plain m' p4 va ∧ translate m' p4 va = Raw.unused) as Hfree.
  { intros y va Hy Hf Hva. destruct (around y Hy) as (Hin & Hout & ? & _ & ? & _).
    destruct (pk_free _ _ _ _ _ _ Hpk y va Hin Hf Hva) as [Hp Hu]. split; [by apply final_plain|].
    rewrite final_outside; [done|done|]. apply (outside_range B L HB HBL); (done || lia). }
  split.
  - intros va Hva. destruct (decide (va < base e)) as [Hlo|Hlo]; [|destruct (decide (limit e ≤ va)) as [Hhi|Hhi]].
    + destruct Hb as [?|(y & Hy & Hf & ? & ?)]; [lia|]. apply (Hfree y); [set_solver|done|lia].
    + destruct Hl as [?|(z & Hz & Hf & ? & ?)]; [lia|]. apply (Hfree z); [set_solver|done|lia].
    + destruct (final_inside va) as [? ?]; [lia|]. split; [by apply final_plain|done].
  - split.
    + destruct Hb as [->|(y & Hy & _ & -> & _)]; [done|]. by destruct (around y ltac:(set_solver)) as (_ & _ & _ & _ & _ & ? & _).
    + destruct Hl as [->|(z & Hz & _ & _ & ->)]; [done|]. by destruct (around z ltac:(set_solver)) as (_ & _ & _ & _ & _ & _ & ?).
Qed.

(** The entries around the region keep their frames. *)
Lemma around_ok x :
  x ∈ l1 ++ l2 →
  releasable p4 (base x) (frees_of x) 0 (entry_pages x) m' G H' ∧ entry_frames m' p4 x = entry_frames m p4 x.
Proof.
  intros Hx. destruct (around x Hx) as (Hin & Hout & ? & Hlt & ? & Hb & Hl). pose proof (entry_size x Hb Hl) as Hsz.
  destruct used_facts as (HBe & _ & HeL & HB & HL & Hal & Hal' & Hsze & _).
  pose proof (pk_entries _ _ _ _ _ _ Hpk x Hin) as HR.
  assert (∀ j, 0 ≤ j < entry_pages x → translate m' p4 (base x + j * PAGE_SIZE) = translate m p4 (base x + j * PAGE_SIZE)) as Htr.
  { intros j Hj. apply final_outside; [apply (rl_plain _ _ _ _ _ _ _ _ HR); lia|].
    apply (outside_range B L HB HBL); unfold PAGE_SIZE in *; (done || lia). }
  split; [|by apply freed_run_same].
  apply (releasable_same _ _ _ _ m m' G G H); [done|done|apply final_plain|].
  intros f Hf HfH. split; [|done]. rewrite !elem_of_difference, !elem_of_list_to_set. split_and!; [done| | |].
  - intros Hf0. destruct (pk_sep _ _ _ _ _ _ Hpk x f Hin Hf). rewrite HT. set_solver.
  - intros Hfe. assert (x = e) as -> by (by apply (pk_own _ _ _ _ _ _ Hpk x e f); [|set_solver| |]). lia.
  - intros Hf2. destruct (pk_sep _ _ _ _ _ _ Hpk x f Hin Hf). rewrite HT, HT1. set_solver.
Qed.

Lemma released_ok :
  RegionManager.table_ok N B L c' (RegionManager.dealloc_flat l1 e l2) →
  paging_ok (mkPaging (Some c') m') c' (RegionManager.dealloc_flat l1 e l2) G F' H'.
Proof.
  intros Htab. destruct final_tables as (Hok & _ & Hcr & Hlk).
  assert (∀ x, merged_entry x → entry_frames m' p4 x = ∅) as Hempty.
  { intros x Hx. destruct (merged_facts x Hx) as (Hu & Hb & Hl). pose proof (entry_size x Hb Hl).
    apply freed_run_unused. intros j Hj. apply Hu. unfold PAGE_SIZE in *. lia. }
  split; cbn [manager machine]; rewrite ?Hcr; try done.
  - apply Forall_forall. intros x [Hx|Hx]%dealloc_flat_elem; [|by apply merged_facts].
    by destruct (around x Hx) as (_ & _ & _ & _ & _ & ? & ?).
  - intros f Hf. apply (pk_reach _ _ _ _ _ _ Hpk). by rewrite <- final_total.
  - pose proof final_once as Hnd. apply NoDup_app in Hnd as (_ & H0 & Hnd). apply NoDup_app in Hnd as (_ & H2 & Hnd).
    split; [done|]. intros f Hf. destruct (final_frame f) as (? & ? & ? & ?); [set_solver|]. split_and!; [|done|done].
    rewrite !elem_of_difference, !elem_of_list_to_set. split_and!; [done| |done|].
    + intros Hf0. apply (H0 f Hf0). set_solver.
    + intros Hf2. by apply (H2 f).
  - intros x va [Hx|Hx]%dealloc_flat_elem Hf Hva; [|exact (proj1 (merged_facts x Hx) va Hva)].
    destruct (around x Hx) as (Hin & Hout & ? & _ & ? & _). destruct used_facts as (? & _ & ? & HB & _ & Hal & _ & Hsze & _).
    destruct (pk_free _ _ _ _ _ _ Hpk x va Hin Hf Hva) as [Hp Hu]. split; [by apply final_plain|].
    rewrite final_outside; [done|done|]. apply (outside_range B L HB HBL); (done || lia).
  - intros x [Hx|Hx]%dealloc_flat_elem; [by apply around_ok|]. destruct (merged_facts x Hx) as (Hu & Hb & Hl).
    pose proof (entry_size x Hb Hl). apply unused_releasable. intros j Hj. apply Hu. unfold PAGE_SIZE in *. lia.
  - intros x y f [Hx|Hx]%dealloc_flat_elem [Hy|Hy]%dealloc_flat_elem; rewrite ?(Hempty x), ?(Hempty y) by done; try set_solver.
    rewrite (proj2 (around_ok x Hx)), (proj2 (around_ok y Hy)).
    apply (pk_own _ _ _ _ _ _ Hpk); [by apply around|by apply around].
  - intros x f [Hx|Hx]%dealloc_flat_elem; [|rewrite Hempty by done; set_solver]. rewrite (proj2 (around_ok x Hx)).
    intros Hf Hc'. apply (pk_sep _ _ _ _ _ _ Hpk x f); [by apply around|done|]. rewrite HT, HT1. set_solver.
Qed.

End released.

Lemma drop_region_ok p c l1 e l2 G F H t region :
  paging_ok p c (l1 ++ e :: l2) G F H → region_type_of e = Some t → t ≠ Free → Region.info region = region_info e →
  let p4 := Frame.containing_address (cr3 (machine p)) in
  ∃ p' c' F' H', drop_region N p region = Ret p' ∧
    paging_ok p' c' (RegionManager.dealloc_flat l1 e l2) G F' H' ∧
    F' ∪ H' = F ∪ H ∧ F ⊆ F' ∧ entry_frames (machine p) p4 e ⊆ F' ∧ cr3 (machine p') = cr3 (machine p) ∧
    (∀ va, base e ≤ va < limit e → translate (machine p') p4 va = Raw.unused) ∧
    (∀ va, plain (machine p) p4 va → (∀ j, 0 ≤ j < entry_pages e → ¬ same_page (base e + j * PAGE_SIZE) va) →
       translate (machine p') p4 va = translate (machine p) p4 va).
Proof.
  intros Hpk Hty Hnf Hinfo p4. unfold drop_region. rewrite (pk_manager _ _ _ _ _ _ Hpk), Hinfo. cbn [InitMutex.lock unwrap].
  rewrite bind_bind_Ret.
  destruct (RegionManager.deallocate_region_ok N HN B L c l1 e l2 t (machine p) [] (pk_table _ _ _ _ _ _ Hpk) Hty Hnf)
    as (k1 & R & (T0 & T1 & m1 & HT & Hg0 & Hspec) & Hflat & Hti & Hco).
  { rewrite app_nil_r. by eapply backend_of_paging. }
  destruct (unmapped_state p c l1 e l2 G F H t Hpk Hty Hnf T0 T1 m1 HT Hg0) as (m2 & Hun & Hgone).
  change (be_unmap_region t (base e) (limit e) m1) with (unmap_range t (base e) (limit e) m1) in Hspec. rewrite Hun in Hspec.
  destruct Hspec as (T2 & c' & m' & -> & Hrep & HT1 & Hg2 & _).
  { rewrite app_nil_r. by eapply table_still_held. }
  rewrite bind_bind_Ret. rewrite Hflat in Hrep.
  set (freed := entry_frames (machine p) p4 e).
  exists (mkPaging (Some c') m'), c', (F ∪ list_to_set T0 ∪ freed ∪ list_to_set T2), (H ∖ list_to_set T0 ∖ freed ∖ list_to_set T2).
  split; [done|]. split_and!; cbn [machine].
  - eapply released_ok; try eassumption. split; [done|done|done|apply (pk_table _ _ _ _ _ _ Hpk)..].
  - by eapply final_total.
  - clear. generalize (list_to_set T0 : gset Z), (list_to_set T2 : gset Z), freed. set_solver.
  - clear. generalize (list_to_set T0 : gset Z), (list_to_set T2 : gset Z). set_solver.
  - by eapply final_tables.
  - intros va Hva. by eapply final_inside.
  - intros va Hva Hne. by eapply final_outside.
Qed.

(** The state [init] of the region manager starts from. *)
Lemma fresh_paging_ok m G F H :
  tables_ok m (Frame.containing_address (cr3 m)) G F H → page_lock m = false → (∀ f, f ∈ F ∪ H → f < 2 ^ 40) →
  0 ≤ B < L → L < usize_limit → B mod PAGE_SIZE = 0 → L mod PAGE_SIZE = 0 →
  (∀ va, B ≤ va < L → plain m (Frame.containing_address (cr3 m)) va ∧
     translate m (Frame.containing_address (cr3 m)) va = Raw.unused) →
  paging_ok (mkPaging (Some (RegionManager.new N B L)) m) (RegionManager.new N B L) [mkEntry B L (Some Free)] G F H.
Proof.
  intros Hok Hlk H40 HBL' HL HBm HLm Hu. set (e := mkEntry B L (Some Free)).
  assert (∀ j, 0 ≤ j < entry_pages e →
    plain m (Frame.containing_address (cr3 m)) (base e + j * PAGE_SIZE) ∧
    translate m (Frame.containing_address (cr3 m)) (base e + j * PAGE_SIZE) = Raw.unused) as Hpg.
  { intros j Hj. apply Hu. pose proof (entry_size e HBm HLm) as Hsz. cbn [base limit e] in Hsz |- *. unfold PAGE_SIZE in *. lia. }
  assert (entry_frames m (Frame.containing_address (cr3 m)) e = ∅) as He
    by (apply freed_run_unused; intros j Hj; by apply Hpg).
  split; cbn [manager machine]; try done.
  - by apply RegionManager.new_table_ok.
  - by apply Forall_singleton.
  - split; [apply NoDup_nil_2|]. intros f Hf. by apply elem_of_nil in Hf.
  - intros x va ->%list_elem_of_singleton _ Hva. by apply Hu.
  - intros x ->%list_elem_of_singleton. by apply unused_releasable.
  - by intros x y f ->%list_elem_of_singleton ->%list_elem_of_singleton.
  - intros x f ->%list_elem_of_singleton. rewrite He. set_solver.
Qed.

(** ** Properties *)


(** C8: dropping a region handle. For a region in use, dropping its handle never
    panics: every address of the region then translates to nothing, its frames are
    free again, it is merged with the free entries before and after it, no other
    address translates differently, and the region table, the page tables and the
    frame database still agree. *)
Theorem drop_region_correct p c l1 e l2 G F H t region :
  paging_ok p c (l1 ++ e :: l2) G F H → region_type_of e = Some t → t ≠ Free → Region.info region = region_info e →
  let p4 := Frame.containing_address (cr3 (machine p)) in
  ∃ p' c' F' H', drop_region N p region = Ret p' ∧
    paging_ok p' c' (RegionManager.dealloc_flat l1 e l2) G F' H' ∧
    F' ∪ H' = F ∪ H ∧ F ⊆ F' ∧ entry_frames (machine p) p4 e ⊆ F' ∧ cr3 (machine p') = cr3 (machine p) ∧
    (∀ va, base e ≤ va < limit e → translate (machine p') p4 va = Raw.unused) ∧
    (∀ va, plain (machine p) p4 va → (∀ j, 0 ≤ j < entry_pages e → ¬ same_page (base e + j * PAGE_SIZE) va) →
       translate (machine p') p4 va = translate (machine p) p4 va).
Proof. apply drop_region_ok. Qed.



End paging.

(** ** Witnesses: the empty machine, and a region table over the kernel heap *)

Definition heap_table : chain := RegionManager.new 8 KERNEL_HEAP_BASE KERNEL_HEAP_LIMIT.
Definition heap_entry : RegionMapEntry := mkEntry KERNEL_HEAP_BASE KERNEL_HEAP_LIMIT (Some Free).
Definition root_paging (free : Z) (bs : list Z) : Paging := mkPaging (Some heap_table) (root_machine free bs).
Definition heap_paging : Paging := root_paging 15 [253; 255].

Lemma root_paging_ok free bs :
  small_mask free bs →
  paging_ok 8 KERNEL_HEAP_BASE KERNEL_HEAP_LIMIT (root_paging free bs) heap_table [heap_entry] {[17 := []]}
    (free_set (byte_region free bs)) {[17]}.
Proof.
  intros Hs. apply (fresh_paging_ok 8 4096); [lia|unfold PAGE_SIZE; lia|by vm_compute|exact (root_machine_ok _ _ Hs)|done| |by vm_compute|by vm_compute|by vm_compute|by vm_compute|].
  - intros f [Hf%(byte_region_range _ _ _ Hs)|Hf%elem_of_singleton]%elem_of_union; lia.
  - intros va _. apply root_machine_empty.
Qed.

Lemma heap_paging_ok :
  paging_ok 8 KERNEL_HEAP_BASE KERNEL_HEAP_LIMIT heap_paging heap_table [heap_entry] {[17 := []]} free_15 {[17]}.
Proof. exact (root_paging_ok _ _ small_mask_15). Qed.

Lemma heap_window : KERNEL_HEAP_LIMIT - KERNEL_HEAP_BASE ≤ 2 ^ 47.
Proof. by vm_compute. Qed.

Lemma heap_paging_clean : clean (machine heap_paging) free_15.
Proof. intros f i _. done. Qed.

Lemma heap_memory : (4 * Z.to_nat 3 + 1 ≤ size (kernel_free free_15))%nat.
Proof. apply Nat.leb_le. by vm_compute. Qed.

(** An entry of the one-entry table is that entry. *)
Lemma heap_fit l1 e l2 : [heap_entry] = l1 ++ e :: l2 → l1 = [] ∧ e = heap_entry ∧ l2 = [].
Proof. destruct l1 as [|x [|y l1]]; cbn; intros E; [by simplify_eq|by simplify_eq|by simplify_eq]. Qed.


Lemma drop_region_correct_witness :
  ∃ region p1 p2, allocate_typed 8 4096 heap_paging 1 Heap = Ret (Ok region, p1) ∧ drop_region 8 p1 region = Ret p2 ∧
    translate (machine p2) 17 KERNEL_HEAP_BASE = Raw.unused.
Proof.
  destruct (allocate_typed_ok 8 4096 KERNEL_HEAP_BASE KERNEL_HEAP_LIMIT ltac:(lia) ltac:(unfold PAGE_SIZE; lia) heap_window
    heap_paging heap_table [heap_entry] {[17 := []]} free_15 {[17]} 1 Heap heap_paging_ok heap_paging_clean
    ltac:(lia) ltac:(unfold PAGE_SIZE; lia) I) as [[Hf _]|(l1 & e & l2 & region & p1 & c' & G' & F' & H' & Hl & _ & _ & Heq & R)].
  - pose proof heap_memory. lia.
  - exfalso. apply Forall_cons in Hf as [Hf _]. by vm_compute in Hf.
  - destruct (heap_fit _ _ _ Hl) as (-> & -> & ->). destruct R as [_ _ Hinfo Hok _ _ _ Hcr _ _ _ _ _ _ _].
    assert (RegionManager.alloc_flat [] heap_entry [] (1 * PAGE_SIZE) Heap =
      [] ++ mkEntry KERNEL_HEAP_BASE (KERNEL_HEAP_BASE + 1 * PAGE_SIZE) (Some Heap) ::
        [mkEntry (KERNEL_HEAP_BASE + 1 * PAGE_SIZE) KERNEL_HEAP_LIMIT (Some Free)]) as El by (by vm_compute).
    rewrite El in Hok.
    destruct (drop_region_correct 8 4096 KERNEL_HEAP_BASE KERNEL_HEAP_LIMIT ltac:(lia) ltac:(unfold PAGE_SIZE; lia) heap_window
      p1 c' [] _ _ G' F' H' Heap region Hok eq_refl ltac:(done) Hinfo) as (p2 & c2 & F2 & H2 & Hd & _ & _ & _ & _ & _ & Hin & _).
    exists region, p1, p2. rewrite Hcr in Hin. split_and!; [exact Heq|exact Hd|].
    exact (Hin KERNEL_HEAP_BASE ltac:(cbn [base limit]; unfold PAGE_SIZE; lia)).
Defined.

