(* ===== verification/SimpleAlloc.v ===== *)
(** * The kernel heap (allocator/simple_allocator.rs, and the global allocator
    of allocator/mod.rs)

    A list of heap regions, each with its header and a free list over the rest
    of its memory. The first region is a static buffer; more come from the
    region manager, through the interface [HeapRegions], and go back to it. *)
From S2P Require Import Prelude Align AllocFreeList Physmem PageTable RegionMapping.

Import FreeList.

(** What the heap needs of paging: [allocate_region] and [Drop for Region]. *)
Class HeapRegions (S : Type) := {
  hr_allocate : Z → S → outcome (result Region.Region * S);
  hr_drop : Region.Region → S → outcome S }.

#[global] Instance Paging_heap_regions (N : nat) (page_size : Z) : HeapRegions Paging := {
  hr_allocate pages p := allocate_region N page_size p pages;
  hr_drop r p := drop_region N p r }.

Definition MINIMUM_HEAP_REGION_PAGES : Z := 16.
Definition MINIMUM_HEAP_REGION_SIZE : Z := MINIMUM_HEAP_REGION_PAGES * PAGE_SIZE.
Definition HEAP_RESERVE_LIMIT : Z := 128.
Definition INITIAL_HEAP_REGION_SIZE : Z := 128 * 1024.

(** [align_of::<HeapRegion>()]. *)
Definition HEAP_REGION_ALIGN : Z := 8.

(** ** Data *)

Inductive PayloadRegionAlloc := Buffer (start len : Z) | RegionAlloc (region : Region.Region).

Record HeapRegionPayload := mkPayload {
  alloc_region : PayloadRegionAlloc; payload_can_free : bool; free_list : FreeList }.

(** A region by the address of its header; the [next] links are the order of
    the list. *)
Record HeapRegion := mkHeapRegion { region_addr : Z; payload : option HeapRegionPayload }.

(** The regions behind the empty head of the list. *)
Abbreviation HeapRegionList := (list HeapRegion) (only parsing).

Definition contains (a : PayloadRegionAlloc) (addr size : Z) : outcome bool :=
  match a with
  | Buffer start len =>
      limit ← uadd start len;
      if start <=? addr then d ← usub limit addr; Ret (size <=? d) else Ret false
  | RegionAlloc region =>
      start ← Region.start region;
      if start <=? addr then
        limit ← Region.limit region;
        if addr <=? limit then d ← usub limit addr; Ret (size <=? d) else Ret false
      else Ret false
  end.

(** ** One region *)

Definition with_free_list (hr : HeapRegion) (pl : HeapRegionPayload) (fl : FreeList) : HeapRegion :=
  mkHeapRegion (region_addr hr) (Some (mkPayload (alloc_region pl) (payload_can_free pl) fl)).

Definition region_allocate (hr : HeapRegion) (l : AlignedLayout) : outcome (option Z * HeapRegion) :=
  match payload hr with
  | None => Ret (None, hr)
  | Some pl => r ← allocate (free_list pl) l; Ret (r.1, with_free_list hr pl r.2)
  end.

Definition region_deallocate (hr : HeapRegion) (ptr : Z) (l : AlignedLayout)
    : outcome (option () * HeapRegion) :=
  match payload hr with
  | None => Ret (None, hr)
  | Some pl =>
      c ← contains (alloc_region pl) ptr (al_size l);
      if (c : bool) then
        fl ← deallocate (free_list pl) ptr l; Ret (Some (), with_free_list hr pl fl)
      else Ret (None, hr)
  end.

Definition region_free_space (hr : HeapRegion) : Z :=
  match payload hr with Some pl => free_space (free_list pl) | None => 0 end.
Definition region_allocated_space (hr : HeapRegion) : Z :=
  match payload hr with Some pl => allocated_space (free_list pl) | None => 0 end.
Definition can_free (hr : HeapRegion) : bool :=
  match payload hr with Some pl => payload_can_free pl | None => false end.

(** ** The list of regions *)

Fixpoint do_allocate (rs : HeapRegionList) (l : AlignedLayout) : outcome (option Z * HeapRegionList) :=
  match rs with
  | [] => Ret (None, [])
  | hr :: rest =>
      r ← region_allocate hr l;
      match r.1 with
      | Some p => Ret (Some p, r.2 :: rest)
      | None => r' ← do_allocate rest l; Ret (r'.1, r.2 :: r'.2)
      end
  end.

(** The region taken out of the list because nothing in it is allocated any
    more, and the list. *)
Fixpoint do_deallocate (rs : HeapRegionList) (ptr : Z) (l : AlignedLayout)
    : outcome (option HeapRegion * HeapRegionList) :=
  match rs with
  | [] => Panic ExplicitPanic
  | hr :: rest =>
      r ← region_deallocate hr ptr l;
      match r.1 with
      | Some _ =>
          if region_allocated_space r.2 =? 0 then Ret (Some r.2, rest) else Ret (None, r.2 :: rest)
      | None => r' ← do_deallocate rest ptr l; Ret (r'.1, r.2 :: r'.2)
      end
  end.

Definition heap_free_space (rs : HeapRegionList) : outcome Z :=
  for_each (λ hr s, uadd s (region_free_space hr)) rs 0.
Definition heap_allocated_space (rs : HeapRegionList) : outcome Z :=
  for_each (λ hr s, uadd s (region_allocated_space hr)) rs 0.

Section heap.
Context {S : Type} `{HeapRegions S}.
(** The size of the header and where its free list lies in it, which the
    compiler chooses. *)
Context (size_of_HeapRegion free_list_offset : Z).

(** The number of pages [expand_and_allocate] asks for. *)
Definition expansion_pages (l : AlignedLayout) : outcome Z :=
  header_size ← align_up size_of_HeapRegion min_alignment;
  up ← align_up header_size (al_align l);
  front_padding_size ←
    (if header_size =? up then Ret 0
     else s ← uadd header_size min_alloc_size;
          e ← align_up s (al_align l);
          usub e header_size);
  s ← uadd header_size front_padding_size;
  required_size ← uadd s (al_size l);
  page_up ← align_up required_size PAGE_SIZE;
  back_padding_size ←
    (if header_size =? page_up then Ret 0
     else s ← uadd required_size min_alloc_size;
          e ← align_up s PAGE_SIZE;
          usub e required_size);
  total ← uadd required_size back_padding_size;
  Ret (Z.max total MINIMUM_HEAP_REGION_SIZE / PAGE_SIZE).

(** A header at the start of the memory from [start] to [limit], and a free
    list over the rest. *)
Definition make_region (a : PayloadRegionAlloc) (cf : bool) (start limit : Z) : outcome HeapRegion :=
  aligned_start ← align_up start HEAP_REGION_ALIGN;
  assert_ (size_of_HeapRegion <=? saturating_sub limit aligned_start);;
  first ← uadd aligned_start size_of_HeapRegion;
  fl ← FreeList.new (aligned_start + free_list_offset) first limit;
  Ret (mkHeapRegion aligned_start (Some (mkPayload a cf fl))).

Definition expand_and_allocate (rs : HeapRegionList) (l : AlignedLayout) (s : S)
    : outcome (option Z * HeapRegionList * S) :=
  pages ← expansion_pages l;
  r ← hr_allocate pages s;
  match r.1 with
  | Err _ => Ret (None, rs, r.2)
  | Ok region =>
      start ← Region.start region;
      limit ← Region.limit region;
      hr ← make_region (RegionAlloc region) true start limit;
      a ← region_allocate hr l;
      p ← unwrap a.1;
      Ret (Some p, a.2 :: rs, r.2)
  end.

Definition alloc (rs : HeapRegionList) (original : Layout) (s : S)
    : outcome (option Z * HeapRegionList * S) :=
  al ← align_layout original;
  match al with
  | None => Ret (None, rs, s)
  | Some l =>
      r ← do_allocate rs l;
      match r.1 with
      | Some p => Ret (Some p, r.2, s)
      | None => expand_and_allocate r.2 l s
      end
  end.

(** Dropping a [HeapRegion] drops its payload's region. *)
Definition drop_heap_region (hr : HeapRegion) (s : S) : outcome S :=
  match payload hr with
  | Some pl => match alloc_region pl with RegionAlloc r => hr_drop r s | Buffer _ _ => Ret s end
  | None => Ret s
  end.

(** Whether a region that has become empty stays in the list. *)
Definition keep_region (removed : HeapRegion) (rs : HeapRegionList) : outcome bool :=
  if negb (can_free removed) then Ret true
  else if region_free_space removed <? MINIMUM_HEAP_REGION_SIZE then
    f ← heap_free_space rs; Ret (f <? HEAP_RESERVE_LIMIT)
  else Ret false.

Definition dealloc (rs : HeapRegionList) (ptr : Z) (original : Layout) (s : S)
    : outcome (HeapRegionList * S) :=
  al ← align_layout original;
  match al with
  | None => Ret (rs, s)
  | Some l =>
      r ← do_deallocate rs ptr l;
      match r.1 with
      | None => Ret (r.2, s)
      | Some removed =>
          k ← keep_region removed r.2;
          if (k : bool) then Ret (removed :: r.2, s)
          else s' ← drop_heap_region removed s; Ret (r.2, s')
      end
  end.

(** [SimpleAllocator::new], given whether it ran before and where the static
    buffer lies. *)
Definition new_allocator (initialized : bool) (region_start : Z) : outcome HeapRegionList :=
  if initialized then Ret []
  else
    region_end ← uadd region_start INITIAL_HEAP_REGION_SIZE;
    hr ← make_region (Buffer region_start INITIAL_HEAP_REGION_SIZE) false region_start region_end;
    Ret [hr].

(** *** The global allocator: [Allocator] behind [ALLOCATOR_IMPL] *)

Definition global_init (allocator : option HeapRegionList) (initialized : bool) (region_start : Z)
    : outcome (option HeapRegionList) :=
  a ← new_allocator initialized region_start; Ret (InitMutex.init allocator a).

Definition global_alloc (allocator : option HeapRegionList) (l : Layout) (s : S)
    : outcome (Z * option HeapRegionList * S) :=
  rs ← InitMutex.lock allocator;
  r ← alloc rs l s;
  Ret (default 0 r.1.1, Some r.1.2, r.2).

Definition global_dealloc (allocator : option HeapRegionList) (ptr : Z) (l : Layout) (s : S)
    : outcome (option HeapRegionList * S) :=
  rs ← InitMutex.lock allocator;
  p ← (if ptr =? 0 then Panic UnwrapNone else Ret ptr);
  r ← dealloc rs p l s;
  Ret (Some r.1, r.2).

Definition global_allocated_space (allocator : option HeapRegionList) : outcome Z :=
  rs ← InitMutex.lock allocator; heap_allocated_space rs.
Definition global_free_space (allocator : option HeapRegionList) : outcome Z :=
  rs ← InitMutex.lock allocator; heap_free_space rs.

End heap.

(** * Specification *)

(** What paging promises the heap: when it is ready for a request it answers it,
    with a region of whole pages inside a window of addresses, disjoint from those
    already held; a held region can be dropped. *)
Class HeapRegionsLaws (S : Type) `{HeapRegions S} := {
  hr_base : Z;
  hr_limit : Z;
  hr_inv : S → gset (Z * Z) → Prop;
  hr_ready : S → Z → Prop;
  hr_window : 0 < hr_base ∧ 0x10000 ≤ hr_limit ∧ hr_limit + min_alignment < usize_limit;
  hr_allocate_ok : ∀ s X pages, hr_inv s X → 0 < pages → hr_ready s pages →
    ∃ r s', hr_allocate pages s = Ret (r, s') ∧
    match r with
    | Err _ => hr_inv s' X
    | Ok region => ∃ start, let limit := start + pages * PAGE_SIZE in
        Region.start region = Ret start ∧ Region.limit region = Ret limit ∧
        Region.info region = Regions.mkRegionInfo start limit ∧
        start mod PAGE_SIZE = 0 ∧ hr_base ≤ start ∧ limit ≤ hr_limit ∧
        (∀ a b, (a, b) ∈ X → b ≤ start ∨ limit ≤ a) ∧ hr_inv s' ({[(start, limit)]} ∪ X)
    end;
  hr_drop_ok : ∀ s X region start limit, hr_inv s X → (start, limit) ∈ X →
    Region.info region = Regions.mkRegionInfo start limit →
    ∃ s', hr_drop region s = Ret s' ∧ hr_inv s' (X ∖ {[(start, limit)]}) }.

(** The view of a region from outside: its range, whether it is the static
    buffer, and the blocks that clients hold in it. *)
Record ghost := mkGhost {
  g_start : Z; g_limit : Z; g_buffer : bool; g_live : gmap Z AlignedLayout }.

Definition with_live (g : ghost) (live : gmap Z AlignedLayout) : ghost :=
  mkGhost (g_start g) (g_limit g) (g_buffer g) live.

Definition live_in (gs : list ghost) (p : Z) (l : AlignedLayout) : Prop :=
  ∃ g, g ∈ gs ∧ g_live g !! p = Some l.

Definition outside (g g' : ghost) : Prop := g_limit g ≤ g_start g' ∨ g_limit g' ≤ g_start g.

(** No two regions overlap. *)
Fixpoint apart (gs : list ghost) : Prop :=
  match gs with [] => True | g :: gs' => Forall (outside g) gs' ∧ apart gs' end.

(** The ranges that came from the region manager. *)
Definition held_ranges (gs : list ghost) : gset (Z * Z) :=
  list_to_set ((λ g, (g_start g, g_limit g)) <$> filter (λ g, g_buffer g = false) gs).

Section spec.
Context {S : Type} `{HeapRegionsLaws S}.
Context (size_of_HeapRegion free_list_offset : Z).
Abbreviation hsize := size_of_HeapRegion.

(** The header fits its alignment and leaves room in a page. *)
Definition header_ok : Prop := 0 < hsize ∧ hsize mod 8 = 0 ∧ hsize + 16 ≤ PAGE_SIZE.

Definition payload_ok (g : ghost) (pl : HeapRegionPayload) : Prop :=
  payload_can_free pl = negb (g_buffer g) ∧
  if g_buffer g then
    alloc_region pl = Buffer (g_start g) (g_limit g - g_start g) ∧
    (g_limit g ≤ hr_base ∨ hr_limit ≤ g_start g)
  else ∃ r, alloc_region pl = RegionAlloc r ∧
    Region.start r = Ret (g_start g) ∧ Region.limit r = Ret (g_limit g) ∧
    Region.info r = Regions.mkRegionInfo (g_start g) (g_limit g) ∧
    hr_base ≤ g_start g ∧ g_limit g ≤ hr_limit.

(** A region manages the memory behind its header: free bytes and live blocks
    partition it. *)
Definition region_ok (hr : HeapRegion) (g : ghost) : Prop :=
  region_addr hr = g_start g ∧ 0 < g_start g ∧
  ∃ pl, payload hr = Some pl ∧ payload_ok g pl ∧
    partition (g_start g + hsize) (g_limit g) (free_list pl, g_live g).

Record heap_ok (rs : HeapRegionList) (gs : list ghost) (s : S) : Prop := {
  heap_regions : Forall2 region_ok rs gs;
  heap_apart : apart gs;
  heap_held : hr_inv s (held_ranges gs) }.

(** No address computed for a request overflows, in any region there is or may
    come. *)
Definition heap_room (gs : list ghost) (l : AlignedLayout) : Prop :=
  Forall (λ g, room (g_limit g) l) gs ∧ room hr_limit l.

(** Paging is ready for the region a request needs, if it needs one. *)
Definition may_expand (rs : HeapRegionList) (o : Layout) (s : S) : Prop :=
  ∀ l pages, align_layout o = Ret (Some l) → do_allocate rs l = Ret (None, rs) →
    expansion_pages hsize l = Ret pages → hr_ready s pages.

(** * Proofs *)

Lemma with_free_list_id hr pl : payload hr = Some pl → with_free_list hr pl (free_list pl) = hr.
Proof. intros Hp. destruct hr as [a [p|]]; cbn in *; simplify_eq. by destruct pl. Qed.

Lemma region_allocate_ok hr g l :
  region_ok hr g → layout_ok l → room (g_limit g) l →
  region_allocate hr l = Ret (None, hr) ∧
    Forall (λ h, fits h l = false) (from_option (nodes ∘ free_list) [] (payload hr)) ∨
  ∃ p hr', region_allocate hr l = Ret (Some p, hr') ∧
    region_ok hr' (with_live g (<[p := l]> (g_live g))) ∧ g_live g !! p = None ∧
    p mod al_align l = 0 ∧ g_start g + hsize ≤ p ∧ p + al_size l ≤ g_limit g.
Proof.
  intros (Ha & Hpos & pl & Hpl & Hpay & Hpart) Hl Hr. unfold region_allocate. rewrite Hpl.
  destruct (allocate_ok _ _ (free_list pl) l (part_wf _ _ _ Hpart) Hl Hr)
    as [[-> HF]|(p & fl' & E & Hwf' & (_ & Hal & Htk & _) & Hlo & Hhi)].
  - left. cbn [mbind outcome_bind fst snd]. split; [|done]. by rewrite with_free_list_id.
  - right. rewrite E. cbn [mbind outcome_bind fst snd]. exists p. eexists. split; [done|].
    assert (g_live g !! p = None) as Hnone.
    { apply eq_None_not_Some. intros [lq Hq]. destruct (part_block _ _ _ Hpart p lq Hq) as ((? & _) & _).
      assert (∀ n, covers (block p n) p ↔ 0 < al_size n) as Hcov
        by (intros; unfold covers, block, hole_end; cbn; lia).
      destruct Hl as (? & _). unfold min_alloc_size in *.
      apply (part_free _ _ _ Hpart p lq p Hq); [apply Hcov; lia|]. apply Htk, Hcov. lia. }
    split_and!; try done. split_and!; cbn; [done|done|]. eexists. split; [done|]. split; [done|].
    by eapply partition_alloc.
Qed.

Lemma do_allocate_ok rs gs l :
  Forall2 region_ok rs gs → layout_ok l → Forall (λ g, room (g_limit g) l) gs →
  do_allocate rs l = Ret (None, rs) ∨
  ∃ p rs' pre g post, do_allocate rs l = Ret (Some p, rs') ∧ gs = pre ++ g :: post ∧
    Forall2 region_ok rs' (pre ++ with_live g (<[p := l]> (g_live g)) :: post) ∧
    g_live g !! p = None ∧ p mod al_align l = 0 ∧
    g_start g + hsize ≤ p ∧ p + al_size l ≤ g_limit g.
Proof.
  intros HF Hl. induction HF as [|hr g rs gs Hok HF IH]; intros Hroom; [by left|].
  apply Forall_cons in Hroom as [Hr Hroom]. cbn [do_allocate].
  destruct (region_allocate_ok hr g l Hok Hl Hr) as [[-> _]|(p & hr' & -> & Hok' & Hrest)];
    cbn [mbind outcome_bind fst snd].
  - destruct (IH Hroom) as [->|(p & rs' & pre & g' & post & -> & -> & HF' & Hrest)];
      cbn [mbind outcome_bind fst snd]; [by left|].
    right. exists p, (hr :: rs'), (g :: pre), g', post. split_and!; try done; try apply Hrest.
    by constructor.
  - right. exists p, (hr' :: rs), [], g, gs. split_and!; try done; try apply Hrest. by constructor.
Qed.

(** *** Regions do not overlap *)

Lemma outside_sym g g' : outside g g' → outside g' g.
Proof. unfold outside. lia. Qed.

Lemma apart_middle pre g post : apart (pre ++ g :: post) ↔ Forall (outside g) (pre ++ post) ∧ apart (pre ++ post).
Proof.
  induction pre as [|x pre IH]; cbn; [done|]. rewrite IH. clear IH.
  rewrite !Forall_app, !Forall_cons, ?Forall_app.
  pose proof (outside_sym x g). pose proof (outside_sym g x). tauto.
Qed.

Lemma apart_with_live pre g live post :
  apart (pre ++ with_live g live :: post) ↔ apart (pre ++ g :: post).
Proof. by rewrite !apart_middle. Qed.

Lemma held_middle pre g post :
  held_ranges (pre ++ g :: post) =
  (if g_buffer g then ∅ else {[(g_start g, g_limit g)]}) ∪ held_ranges (pre ++ post).
Proof.
  unfold held_ranges. rewrite !filter_app, filter_cons.
  destruct (g_buffer g); cbn; rewrite !fmap_app, !list_to_set_app_L; cbn; set_solver.
Qed.

Lemma held_elem gs a b : (a, b) ∈ held_ranges gs ↔ ∃ g, g ∈ gs ∧ g_buffer g = false ∧ g_start g = a ∧ g_limit g = b.
Proof.
  unfold held_ranges. rewrite elem_of_list_to_set, list_elem_of_fmap. setoid_rewrite list_elem_of_filter.
  naive_solver.
Qed.

Lemma live_in_middle pre g post p l :
  live_in (pre ++ g :: post) p l ↔ g_live g !! p = Some l ∨ live_in (pre ++ post) p l.
Proof. unfold live_in. set_solver. Qed.

(** *** Growing the heap *)

Lemma pow2_cases a : is_power_of_two a = true → (a | PAGE_SIZE) ∨ (PAGE_SIZE | a) ∧ PAGE_SIZE < a.
Proof.
  intros (k & Hk & ->)%is_power_of_two_spec. change PAGE_SIZE with (2 ^ 12).
  destruct (decide (k ≤ 12)) as [Hle|Hgt].
  - left. apply pow2_divide. lia.
  - right. split; [apply pow2_divide; lia|]. apply Z.pow_lt_mono_r; lia.
Qed.

Lemma mod_trans a n m : 0 < n → (n | m) → a mod m = 0 → a mod n = 0.
Proof.
  intros Hn Hnm Ha. destruct (decide (m = 0)) as [->|Hm].
  - rewrite Z.mod_0_r_ext in Ha by done. subst. apply Z.mod_0_l. lia.
  - apply Z.mod_divide; [lia|]. transitivity m; [done|]. by apply Z.mod_divide.
Qed.

(** Padding computed from the offset in the region is enough wherever the
    region lies. *)
Lemma round_up_offset start x a :
  is_power_of_two a = true → start mod PAGE_SIZE = 0 → 0 < x ≤ PAGE_SIZE →
  round_up (start + x) a ≤ start + round_up x a.
Proof.
  intros Hp Hs Hx. assert (0 < a) as Ha.
  { apply is_power_of_two_spec in Hp as (k & ? & ->). by apply Z.pow_pos_nonneg. }
  pose proof (round_up_bounds x a Ha) as Hb. pose proof (round_up_mod x a Ha) as Hm.
  destruct (pow2_cases a Hp) as [Hd|[Hd Hlt]].
  - apply round_up_least; [done|lia|].
    assert (start mod a = 0) as Hsa by (by eapply mod_trans).
    rewrite Z.add_mod, Hsa, Hm by lia. apply Z.mod_0_l. lia.
  - destruct (mod_0_mul _ _ Ha Hm) as [q Hq].
    assert (0 < a * q) as Hq0 by lia. assert (0 < q) by (apply (Z.mul_pos_cancel_l a); lia).
    assert (a ≤ round_up x a) by (rewrite Hq; nia).
    destruct Hd as [d Hd]. destruct (mod_0_mul start PAGE_SIZE ltac:(done) Hs) as [n Hn].
    transitivity (a * (start / a + 1)).
    + apply round_up_least; [done| |by rewrite Z.mul_comm; apply Z.mod_mul; lia].
      pose proof (Z.div_mod start a ltac:(lia)) as Hdm. pose proof (Z.mod_pos_bound start a Ha) as Hmb.
      set (q' := start / a) in *. clearbody q'. set (r := start mod a) in *. clearbody r.
      assert (r = PAGE_SIZE * (n - d * q')) as Heq.
      { replace (PAGE_SIZE * (n - d * q')) with (PAGE_SIZE * n - d * PAGE_SIZE * q') by ring.
        rewrite <- Hn, <- Hd. lia. }
      assert (n - d * q' < d) as Hk by (unfold PAGE_SIZE in *; lia).
      unfold PAGE_SIZE in *. lia.
    + pose proof (Z.div_mod start a ltac:(lia)). pose proof (Z.mod_pos_bound start a Ha). nia.
Qed.

(** The padding in front of the block, in closed form. *)
Definition front_padding_of (l : AlignedLayout) : Z :=
  if hsize =? round_up hsize (al_align l) then 0 else round_up (hsize + 16) (al_align l) - hsize.

Lemma front_padding_run l :
  header_ok → layout_ok l → al_align l + 0x2000 < usize_limit →
  (if hsize =? round_up hsize (al_align l) then Ret 0
   else s ← uadd hsize 16; e ← align_up s (al_align l); usub e hsize) = Ret (front_padding_of l) ∧
  0 ≤ front_padding_of l ≤ al_align l + 16.
Proof.
  intros (Hh0 & _ & Hhp) (_ & _ & Hp & Ha8) Hb. unfold min_alignment, PAGE_SIZE, front_padding_of in *.
  pose proof (round_up_bounds (hsize + 16) (al_align l) ltac:(lia)). case_bool; [split; [done|lia]|].
  rewrite uadd_ok by lia. cbn [mbind outcome_bind].
  rewrite align_up_pow2 by (done || lia). cbn [mbind outcome_bind]. rewrite usub_ok by lia. split; [done|lia].
Qed.

Lemma front_padding_fits l start size :
  header_ok → layout_ok l → start mod PAGE_SIZE = 0 →
  fit_start (mkHole (start + hsize) size) l ≤ start + hsize + front_padding_of l.
Proof.
  intros (Hh0 & Hh8 & Hhp) (_ & _ & Hp & Ha8) Hst. unfold min_alignment in Ha8.
  unfold fit_start, min_alloc_size, front_padding_of. cbn [h_addr].
  pose proof (round_up_bounds (hsize + 16) (al_align l) ltac:(lia)).
  destruct (Z.eqb_spec ((start + hsize) mod al_align l) 0) as [|Hne]; [case_bool; lia|].
  assert (hsize ≠ round_up hsize (al_align l)) as Hne'.
  { intros Heq. symmetry in Heq. apply round_up_eq_iff in Heq; [|lia]. apply Hne.
    destruct (pow2_cases _ Hp) as [Hd|[_ Hlt]].
    - assert (start mod al_align l = 0) as Hsa by (eapply mod_trans; [lia|done|done]).
      rewrite Z.add_mod, Hsa, Heq by lia. apply Z.mod_0_l. lia.
    - rewrite Z.mod_small in Heq by (unfold PAGE_SIZE in *; lia). lia. }
  rewrite (proj2 (Z.eqb_neq _ _)) by done. rewrite <- Z.add_assoc.
  pose proof (round_up_offset start (hsize + 16) (al_align l) Hp Hst). lia.
Qed.

Lemma expansion_pages_ok l :
  header_ok → layout_ok l → al_align l + al_size l + 0x8000 < usize_limit →
  ∃ pages, expansion_pages hsize l = Ret pages ∧ 0 < pages ∧
    hsize + 16 ≤ pages * PAGE_SIZE ∧
    ∀ start, start mod PAGE_SIZE = 0 →
      fits (mkHole (start + hsize) (pages * PAGE_SIZE - hsize)) l = true.
Proof.
  intros Hhd Hl Hb. pose proof Hhd as (Hh0 & Hh8 & Hhp). pose proof Hl as (Hs & Hs8 & Hp & Ha8).
  unfold min_alloc_size, min_alignment in *.
  destruct (front_padding_run l Hhd Hl ltac:(lia)) as [Hrun Hf].
  unfold expansion_pages, min_alloc_size, min_alignment.
  rewrite (align_up_pow2 hsize 8) by (done || unfold PAGE_SIZE in *; lia).
  rewrite (round_up_id hsize 8) by done. cbn [mbind outcome_bind].
  rewrite (align_up_pow2 hsize (al_align l)) by (done || unfold PAGE_SIZE in *; lia). cbn [mbind outcome_bind].
  rewrite Hrun. cbn [mbind outcome_bind]. do 2 step_by ltac:(unfold PAGE_SIZE in *; lia).
  set (required := hsize + front_padding_of l + al_size l) in *.
  assert (0 < required ∧ required + 0x5000 < usize_limit) as Hreq by (unfold required, PAGE_SIZE in *; lia).
  pose proof (round_up_bounds required PAGE_SIZE ltac:(done)) as Hb3.
  pose proof (round_up_mod required PAGE_SIZE ltac:(done)) as Hm3.
  pose proof (round_up_bounds (required + 16) PAGE_SIZE ltac:(done)) as Hb4.
  rewrite (align_up_pow2 required PAGE_SIZE) by (done || unfold PAGE_SIZE in *; lia). cbn [mbind outcome_bind].
  destruct (Z.eqb_spec hsize (round_up required PAGE_SIZE)) as [He|_].
  { exfalso. destruct (mod_0_mul _ _ (eq_refl : 0 < PAGE_SIZE) Hm3) as [q Hq]. unfold PAGE_SIZE in *. nia. }
  step_by ltac:(unfold PAGE_SIZE in *; lia).
  rewrite (align_up_pow2 (required + 16) PAGE_SIZE) by (done || unfold PAGE_SIZE in *; lia). cbn [mbind outcome_bind].
  rewrite usub_ok by lia. cbn [mbind outcome_bind]. step_by ltac:(unfold PAGE_SIZE in *; lia).
  replace (required + (round_up (required + 16) PAGE_SIZE - required)) with (round_up (required + 16) PAGE_SIZE) by lia.
  set (total := Z.max (round_up (required + 16) PAGE_SIZE) MINIMUM_HEAP_REGION_SIZE).
  assert (total / PAGE_SIZE * PAGE_SIZE = total) as Htp.
  { assert (total mod PAGE_SIZE = 0); [|pose proof (Z.div_mod total PAGE_SIZE ltac:(done)); lia].
    unfold total. pose proof (round_up_mod (required + 16) PAGE_SIZE ltac:(done)).
    destruct (Z.max_spec (round_up (required + 16) PAGE_SIZE) MINIMUM_HEAP_REGION_SIZE) as [[_ ->]|[_ ->]]; done. }
  assert (required + 16 ≤ total ∧ 0x10000 ≤ total) as Ht
    by (unfold total, MINIMUM_HEAP_REGION_SIZE, MINIMUM_HEAP_REGION_PAGES, PAGE_SIZE in *; lia).
  exists (total / PAGE_SIZE). split; [done|]. rewrite Htp. split_and!; [unfold PAGE_SIZE in *; lia..|].
  intros start Hst. pose proof (front_padding_fits l start (total - hsize) Hhd Hl Hst).
  unfold fits, hole_end. cbn [h_addr h_size]. apply orb_true_iff. right. apply Z.leb_le.
  unfold min_alloc_size, required in *. lia.
Qed.

Lemma Forall2_elem_r {A B} (R : A → B → Prop) l k : Forall2 R l k → ∀ y, y ∈ k → ∃ x, R x y.
Proof. induction 1; set_solver. Qed.

Lemma make_region_ok a cf start limit :
  header_ok → 0 < start → start mod 8 = 0 → limit mod 8 = 0 →
  start + hsize + 16 ≤ limit → limit + min_alignment < usize_limit →
  ∃ fl, make_region hsize free_list_offset a cf start limit =
          Ret (mkHeapRegion start (Some (mkPayload a cf fl))) ∧
    nodes fl = [mkHole (start + hsize) (limit - start - hsize)] ∧
    partition (start + hsize) limit (fl, ∅).
Proof.
  intros (Hh0 & Hh8 & Hhp) Hs0 Hs8 Hl8 Hle Hlim. unfold make_region, HEAP_REGION_ALIGN, min_alignment in *.
  rewrite (align_up_pow2 start 8) by (done || unfold PAGE_SIZE in *; lia). cbn [mbind outcome_bind].
  rewrite (round_up_id start 8) by done. unfold saturating_sub. rewrite (proj2 (Z.leb_le start limit)) by lia.
  step_by ltac:(lia). step_by ltac:(lia).
  assert ((start + hsize) mod 8 = 0) as Hm by (rewrite Z.add_mod, Hs8, Hh8 by done; done).
  destruct (new_ok (start + free_list_offset) (start + hsize) limit) as (fl & Hnew & Hn & _ & _).
  { lia. } { unfold min_alloc_size, min_alignment. rewrite round_up_id by done. lia. } { done. } { done. }
  assert (partition (round_up (start + hsize) min_alignment) limit (fl, ∅)) as Hpart.
  { eapply (partition_init (start + free_list_offset)); [lia| |done|done|done].
    unfold min_alloc_size, min_alignment. rewrite round_up_id by done. lia. }
  unfold min_alignment in *. rewrite round_up_id in Hn, Hpart by done.
  rewrite Hnew. cbn [mbind outcome_bind]. exists fl. split_and!; [done| |done].
  rewrite Hn. do 2 f_equal. lia.
Qed.

(** The regions a request leaves behind: those of before, with the new block. *)
Definition block_added (gs gs' : list ghost) (p : Z) (l : AlignedLayout) : Prop :=
  ∀ q lq, live_in gs' q lq ↔ (q = p ∧ lq = l) ∨ live_in gs q lq.

Lemma expand_and_allocate_ok rs gs s l :
  header_ok → heap_ok rs gs s → layout_ok l → room hr_limit l →
  (∀ pages, expansion_pages hsize l = Ret pages → hr_ready s pages) →
  ∃ r rs' s', expand_and_allocate hsize free_list_offset rs l s = Ret (r, rs', s') ∧
  match r with
  | None => rs' = rs ∧ heap_ok rs gs s'
  | Some p => ∃ g, heap_ok rs' (g :: gs) s' ∧ g_live g = {[p := l]} ∧
      p mod al_align l = 0 ∧ g_start g ≤ p ∧ p + al_size l ≤ g_limit g ∧ g_limit g ≤ hr_limit
  end.
Proof.
  intros Hhd [Hreg Hap Hinv] Hl Hroom Hready. pose proof hr_window as (Hw0 & Hw1 & Hw2).
  unfold room, min_alloc_size in Hroom. unfold expand_and_allocate.
  destruct (expansion_pages_ok l Hhd Hl ltac:(lia)) as (pages & Hpages & Hp0 & Hpl & Hfits). rewrite Hpages. cbn [mbind outcome_bind].
  destruct (hr_allocate_ok s _ pages Hinv Hp0 (Hready pages Hpages)) as (r & s' & -> & Hr). cbn [mbind outcome_bind fst snd].
  destruct r as [region|e]; [|by eexists _, _, _].
  destruct Hr as (start & Hrs & Hrl & Hri & Hpage & Hbase & Hlimit & Hdis & Hinv').
  set (limit := start + pages * PAGE_SIZE) in *.
  rewrite Hrs, Hrl. cbn [mbind outcome_bind]. unfold header_ok, min_alignment in *.
  assert (start mod 8 = 0) as Hs8 by (eapply (mod_trans _ 8 PAGE_SIZE); [done|by exists 512|done]).
  assert (limit mod 8 = 0) as Hl8.
  { unfold limit. rewrite Z.add_mod, Hs8 by done. replace (pages * PAGE_SIZE) with (pages * 512 * 8) by (unfold PAGE_SIZE; lia).
    by rewrite Z.mod_mul. }
  destruct (make_region_ok (RegionAlloc region) true start limit) as (fl & -> & Hnodes & Hpart);
    [done|lia|done|done|unfold limit; lia|unfold min_alignment; lia|]. cbn [mbind outcome_bind].
  set (g := mkGhost start limit false ∅).
  assert (region_ok (mkHeapRegion start (Some (mkPayload (RegionAlloc region) true fl))) g) as Hok.
  { split_and!; cbn; [done|lia|]. eexists. split; [done|]. split; [|done]. split; [done|]. cbn. eauto 8. }
  destruct (region_allocate_ok _ _ l Hok Hl) as [[_ Hno]|(p & hr' & -> & Hok' & _ & Hal & Hlo & Hhi)].
  { unfold room, min_alloc_size. cbn. lia. }
  { exfalso. cbn in Hno. rewrite Hnodes in Hno. apply Forall_cons in Hno as [Hno _].
    replace (limit - start - hsize) with (pages * PAGE_SIZE - hsize) in Hno by (unfold limit; lia).
    rewrite Hfits in Hno by done. done. }
  cbn [mbind outcome_bind unwrap fst snd]. eexists _, _, _. split; [done|].
  exists (with_live g (<[p := l]> (g_live g))). cbn in *. split_and!; [|done|done|lia|done|done].
  split; [by constructor| |].
  - cbn. split; [|done]. apply Forall_forall. intros g' Hg'. unfold outside. cbn.
    destruct (Forall2_elem_r _ _ _ Hreg g' Hg') as (hr0 & (_ & _ & pl & _ & (_ & Hpay) & _)).
    destruct (g_buffer g') eqn:Hbuf.
    + lia.
    + destruct (Hdis (g_start g') (g_limit g')) as [|]; [|lia|lia]. apply held_elem. eauto.
  - change (hr_inv s' (held_ranges ([] ++ with_live g {[p := l]} :: gs))). rewrite held_middle. done.
Qed.

(** *** Where blocks are *)

Lemma live_range hr g p l :
  region_ok hr g → g_live g !! p = Some l →
  layout_ok l ∧ g_start g + hsize ≤ p ∧ p + al_size l ≤ g_limit g.
Proof.
  intros (_ & _ & pl & _ & _ & Hpart) Hp. destruct (part_block _ _ _ Hpart p l Hp) as (? & ? & ? & _). done.
Qed.

(** A block is in one region only. *)
Lemma live_elsewhere rs gs g p l' size :
  header_ok → Forall2 region_ok rs gs → Forall (outside g) gs →
  g_start g ≤ p → 0 < size → p + size ≤ g_limit g → live_in gs p l' → False.
Proof.
  intros (Hh & _) HF Hout Hlo Hs Hhi (g' & Hg' & Hp).
  destruct (Forall2_elem_r _ _ _ HF g' Hg') as (hr & Hok).
  destruct (live_range _ _ _ _ Hok Hp) as ((? & _) & ? & ?).
  rewrite Forall_forall in Hout. specialize (Hout g' Hg'). unfold outside, min_alloc_size in *. lia.
Qed.

Lemma divides_max_align a : is_power_of_two a = true → (a | Z.max a min_alignment).
Proof.
  intros (k & Hk & ->)%is_power_of_two_spec. unfold min_alignment. change 8 with (2 ^ 3).
  destruct (decide (3 ≤ k)).
  - rewrite Z.max_l by (apply Z.pow_le_mono_r; lia). done.
  - rewrite Z.max_r by (apply Z.pow_le_mono_r; lia). apply pow2_divide. lia.
Qed.

(** The layout a request is turned into, and the room it needs. *)
Lemma request_layout o top :
  0 ≤ top → 0 ≤ layout_size o → is_power_of_two (layout_align o) = true →
  top + layout_size o + layout_align o + 64 < usize_limit →
  ∃ l, align_layout o = Ret (Some l) ∧ layout_ok l ∧ layout_size o ≤ al_size l ∧
    (layout_align o | al_align l) ∧ ∀ x, x ≤ top → room x l.
Proof.
  intros Ht Hs Hp Hb. pose proof Hp as (k & Hk & Ek)%is_power_of_two_spec.
  pose proof (Z.pow_pos_nonneg 2 k ltac:(lia) Hk).
  destruct (align_layout_ok o) as (l & E & Hok & Hsz & Hal); [done|unfold min_alignment; lia|done|unfold min_alignment; lia|].
  pose proof (round_up_bounds (Z.max (layout_size o) min_alloc_size) min_alignment ltac:(done)) as Hb1.
  exists l. rewrite Hal. split_and!; [done|done|lia|by apply divides_max_align|].
  intros x Hx. unfold room, min_alloc_size, min_alignment in *. lia.
Qed.

(** What [alloc] does on a well-formed heap. *)
Lemma alloc_ok rs gs s o top :
  header_ok → heap_ok rs gs s →
  0 ≤ layout_size o → is_power_of_two (layout_align o) = true →
  Forall (λ g, g_limit g ≤ top) gs → hr_limit ≤ top →
  top + layout_size o + layout_align o + 64 < usize_limit → may_expand rs o s →
  ∃ r rs' s', alloc hsize free_list_offset rs o s = Ret (r, rs', s') ∧
  match r with
  | None => rs' = rs ∧ heap_ok rs gs s'
  | Some p => ∃ gs' l, heap_ok rs' gs' s' ∧ align_layout o = Ret (Some l) ∧
      layout_size o ≤ al_size l ∧ p mod layout_align o = 0 ∧
      (∀ l', ¬ live_in gs p l') ∧ block_added gs gs' p l ∧ Forall (λ g, g_limit g ≤ top) gs'
  end.
Proof.
  intros Hhd Hheap Hs Hp Htops Htop Hroom Hexp. pose proof hr_window as (_ & Hw & _).
  assert (0 < layout_align o) as Ha0.
  { apply is_power_of_two_spec in Hp as (k & ? & ->). by apply Z.pow_pos_nonneg. }
  destruct (request_layout o top) as (l & Hal & Hl & Hsz & Hdiv & Hrm); [lia|done..|].
  unfold alloc. rewrite Hal. cbn [mbind outcome_bind].
  assert (0 < al_size l) as Hpos by (destruct Hl as (? & _); unfold min_alloc_size in *; lia).
  destruct (do_allocate_ok rs gs l (heap_regions _ _ _ Hheap) Hl) as
    [Hfull|(p & rs' & pre & g & post & -> & -> & HF' & Hnone & Hmod & Hlo & Hhi)].
  - eapply Forall_impl; [done|]. intros g. apply Hrm.
  - rewrite Hfull. cbn [mbind outcome_bind fst snd].
    destruct (expand_and_allocate_ok rs gs s l Hhd Hheap Hl) as (r & rs' & s' & -> & Hr);
      [by apply Hrm|intros pages; by apply Hexp|].
    eexists _, _, _. split; [done|]. destruct r as [p|]; [|done].
    destruct Hr as (g & Hheap' & Hlive & Hmod & Hlo & Hhi & Hgl). exists (g :: gs), l.
    split_and!; try done; [by eapply mod_trans| | |].
    + intros l' Hin. pose proof (heap_apart _ _ _ Hheap') as [Hout _].
      by eapply (live_elsewhere rs gs g p l' (al_size l) Hhd (heap_regions _ _ _ Hheap) Hout).
    + intros q lq. change (g :: gs) with ([] ++ g :: gs). rewrite live_in_middle, Hlive, lookup_singleton_Some.
      naive_solver.
    + constructor; [lia|done].
  - cbn [mbind outcome_bind fst snd]. eexists _, _, _. split; [done|].
    destruct Hheap as [HF Hap Hinv]. eexists _, l. split_and!; [split; [exact HF'|by rewrite apart_with_live|]|done|done| | | |].
    + rewrite held_middle in Hinv |- *. done.
    + by eapply mod_trans.
    + intros l' [Hin|Hin]%live_in_middle; [congruence|].
      apply apart_middle in Hap as [Hout _].
      apply Forall2_app_inv_r in HF as (rpre & rpost & HF1 & HF2 & ->).
      inversion HF2 as [|hr ? rpost' ? Hg HF3]; subst.
      eapply (live_elsewhere (rpre ++ rpost') (pre ++ post) g p l' (al_size l) Hhd); [by apply Forall2_app|done| |done|done|done].
      destruct Hhd. lia.
    + intros q lq. rewrite !live_in_middle. cbn. rewrite lookup_insert_Some. split; [naive_solver|].
      intros [[-> ->]|[Hq|Hq]]; [by left; left| |by right]. left. right. split; [|done]. congruence.
    + rewrite Forall_app, Forall_cons in Htops |- *. done.
Qed.

(** What [alloc] does to the rest of the kernel: nothing, or one call. *)
Lemma alloc_calls rs o s l pages r rs' s' :
  align_layout o = Ret (Some l) → expansion_pages hsize l = Ret pages →
  alloc hsize free_list_offset rs o s = Ret (r, rs', s') →
  (s' = s ∧ is_Some r) ∨ ∃ x, hr_allocate pages s = Ret (x, s') ∧ ∀ region, x = Ok region → is_Some r.
Proof.
  intros Hal Hpg. unfold alloc. rewrite Hal, bind_bind_Ret.
  intros ([[p|] rs1] & _ & E)%bind_Ret_inv; cbn [fst snd] in E; [left; injection E as <- _ <-; by split|right].
  unfold expand_and_allocate in E. rewrite Hpg, bind_bind_Ret in E.
  apply bind_Ret_inv in E as ([x s1] & Hx & E). cbn [fst snd] in E. destruct x as [region|e].
  - do 4 apply bind_Ret_inv in E as (? & _ & E). apply bind_Ret_inv in E as (p & _ & E). injection E as <- _ <-.
    exists (Ok region). split; [exact Hx|]. eauto.
  - injection E as <- _ <-. exists (Err e). by split.
Qed.

(** *** Giving blocks back *)

Lemma contains_inside g pl p size :
  payload_ok g pl → 0 < g_start g → g_limit g < usize_limit →
  g_start g ≤ p → 0 < size → p + size ≤ g_limit g →
  contains (alloc_region pl) p size = Ret true.
Proof.
  intros (_ & Hpay) H0' Hlim Hlo Hs Hhi. destruct (g_buffer g).
  - destruct Hpay as [-> _]. cbn [contains]. rewrite uadd_ok by lia. cbn [mbind outcome_bind].
    rewrite (proj2 (Z.leb_le _ _)) by lia. rewrite usub_ok by lia. cbn [mbind outcome_bind].
    by rewrite (proj2 (Z.leb_le _ _)) by lia.
  - destruct Hpay as (r & -> & Hrs & Hrl & _). cbn [contains]. rewrite Hrs. cbn [mbind outcome_bind].
    rewrite (proj2 (Z.leb_le _ _)) by lia. rewrite Hrl. cbn [mbind outcome_bind].
    rewrite (proj2 (Z.leb_le _ _)) by lia. rewrite usub_ok by lia. cbn [mbind outcome_bind].
    by rewrite (proj2 (Z.leb_le _ _)) by lia.
Qed.

Lemma contains_outside g pl p size :
  payload_ok g pl → 0 < g_start g ≤ g_limit g → g_limit g < usize_limit → 0 < size →
  p < g_start g ∨ g_limit g < p →
  contains (alloc_region pl) p size =
    if g_buffer g && (g_limit g <? p) then Panic Overflow else Ret false.
Proof.
  intros (_ & Hpay) H0' Hlim Hs Hp. destruct (g_buffer g).
  - destruct Hpay as [-> _]. cbn [contains andb]. rewrite uadd_ok by lia. cbn [mbind outcome_bind].
    replace (g_start g + (g_limit g - g_start g)) with (g_limit g) by lia.
    destruct (Z.ltb_spec (g_limit g) p), (Z.leb_spec (g_start g) p); try lia.
    + unfold usub. by rewrite (proj2 (Z.leb_gt _ _)) by lia.
    + done.
  - destruct Hpay as (r & -> & Hrs & Hrl & _). cbn [contains andb]. rewrite Hrs. cbn [mbind outcome_bind].
    destruct (Z.leb_spec (g_start g) p); [|done]. rewrite Hrl. cbn [mbind outcome_bind].
    by rewrite (proj2 (Z.leb_gt _ _)) by lia.
Qed.

Lemma region_bounds hr g :
  header_ok → region_ok hr g → 0 < g_start g ∧ g_start g + hsize ≤ g_limit g ∧ g_limit g + 8 < usize_limit.
Proof.
  intros _ (_ & H0' & pl & _ & _ & Hpart). destruct (wf_range _ _ _ (part_wf _ _ _ Hpart)) as (? & ? & ?).
  done.
Qed.

Lemma region_deallocate_ok hr g p l :
  header_ok → region_ok hr g → g_live g !! p = Some l →
  ∃ hr', region_deallocate hr p l = Ret (Some (), hr') ∧
    region_ok hr' (with_live g (delete p (g_live g))) ∧
    region_allocated_space hr' = live_size (delete p (g_live g)).
Proof.
  intros Hhd Hok Hp. destruct (region_bounds _ _ Hhd Hok) as (Hb0 & Hb1 & Hb2).
  destruct (live_range _ _ _ _ Hok Hp) as (Hl & Hlo & Hhi). destruct Hhd as (Hh & _).
  destruct Hok as (Ha & H0' & pl & Hpl & Hpay & Hpart). unfold region_deallocate. rewrite Hpl.
  rewrite (contains_inside g pl p (al_size l)); [|done|lia..|destruct Hl as (? & _); unfold min_alloc_size in *; lia|done].
  cbn [mbind outcome_bind].
  destruct (partition_free _ _ _ _ _ _ Hpart Hp) as (fl' & -> & Hpart'). cbn [mbind outcome_bind].
  eexists. split; [done|]. split; [|by apply (part_size _ _ _ Hpart')].
  split_and!; cbn; [done|done|]. eexists. split; [done|]. by split.
Qed.

(** A region that does not hold the block: the static buffer below it panics. *)
Lemma region_skip hr g p l :
  header_ok → region_ok hr g → layout_ok l → p < g_start g ∨ g_limit g < p →
  region_deallocate hr p l =
    if g_buffer g && (g_limit g <? p) then Panic Overflow else Ret (None, hr).
Proof.
  intros Hhd Hok Hl Hp. destruct (region_bounds _ _ Hhd Hok) as (Hb0 & Hb1 & Hb2).
  destruct Hhd as (Hh & _). destruct Hok as (_ & _ & pl & Hpl & Hpay & _).
  unfold region_deallocate. rewrite Hpl. rewrite (contains_outside g pl p (al_size l));
    [|done|lia|lia|destruct Hl as (? & _); unfold min_alloc_size in *; lia|done].
  by destruct (g_buffer g && (g_limit g <? p)).
Qed.

(** The static buffer is in the way of a pointer above it. *)
Definition in_the_way (p : Z) (g : ghost) : bool := g_buffer g && (g_limit g <? p).

Lemma do_deallocate_ok pre : ∀ rs g post p l,
  header_ok → Forall2 region_ok rs (pre ++ g :: post) → apart (pre ++ g :: post) →
  g_live g !! p = Some l →
  if existsb (in_the_way p) pre then do_deallocate rs p l = Panic Overflow
  else ∃ rpre hr' rpost, Forall2 region_ok rpre pre ∧ Forall2 region_ok rpost post ∧
    region_ok hr' (with_live g (delete p (g_live g))) ∧
    do_deallocate rs p l =
      Ret (if live_size (delete p (g_live g)) =? 0 then (Some hr', rpre ++ rpost)
           else (None, rpre ++ hr' :: rpost)).
Proof.
  induction pre as [|x pre IH]; intros rs g post p l Hhd HF Hap Hp; cbn [app existsb] in *;
    inversion HF as [|hr ? rs' ? Hok HF']; subst; cbn [do_deallocate].
  - destruct (region_deallocate_ok hr g p l Hhd Hok Hp) as (hr' & -> & Hok' & Hsz).
    cbn [mbind outcome_bind fst snd]. rewrite Hsz. exists [], hr', rs'. split_and!; [done..|].
    by destruct (live_size (delete p (g_live g)) =? 0).
  - destruct Hap as [Hout Hap].
    destruct (Forall2_elem_r _ _ _ HF' g) as (hrg & Hokg); [set_solver|].
    destruct (live_range _ _ _ _ Hokg Hp) as (Hl & Hlo & Hhi).
    rewrite (region_skip hr x p l Hhd Hok Hl).
    2: { rewrite Forall_forall in Hout. specialize (Hout g ltac:(set_solver)).
         destruct Hhd as (? & _), Hl as (? & _). unfold outside, min_alloc_size in *. lia. }
    unfold in_the_way at 1. destruct (g_buffer x && (g_limit x <? p)); [done|cbn [orb mbind outcome_bind fst snd]].
    specialize (IH rs' g post p l Hhd HF' Hap Hp). destruct (existsb (in_the_way p) pre); [by rewrite IH|].
    destruct IH as (rpre & hr' & rpost & HF1 & HF2 & Hok' & ->). exists (hr :: rpre), hr', rpost.
    split_and!; [by constructor|done|done|]. cbn [mbind outcome_bind].
    by destruct (live_size (delete p (g_live g)) =? 0).
Qed.

(** *** Ranges that do not overlap fit in the address space *)

Definition range_total (gs : list ghost) : Z := foldr (λ g t, g_limit g - g_start g + t) 0 gs.

Lemma apart_filter (Q : ghost → Prop) `{∀ g, Decision (Q g)} gs : apart gs → apart (filter Q gs).
Proof.
  induction gs as [|g gs IH]; [done|]. intros [Hout Hap]. rewrite filter_cons.
  destruct (decide (Q g)); [|by apply IH]. split; [|by apply IH].
  apply Forall_forall. intros g' [_ Hg']%list_elem_of_filter. rewrite Forall_forall in Hout. by apply Hout.
Qed.

Lemma range_total_filter (Q : ghost → Prop) `{∀ g, Decision (Q g)} gs :
  range_total gs = range_total (filter Q gs) + range_total (filter (λ g, ¬ Q g) gs).
Proof.
  induction gs as [|g gs IH]; [done|]. rewrite !filter_cons. cbn [range_total foldr].
  fold (range_total gs). rewrite IH. destruct (decide (Q g)), (decide (¬ Q g)); try done;
    cbn [range_total foldr]; fold (range_total (filter Q gs)); fold (range_total (filter (λ g, ¬ Q g) gs)); lia.
Qed.

Lemma packing n : ∀ gs lo hi,
  (length gs ≤ n)%nat → apart gs → lo ≤ hi →
  Forall (λ g, lo ≤ g_start g ∧ g_start g < g_limit g ∧ g_limit g ≤ hi) gs →
  range_total gs ≤ hi - lo.
Proof.
  induction n as [|n IH]; intros gs lo hi Hn Hap Hle Hall; destruct gs as [|g gs]; cbn in Hn; try lia.
  1,2: cbn; lia.
  destruct Hap as [Hout Hap]. apply Forall_cons in Hall as [Hg Hall].
  cbn [range_total foldr]. fold (range_total gs).
  rewrite (range_total_filter (λ g', g_limit g' ≤ g_start g) gs).
  pose proof (length_filter (λ g', g_limit g' ≤ g_start g) gs).
  pose proof (length_filter (λ g', ¬ g_limit g' ≤ g_start g) gs).
  rewrite !Forall_forall in *.
  assert (range_total (filter (λ g', g_limit g' ≤ g_start g) gs) ≤ g_start g - lo) as Hl.
  { apply IH; [lia|by apply apart_filter|lia|]. apply Forall_forall.
    intros g' [? Hg']%list_elem_of_filter. specialize (Hall g' Hg'). lia. }
  assert (range_total (filter (λ g', ¬ g_limit g' ≤ g_start g) gs) ≤ hi - g_limit g) as Hr.
  { apply IH; [lia|by apply apart_filter|lia|]. apply Forall_forall.
    intros g' [? Hg']%list_elem_of_filter. specialize (Hall g' Hg'). specialize (Hout g' Hg').
    unfold outside in Hout. lia. }
  lia.
Qed.

Lemma region_free_bound hr g :
  header_ok → region_ok hr g → 0 ≤ region_free_space hr ≤ g_limit g - g_start g.
Proof.
  intros (Hh & _) (_ & _ & pl & Hpl & _ & Hpart). unfold region_free_space. rewrite Hpl.
  destruct (part_wf _ _ _ Hpart) as [_ Hc _ _ Hf Ha Hsum]. cbn in *.
  pose proof (chain_total _ _ _ Hc). lia.
Qed.

Lemma range_total_nonneg rs gs : header_ok → Forall2 region_ok rs gs → 0 ≤ range_total gs.
Proof.
  intros Hhd. induction 1 as [|hr g rs gs Hok _ IH]; [done|]. cbn [range_total foldr].
  fold (range_total gs). pose proof (region_free_bound _ _ Hhd Hok). lia.
Qed.

Lemma heap_free_space_ok rs gs :
  header_ok → Forall2 region_ok rs gs → apart gs → ∃ f, heap_free_space rs = Ret f.
Proof.
  intros Hhd HF Hap.
  assert (range_total gs ≤ usize_max - 0) as Htot.
  { apply (packing (length gs)); [done|done|lia|]. clear Hap. induction HF as [|hr g rs gs Hok _ IH]; [done|].
    constructor; [|done]. destruct (region_bounds _ _ Hhd Hok). destruct Hhd. lia. }
  clear Hap. unfold heap_free_space.
  enough (∀ acc, 0 ≤ acc → acc + range_total gs < usize_limit →
            ∃ f, for_each (λ hr s, uadd s (region_free_space hr)) rs acc = Ret f) as Hgen
    by (apply Hgen; lia).
  clear Htot. induction HF as [|hr g rs gs Hok HF IH]; intros acc Ha Hb; cbn [for_each]; [by eexists|].
  cbn [range_total foldr] in Hb. fold (range_total gs) in Hb.
  pose proof (region_free_bound _ _ Hhd Hok).
  pose proof (range_total_nonneg _ _ Hhd HF).
  rewrite uadd_ok by lia. cbn [mbind outcome_bind]. apply IH; lia.
Qed.

(** *** Emptied regions *)

Lemma live_size_zero live :
  (∀ p l, live !! p = Some l → layout_ok l) → live_size live = 0 → live = ∅.
Proof.
  intros Hl Hz. apply map_empty. intros p. apply eq_None_not_Some. intros [l Hp].
  pose proof (live_size_delete live p l Hp) as Hd. destruct (Hl p l Hp) as (? & _).
  pose proof (live_size_nonneg (delete p live)) as Hn. unfold min_alloc_size in *.
  destruct (Z.le_gt_cases 0 (live_size (delete p live))); [lia|].
  rewrite Hd in Hz. exfalso. specialize (Hn ltac:(intros q lq [_ Hq]%lookup_delete_Some; eauto)). lia.
Qed.

Lemma keep_region_ok hr g rs gs :
  header_ok → region_ok hr g → Forall2 region_ok rs gs → apart gs →
  ∃ k, keep_region hr rs = Ret k ∧ (g_buffer g = true → k = true).
Proof.
  intros Hhd (_ & _ & pl & Hpl & (Hcf & _) & _) HF Hap. unfold keep_region, can_free. rewrite Hpl, Hcf.
  destruct (g_buffer g); cbn; [by exists true|].
  destruct (region_free_space hr <? MINIMUM_HEAP_REGION_SIZE); [|by exists false].
  destruct (heap_free_space_ok rs gs Hhd HF Hap) as (f & ->). by eexists.
Qed.

Lemma drop_ok hr g rs gs s :
  header_ok → region_ok hr g → g_buffer g = false → Forall2 region_ok rs gs → Forall (outside g) gs →
  hr_inv s ({[(g_start g, g_limit g)]} ∪ held_ranges gs) →
  ∃ s', drop_heap_region hr s = Ret s' ∧ hr_inv s' (held_ranges gs).
Proof.
  intros Hhd Hok Hbuf HF Hout Hinv. destruct (region_bounds _ _ Hhd Hok) as (Hb0 & Hb1 & _).
  destruct Hok as (_ & _ & pl & Hpl & (_ & Hpay) & _). rewrite Hbuf in Hpay.
  destruct Hpay as (r & Har & _ & _ & Hri & _). unfold drop_heap_region. rewrite Hpl, Har.
  destruct (hr_drop_ok s _ r (g_start g) (g_limit g) Hinv ltac:(set_solver) Hri) as (s' & -> & Hinv').
  exists s'. split; [done|].
  assert ((g_start g, g_limit g) ∉ held_ranges gs) as Hnin.
  { intros (g' & Hg' & _ & Hs & Hl)%held_elem. rewrite Forall_forall in Hout. specialize (Hout g' Hg').
    destruct Hhd. unfold outside in Hout. lia. }
  assert (({[(g_start g, g_limit g)]} ∪ held_ranges gs) ∖ {[(g_start g, g_limit g)]} = held_ranges gs) as Heq
    by (apply set_eq; intros [a b]; generalize dependent (held_ranges gs); intros X _ ? ?; set_solver).
  by rewrite Heq in Hinv'.
Qed.

Definition block_removed (gs gs' : list ghost) (p : Z) : Prop :=
  ∀ q lq, live_in gs' q lq ↔ q ≠ p ∧ live_in gs q lq.

(** What [dealloc] does with a block that a client holds. *)
Lemma dealloc_ok rs pre g post s p l o :
  header_ok → heap_ok rs (pre ++ g :: post) s → g_live g !! p = Some l →
  align_layout o = Ret (Some l) →
  if existsb (in_the_way p) pre then dealloc rs p o s = Panic Overflow
  else ∃ rs' gs' s', dealloc rs p o s = Ret (rs', s') ∧ heap_ok rs' gs' s' ∧
         block_removed (pre ++ g :: post) gs' p ∧ (∀ x, x ∈ gs' → ∃ y, y ∈ pre ++ g :: post ∧ g_limit x = g_limit y).
Proof.
  intros Hhd [HF Hap Hinv] Hp Hal. unfold dealloc. rewrite Hal. cbn [mbind outcome_bind].
  pose proof (do_deallocate_ok pre rs g post p l Hhd HF Hap Hp) as Hdo.
  destruct (existsb (in_the_way p) pre); [by rewrite Hdo|].
  destruct Hdo as (rpre & hr' & rpost & HF1 & HF2 & Hok' & ->). cbn [mbind outcome_bind].
  set (g' := with_live g (delete p (g_live g))) in *.
  assert (Forall2 region_ok (rpre ++ rpost) (pre ++ post)) as HF' by by apply Forall2_app.
  assert (∀ q lq, live_in (pre ++ g' :: post) q lq ↔ q ≠ p ∧ live_in (pre ++ g :: post) q lq) as Hrem.
  { intros q lq. rewrite !live_in_middle. unfold g'. cbn. rewrite lookup_delete_Some.
    split; [|naive_solver]. intros [[? ?]|Hq]; [naive_solver|]. split; [|by right]. intros ->.
    apply Forall2_app_inv_r in HF as (r1 & r2 & _ & HF2' & ->). inversion HF2' as [|hr ? r2' ? Hg _]; subst.
    destruct (live_range _ _ _ _ Hg Hp) as ((? & _) & ? & ?). destruct Hhd as (? & Hhd).
    apply apart_middle in Hap as [Hout _]. unfold min_alloc_size in *.
    by eapply (live_elsewhere (rpre ++ rpost) (pre ++ post) g p lq (al_size l)); try done; lia. }
  destruct (Z.eqb_spec (live_size (delete p (g_live g))) 0) as [Hz|_]; cbn [fst snd].
  2: { eexists _, (pre ++ g' :: post), s. split; [done|]. split_and!; [split| |].
       - apply Forall2_app; [done|]. by constructor.
       - by apply apart_with_live.
       - rewrite held_middle in Hinv |- *. done.
       - done.
       - intros x [Hx|[->|Hx]%elem_of_cons]%elem_of_app; [exists x|exists g|exists x]; set_solver. }
  apply apart_middle in Hap as [Hout Hap]. rewrite held_middle in Hinv.
  destruct (keep_region_ok hr' g' _ _ Hhd Hok' HF' Hap) as ([|] & -> & Hk); cbn [mbind outcome_bind].
  { eexists _, (g' :: pre ++ post), s. split; [done|]. split_and!; [split; [by constructor|done|]| |].
    - change (g' :: pre ++ post) with ([] ++ g' :: (pre ++ post)). rewrite held_middle. done.
    - intros q lq. rewrite <- Hrem, live_in_middle.
      change (g' :: pre ++ post) with ([] ++ g' :: (pre ++ post)). by rewrite live_in_middle.
    - intros x [->|Hx]%elem_of_cons; [exists g|exists x]; set_solver. }
  assert (g_buffer g = false) as Hbuf by (destruct (g_buffer g) eqn:E; [by specialize (Hk E)|done]).
  rewrite Hbuf in Hinv.
  destruct (drop_ok hr' g' (rpre ++ rpost) (pre ++ post) s Hhd Hok' Hbuf HF' Hout Hinv) as (s' & -> & Hinv').
  cbn [mbind outcome_bind]. exists (rpre ++ rpost), (pre ++ post), s'. split; [done|].
  assert (delete p (g_live g) = ∅) as Hempty.
  { apply live_size_zero; [|done]. intros q lq Hq. by destruct (live_range hr' g' q lq Hok' Hq). }
  split_and!; [done| |].
  - intros q lq. rewrite <- Hrem, live_in_middle. unfold g'. cbn. rewrite Hempty, lookup_empty. naive_solver.
  - intros x Hx. exists x. set_solver.
Qed.

(** *** Clients *)

(** A client of the heap sees pointers and the layouts it asked for. *)
Inductive heap_step (top : Z) :
    HeapRegionList * S * gmap Z Layout → HeapRegionList * S * gmap Z Layout → Prop :=
  | heap_step_alloc rs s live o p rs' s' :
      0 ≤ layout_size o → is_power_of_two (layout_align o) = true →
      top + layout_size o + layout_align o + 64 < usize_limit → may_expand rs o s →
      alloc hsize free_list_offset rs o s = Ret (Some p, rs', s') →
      heap_step top (rs, s, live) (rs', s', <[p := o]> live)
  | heap_step_full rs s live o rs' s' :
      0 ≤ layout_size o → is_power_of_two (layout_align o) = true →
      top + layout_size o + layout_align o + 64 < usize_limit → may_expand rs o s →
      alloc hsize free_list_offset rs o s = Ret (None, rs', s') →
      heap_step top (rs, s, live) (rs', s', live)
  | heap_step_free rs s live o p rs' s' :
      live !! p = Some o → dealloc rs p o s = Ret (rs', s') →
      heap_step top (rs, s, live) (rs', s', delete p live).

(** The heap and the client agree on what is allocated. *)
Definition client_inv (top : Z) (st : HeapRegionList * S * gmap Z Layout) : Prop :=
  ∃ gs, heap_ok st.1.1 gs st.1.2 ∧ Forall (λ g, g_limit g ≤ top) gs ∧
    (∀ p o, st.2 !! p = Some o → 0 ≤ layout_size o ∧ (layout_align o | Z.max (layout_align o) min_alignment) ∧
       ∃ l, align_layout o = Ret (Some l) ∧ live_in gs p l) ∧
    (∀ p l, live_in gs p l → is_Some (st.2 !! p)).

Lemma align_layout_inv o l :
  0 ≤ layout_size o → align_layout o = Ret (Some l) →
  layout_size o ≤ al_size l ∧ al_align l = Z.max (layout_align o) min_alignment.
Proof.
  intros Hs E. unfold align_layout in E. inv_ret E.
  unfold from_size_align in E. destruct (_ && _) in E; [|done]. injection E as <-. cbn.
  split; [|done]. unfold align_up in Ha0. inv_ret Ha0.
  apply uadd_inv in Ha1 as [-> ?]. apply usub_inv in Ha2 as [-> ?].
  unfold align_down in Ha0. change (is_power_of_two min_alignment) with true in Ha0. cbn iota in Ha0.
  injection Ha0 as <-. change min_alignment with (2 ^ 3) in *.
  rewrite land_not64_mask by lia. pose proof (round_down_bounds (layout_size o `max` min_alloc_size + 2 ^ 3 - 1) (2 ^ 3) ltac:(done)).
  lia.
Qed.

Lemma client_inv_step top st st' :
  header_ok → hr_limit ≤ top → client_inv top st → heap_step top st st' → client_inv top st'.
Proof.
  intros Hhd Htop (gs & Hheap & Htops & Hfw & Hbw) Hst.
  destruct Hst as [rs s live o p rs' s' Hs Hp Hb Hx E|rs s live o rs' s' Hs Hp Hb Hx E|rs s live o p rs' s' Ho E]; cbn in *.
  - destruct (alloc_ok rs gs s o top Hhd Hheap Hs Hp Htops Htop Hb Hx) as (r & rs2 & s2 & E' & Hr).
    rewrite E in E'. simplify_eq. destruct Hr as (gs' & l & Hheap' & Hal & _ & _ & Hfresh & Hadd & Htops').
    exists gs'. cbn. split_and!; [done|done| |].
    + intros q oq [[<- <-]|[Hne Hq]]%lookup_insert_Some.
      * split_and!; [done|by apply divides_max_align|]. exists l. split; [done|]. apply Hadd. by left.
      * destruct (Hfw q oq Hq) as (? & ? & lq & ? & ?). split_and!; try done. exists lq. split; [done|].
        apply Hadd. by right.
    + intros q lq [[-> _]|Hq]%Hadd; apply lookup_insert_is_Some; [by left|].
      destruct (decide (p = q)); [by left|right; eauto].
  - destruct (alloc_ok rs gs s o top Hhd Hheap Hs Hp Htops Htop Hb Hx) as (r & rs2 & s2 & E' & Hr).
    rewrite E in E'. simplify_eq. destruct Hr as [-> Hheap']. exists gs. done.
  - destruct (Hfw p o Ho) as (Hs & Hdiv & l & Hal & (g & Hg & Hgp)).
    apply list_elem_of_split in Hg as (pre & post & ->).
    pose proof (dealloc_ok rs pre g post s p l o Hhd Hheap Hgp Hal) as Hd.
    destruct (existsb (in_the_way p) pre); [by rewrite E in Hd|].
    destruct Hd as (rs2 & gs' & s2 & E' & Hheap' & Hrem & Hlim). rewrite E in E'. simplify_eq.
    exists gs'. cbn. split_and!; [done| | |].
    + rewrite Forall_forall in Htops |- *. intros x Hx. destruct (Hlim x Hx) as (y & Hy & ->). by apply Htops.
    + intros q oq [Hne Hq]%lookup_delete_Some. destruct (Hfw q oq Hq) as (? & ? & lq & ? & ?).
      split_and!; try done. exists lq. split; [done|]. by apply Hrem.
    + intros q lq [Hne Hq]%Hrem. rewrite lookup_delete_ne by done. eauto.
Qed.

(** The heap after [SimpleAllocator::new]. *)
Lemma new_allocator_ok region_start s rs :
  header_ok → 0 < region_start → region_start mod PAGE_SIZE = 0 →
  region_start + INITIAL_HEAP_REGION_SIZE + 16 < usize_limit →
  region_start + INITIAL_HEAP_REGION_SIZE ≤ hr_base ∨ hr_limit ≤ region_start →
  hr_inv s ∅ → new_allocator hsize free_list_offset false region_start = Ret rs →
  heap_ok rs [mkGhost region_start (region_start + INITIAL_HEAP_REGION_SIZE) true ∅] s.
Proof.
  intros Hhd H0' Hpg Hlim Hwin Hinv E. unfold new_allocator in E. rewrite uadd_ok in E by lia.
  cbn [mbind outcome_bind] in E. unfold header_ok, INITIAL_HEAP_REGION_SIZE, PAGE_SIZE in *.
  assert (region_start mod 8 = 0) as Hs8 by (eapply (mod_trans _ 8 4096); [done|by exists 512|done]).
  destruct (make_region_ok (Buffer region_start (128 * 1024)) false region_start (region_start + 128 * 1024))
    as (fl & Hmk & _ & Hpart); [done|done|done| |unfold PAGE_SIZE; lia|unfold min_alignment; lia|].
  { rewrite Z.add_mod, Hs8 by done. done. }
  rewrite Hmk in E. cbn [mbind outcome_bind] in E. simplify_eq. split.
  - constructor; [|done]. split_and!; cbn; [done|done|]. eexists. split; [done|]. split; [|done].
    split; [done|]. cbn. split; [|done]. f_equal. lia.
  - cbn. done.
  - exact Hinv.
Qed.

(** It is one region, all of it free, so that a request that is not too big for
    the buffer is served from it. *)
Lemma new_allocator_run region_start :
  header_ok → 0 < region_start → region_start mod PAGE_SIZE = 0 →
  region_start + INITIAL_HEAP_REGION_SIZE + 16 < usize_limit →
  ∃ fl, new_allocator hsize free_list_offset false region_start =
      Ret [mkHeapRegion region_start (Some (mkPayload (Buffer region_start INITIAL_HEAP_REGION_SIZE) false fl))] ∧
    nodes fl = [mkHole (region_start + hsize) (INITIAL_HEAP_REGION_SIZE - hsize)].
Proof.
  intros Hhd H0' Hpg Hlim. unfold new_allocator. rewrite uadd_ok, bind_bind_Ret by (unfold INITIAL_HEAP_REGION_SIZE in *; lia).
  assert (region_start mod 8 = 0) as Hs8 by (eapply (mod_trans _ 8 PAGE_SIZE); [done|by exists 512|done]).
  destruct (make_region_ok (Buffer region_start INITIAL_HEAP_REGION_SIZE) false region_start (region_start + INITIAL_HEAP_REGION_SIZE))
    as (fl & -> & Hn & _); [done|done|done| | | |].
  - unfold INITIAL_HEAP_REGION_SIZE. rewrite Z.add_mod, Hs8 by done. done.
  - destruct Hhd as (_ & _ & ?). unfold INITIAL_HEAP_REGION_SIZE, PAGE_SIZE in *. lia.
  - unfold min_alignment. lia.
  - exists fl. split; [done|]. rewrite Hn. do 2 f_equal. lia.
Qed.

Lemma fresh_heap_serves region_start s rs l :
  header_ok → 0 < region_start → region_start mod PAGE_SIZE = 0 →
  region_start + INITIAL_HEAP_REGION_SIZE + 16 < usize_limit →
  region_start + INITIAL_HEAP_REGION_SIZE ≤ hr_base ∨ hr_limit ≤ region_start → hr_inv s ∅ →
  new_allocator hsize free_list_offset false region_start = Ret rs →
  layout_ok l → al_align l = min_alignment → hsize + al_size l + 16 ≤ INITIAL_HEAP_REGION_SIZE →
  room (region_start + INITIAL_HEAP_REGION_SIZE) l → ∃ p rs', do_allocate rs l = Ret (Some p, rs').
Proof.
  intros Hhd H0' Hpg Hlim Hwin Hinv Hnew Hl Hal Hsz Hroom.
  pose proof (heap_regions _ _ _ (new_allocator_ok region_start s rs Hhd H0' Hpg Hlim Hwin Hinv Hnew)) as HF.
  destruct (new_allocator_run region_start Hhd H0' Hpg Hlim) as (fl & E & Hn). rewrite Hnew in E. injection E as ->.
  inversion HF as [|? ? ? ? Hok _]; subst. cbn [do_allocate].
  destruct (region_allocate_ok _ _ l Hok Hl Hroom) as [[_ Hno]|(p & hr' & -> & _)]; [exfalso|cbn; eauto].
  cbn in Hno. rewrite Hn in Hno. apply Forall_cons in Hno as [Hno _].
  assert ((region_start + hsize) mod al_align l = 0) as Hm.
  { rewrite Hal. unfold min_alignment. assert (region_start mod 8 = 0) as Hs8 by (eapply (mod_trans _ 8 PAGE_SIZE); [done|by exists 512|done]).
    destruct Hhd as (_ & Hh8 & _). by rewrite Z.add_mod, Hs8, Hh8. }
  unfold fits, fit_start, hole_end in Hno. cbn [h_addr h_size] in Hno. rewrite Hm in Hno. cbn [Z.eqb] in Hno.
  apply orb_false_iff in Hno as [_ Hno%Z.leb_gt]. unfold min_alloc_size in *. lia.
Qed.

Lemma client_inv_blocks top rs s live :
  header_ok → client_inv top (rs, s, live) →
  (∀ p o, live !! p = Some o → 0 < p ∧ p mod layout_align o = 0) ∧
  (∀ p1 o1 p2 o2 x, live !! p1 = Some o1 → live !! p2 = Some o2 →
     p1 ≤ x < p1 + layout_size o1 → p2 ≤ x < p2 + layout_size o2 → p1 = p2).
Proof.
  intros Hhd (gs & [HF Hap _] & _ & Hfw & _). cbn in *. split.
  - intros p o Hp. destruct (Hfw p o Hp) as (Hs & Hdiv & l & Hal & (g & Hg & Hgp)).
    destruct (Forall2_elem_r _ _ _ HF g Hg) as (hr & Hok).
    destruct (align_layout_inv o l Hs Hal) as [_ Hal'].
    destruct (live_range _ _ _ _ Hok Hgp) as (Hl & Hlo & _). destruct Hok as (_ & H0' & pl & _ & _ & Hpart).
    destruct (part_block _ _ _ Hpart p l Hgp) as (_ & _ & _ & Hmod). rewrite Hal' in Hmod.
    destruct Hhd. split; [lia|]. apply Z.mod_divide in Hmod; [|unfold min_alignment; lia].
    destruct (decide (layout_align o = 0)) as [E|E].
    + exfalso. rewrite E in Hdiv. destruct Hdiv as [z Hz]. unfold min_alignment in Hz. lia.
    + apply Z.mod_divide; [done|]. by transitivity (Z.max (layout_align o) min_alignment).
  - intros p1 o1 p2 o2 x Hp1 Hp2 Hx1 Hx2.
    destruct (Hfw p1 o1 Hp1) as (Hs1 & _ & l1 & Hal1 & (g1 & Hg1 & Hgp1)).
    destruct (Hfw p2 o2 Hp2) as (Hs2 & _ & l2 & Hal2 & (g2 & Hg2 & Hgp2)).
    destruct (align_layout_inv o1 l1 Hs1 Hal1) as [Hsz1 _]. destruct (align_layout_inv o2 l2 Hs2 Hal2) as [Hsz2 _].
    destruct (Forall2_elem_r _ _ _ HF g1 Hg1) as (hr1 & Hok1).
    destruct (live_range _ _ _ _ Hok1 Hgp1) as (_ & Hlo1 & Hhi1).
    apply list_elem_of_split in Hg1 as (pre & post & ->). apply apart_middle in Hap as [Hout _].
    apply elem_of_app in Hg2 as [Hg2|[->|Hg2]%elem_of_cons].
    2: { destruct Hok1 as (_ & _ & pl & _ & _ & Hpart).
         eapply (part_disjoint _ _ _ Hpart p1 l1 p2 l2 x); [done|done|..]; unfold covers, block, hole_end; cbn; lia. }
    all: destruct (Forall2_elem_r _ _ _ HF g2 ltac:(set_solver)) as (hr2 & Hok2);
      destruct (live_range _ _ _ _ Hok2 Hgp2) as (_ & Hlo2 & Hhi2);
      rewrite Forall_forall in Hout; specialize (Hout g2 ltac:(set_solver));
      destruct Hhd; unfold outside in Hout; lia.
Qed.

Lemma client_inv_init region_start s0 rs0 top :
  header_ok → hr_inv s0 ∅ → 0 < region_start → region_start mod PAGE_SIZE = 0 →
  region_start + INITIAL_HEAP_REGION_SIZE ≤ hr_base ∨ hr_limit ≤ region_start →
  region_start + INITIAL_HEAP_REGION_SIZE + 16 < usize_limit →
  region_start + INITIAL_HEAP_REGION_SIZE ≤ top →
  new_allocator hsize free_list_offset false region_start = Ret rs0 → client_inv top (rs0, s0, ∅).
Proof.
  intros Hhd Hinv H0' Hpg Hwin Hlim Ht1 Hnew. eexists. split_and!; cbn.
  - by apply (new_allocator_ok region_start).
  - by constructor.
  - by intros p o ?.
  - intros p l (g & ->%list_elem_of_singleton & Hg). by cbn in Hg.
Qed.

Lemma client_inv_run top st st' :
  header_ok → hr_limit ≤ top → rtc (heap_step top) st st' → client_inv top st → client_inv top st'.
Proof.
  intros Hhd Htop. induction 1 as [|st1 st2 st3 Hst _ IH]; [done|]. intros Hinv. apply IH.
  by eapply client_inv_step.
Qed.

(** ** Properties *)


(** C1: the contract of a global allocator: whatever a client that only frees
    what it holds does with the fresh heap, while paging is ready for the regions
    the heap asks for, the pointers it holds are non-null and aligned as asked, and
    the blocks behind them never overlap. *)
Theorem heap_client_blocks region_start s0 rs0 top rs s live :
  header_ok → hr_inv s0 ∅ → 0 < region_start → region_start mod PAGE_SIZE = 0 →
  region_start + INITIAL_HEAP_REGION_SIZE ≤ hr_base ∨ hr_limit ≤ region_start →
  region_start + INITIAL_HEAP_REGION_SIZE + 16 < usize_limit →
  region_start + INITIAL_HEAP_REGION_SIZE ≤ top → hr_limit ≤ top →
  new_allocator hsize free_list_offset false region_start = Ret rs0 →
  rtc (heap_step top) (rs0, s0, ∅) (rs, s, live) →
  (∀ p o, live !! p = Some o → 0 < p ∧ p mod layout_align o = 0) ∧
  (∀ p1 o1 p2 o2 x, live !! p1 = Some o1 → live !! p2 = Some o2 →
     p1 ≤ x < p1 + layout_size o1 → p2 ≤ x < p2 + layout_size o2 → p1 = p2).
Proof.
  intros Hhd Hinv H0' Hpg Hwin Hlim Ht1 Ht2 Hnew Hrun. apply (client_inv_blocks top rs s); [done|].
  eapply client_inv_run; [done|done|exact Hrun|]. by eapply client_inv_init.
Qed.

(** The static buffer, ending below an address. *)
Definition buffer_below (p : Z) (hr : HeapRegion) : Prop :=
  ∃ pl start len, payload hr = Some pl ∧ alloc_region pl = Buffer start len ∧ start + len < p.

(** The region an address is in. *)
Definition holds (p : Z) (hr : HeapRegion) : Prop :=
  ∃ pl, payload hr = Some pl ∧ contains (alloc_region pl) p min_alloc_size = Ret true.

Lemma nothing_in_the_way rs pre g post p l :
  header_ok → Forall2 region_ok rs (pre ++ g :: post) → apart (pre ++ g :: post) → g_live g !! p = Some l →
  (∀ front hr back, rs = front ++ hr :: back → buffer_below p hr → ∃ hr', hr' ∈ front ∧ holds p hr') →
  existsb (in_the_way p) pre = false.
Proof.
  intros Hhd HF Hap Hp Hway. destruct (existsb (in_the_way p) pre) eqn:E; [exfalso|done].
  apply existsb_exists in E as (b & Hb & Hw). apply list_elem_of_In, list_elem_of_split in Hb as (p1 & p2 & ->).
  rewrite <- app_assoc in HF, Hap. cbn [app] in HF, Hap.
  apply Forall2_app_inv_r in HF as (r1 & r2 & HF1 & HF2 & ->).
  inversion HF2 as [|hb ? r2' ? Hokb HF3]; subst. unfold in_the_way in Hw.
  apply andb_true_iff in Hw as [Hbuf Hlt%Z.ltb_lt].
  destruct (Hway r1 hb r2' eq_refl) as (hr' & Hin & pl' & Hpl' & Hcont).
  { destruct Hokb as (_ & _ & pl & Hpl & (_ & Hpay) & _). rewrite Hbuf in Hpay. destruct Hpay as [Har _].
    exists pl, (g_start b), (g_limit b - g_start b). split_and!; [done|done|lia]. }
  destruct (Forall2_elem_r _ _ _ HF3 g ltac:(set_solver)) as (hg & Hokg).
  destruct (live_range _ _ _ _ Hokg Hp) as ((Hsz & _) & Hlo & Hhi).
  assert (∃ g', g' ∈ p1 ∧ region_ok hr' g') as (g' & Hg' & Hok').
  { clear -HF1 Hin. induction HF1; set_solver. }
  apply list_elem_of_split in Hg' as (q1 & q2 & ->). rewrite <- app_assoc in Hap. cbn [app] in Hap.
  apply apart_middle in Hap as [Hout _]. rewrite Forall_forall in Hout. specialize (Hout g ltac:(set_solver)).
  destruct (region_bounds _ _ Hhd Hok') as (Hb1 & Hb2 & Hb3).
  destruct Hok' as (_ & _ & pl & Hpl & Hpay & _). simplify_eq.
  destruct Hhd as (Hh & _). unfold outside, min_alloc_size in *.
  rewrite (contains_outside g' pl' p 16) in Hcont; [|done|lia|lia|done|lia].
  by destruct (g_buffer g' && (g_limit g' <? p)).
Qed.

(** C24: giving back a block the client holds succeeds, and leaves a heap that
    agrees with the client, provided a static buffer that ends below the block
    comes later in the list than the block's region. The emptied region is kept
    or handed back to the region manager. *)
Theorem heap_dealloc_correct top rs s live p o :
  header_ok → hr_limit ≤ top → client_inv top (rs, s, live) → live !! p = Some o →
  (∀ front hr back, rs = front ++ hr :: back → buffer_below p hr → ∃ hr', hr' ∈ front ∧ holds p hr') →
  ∃ rs' s', dealloc rs p o s = Ret (rs', s') ∧ client_inv top (rs', s', delete p live).
Proof.
  intros Hhd Htop Hinv Ho Hway. pose proof Hinv as (gs & Hheap & _ & Hfw & _). cbn in *.
  destruct (Hfw p o Ho) as (_ & _ & l & Hal & (g & Hg & Hgp)).
  apply list_elem_of_split in Hg as (pre & post & ->).
  pose proof (dealloc_ok rs pre g post s p l o Hhd Hheap Hgp Hal) as Hd. destruct Hheap as [HF Hap _].
  rewrite (nothing_in_the_way rs pre g post p l) in Hd; try done.
  destruct Hd as (rs' & _ & s' & E & _). exists rs', s'. split; [done|].
  eapply client_inv_step; [done|done|exact Hinv|]. by eapply heap_step_free.
Qed.

(** C38: once the static buffer is at the front of the list, where [dealloc]
    puts it when its last block is given back, giving back any block at a higher
    address panics: [contains] subtracts without checking the upper bound. *)
Theorem heap_dealloc_buffer_panics top hr rs s live p o :
  header_ok → client_inv top (hr :: rs, s, live) → live !! p = Some o → buffer_below p hr →
  dealloc (hr :: rs) p o s = Panic Overflow.
Proof.
  intros (Hh & _) (gs & [HF _ _] & _ & Hfw & _) Ho (pl & start & len & Hpl & Har & Hlt). cbn in *.
  destruct (Hfw p o Ho) as (_ & _ & l & Hal & _).
  inversion HF as [|? g ? gs' (_ & H0' & pl' & Hpl' & (_ & Hpay) & Hpart) _]; subst. simplify_eq.
  destruct (wf_range _ _ _ (part_wf _ _ _ Hpart)) as (_ & Hr1 & Hr2). unfold min_alignment in Hr2.
  destruct (g_buffer g); [|destruct Hpay as (r & Hr & _); congruence].
  destruct Hpay as [Hb _]. rewrite Har in Hb. injection Hb as -> ->.
  unfold dealloc. rewrite Hal. cbn [mbind outcome_bind do_deallocate]. unfold region_deallocate.
  rewrite Hpl, Har. cbn [contains]. rewrite uadd_ok by lia. cbn [mbind outcome_bind].
  rewrite (proj2 (Z.leb_le (g_start g) p)) by lia.
  unfold usub. by rewrite (proj2 (Z.leb_gt _ _)) by lia.
Qed.

End spec.

(** ** Concrete runs *)

(** A supply of regions that never reuses an address. *)
Record FreshRegions := mkFresh { fresh_base : Z }.
Definition fresh_region (base pages : Z) : Region.Region :=
  Region.mkRegion (Regions.mkRegionInfo base (base + pages * PAGE_SIZE)) 0 (pages * PAGE_SIZE).
#[global] Instance Fresh_regions : HeapRegions FreshRegions := {
  hr_allocate pages s :=
    if fresh_base s + pages * PAGE_SIZE <=? KERNEL_HEAP_LIMIT
    then Ret (Ok (fresh_region (fresh_base s) pages), mkFresh (fresh_base s + pages * PAGE_SIZE))
    else Ret (Err NoRegionAddressSpaceAvailable, s);
  hr_drop r s := Ret s }.

Definition fresh_inv (s : FreshRegions) (X : gset (Z * Z)) : Prop :=
  KERNEL_HEAP_BASE ≤ fresh_base s ∧ fresh_base s mod PAGE_SIZE = 0 ∧
  ∀ a b, (a, b) ∈ X → b ≤ fresh_base s.

#[global] Instance Fresh_laws : HeapRegionsLaws FreshRegions.
Proof.
  refine {| hr_base := KERNEL_HEAP_BASE; hr_limit := KERNEL_HEAP_LIMIT; hr_inv := fresh_inv; hr_ready _ _ := True |}.
  - done.
  - intros [b] X pages (Hb & Hm & HX) Hp _. cbn in *.
    destruct (Z.leb_spec (b + pages * PAGE_SIZE) KERNEL_HEAP_LIMIT) as [Hle|_]; [|by eexists _, _].
    eexists _, _. split; [reflexivity|]. exists b. cbn.
    unfold KERNEL_HEAP_LIMIT, KERNEL_HEAP_BASE, PAGE_SIZE in *.
    split_and!; [|..|].
    + unfold Region.start. cbn. rewrite uadd_ok by lia. f_equal. lia.
    + unfold Region.limit, Region.start. cbn. rewrite uadd_ok by lia. cbn. rewrite uadd_ok by (unfold PAGE_SIZE; lia).
      f_equal. unfold PAGE_SIZE. lia.
    + done.
    + done.
    + done.
    + done.
    + intros a c Hac. left. by eapply HX.
    + unfold fresh_inv, KERNEL_HEAP_BASE. cbn. split_and!; [unfold PAGE_SIZE; lia| |].
      * unfold PAGE_SIZE. rewrite Z.add_mod, Hm, Z.mod_mul by done. done.
      * intros a c [Hac%elem_of_singleton|Hac]%elem_of_union; [|specialize (HX _ _ Hac); unfold PAGE_SIZE; lia].
        simplify_eq. lia.
  - intros [b] X region start limit (Hb & Hm & HX) _ _. eexists. split; [done|].
    split_and!; [done|done|]. intros a c [Hac _]%elem_of_difference. by eapply HX.
Defined.

(** A header of 104 bytes; the buffer in the kernel image, which the linker
    script places below the heap window. *)
Definition ex_buffer : Z := 0xffff800080100000.
Definition ex_small : Layout := mkLayout 64 8.
Definition ex_large : Layout := mkLayout 200000 16.
Definition ex_top : Z := KERNEL_HEAP_LIMIT.

Abbreviation ex_state := (list HeapRegion * FreshRegions * gmap Z Layout)%type (only parsing).

Definition ex_new : ex_state :=
  match new_allocator 104 40 false ex_buffer with
  | Ret rs => (rs, mkFresh KERNEL_HEAP_BASE, ∅) | _ => ([], mkFresh 0, ∅) end.
Definition ex_alloc (st : ex_state) (o : Layout) : Z * ex_state :=
  match alloc 104 40 st.1.1 o st.1.2 with
  | Ret (Some p, rs, s) => (p, (rs, s, <[p := o]> st.2)) | _ => (0, st) end.
Definition ex_dealloc (st : ex_state) (p : Z) (o : Layout) : ex_state :=
  match dealloc st.1.1 p o st.1.2 with Ret (rs, s) => (rs, s, delete p st.2) | _ => st end.

(** A small block from the buffer, a large one from a new region, and the small
    one given back. *)
Definition ex_st1 : ex_state := (ex_alloc ex_new ex_small).2.
Definition ex_p1 : Z := (ex_alloc ex_new ex_small).1.
Definition ex_st2 : ex_state := (ex_alloc ex_st1 ex_large).2.
Definition ex_p2 : Z := (ex_alloc ex_st1 ex_large).1.
Definition ex_st3 : ex_state := ex_dealloc ex_st2 ex_p1 ex_small.

Lemma ex_step_alloc st o :
  0 ≤ layout_size o → is_power_of_two (layout_align o) = true →
  ex_top + layout_size o + layout_align o + 64 < usize_limit →
  (ex_alloc st o).1 ≠ 0 → heap_step 104 40 ex_top st (ex_alloc st o).2.
Proof.
  destruct st as [[rs s] live]. unfold ex_alloc. cbn [fst snd]. intros Hs Hp Hb.
  destruct (alloc 104 40 rs o s) as [[[[p|] rs'] s']|w|] eqn:E; cbn; try done.
  intros _. by apply heap_step_alloc; [..|intros ?|].
Qed.

Lemma ex_step_free st p o :
  st.2 !! p = Some o → (ex_dealloc st p o).2 !! p = None → heap_step 104 40 ex_top st (ex_dealloc st p o).
Proof.
  destruct st as [[rs s] live]. unfold ex_dealloc. cbn [fst snd]. intros Ho.
  destruct (dealloc rs p o s) as [[rs' s']|w|] eqn:E; cbn; try congruence.
  intros _. by eapply heap_step_free.
Qed.

Lemma ex_header : header_ok 104.
Proof. done. Qed.

Lemma ex_inv0 : client_inv 104 ex_top ex_new.
Proof.
  eapply (client_inv_init 104 40 ex_buffer (mkFresh KERNEL_HEAP_BASE));
    [done| |done|done|by left|done|done|by vm_compute].
  split_and!; [done|done|]. set_solver.
Qed.

Lemma ex_run2 : rtc (heap_step 104 40 ex_top) ex_new ex_st2.
Proof.
  eapply rtc_l; [apply (ex_step_alloc ex_new ex_small); [done|done|done|by vm_compute]|].
  eapply rtc_l; [apply (ex_step_alloc ex_st1 ex_large); [done|done|done|by vm_compute]|]. done.
Qed.

Lemma ex_inv2 : client_inv 104 ex_top ex_st2.
Proof. eapply (client_inv_run 104 40); [done|done|apply ex_run2|apply ex_inv0]. Qed.

Lemma ex_inv3 : client_inv 104 ex_top ex_st3.
Proof.
  eapply (client_inv_step 104 40); [done|done|apply ex_inv2|].
  apply ex_step_free; [by vm_compute|by vm_compute].
Qed.


Lemma heap_client_blocks_witness :
  ex_st2.2 !! ex_p1 = Some ex_small ∧ ex_st2.2 !! ex_p2 = Some ex_large ∧ ex_p1 ≠ ex_p2 ∧
  (∀ p o, ex_st2.2 !! p = Some o → 0 < p ∧ p mod layout_align o = 0) ∧
  (∀ p1 o1 p2 o2 x, ex_st2.2 !! p1 = Some o1 → ex_st2.2 !! p2 = Some o2 →
     p1 ≤ x < p1 + layout_size o1 → p2 ≤ x < p2 + layout_size o2 → p1 = p2).
Proof.
  split; [by vm_compute|]. split; [by vm_compute|]. split; [by vm_compute|].
  eapply (heap_client_blocks 104 40 ex_buffer (mkFresh KERNEL_HEAP_BASE) ex_new.1.1 ex_top ex_st2.1.1 ex_st2.1.2);
    [done| |done|done|by left|done|done|done|by vm_compute|].
  - split_and!; [done|done|]. set_solver.
  - replace (ex_new.1.1, mkFresh KERNEL_HEAP_BASE, ∅) with ex_new by by vm_compute.
    replace (ex_st2.1.1, ex_st2.1.2, ex_st2.2) with ex_st2 by by vm_compute. apply ex_run2.
Defined.

Lemma heap_dealloc_correct_witness :
  ∃ rs' s', dealloc ex_st2.1.1 ex_p2 ex_large ex_st2.1.2 = Ret (rs', s') ∧
    client_inv 104 ex_top (rs', s', delete ex_p2 ex_st2.2).
Proof.
  apply (heap_dealloc_correct 104 40); [done|done|exact ex_inv2|by vm_compute|].
  intros front hr back Heq (pl & start & len & Hpl & Har & Hlt).
  destruct front as [|f front].
  - exfalso. vm_compute in Heq. injection Heq as <- <-. cbn in Hpl. injection Hpl as <-. done.
  - exists f. split; [left|]. vm_compute in Heq. injection Heq as <- _.
    eexists. split; [done|]. by vm_compute.
Defined.

(** The buffer, now empty, is at the front. *)
Definition ex_front : HeapRegion :=
  match ex_st3.1.1 with hr :: _ => hr | [] => mkHeapRegion 0 None end.
Definition ex_rest : list HeapRegion := tail ex_st3.1.1.

Lemma ex_inv3_front : client_inv 104 ex_top (ex_front :: ex_rest, ex_st3.1.2, ex_st3.2).
Proof.
  pose proof ex_inv3 as Hinv. assert (ex_st3 = (ex_front :: ex_rest, ex_st3.1.2, ex_st3.2)) as <- by by vm_compute.
  exact Hinv.
Qed.

Lemma heap_dealloc_buffer_panics_witness :
  dealloc (ex_front :: ex_rest) ex_p2 ex_large ex_st3.1.2 = Panic Overflow.
Proof.
  assert (ex_st3.2 !! ex_p2 = Some ex_large) as Hlive by by vm_compute.
  assert (buffer_below ex_p2 ex_front) as Hbelow.
  { eexists _, _, _. split; [by vm_compute|]. split; [by vm_compute|by vm_compute]. }
  exact (heap_dealloc_buffer_panics 104 ex_top ex_front ex_rest ex_st3.1.2 ex_st3.2 ex_p2 ex_large
           ex_header ex_inv3_front Hlive Hbelow).
Defined.
