(* ===== verification/Tasks.v ===== *)
(** * Tasks and the task directory (scheduler/task.rs)

    A [TaskReference] ([Arc<Task>]) is an address in the heap of tasks, because
    the process map, the ready lists and the CPUs share the task behind it and
    observe each other's state changes. A [Box<TaskControl>] is owned, so it is
    a value that moves; its intrusive link is its membership of a list. *)
From S2P Require Import Prelude PageTable RegionMapping.

(** ** Saved registers (the data of scheduler/arch_context.rs) *)

Module ArchContext.

Record ArchContext := mkContext {
  cr3 : Z; rflags : Z; rbx : Z; r12 : Z; r13 : Z; r14 : Z; r15 : Z; rsp : Z; rbp : Z }.

Definition new : ArchContext := mkContext 0 0 0 0 0 0 0 0 0.
Definition set_page_table (a : ArchContext) (v : Z) : ArchContext :=
  mkContext v (rflags a) (rbx a) (r12 a) (r13 a) (r14 a) (r15 a) (rsp a) (rbp a).
Definition page_table (a : ArchContext) : Z := cr3 a.
Definition set_stack (a : ArchContext) (v : Z) : ArchContext :=
  mkContext (cr3 a) (rflags a) (rbx a) (r12 a) (r13 a) (r14 a) (r15 a) v (rbp a).
Definition stack (a : ArchContext) : Z := rsp a.

End ArchContext.

(** ** Data *)

Inductive TaskState := New | Ready | Running.
Inductive TaskPriority := Idle | Normal.

#[global] Instance TaskState_eq_dec : EqDecision TaskState.
Proof. solve_decision. Defined.
#[global] Instance TaskPriority_eq_dec : EqDecision TaskPriority.
Proof. solve_decision. Defined.

(** [priority as usize]. *)
Definition priority_index (p : TaskPriority) : nat :=
  match p with Idle => 0 | Normal => 1 end.
Definition PRIORITIES_COUNT : nat := 2.

(** [TaskFlags]. *)
Definition NO_TERMINATE : Z := 1.

Definition MIN_SYSTEM_PID : Z := 0xfff8000000000000.
Definition MAX_PID : Z := 0x0007ffffffffffff.
Definition FIRST_SYSTEM_PID : Z := 0xffffffffffffffff.

Inductive SchedulerError := FromMemoryError (e : MemoryError) | OutOfPids.
Inductive sched_result (A : Type) := Success (a : A) | Failure (e : SchedulerError).
Arguments Success {A} a.
Arguments Failure {A} e.

Record TaskInit := mkTaskInit {
  flags : Z; kernel_stack : KernelStack; affinity : option Z; init_priority : TaskPriority }.
Record TaskData := mkTaskData { data_pid : Z; state : TaskState; init : TaskInit }.
Record Task := mkTask { pid : Z; task_context : ArchContext.ArchContext; inner : TaskData }.

Abbreviation TaskReference := nat (only parsing).
Record TaskControl := mkControl { task : TaskReference; arch_context : ArchContext.ArchContext }.

Record TaskDirectoryData := mkDirectory {
  process_map : gmap Z TaskReference;
  ready_lists : list (list TaskControl);
  next_pid : Z;
  next_system_pid : Z }.

(** The directory together with the heap its references point into. *)
Record Tasks := mkTasks { heap : list Task; directory : TaskDirectoryData }.

Definition new_directory : TaskDirectoryData := mkDirectory ∅ [[]; []] 0 FIRST_SYSTEM_PID.
Definition TASK_DIRECTORY : Tasks := mkTasks [] new_directory.

Definition set_directory (ts : Tasks) (d : TaskDirectoryData) : Tasks := mkTasks (heap ts) d.
Definition set_ready_lists (d : TaskDirectoryData) (ls : list (list TaskControl)) : TaskDirectoryData :=
  mkDirectory (process_map d) ls (next_pid d) (next_system_pid d).

(** The task behind a reference. *)
Definition deref (ts : Tasks) (r : TaskReference) : outcome Task := unwrap (heap ts !! r).

Definition task_state (t : Task) : TaskState := state (inner t).
Definition priority (t : Task) : TaskPriority := init_priority (init (inner t)).
Definition cpu_affinity (t : Task) : option Z := affinity (init (inner t)).
Definition task_stack_top (t : Task) : outcome Z := stack_top (kernel_stack (init (inner t))).

Definition with_state (t : Task) (s : TaskState) : Task :=
  mkTask (pid t) (task_context t) (mkTaskData (data_pid (inner t)) s (init (inner t))).

(** A state change behind the task's lock, guarded by the state it must be in. *)
Definition transition (ts : Tasks) (r : TaskReference) (from to : TaskState) : outcome Tasks :=
  t ← deref ts r;
  assert_ (bool_decide (task_state t = from));;
  Ret (mkTasks (<[r := with_state t to]> (heap ts)) (directory ts)).

(** [Task::set_running]. *)
Definition set_running (ts : Tasks) (r : TaskReference) : outcome Tasks := transition ts r Ready Running.

(** ** Process identifiers *)

(** [while process_map.contains_key(&pid) { pid += 1 }]; the fuel is the number
    of keys, and a scan that visits more keys than there are never ends. *)
Fixpoint scan_up {V} (fuel : nat) (m : gmap Z V) (p : Z) : outcome Z :=
  match m !! p with
  | None => Ret p
  | Some _ =>
      match fuel with
      | O => Hang
      | S fuel' => p' ← uadd p 1; scan_up fuel' m p'
      end
  end.

Fixpoint scan_down {V} (fuel : nat) (m : gmap Z V) (p : Z) : outcome Z :=
  match m !! p with
  | None => Ret p
  | Some _ =>
      match fuel with
      | O => Hang
      | S fuel' => p' ← usub p 1; scan_down fuel' m p'
      end
  end.

Definition with_next_pid (d : TaskDirectoryData) (p : Z) : TaskDirectoryData :=
  mkDirectory (process_map d) (ready_lists d) p (next_system_pid d).
Definition with_next_system_pid (d : TaskDirectoryData) (p : Z) : TaskDirectoryData :=
  mkDirectory (process_map d) (ready_lists d) (next_pid d) p.

Definition generate_pid (d : TaskDirectoryData) (system_task : bool)
    : outcome (sched_result Z * TaskDirectoryData) :=
  let keys := size (process_map d) in
  if system_task then
    let start := if next_system_pid d <=? MIN_SYSTEM_PID then FIRST_SYSTEM_PID else next_system_pid d in
    p ← scan_down keys (process_map d) start;
    if p <=? MIN_SYSTEM_PID then Ret (Failure OutOfPids, with_next_system_pid d p)
    else p' ← usub p 1; Ret (Success p, with_next_system_pid d p')
  else
    let start := if MAX_PID <=? next_pid d then 0 else next_pid d in
    p ← scan_up keys (process_map d) start;
    if MAX_PID <=? p then Ret (Failure OutOfPids, with_next_pid d p)
    else p' ← uadd p 1; Ret (Success p, with_next_pid d p').

Definition create_task (ts : Tasks) (system_task : bool) (ti : TaskInit)
    : outcome (sched_result TaskReference * Tasks) :=
  g ← generate_pid (directory ts) system_task;
  match g.1 with
  | Failure e => Ret (Failure e, set_directory ts g.2)
  | Success p =>
      let r := length (heap ts) in
      let t := mkTask p ArchContext.new (mkTaskData p New ti) in
      let d := g.2 in
      Ret (Success r,
           mkTasks (heap ts ++ [t])
             (mkDirectory (<[p := r]> (process_map d)) (ready_lists d) (next_pid d) (next_system_pid d)))
  end.

(** [Task::new_idle]. *)
Definition new_idle (ts : Tasks) (cpu_id : Z) (ks : KernelStack) :=
  create_task ts true (mkTaskInit NO_TERMINATE ks (Some cpu_id) Idle).

(** ** Ready lists *)

Definition add_to_ready_list (ts : Tasks) (control : TaskControl) : outcome Tasks :=
  t ← deref ts (task control);
  assert_ (bool_decide (task_state t = Ready));;
  let d := directory ts in
  l ← slice_get (ready_lists d) (Z.of_nat (priority_index (priority t)));
  ls ← slice_set (ready_lists d) (Z.of_nat (priority_index (priority t))) (l ++ [control]);
  Ret (set_directory ts (set_ready_lists d ls)).

(** Walk one list for the first task that may run on [this_cpu]; the result is
    the task taken out and the list without it. *)
Fixpoint find_in_list (ts : Tasks) (this_cpu : Z) (l : list TaskControl)
    : outcome (option (TaskControl * list TaskControl)) :=
  match l with
  | [] => Ret None
  | pos :: rest =>
      t ← deref ts (task pos);
      if this_cpu =? default this_cpu (cpu_affinity t) then Ret (Some (pos, rest))
      else r ← find_in_list ts this_cpu rest;
           Ret (match r with Some (c, rest') => Some (c, pos :: rest') | None => None end)
  end.

Fixpoint find_in_levels (ts : Tasks) (this_cpu : Z) (levels : list nat)
    : outcome (option TaskControl * Tasks) :=
  match levels with
  | [] => Ret (None, ts)
  | i :: levels' =>
      l ← slice_get (ready_lists (directory ts)) (Z.of_nat i);
      r ← find_in_list ts this_cpu l;
      match r with
      | Some (c, rest) =>
          ls ← slice_set (ready_lists (directory ts)) (Z.of_nat i) rest;
          Ret (Some c, set_directory ts (set_ready_lists (directory ts) ls))
      | None => find_in_levels ts this_cpu levels'
      end
  end.

Definition find_next_task (ts : Tasks) (this_cpu : Z) (current_priority : option TaskPriority)
    : outcome (option TaskControl * Tasks) :=
  let min_priority_index := default 0%nat (priority_index <$> current_priority) in
  find_in_levels ts this_cpu (rev (seq min_priority_index (PRIORITIES_COUNT - min_priority_index))).

(** [TaskControl::make_ready]. *)
Definition make_ready_state (ts : Tasks) (control : TaskControl) : outcome Tasks :=
  transition ts (task control) Running Ready.
Definition make_ready (ts : Tasks) (control : TaskControl) : outcome Tasks :=
  ts' ← make_ready_state ts control; add_to_ready_list ts' control.

(** * Proofs *)

(** ** Process identifiers *)

Lemma scan_up_ok {V} (m : gmap Z V) (stop : Z) (fuel : nat) : ∀ p,
  p ≤ stop < usize_max → m !! stop = None →
  (size (filter (λ k, (p ≤ k)%Z) (dom m)) ≤ fuel)%nat →
  ∃ q, scan_up fuel m p = Ret q ∧ p ≤ q ≤ stop ∧ m !! q = None ∧
       ∀ k, p ≤ k < q → is_Some (m !! k).
Proof.
  induction fuel as [|fuel IH]; intros p Hp Hstop Hfuel; cbn [scan_up];
    destruct (m !! p) eqn:Hmp.
  2,4: exists p; split_and!; [done|lia|lia|done|lia].
  all: assert (p ∈ filter (λ k, (p ≤ k)%Z) (dom m)) as Hin
         by (apply elem_of_filter; split; [lia|by eapply elem_of_dom_2]).
  - exfalso. apply Nat.le_0_r, size_empty_inv in Hfuel. set_solver.
  - assert (p ≠ stop) by (intros ->; congruence).
    rewrite uadd_ok by lia. cbn [mbind outcome_bind].
    destruct (IH (p + 1)) as (q & Hq & ? & Hmq & Hall); [lia|done| |].
    + assert (filter (λ k, (p + 1 ≤ k)%Z) (dom m) ⊂ filter (λ k, (p ≤ k)%Z) (dom m)) as Hsub.
      { split.
        - intros k [? ?]%elem_of_filter. apply elem_of_filter. split; [lia|done].
        - intros Hsup. apply Hsup in Hin. apply elem_of_filter in Hin as [? _]. lia. }
      apply subset_size in Hsub. lia.
    + exists q. split_and!; [done|lia|lia|done|].
      intros k Hk. destruct (decide (k = p)) as [->|]; [by rewrite Hmp|apply Hall; lia].
Qed.

Lemma scan_down_ok {V} (m : gmap Z V) (stop : Z) (fuel : nat) : ∀ p,
  1 ≤ stop ≤ p → m !! stop = None →
  (size (filter (λ k, (k ≤ p)%Z) (dom m)) ≤ fuel)%nat →
  ∃ q, scan_down fuel m p = Ret q ∧ stop ≤ q ≤ p ∧ m !! q = None ∧
       ∀ k, q < k ≤ p → is_Some (m !! k).
Proof.
  induction fuel as [|fuel IH]; intros p Hp Hstop Hfuel; cbn [scan_down];
    destruct (m !! p) eqn:Hmp.
  2,4: exists p; split_and!; [done|lia|lia|done|lia].
  all: assert (p ∈ filter (λ k, (k ≤ p)%Z) (dom m)) as Hin
         by (apply elem_of_filter; split; [lia|by eapply elem_of_dom_2]).
  - exfalso. apply Nat.le_0_r, size_empty_inv in Hfuel. set_solver.
  - assert (p ≠ stop) by (intros ->; congruence).
    rewrite usub_ok by lia. cbn [mbind outcome_bind].
    destruct (IH (p - 1)) as (q & Hq & ? & Hmq & Hall); [lia|done| |].
    + assert (filter (λ k, (k ≤ p - 1)%Z) (dom m) ⊂ filter (λ k, (k ≤ p)%Z) (dom m)) as Hsub.
      { split.
        - intros k [? ?]%elem_of_filter. apply elem_of_filter. split; [lia|done].
        - intros Hsup. apply Hsup in Hin. apply elem_of_filter in Hin as [? _]. lia. }
      apply subset_size in Hsub. lia.
    + exists q. split_and!; [done|lia|lia|done|].
      intros k Hk. destruct (decide (k = p)) as [->|]; [by rewrite Hmp|apply Hall; lia].
Qed.

Lemma keys_enough {V} (m : gmap Z V) (P : Z → Prop) `{∀ k, Decision (P k)} :
  (size (filter P (dom m)) ≤ size m)%nat.
Proof. rewrite <- size_dom. apply subseteq_size. set_solver. Qed.

Definition user_pid (p : Z) : Prop := 0 ≤ p < MAX_PID.
Definition system_pid (p : Z) : Prop := MIN_SYSTEM_PID < p ≤ FIRST_SYSTEM_PID.

(** The identifiers in use are of one of the two kinds, and the two cursors are
    in range. *)
Record pids_ok (d : TaskDirectoryData) : Prop := {
  pids_keys : ∀ p, is_Some (process_map d !! p) → user_pid p ∨ system_pid p;
  pids_next : 0 ≤ next_pid d ≤ MAX_PID;
  pids_next_system : MIN_SYSTEM_PID ≤ next_system_pid d ≤ FIRST_SYSTEM_PID }.

(** Where the search for an identifier begins. *)
Definition pid_start (d : TaskDirectoryData) (system_task : bool) : Z :=
  if system_task then
    if next_system_pid d <=? MIN_SYSTEM_PID then FIRST_SYSTEM_PID else next_system_pid d
  else if MAX_PID <=? next_pid d then 0 else next_pid d.

(** What a search for an identifier yields. *)
Definition pid_found (d : TaskDirectoryData) (system_task : bool) (r : sched_result Z) : Prop :=
  match r with
  | Success p =>
      process_map d !! p = None ∧ if system_task then system_pid p else user_pid p
  | Failure e =>
      e = OutOfPids ∧
      ∀ p, (if system_task then MIN_SYSTEM_PID < p ≤ pid_start d true
            else pid_start d false ≤ p < MAX_PID) → is_Some (process_map d !! p)
  end.

Ltac pid_consts := unfold user_pid, system_pid, MAX_PID, MIN_SYSTEM_PID, FIRST_SYSTEM_PID in *.

Lemma boundary_pid d p : pids_ok d → p = MAX_PID ∨ p = MIN_SYSTEM_PID → process_map d !! p = None.
Proof.
  intros Hok Hp. apply eq_None_not_Some. intros H.
  apply (pids_keys d Hok) in H. pid_consts. lia.
Qed.

Lemma generate_pid_ok d system_task :
  pids_ok d →
  ∃ r d', generate_pid d system_task = Ret (r, d') ∧
    process_map d' = process_map d ∧ ready_lists d' = ready_lists d ∧ pids_ok d' ∧
    pid_found d system_task r.
Proof.
  intros Hok. pose proof Hok as [Hkeys Hn Hs]. unfold generate_pid, pid_found.
  destruct system_task.
  - change (if next_system_pid d <=? MIN_SYSTEM_PID then FIRST_SYSTEM_PID else next_system_pid d)
      with (pid_start d true).
    assert (MIN_SYSTEM_PID < pid_start d true ≤ FIRST_SYSTEM_PID) as Hst.
    { unfold pid_start. case_bool; pid_consts; lia. }
    destruct (scan_down_ok (process_map d) MIN_SYSTEM_PID (size (process_map d)) (pid_start d true))
      as (q & -> & Hq & Hfree & Hall); [pid_consts; lia|by apply boundary_pid; auto|apply keys_enough; tc_solve|].
    cbn [mbind outcome_bind]. destruct (Z.leb_spec q MIN_SYSTEM_PID).
    + eexists _, _. split; [reflexivity|]. split_and!; [done|done| |done|].
      * split; cbn; [done|done|lia].
      * intros p Hp. apply Hall. lia.
    + rewrite usub_ok by (pid_consts; lia). cbn [mbind outcome_bind].
      eexists _, _. split; [reflexivity|]. split_and!; [done|done| |done|pid_consts; lia].
      split; cbn; [done|done|lia].
  - change (if MAX_PID <=? next_pid d then 0 else next_pid d) with (pid_start d false).
    assert (0 ≤ pid_start d false < MAX_PID) as Hst.
    { unfold pid_start. case_bool; pid_consts; lia. }
    destruct (scan_up_ok (process_map d) MAX_PID (size (process_map d)) (pid_start d false))
      as (q & -> & Hq & Hfree & Hall); [pid_consts; lia|by apply boundary_pid; auto|apply keys_enough; tc_solve|].
    cbn [mbind outcome_bind]. destruct (Z.leb_spec MAX_PID q).
    + eexists _, _. split; [reflexivity|]. split_and!; [done|done| |done|].
      * split; cbn; [done|lia|done].
      * intros p Hp. apply Hall. lia.
    + rewrite uadd_ok by (pid_consts; lia). cbn [mbind outcome_bind].
      eexists _, _. split; [reflexivity|]. split_and!; [done|done| |done|pid_consts; lia].
      split; cbn; [done|lia|done].
Qed.

(** [generate_pid] always returns: the search over the process map ends
    within as many steps as the map has keys and its arithmetic never
    overflows. The identifier it yields is not in use and of the kind asked for
    (user tasks below [MAX_PID], system tasks above [MIN_SYSTEM_PID]); it fails
    only when every identifier from the cursor to the end of the range is in
    use. The directory is otherwise unchanged and stays well formed. *)
Theorem generate_pid_correct d system_task :
  pids_ok d →
  ∃ r d', generate_pid d system_task = Ret (r, d') ∧
    process_map d' = process_map d ∧ ready_lists d' = ready_lists d ∧ pids_ok d' ∧
    pid_found d system_task r.
Proof. apply generate_pid_ok. Qed.

(** ** Creating tasks *)

(** The process map indexes the heap of tasks by identifier. *)
Record tasks_ok (ts : Tasks) : Prop := {
  tasks_pids : pids_ok (directory ts);
  tasks_map : ∀ p r, process_map (directory ts) !! p = Some r ↔
                     ∃ t, heap ts !! r = Some t ∧ pid t = p }.

(** Two tasks never share an identifier. *)
Lemma tasks_ok_pid_inj ts r r' t t' :
  tasks_ok ts → heap ts !! r = Some t → heap ts !! r' = Some t' → pid t = pid t' → r = r'.
Proof.
  intros [_ Hmap] Hr Hr' Hp.
  assert (process_map (directory ts) !! pid t = Some r) by (apply Hmap; eauto).
  assert (process_map (directory ts) !! pid t = Some r') by (apply Hmap; eauto).
  congruence.
Qed.

Definition new_task (p : Z) (ti : TaskInit) : Task :=
  mkTask p ArchContext.new (mkTaskData p New ti).

(** What [create_task] does: nothing, or a fresh task at the end of the heap. *)
Inductive created (ts : Tasks) (system_task : bool) (ti : TaskInit) :
    sched_result TaskReference → Tasks → Prop :=
  | created_none ts' :
      heap ts' = heap ts → created ts system_task ti (Failure OutOfPids) ts'
  | created_task ts' p :
      process_map (directory ts) !! p = None →
      (if system_task then system_pid p else user_pid p) →
      heap ts' = heap ts ++ [new_task p ti] →
      process_map (directory ts') = <[p := length (heap ts)]> (process_map (directory ts)) →
      created ts system_task ti (Success (length (heap ts))) ts'.

Lemma create_task_ok ts system_task ti :
  tasks_ok ts →
  ∃ r ts', create_task ts system_task ti = Ret (r, ts') ∧ created ts system_task ti r ts' ∧
    ready_lists (directory ts') = ready_lists (directory ts) ∧ tasks_ok ts'.
Proof.
  intros [Hp Hmap]. unfold create_task.
  destruct (generate_pid_ok _ system_task Hp) as (g & d' & -> & Hpm & Hrl & Hp' & Hfound).
  cbn [mbind outcome_bind fst snd]. destruct g as [p|e]; cbn [pid_found] in Hfound.
  - destruct Hfound as [Hnone Hkind].
    eexists _, _. split; [reflexivity|]. split_and!.
    + eapply created_task; [done..|]. cbn. by rewrite Hpm.
    + done.
    + split; cbn.
      * destruct Hp' as [Hk ? ?]. split; cbn; [|done..].
        intros q [r' Hq]. rewrite Hpm in Hq.
        apply lookup_insert_Some in Hq as [[<- _]|[_ Hq]].
        -- destruct system_task; auto.
        -- apply Hk. by rewrite Hpm, Hq.
      * intros q r'. rewrite Hpm, lookup_insert_Some, Hmap. split.
        -- intros [[<- <-]|[Hne (t & Ht & <-)]].
           ++ exists (new_task p ti). by rewrite list_lookup_middle.
           ++ exists t. split; [by apply lookup_app_l_Some|done].
        -- intros (t & Ht & <-). apply lookup_app_Some in Ht as [Ht|[Hlen Ht]].
           ++ right. split; [|by eauto]. intros Heq.
              assert (process_map (directory ts) !! pid t = Some r') by (apply Hmap; eauto).
              congruence.
           ++ apply list_lookup_singleton_Some in Ht as [Hr' <-]. left. cbn. split; [done|lia].
  - destruct Hfound as [-> _]. eexists _, _. split_and!; [done|by constructor|done|].
    split; [done|]. cbn. by rewrite Hpm.
Qed.

(** ** Ready lists *)

(** A control whose task may run on a CPU: it is bound to no CPU or to this one. *)
Definition eligible (ts : Tasks) (cpu : Z) (c : TaskControl) : Prop :=
  ∃ t, heap ts !! task c = Some t ∧ (cpu_affinity t = None ∨ cpu_affinity t = Some cpu).

(** The task behind a control exists. *)
Definition live (ts : Tasks) (c : TaskControl) : Prop := is_Some (heap ts !! task c).

Lemma eligible_test ts cpu c t :
  heap ts !! task c = Some t → (cpu =? default cpu (cpu_affinity t)) = true ↔ eligible ts cpu c.
Proof.
  intros Ht. rewrite Z.eqb_eq. unfold eligible. rewrite Ht. destruct (cpu_affinity t) as [a|] eqn:Ha; cbn.
  - split; [intros ->; eauto|]. intros (t' & [= <-] & [?|?]); congruence.
  - split; [eauto|done].
Qed.

(** What a search finds: nothing eligible, or the first eligible control of the
    first level that has one. *)
Inductive picked (ts : Tasks) (cpu : Z) (levels : list nat) : option TaskControl → Tasks → Prop :=
  | picked_none :
      (∀ i l c, i ∈ levels → ready_lists (directory ts) !! i = Some l → c ∈ l → ¬ eligible ts cpu c) →
      picked ts cpu levels None ts
  | picked_some before i after pre c post :
      levels = before ++ i :: after →
      (∀ j l c', j ∈ before → ready_lists (directory ts) !! j = Some l → c' ∈ l → ¬ eligible ts cpu c') →
      ready_lists (directory ts) !! i = Some (pre ++ c :: post) →
      (∀ c', c' ∈ pre → ¬ eligible ts cpu c') →
      eligible ts cpu c →
      picked ts cpu levels (Some c)
        (set_directory ts (set_ready_lists (directory ts)
           (<[i := pre ++ post]> (ready_lists (directory ts))))).

Lemma find_in_list_ok ts cpu l :
  Forall (live ts) l →
  (find_in_list ts cpu l = Ret None ∧ ∀ c, c ∈ l → ¬ eligible ts cpu c) ∨
  (∃ pre c post, find_in_list ts cpu l = Ret (Some (c, pre ++ post)) ∧ l = pre ++ c :: post ∧
     (∀ c', c' ∈ pre → ¬ eligible ts cpu c') ∧ eligible ts cpu c).
Proof.
  induction l as [|c l IH]; intros Hl; [left; split; [done|set_solver]|].
  apply Forall_cons in Hl as [[t Ht] Hl]. cbn [find_in_list]. unfold deref. rewrite Ht. cbn [unwrap mbind outcome_bind].
  pose proof (eligible_test ts cpu c t Ht) as Hel.
  destruct (cpu =? default cpu (cpu_affinity t)).
  - right. exists [], c, l. split_and!; [done..|set_solver|by apply Hel].
  - assert (¬ eligible ts cpu c) as Hc by (intros H%Hel; done).
    destruct (IH Hl) as [[-> Hnone]|(pre & c' & post & -> & -> & Hpre & Hc')].
    + left. split; [done|]. intros c' [->|?]%elem_of_cons; auto.
    + right. exists (c :: pre), c', post. split_and!; [done..| |done].
      intros c'' [->|?]%elem_of_cons; auto.
Qed.

Lemma slice_get_nat {A} (l : list A) (i : nat) x :
  l !! i = Some x → slice_get l (Z.of_nat i) = Ret x.
Proof. intros H. unfold slice_get. by rewrite Nat2Z.id, H. Qed.

Lemma slice_set_nat {A} (l : list A) (i : nat) x y :
  l !! i = Some x → slice_set l (Z.of_nat i) y = Ret (<[i := y]> l).
Proof. intros H. unfold slice_set. by rewrite Nat2Z.id, H. Qed.

Lemma find_in_levels_ok ts cpu levels :
  Forall (Forall (live ts)) (ready_lists (directory ts)) →
  Forall (λ i, (i < length (ready_lists (directory ts)))%nat) levels →
  ∃ r ts', find_in_levels ts cpu levels = Ret (r, ts') ∧ picked ts cpu levels r ts'.
Proof.
  intros Hlive. induction levels as [|i levels IH]; intros Hlv.
  { eexists _, _. split; [reflexivity|]. constructor. set_solver. }
  apply Forall_cons in Hlv as [Hi Hlv]. destruct (lookup_lt_is_Some_2 _ _ Hi) as [l Hl].
  cbn [find_in_levels]. rewrite (slice_get_nat _ _ _ Hl). cbn [mbind outcome_bind].
  assert (Forall (live ts) l) as Hll by by eapply Forall_lookup_1 in Hlive.
  destruct (find_in_list_ok ts cpu l Hll) as [[-> Hnone]|(pre & c & post & -> & -> & Hpre & Hc)];
    cbn [mbind outcome_bind].
  - destruct (IH Hlv) as (r & ts' & -> & Hp). eexists _, _. split; [reflexivity|].
    destruct Hp as [Hp|before j after pre c post -> Hb Hj Hpre Hc].
    + constructor. intros j l' c [->|Hj]%elem_of_cons Hl' Hc; [|by eapply Hp].
      simplify_eq. by apply Hnone.
    + apply (picked_some _ _ _ (i :: before) j after pre c post); [done| |done..].
      intros k l' c' [->|Hk]%elem_of_cons Hl' Hc'; [|by eapply Hb].
      simplify_eq. by apply Hnone.
  - rewrite (slice_set_nat _ _ _ _ Hl). cbn [mbind outcome_bind]. eexists _, _. split; [reflexivity|].
    apply (picked_some _ _ _ [] i levels pre c post); [done|set_solver|done..].
Qed.

(** The levels a search visits, from the highest down to the given priority. *)
Definition search_levels (p : option TaskPriority) : list nat :=
  match p with Some Normal => [1%nat] | _ => [1%nat; 0%nat] end.

Lemma find_next_task_picks ts cpu p :
  Forall (Forall (live ts)) (ready_lists (directory ts)) →
  length (ready_lists (directory ts)) = 2%nat →
  ∃ r ts', find_next_task ts cpu p = Ret (r, ts') ∧ picked ts cpu (search_levels p) r ts'.
Proof.
  intros Hlive Hlen. unfold find_next_task.
  replace (rev _) with (search_levels p) by by destruct p as [[]|].
  apply find_in_levels_ok; [done|]. rewrite Hlen.
  destruct p as [[]|]; repeat constructor.
Qed.

(** [find_next_task] takes, out of the ready lists of at least the given
    priority, the task that is first in line among those of the highest level
    that may run on this CPU, and leaves every other task where it is in its
    list; when it finds none, no such task is ready and nothing changes. *)
Theorem find_next_task_correct ts cpu p :
  Forall (Forall (live ts)) (ready_lists (directory ts)) →
  length (ready_lists (directory ts)) = 2%nat →
  ∃ r ts', find_next_task ts cpu p = Ret (r, ts') ∧ heap ts' = heap ts ∧
    let lists := ready_lists (directory ts) in
    let low := default 0%nat (priority_index <$> p) in
    match r with
    | None => ts' = ts ∧
        ∀ i l c, (low ≤ i)%nat → lists !! i = Some l → c ∈ l → ¬ eligible ts cpu c
    | Some c => ∃ i pre post,
        (low ≤ i)%nat ∧ lists !! i = Some (pre ++ c :: post) ∧ eligible ts cpu c ∧
        (∀ c', c' ∈ pre → ¬ eligible ts cpu c') ∧
        (∀ j l c', (i < j)%nat → lists !! j = Some l → c' ∈ l → ¬ eligible ts cpu c') ∧
        ready_lists (directory ts') = <[i := pre ++ post]> lists
    end.
Proof.
  intros Hlive Hlen.
  destruct (find_next_task_picks ts cpu p Hlive Hlen) as (r & ts' & -> & Hp).
  assert (∀ i l, ready_lists (directory ts) !! i = Some l → (i < 2)%nat) as Hlt
    by (intros i l H%lookup_lt_Some; lia).
  eexists _, _. split; [reflexivity|].
  destruct Hp as [Hp|before i after pre c post Hlv Hb Hi Hpre Hc].
  - split; [done|split; [done|]]. intros i l c Hlow Hl. apply (Hp i l c); [|done].
    apply Hlt in Hl. destruct p as [[]|]; cbn in *; set_unfold; lia.
  - split; [done|]. exists i, pre, post. split_and!; [|done..| |done].
    + assert (i ∈ search_levels p) as Hin by (rewrite Hlv; set_solver).
      destruct p as [[]|]; cbn in *; set_unfold; lia.
    + intros j l c' Hij Hj. apply (Hb j l c'); [|done]. apply Hlt in Hj.
      destruct p as [[]|]; destruct before as [|b1 [|b2 before]]; cbn in Hlv;
        simplify_eq/=; try lia; set_unfold; try lia; by destruct before.
Qed.

Lemma transition_ok ts r from to t :
  heap ts !! r = Some t → task_state t = from →
  transition ts r from to = Ret (mkTasks (<[r := with_state t to]> (heap ts)) (directory ts)).
Proof.
  intros Ht <-. unfold transition, deref. rewrite Ht. cbn [unwrap mbind outcome_bind].
  by rewrite bool_decide_true.
Qed.

Lemma add_to_ready_list_ok ts c t l :
  heap ts !! task c = Some t → task_state t = Ready →
  ready_lists (directory ts) !! priority_index (priority t) = Some l →
  add_to_ready_list ts c =
    Ret (set_directory ts (set_ready_lists (directory ts)
          (<[priority_index (priority t) := l ++ [c]]> (ready_lists (directory ts))))).
Proof.
  intros Ht Hs Hl. unfold add_to_ready_list, deref. rewrite Ht. cbn [unwrap mbind outcome_bind].
  rewrite bool_decide_true by done. cbn [assert_ mbind outcome_bind].
  rewrite (slice_get_nat _ _ _ Hl). cbn [mbind outcome_bind].
  by rewrite (slice_set_nat _ _ _ _ Hl).
Qed.

(** ** Concrete runs *)

Lemma new_directory_ok : pids_ok new_directory.
Proof. split; cbn; pid_consts; [by intros p [? ?]|lia|lia]. Qed.

Lemma TASK_DIRECTORY_ok : tasks_ok TASK_DIRECTORY.
Proof.
  split; [apply new_directory_ok|]. intros p r. cbn. rewrite lookup_empty. split; [done|].
  by intros (t & ? & _).
Qed.

Lemma generate_pid_correct_witness :
  generate_pid new_directory true =
    Ret (Success FIRST_SYSTEM_PID, with_next_system_pid new_directory 0xfffffffffffffffe) ∧
  ∃ r d', generate_pid new_directory true = Ret (r, d') ∧
    process_map d' = process_map new_directory ∧ ready_lists d' = ready_lists new_directory ∧
    pids_ok d' ∧ pid_found new_directory true r.
Proof. split; [by vm_compute|]. apply generate_pid_correct, new_directory_ok. Defined.

Definition example_stack : KernelStack :=
  mkKernelStack (Region.mkRegion (Regions.mkRegionInfo 0x100000 0x120000) 0 0x20000).
Definition example_task (p : Z) (a : option Z) (pri : TaskPriority) : Task :=
  mkTask p ArchContext.new (mkTaskData p Ready (mkTaskInit 0 example_stack a pri)).

(** An idle task of CPU 0, and two ready tasks, the first bound to CPU 1. *)
Definition example_tasks : Tasks :=
  mkTasks [example_task 5 (Some 0) Idle; example_task 6 (Some 1) Normal; example_task 7 None Normal]
    (mkDirectory ∅ [[mkControl 0%nat ArchContext.new];
                    [mkControl 1%nat ArchContext.new; mkControl 2%nat ArchContext.new]] 0 0).

Lemma find_next_task_correct_witness :
  (r ← find_next_task example_tasks 0 (Some Normal); Ret (option_map task r.1)) = Ret (Some 2%nat) ∧
  ∃ r ts', find_next_task example_tasks 0 (Some Normal) = Ret (r, ts') ∧
    heap ts' = heap example_tasks ∧
    let lists := ready_lists (directory example_tasks) in
    let low := 1%nat in
    match r with
    | None => ts' = example_tasks ∧
        ∀ i l c, (low ≤ i)%nat → lists !! i = Some l → c ∈ l → ¬ eligible example_tasks 0 c
    | Some c => ∃ i pre post,
        (low ≤ i)%nat ∧ lists !! i = Some (pre ++ c :: post) ∧ eligible example_tasks 0 c ∧
        (∀ c', c' ∈ pre → ¬ eligible example_tasks 0 c') ∧
        (∀ j l c', (i < j)%nat → lists !! j = Some l → c' ∈ l → ¬ eligible example_tasks 0 c') ∧
        ready_lists (directory ts') = <[i := pre ++ post]> lists
    end.
Proof.
  split; [reflexivity|]. apply (find_next_task_correct example_tasks 0 (Some Normal)); [|reflexivity].
  repeat constructor; by eexists.
Defined.
