(* ===== verification/Scheduler.v ===== *)
(** * Context switching and the scheduler (scheduler/reschedule.rs,
    scheduler/mod.rs and the operations of scheduler/arch_context.rs)

    A [View] is what the code of one CPU reaches: its own [CURRENT_TASK] and
    registers, the shared tasks, the shared memory that holds the stacks, and
    the allocator of kernel stacks. The first part gives the calls as they run
    on one CPU; the second part cuts them into their atomic actions (one lock
    region each) and interleaves the actions of any number of CPUs. *)
From S2P Require Import Prelude PageTable RegionMapping Tasks.

(** What the scheduler needs of paging. *)
Class KernelStacks (P : Type) := {
  allocate_kernel_stack : P → outcome (result KernelStack * P) }.

(** [paging::allocate_kernel_stack(DEFAULT_KERNEL_STACK_PAGES)]. *)
Definition DEFAULT_KERNEL_STACK_PAGES : Z := 32.
#[global] Instance Paging_stacks (N : nat) (page_size : Z) : KernelStacks Paging := {
  allocate_kernel_stack p :=
    RegionMapping.allocate_kernel_stack N page_size p DEFAULT_KERNEL_STACK_PAGES }.

(** A stack has an end, and room for the two words a new task starts with. *)
Definition stack_ok (ks : KernelStack) : Prop := ∃ top, stack_top ks = Ret top ∧ 16 ≤ top < usize_limit.

(** What paging promises: from a state [stacks_ok], every call that returns leaves
    such a state, and the stack it hands out can be used. *)
Class KernelStacksLaws (P : Type) `{KernelStacks P} := {
  stacks_ok : P → Prop;
  allocated_stack_ok : ∀ p r p', stacks_ok p → allocate_kernel_stack p = Ret (r, p') →
    stacks_ok p' ∧ ∀ ks, r = Ok ks → stack_ok ks }.

(** Code addresses that end up on stacks: the entry of [launch_trampoline], the
    return address of the call to [do_switch], and that of the call to
    [complete_task_switch]. *)
Class CodeLayout := { launch_trampoline : Z; after_switch : Z; after_complete : Z }.

(** ** Stacks and the register switch *)

Abbreviation memory := (gmap Z Z) (only parsing).
Definition read_word (m : memory) (a : Z) : Z := default 0 (m !! a).
Definition wrap64 (a : Z) : Z := a mod usize_limit.

Module Context.
Import ArchContext.

Definition push_stack (a : ArchContext) (value : Z) (m : memory) : outcome (ArchContext * memory) :=
  sp ← usub (rsp a) 8; Ret (set_stack a sp, <[sp := value]> m).

Definition pop_stack (a : ArchContext) (m : memory) : outcome (Z * ArchContext) :=
  let value := read_word m (rsp a) in
  sp ← uadd (rsp a) 8; Ret (value, set_stack a sp).

(** The [push] and [pop] instructions, on the live registers. *)
Definition push (live : ArchContext) (value : Z) (m : memory) : ArchContext * memory :=
  let sp := wrap64 (rsp live - 8) in (set_stack live sp, <[sp := value]> m).
Definition pop (live : ArchContext) (m : memory) : Z * ArchContext :=
  (read_word m (rsp live), set_stack live (wrap64 (rsp live + 8))).

(** [popfq]: bit 1 of RFLAGS is always set. *)
Definition load_flags (v : Z) : Z := Z.lor v 2.

Section code.
Context `{CodeLayout}.

(** [push_system_task_startup], given where the boxed closure lives. *)
Definition push_system_task_startup (a : ArchContext) (trampoline : Z) (m : memory)
    : outcome (ArchContext * memory) :=
  s ← push_stack a trampoline m; push_stack s.1 launch_trampoline s.2.

(** [do_switch] up to [call complete_task_switch]: save the live registers,
    load those of [next]; the flags pass through the word below the stack. *)
Definition do_switch (live next : ArchContext) (m : memory) : ArchContext * ArchContext * memory :=
  let cr3' := if cr3 next =? cr3 live then cr3 live else cr3 next in
  let '(l1, m1) := push live (rflags live) m in
  let '(saved_flags, l2) := pop l1 m1 in
  let '(l3, m2) := push l2 (rflags next) m1 in
  let '(new_flags, l4) := pop l3 m2 in
  let saved := mkContext (cr3 live) saved_flags (rbx live) (r12 live) (r13 live) (r14 live)
                 (r15 live) (rsp l4) (rbp live) in
  let loaded := mkContext cr3' (load_flags new_flags) (rbx next) (r12 next) (r13 next) (r14 next)
                  (r15 next) (rsp next) (rbp next) in
  let '(l5, m3) := push loaded after_complete m2 in
  (saved, set_stack l5 (wrap64 (rsp l5 + 8)), m3).

(** [ArchContext::switch_to]: the call pushes its return address. *)
Definition switch_to (live next : ArchContext) (m : memory) : ArchContext * ArchContext * memory :=
  let '(l1, m1) := push live after_switch m in do_switch l1 next m1.

(** Where the final [ret] of [do_switch] goes: into [launch_trampoline], which
    pops the closure and jumps to [do_task_trampoline_launch]; back into
    [reschedule]; or to some other address. *)
Inductive control := Resumed | Launched (trampoline : Z) | Jumped (rip : Z).

Definition ret (live : ArchContext) (m : memory) : control * ArchContext :=
  let '(rip, l1) := pop live m in
  if rip =? launch_trampoline then let '(rdi, l2) := pop l1 m in (Launched rdi, l2)
  else if rip =? after_switch then (Resumed, l1)
  else (Jumped rip, l1).

End code.
End Context.

(** ** One CPU *)

(** [CURRENT_TASK] and the live registers. *)
Record Cpu := mkCpu {
  current : option TaskControl; old : option TaskControl; regs : ArchContext.ArchContext }.

Record View (P : Type) := mkView {
  cpu : Cpu; tasks : Tasks; mem : memory; stacks : P }.
Arguments mkView {P}.
Arguments cpu {P}.
Arguments tasks {P}.
Arguments mem {P}.
Arguments stacks {P}.

(** How a call ends on its CPU: it returns, or control is now elsewhere. *)
Inductive ending (A : Type) := Returns (a : A) | Switched (c : Context.control).
Arguments Returns {A} a.
Arguments Switched {A} c.

Section calls.
Context {P : Type} `{KernelStacks P} `{CodeLayout}.
Implicit Types v : View P.

Definition with_tasks v (ts : Tasks) : View P := mkView (cpu v) ts (mem v) (stacks v).
Definition with_cpu v (c : Cpu) : View P := mkView c (tasks v) (mem v) (stacks v).

Definition current_task v : outcome TaskReference :=
  c ← unwrap (current (cpu v)); Ret (task c).

Definition set_initial_task v (c : TaskControl) : outcome (View P) :=
  assert_ (bool_decide (current (cpu v) = None));;
  Ret (with_cpu v (mkCpu (Some c) (old (cpu v)) (regs (cpu v)))).

(** [Task::make_current]. *)
Definition make_current v (r : TaskReference) : outcome (View P) :=
  ts ← transition (tasks v) r New Running;
  set_initial_task (with_tasks v ts) (mkControl r ArchContext.new).

(** The choice at the head of [reschedule]. *)
Definition choose_next (this_cpu : Z) v : outcome (option TaskControl * View P) :=
  r ← current_task v;
  t ← deref (tasks v) r;
  n ← find_next_task (tasks v) this_cpu (Some (priority t));
  Ret (n.1, with_tasks v n.2).

Definition prepare_task_switch v (next : TaskControl) : outcome (View P) :=
  assert_ (bool_decide (old (cpu v) = None));;
  let c := mkCpu (Some next) (current (cpu v)) (regs (cpu v)) in
  ts ← set_running (tasks v) (task next);
  unwrap (old c);;
  Ret (with_tasks (with_cpu v c) ts).

(** [old_ctxt.switch_to(new_ctxt)] up to the call back into the scheduler. *)
Definition switch_contexts v : outcome (View P) :=
  o ← unwrap (old (cpu v));
  n ← unwrap (current (cpu v));
  let '(saved, live, m) := Context.switch_to (regs (cpu v)) (arch_context n) (mem v) in
  Ret (mkView (mkCpu (Some n) (Some (mkControl (task o) saved)) live) (tasks v) m (stacks v)).

(** [complete_task_switch]: take the old task and mark it ready ... *)
Definition take_old v : outcome (TaskControl * View P) :=
  assert_ (bool_decide (is_Some (old (cpu v))));;
  o ← unwrap (old (cpu v));
  ts ← make_ready_state (tasks v) o;
  Ret (o, with_tasks (with_cpu v (mkCpu (current (cpu v)) None (regs (cpu v)))) ts).

(** ... and put it on its ready list. *)
Definition enqueue v (c : TaskControl) : outcome (View P) :=
  ts ← add_to_ready_list (tasks v) c; Ret (with_tasks v ts).

Definition complete_task_switch v : outcome (View P) :=
  o ← take_old v; enqueue o.2 o.1.

(** The [ret] of [do_switch]; a task that is resumed runs into [todo!()]. *)
Definition return_from_switch v : outcome (Context.control * View P) :=
  let '(ctl, live) := Context.ret (regs (cpu v)) (mem v) in
  match ctl with
  | Context.Resumed => Panic Unimplemented
  | _ => Ret (ctl, with_cpu v (mkCpu (current (cpu v)) (old (cpu v)) live))
  end.

Definition reschedule (this_cpu : Z) v : outcome (ending () * View P) :=
  n ← choose_next this_cpu v;
  match n.1 with
  | None => Ret (Returns (), n.2)
  | Some next =>
      v1 ← prepare_task_switch n.2 next;
      v2 ← switch_contexts v1;
      v3 ← complete_task_switch v2;
      r ← return_from_switch v3;
      Ret (Switched r.1, r.2)
  end.

(** [Task::make_runnable] before its call to [reschedule]. *)
Definition make_runnable_state v (r : TaskReference) (a : ArchContext.ArchContext)
    : outcome (TaskControl * View P) :=
  ts ← transition (tasks v) r New Ready; Ret (mkControl r a, with_tasks v ts).

Definition make_runnable (this_cpu : Z) v (r : TaskReference) (a : ArchContext.ArchContext)
    : outcome (ending () * View P) :=
  c ← make_runnable_state v r a;
  v' ← enqueue c.2 c.1;
  reschedule this_cpu v'.

(** The context a spawned task starts from. *)
Definition startup_context v (r : TaskReference) (trampoline : Z)
    : outcome (ArchContext.ArchContext * View P) :=
  t ← deref (tasks v) r;
  top ← task_stack_top t;
  let a := ArchContext.set_page_table (ArchContext.set_stack ArchContext.new top)
             (ArchContext.cr3 (regs (cpu v))) in
  s ← Context.push_system_task_startup a trampoline (mem v);
  Ret (s.1, mkView (cpu v) (tasks v) s.2 (stacks v)).

Definition create_spawned v (ks : KernelStack) : outcome (sched_result TaskReference * View P) :=
  r ← create_task (tasks v) false (mkTaskInit 0 ks None Normal); Ret (r.1, with_tasks v r.2).

Definition spawn (this_cpu : Z) v (trampoline : Z)
    : outcome (ending (sched_result TaskReference) * View P) :=
  k ← allocate_kernel_stack (stacks v);
  let v0 := mkView (cpu v) (tasks v) (mem v) k.2 in
  match k.1 with
  | Err e => Ret (Returns (Failure (FromMemoryError e)), v0)
  | Ok ks =>
      r ← create_spawned v0 ks;
      match r.1 with
      | Failure e => Ret (Returns (Failure e), r.2)
      | Success t =>
          a ← startup_context r.2 t trampoline;
          e ← make_runnable this_cpu a.2 t a.1;
          Ret (match e.1 with Returns _ => Returns (Success t) | Switched c => Switched c end, e.2)
      end
  end.

(** [scheduler::init]. *)
Definition init (this_cpu : Z) v (idle_thread_stack : KernelStack)
    : outcome (sched_result TaskReference * View P) :=
  r ← new_idle (tasks v) this_cpu idle_thread_stack;
  match r.1 with
  | Failure e => Ret (Failure e, with_tasks v r.2)
  | Success t => v' ← make_current (with_tasks v r.2) t; Ret (Success t, v')
  end.

(** ** Atomic actions *)

(** Where a CPU is inside a call, with the boxes its code holds in hand. *)
Inductive Phase :=
  | Executing
  | Starting (r : TaskReference)
  | Allocating (trampoline : Z)
  | Creating (trampoline : Z) (ks : KernelStack)
  | Preparing (trampoline : Z) (r : TaskReference)
  | Enqueuing (c : TaskControl)
  | Rescheduling
  | Picked (next : TaskControl)
  | Switching
  | Completing
  | Retiring (c : TaskControl)
  | Returning.

(** The next action of a CPU that is inside a call. *)
Definition advance (this_cpu : Z) (ph : Phase) v : outcome (Phase * View P) :=
  match ph with
  | Executing => Ret (Executing, v)
  | Starting r => v' ← make_current v r; Ret (Executing, v')
  | Allocating tr =>
      k ← allocate_kernel_stack (stacks v);
      Ret (match k.1 with Ok ks => Creating tr ks | Err _ => Executing end,
           mkView (cpu v) (tasks v) (mem v) k.2)
  | Creating tr ks =>
      r ← create_spawned v ks;
      Ret (match r.1 with Success t => Preparing tr t | Failure _ => Executing end, r.2)
  | Preparing tr r =>
      a ← startup_context v r tr;
      c ← make_runnable_state a.2 r a.1;
      Ret (Enqueuing c.1, c.2)
  | Enqueuing c => v' ← enqueue v c; Ret (Rescheduling, v')
  | Rescheduling =>
      n ← choose_next this_cpu v;
      Ret (match n.1 with Some next => Picked next | None => Executing end, n.2)
  | Picked next => v' ← prepare_task_switch v next; Ret (Switching, v')
  | Switching => v' ← switch_contexts v; Ret (Completing, v')
  | Completing => o ← take_old v; Ret (Retiring o.1, o.2)
  | Retiring c => v' ← enqueue v c; Ret (Returning, v')
  | Returning => r ← return_from_switch v; Ret (Executing, r.2)
  end.

(** Run the actions of one CPU, undisturbed, to the end of its call. *)
Fixpoint run_call (fuel : nat) (this_cpu : Z) (ph : Phase) v : outcome (View P) :=
  match ph, fuel with
  | Executing, _ => Ret v
  | _, O => Hang
  | _, Datatypes.S fuel' => r ← advance this_cpu ph v; run_call fuel' this_cpu r.1 r.2
  end.

End calls.

(** ** Many CPUs *)

Record World (P : Type) := mkWorld {
  cpus : gmap Z (Cpu * Phase); w_tasks : Tasks; w_mem : memory; w_stacks : P }.
Arguments mkWorld {P}.
Arguments cpus {P}.
Arguments w_tasks {P}.
Arguments w_mem {P}.
Arguments w_stacks {P}.

Definition view_of {P} (w : World P) (c : Cpu) : View P := mkView c (w_tasks w) (w_mem w) (w_stacks w).
Definition put_view {P} (w : World P) (id : Z) (ph : Phase) (v : View P) : World P :=
  mkWorld (<[id := (cpu v, ph)]> (cpus w)) (tasks v) (mem v) (stacks v).

Section system.
Context {P : Type} `{KernelStacks P} `{CodeLayout}.

(** A CPU comes up and creates its idle task; code that runs on a CPU computes,
    calls [spawn], or calls [reschedule]; a CPU inside a call takes its next
    action. *)
Inductive step : World P → World P → Prop :=
  | step_boot w id ks r ts live :
      cpus w !! id = None → new_idle (w_tasks w) id ks = Ret (Success r, ts) →
      step w (put_view w id (Starting r) (mkView (mkCpu None None live) ts (w_mem w) (w_stacks w)))
  | step_compute w id c live m :
      cpus w !! id = Some (c, Executing) →
      step w (put_view w id Executing
                (mkView (mkCpu (current c) (old c) live) (w_tasks w) m (w_stacks w)))
  | step_spawn w id c trampoline :
      cpus w !! id = Some (c, Executing) →
      step w (put_view w id (Allocating trampoline) (view_of w c))
  | step_reschedule w id c :
      cpus w !! id = Some (c, Executing) →
      step w (put_view w id Rescheduling (view_of w c))
  | step_advance w id c ph ph' v' :
      cpus w !! id = Some (c, ph) → advance id ph (view_of w c) = Ret (ph', v') →
      step w (put_view w id ph' v').

Definition initial (m : memory) (p : P) : World P := mkWorld ∅ TASK_DIRECTORY m p.

Inductive reachable (m : memory) (p : P) : World P → Prop :=
  | reachable_initial : reachable m p (initial m p)
  | reachable_step w w' : reachable m p w → step w w' → reachable m p w'.

End system.

(** * Proofs *)

(** ** The calls are runs of their actions *)

Section refinement.
Context {P : Type} `{KernelStacks P} `{CodeLayout}.
Implicit Types v : View P.

Lemma run_call_S fuel id ph v :
  ph ≠ Executing → run_call (S fuel) id ph v = (r ← advance id ph v; run_call fuel id r.1 r.2).
Proof. by destruct ph. Qed.

(** Both sides begin with the same computation: run it. *)
Local Ltac split_bind :=
  rewrite ?bind_assoc;
  match goal with
  | |- (?m ≫= _) = (?m ≫= _) => destruct m; [cbn [mbind outcome_bind fst snd]|done|done]
  end.
(** Take the next action of the run. *)
Local Ltac next_action := rewrite run_call_S by done; cbn [advance]; split_bind.

Lemma run_reschedule id v fuel :
  (6 ≤ fuel)%nat → run_call fuel id Rescheduling v = (r ← reschedule id v; Ret r.2).
Proof.
  intros Hf. do 6 (destruct fuel as [|fuel]; [lia|]). clear Hf.
  unfold reschedule. next_action.
  destruct a as [[next|] v0]; cbn [fst snd]; [|by destruct fuel].
  unfold complete_task_switch.
  do 5 next_action.
  by destruct fuel.
Qed.

Lemma run_spawn id v trampoline fuel :
  (10 ≤ fuel)%nat → run_call fuel id (Allocating trampoline) v = (r ← spawn id v trampoline; Ret r.2).
Proof.
  intros Hf. do 4 (destruct fuel as [|fuel]; [lia|]).
  unfold spawn, make_runnable. next_action.
  destruct a as [[ks|e] p']; cbn [fst snd]; [|done].
  next_action.
  destruct a as [[t|e] v0]; cbn [fst snd]; [|by destruct fuel].
  next_action.
  split_bind.
  next_action.
  rewrite run_reschedule by lia. split_bind. done.
Qed.

End refinement.

(** ** Every task is in one place *)

(** The tasks and the state each should be in, by where their boxes are. *)
Abbreviation slot := (TaskReference * TaskState)%type (only parsing).

Definition held (s : TaskState) (o : option TaskControl) : list slot :=
  match o with Some c => [(task c, s)] | None => [] end.

Definition phase_slots (ph : Phase) : list slot :=
  match ph with
  | Starting r | Preparing _ r => [(r, New)]
  | Enqueuing c | Picked c | Retiring c => [(task c, Ready)]
  | _ => []
  end.

Definition cpu_slots (s : Cpu * Phase) : list slot :=
  held Running (current s.1) ++ held Running (old s.1) ++ phase_slots s.2.

Definition list_slots (l : list TaskControl) : list slot := (λ c, (task c, Ready)) <$> l.
Definition ready_slots (ts : Tasks) : list slot :=
  concat (list_slots <$> ready_lists (directory ts)).

Definition all_cpu_slots (m : gmap Z (Cpu * Phase)) : list slot :=
  concat ((λ e, cpu_slots e.2) <$> map_to_list m).

(** The tasks there are, with the states they are in. *)
Definition task_table (ts : Tasks) : list slot :=
  zip (seq 0 (length (heap ts))) (task_state <$> heap ts).

(** What a task keeps for ever, seen through a reference. *)
Definition has_init (ts : Tasks) (r : TaskReference) (Φ : TaskInit → Prop) : Prop :=
  ∃ t, heap ts !! r = Some t ∧ Φ (Tasks.init (inner t)).

Definition may_run_on (id : Z) (ti : TaskInit) : Prop := affinity ti = None ∨ affinity ti = Some id.

(** The phase of a CPU fits its [CURRENT_TASK], and the tasks it runs or is
    about to run may run there. *)
Definition current_ok (ts : Tasks) (id : Z) (c : Cpu) (ph : Phase) : Prop :=
  match ph with
  | Starting _ => current c = None
  | _ => ∃ k, current c = Some k ∧ has_init ts (task k) (may_run_on id)
  end.
Definition old_ok (c : Cpu) (ph : Phase) : Prop :=
  match ph with Switching | Completing => is_Some (old c) | _ => old c = None end.
Definition phase_ok (ts : Tasks) (id : Z) (ph : Phase) : Prop :=
  match ph with
  | Starting r => has_init ts r (may_run_on id)
  | Picked k => has_init ts (task k) (may_run_on id)
  | Creating _ ks => stack_ok ks
  | Preparing _ r => has_init ts r (λ ti, stack_ok (kernel_stack ti))
  | _ => True
  end.
Definition cpu_ok (ts : Tasks) (id : Z) (c : Cpu) (ph : Phase) : Prop :=
  current_ok ts id c ph ∧ old_ok c ph ∧ phase_ok ts id ph.

(** The ready lists: one per priority, each with the tasks of that priority. *)
Record lists_ok (ts : Tasks) : Prop := {
  ok_levels : length (ready_lists (directory ts)) = 2%nat;
  ok_priorities : ∀ i l c, ready_lists (directory ts) !! i = Some l → c ∈ l →
    has_init ts (task c) (λ ti, priority_index (init_priority ti) = i) }.

(** The invariant of the scheduler. *)
Record sched_inv {P} (w : World P) : Prop := {
  inv_tasks : tasks_ok (w_tasks w);
  inv_lists : lists_ok (w_tasks w);
  inv_cpus : ∀ id c ph, cpus w !! id = Some (c, ph) → cpu_ok (w_tasks w) id c ph;
  inv_slots : ready_slots (w_tasks w) ++ all_cpu_slots (cpus w) ≡ₚ task_table (w_tasks w) }.

(** *** The table of tasks *)

Lemma task_table_lookup ts i r s :
  task_table ts !! i = Some (r, s) ↔ r = i ∧ ∃ t, heap ts !! r = Some t ∧ task_state t = s.
Proof.
  unfold task_table. rewrite lookup_zip_with_Some. split.
  - intros (x & y & [= -> ->] & [-> Hi]%lookup_seq & Hs). cbn.
    split; [done|]. apply list_lookup_fmap_Some in Hs as (t & -> & Ht). eauto.
  - intros [-> (t & Ht & <-)]. exists i, (task_state t). split_and!; [done| |].
    + apply lookup_seq. apply lookup_lt_Some in Ht. lia.
    + by rewrite list_lookup_fmap, Ht.
Qed.

(** A slot of the table is a task in that state. *)
Lemma task_table_elem ts r s :
  (r, s) ∈ task_table ts → ∃ t, heap ts !! r = Some t ∧ task_state t = s.
Proof. intros [i Hi]%list_elem_of_lookup. by apply task_table_lookup in Hi as [_ ?]. Qed.

Lemma task_table_NoDup ts : NoDup (task_table ts).*1.
Proof.
  unfold task_table. rewrite fst_zip by (by rewrite length_seq, length_fmap).
  apply NoDup_seq.
Qed.

Lemma task_table_update ts (r : TaskReference) t s :
  heap ts !! r = Some t →
  task_table (mkTasks (<[r := with_state t s]> (heap ts)) (directory ts)) =
  <[r := (r, s)]> (task_table ts).
Proof.
  intros Ht. unfold task_table. cbn [heap]. rewrite length_insert, list_fmap_insert. cbn.
  rewrite insert_zip_with.
  by rewrite (list_insert_id (seq _ _)) by (apply lookup_seq; apply lookup_lt_Some in Ht; lia).
Qed.

(** A state change moves one slot. *)
Lemma slots_update ts (r : TaskReference) s s' R :
  (r, s) :: R ≡ₚ task_table ts →
  ∃ t, heap ts !! r = Some t ∧ task_state t = s ∧
    (r, s') :: R ≡ₚ task_table (mkTasks (<[r := with_state t s']> (heap ts)) (directory ts)).
Proof.
  intros HR. assert ((r, s) ∈ task_table ts) as Hin by (rewrite <- HR; left).
  destruct (task_table_elem _ _ _ Hin) as (t & Ht & Hs). exists t. split_and!; [done..|].
  assert (task_table ts !! r = Some (r, s)) as Hl by (apply task_table_lookup; eauto).
  rewrite (task_table_update ts r t s' Ht).
  rewrite insert_take_drop by (by eapply lookup_lt_Some).
  rewrite <- (take_drop_middle _ _ _ Hl) in HR.
  rewrite <- Permutation_middle in HR |- *.
  by apply Permutation_cons_inv in HR as ->.
Qed.

Lemma task_table_append ts t d :
  task_table (mkTasks (heap ts ++ [t]) d) = task_table ts ++ [(length (heap ts), task_state t)].
Proof.
  unfold task_table. cbn [heap]. rewrite length_app, seq_app, fmap_app. cbn.
  by rewrite zip_with_app by (by rewrite length_seq, length_fmap).
Qed.

(** *** What stays when the tasks change *)

Definition keeps_inits (ts ts' : Tasks) : Prop :=
  ∀ r Φ, has_init ts r Φ → has_init ts' r Φ.

Lemma keeps_refl ts ts' : heap ts' = heap ts → keeps_inits ts ts'.
Proof. intros Hh r Φ. unfold has_init. by rewrite Hh. Qed.

Lemma keeps_update ts (r : TaskReference) t s d :
  heap ts !! r = Some t → keeps_inits ts (mkTasks (<[r := with_state t s]> (heap ts)) d).
Proof.
  intros Ht r' Φ (t' & Ht' & HΦ). destruct (decide (r' = r)) as [->|Hne].
  - exists (with_state t s). simplify_eq. cbn. split; [|done].
    apply list_lookup_insert_eq. by eapply lookup_lt_Some.
  - exists t'. cbn. split; [by rewrite list_lookup_insert_ne|done].
Qed.

Lemma keeps_append ts t ts' : heap ts' = heap ts ++ [t] → keeps_inits ts ts'.
Proof.
  intros Hh r Φ (t' & Ht' & HΦ). exists t'. rewrite Hh. split; [by apply lookup_app_l_Some|done].
Qed.

Lemma cpu_ok_keeps ts ts' id c ph : keeps_inits ts ts' → cpu_ok ts id c ph → cpu_ok ts' id c ph.
Proof.
  intros Hk (Hc & Ho & Hp). split_and!; [|done|destruct ph; cbn in *; eauto].
  destruct ph; cbn in *; try done; destruct Hc as (k & ? & ?); eauto.
Qed.

Lemma lists_ok_keeps ts ts' :
  keeps_inits ts ts' → ready_lists (directory ts') = ready_lists (directory ts) →
  lists_ok ts → lists_ok ts'.
Proof. intros Hk Hr [Hl Hp]. split; rewrite Hr; [done|]. intros. eapply Hk. by eapply Hp. Qed.

Lemma tasks_ok_update ts (r : TaskReference) t s :
  heap ts !! r = Some t → tasks_ok ts →
  tasks_ok (mkTasks (<[r := with_state t s]> (heap ts)) (directory ts)).
Proof.
  intros Ht [Hp Hm]. split; [done|]. intros p r'. cbn. rewrite Hm.
  destruct (decide (r' = r)) as [->|Hne]; [|by rewrite list_lookup_insert_ne].
  rewrite list_lookup_insert_eq by (by eapply lookup_lt_Some). rewrite Ht. naive_solver.
Qed.

Lemma tasks_ok_lists ts ls :
  tasks_ok ts → tasks_ok (set_directory ts (set_ready_lists (directory ts) ls)).
Proof. intros [[] Hm]. split; [by split|done]. Qed.

(** *** The ready lists *)

Lemma ready_slots_insert ts i l l' :
  ready_lists (directory ts) !! i = Some l →
  ∃ R, ready_slots ts ≡ₚ list_slots l ++ R ∧
    ready_slots (set_directory ts (set_ready_lists (directory ts)
                   (<[i := l']> (ready_lists (directory ts))))) ≡ₚ list_slots l' ++ R.
Proof.
  intros Hl. unfold ready_slots. cbn.
  exists (concat (list_slots <$> (take i (ready_lists (directory ts)) ++
                                  drop (S i) (ready_lists (directory ts))))).
  split.
  - rewrite <- (take_drop_middle _ _ _ Hl) at 1. rewrite !fmap_app, fmap_cons, !concat_app. cbn.
    solve_Permutation.
  - rewrite insert_take_drop by (by eapply lookup_lt_Some).
    rewrite !fmap_app, fmap_cons, !concat_app. cbn. solve_Permutation.
Qed.

Lemma lists_ok_insert ts i l :
  lists_ok ts →
  (∀ c, c ∈ l → has_init ts (task c) (λ ti, priority_index (init_priority ti) = i)) →
  lists_ok (set_directory ts (set_ready_lists (directory ts) (<[i := l]> (ready_lists (directory ts))))).
Proof.
  intros [Hlen Hp] Hl. split; cbn; [by rewrite length_insert|].
  intros j l' c [(<- & <- & _)|[_ Hj]]%list_lookup_insert_Some Hc; [by apply Hl|by eapply Hp].
Qed.

(** The lists hold live controls. *)
Lemma lists_live ts : lists_ok ts → Forall (Forall (live ts)) (ready_lists (directory ts)).
Proof.
  intros [_ Hp]. apply Forall_lookup_2. intros i l Hi. apply Forall_forall. intros c Hc.
  destruct (Hp i l c Hi Hc) as (t & Ht & _). by exists t.
Qed.

(** *** Each action keeps the invariant *)

Section actions.
Context {P : Type} `{KernelStacksLaws P} `{CodeLayout}.
Implicit Types v : View P.

(** The invariant as one CPU sees it; [R] are the slots of the other CPUs. *)
Record local_inv (id : Z) (ph : Phase) v (R : list slot) : Prop := {
  li_tasks : tasks_ok (tasks v);
  li_lists : lists_ok (tasks v);
  li_cpu : cpu_ok (tasks v) id (cpu v) ph;
  li_slots : ready_slots (tasks v) ++ cpu_slots (cpu v, ph) ++ R ≡ₚ task_table (tasks v) }.

(** An action that returns, in a state that satisfies the invariant. *)
Definition action_ok (id : Z) (R : list slot) v (m : outcome (Phase * View P)) : Prop :=
  ∃ ph' v', m = Ret (ph', v') ∧ local_inv id ph' v' R ∧ keeps_inits (tasks v) (tasks v').

(** A slot in hand is a task in its state, and may change its state. *)
Lemma slot_transition id ph v R r s s' rest :
  local_inv id ph v R → ready_slots (tasks v) ++ cpu_slots (cpu v, ph) ++ R ≡ₚ (r, s) :: rest →
  ∃ ts', transition (tasks v) r s s' = Ret ts' ∧ (r, s') :: rest ≡ₚ task_table ts' ∧
    tasks_ok ts' ∧ lists_ok ts' ∧ ready_slots ts' = ready_slots (tasks v) ∧
    keeps_inits (tasks v) ts' ∧ cpu_ok ts' id (cpu v) ph.
Proof.
  intros [Ht Hl Hc Hs] Hrest. rewrite Hs in Hrest. symmetry in Hrest.
  destruct (slots_update _ _ _ s' _ Hrest) as (t & Htr & Hst & Hnew).
  assert (keeps_inits (tasks v) (mkTasks (<[r:=with_state t s']> (heap (tasks v))) (directory (tasks v))))
    by by apply keeps_update.
  eexists. split; [by apply transition_ok|].
  split_and!; [done|by apply tasks_ok_update|by eapply lists_ok_keeps|done|done|by eapply cpu_ok_keeps].
Qed.

(** A ready task in hand goes to its list. *)
Lemma enqueue_ok id ph v R c rest :
  local_inv id ph v R →
  ready_slots (tasks v) ++ cpu_slots (cpu v, ph) ++ R ≡ₚ (task c, Ready) :: rest →
  ∃ v', enqueue v c = Ret v' ∧ cpu v' = cpu v ∧ heap (tasks v') = heap (tasks v) ∧
    tasks_ok (tasks v') ∧ lists_ok (tasks v') ∧
    ready_slots (tasks v') ≡ₚ (task c, Ready) :: ready_slots (tasks v) ∧
    task_table (tasks v') = task_table (tasks v).
Proof.
  intros [Ht Hl _ Hs] Hrest. rewrite Hs in Hrest.
  assert ((task c, Ready) ∈ task_table (tasks v)) as Hin by (rewrite Hrest; left).
  apply task_table_elem in Hin as (t & Htc & Hst).
  destruct (lookup_lt_is_Some_2 (ready_lists (directory (tasks v))) (priority_index (priority t))) as [l Hll].
  { rewrite (ok_levels _ Hl). destruct (priority t); cbn; lia. }
  unfold enqueue. rewrite (add_to_ready_list_ok _ _ _ _ Htc Hst Hll). cbn [mbind outcome_bind].
  eexists. split; [done|]. cbn. split_and!; [done|done|by apply tasks_ok_lists| | |done].
  - apply lists_ok_insert; [done|]. intros c' [Hc'|Hc']%elem_of_app.
    + by eapply (ok_priorities _ Hl).
    + apply list_elem_of_singleton in Hc' as ->. by exists t.
  - destruct (ready_slots_insert _ _ _ (l ++ [c]) Hll) as (R' & -> & ->).
    unfold list_slots. rewrite fmap_app. cbn. solve_Permutation.
Qed.

Lemma start_ok id v R r :
  local_inv id (Starting r) v R → action_ok id R v (advance id (Starting r) v).
Proof.
  intros Hli. pose proof (li_cpu _ _ _ _ Hli) as (Hc0 & Ho0 & Hstart). cbn in Hc0, Ho0, Hstart.
  destruct (slot_transition _ _ _ _ r New Running (ready_slots (tasks v) ++ R) Hli)
    as (ts' & Htr & Hsl & Ht' & Hl' & Hrs & Hk & _).
  { unfold cpu_slots. cbn [fst snd]. rewrite Hc0, Ho0. cbn. solve_Permutation. }
  cbn [advance]. unfold make_current, set_initial_task. rewrite Htr. cbn [mbind outcome_bind].
  rewrite bool_decide_true by done. cbn [assert_ mbind outcome_bind].
  eexists _, _. split; [reflexivity|]. split; [|done]. split; [done|done| |].
  - split_and!; cbn; eauto.
  - unfold cpu_slots. cbn. rewrite Ho0, Hrs, <- Hsl. cbn. solve_Permutation.
Qed.

Lemma create_ok id v R tr ks :
  local_inv id (Creating tr ks) v R → action_ok id R v (advance id (Creating tr ks) v).
Proof.
  intros [Ht Hl (Hc & Ho & Hks) Hs]. cbn in Hc, Ho, Hks. cbn [advance]. unfold create_spawned.
  destruct (create_task_ok (tasks v) false (mkTaskInit 0 ks None Normal) Ht)
    as (r & ts' & -> & Hcr & Hrl & Ht'). cbn [mbind outcome_bind fst snd].
  assert (ready_slots ts' = ready_slots (tasks v)) as Hrs by (unfold ready_slots; by rewrite Hrl).
  eexists _, _. split; [reflexivity|]. cbn [with_tasks tasks].
  destruct Hcr as [ts' Hh|ts' p _ _ Hh _].
  - assert (keeps_inits (tasks v) ts') as Hk by by apply keeps_refl.
    split; [|done]. split; cbn; [done|by eapply lists_ok_keeps| |].
    + split_and!; [|done|done]. destruct Hc as (k & ? & ?). exists k. eauto.
    + rewrite Hrs. unfold task_table. rewrite Hh. exact Hs.
  - assert (keeps_inits (tasks v) ts') as Hk by by eapply keeps_append.
    split; [|done]. split; cbn; [done|by eapply lists_ok_keeps| |].
    + split_and!; [|done|].
      * destruct Hc as (k & ? & ?). exists k. eauto.
      * eexists. rewrite Hh, list_lookup_middle by done. split; [done|]. exact Hks.
    + rewrite Hrs. destruct ts' as [h' d']. cbn in Hh. subst h'.
      rewrite (task_table_append (tasks v)), <- Hs. unfold cpu_slots. cbn. solve_Permutation.
Qed.

Lemma prepare_new_ok id v R tr r :
  local_inv id (Preparing tr r) v R → action_ok id R v (advance id (Preparing tr r) v).
Proof.
  intros Hli. pose proof (li_cpu _ _ _ _ Hli) as (Hc & Ho & Hst). cbn in Hc, Ho, Hst.
  destruct Hst as (t & Htr & top & Htop & Htb).
  destruct (slot_transition _ _ _ _ r New Ready
              (ready_slots (tasks v) ++ held Running (current (cpu v)) ++ R) Hli)
    as (ts' & Htrans & Hsl & Ht' & Hl' & Hrs & Hk & _).
  { unfold cpu_slots. cbn [fst snd]. rewrite Ho. cbn. solve_Permutation. }
  cbn [advance]. unfold startup_context, deref. rewrite Htr. cbn [unwrap mbind outcome_bind].
  unfold task_stack_top. rewrite Htop. cbn [mbind outcome_bind].
  unfold Context.push_system_task_startup, Context.push_stack. cbn [ArchContext.rsp ArchContext.set_stack ArchContext.set_page_table].
  rewrite usub_ok by lia. cbn [mbind outcome_bind fst snd ArchContext.rsp ArchContext.set_stack].
  rewrite usub_ok by lia. cbn [mbind outcome_bind fst snd].
  unfold make_runnable_state. cbn [tasks]. rewrite Htrans. cbn [mbind outcome_bind fst snd].
  eexists _, _. split; [reflexivity|]. split; [|done]. split; cbn; [done|done| |].
  - split_and!; cbn; [|done|done]. destruct Hc as (k & ? & ?). eauto.
  - unfold cpu_slots. cbn. rewrite Ho, Hrs, <- Hsl. cbn. solve_Permutation.
Qed.

(** The two places where a task in hand is put on a ready list. *)
Lemma enqueue_phase_ok id v R c ph ph' :
  local_inv id ph v R → phase_slots ph = [(task c, Ready)] → phase_slots ph' = [] →
  (∀ ts, cpu_ok ts id (cpu v) ph → cpu_ok ts id (cpu v) ph') →
  action_ok id R v (v' ← enqueue v c; Ret (ph', v')).
Proof.
  intros Hli Hph Hph' Hcpu.
  destruct (enqueue_ok _ _ _ _ c (ready_slots (tasks v) ++ held Running (current (cpu v)) ++
              held Running (old (cpu v)) ++ R) Hli) as (v' & -> & Hcv & Hh & Ht' & Hl' & Hrs & Htab).
  { unfold cpu_slots. cbn [fst snd]. rewrite Hph. solve_Permutation. }
  cbn [mbind outcome_bind]. eexists _, _. split; [reflexivity|].
  assert (keeps_inits (tasks v) (tasks v')) as Hk by by apply keeps_refl.
  destruct Hli as [Ht Hl Hc Hs]. split; [|done]. split; [done|done| |].
  - rewrite Hcv. eapply cpu_ok_keeps; [done|]. by apply Hcpu.
  - rewrite Htab, Hrs, <- Hs, Hcv. unfold cpu_slots. cbn [fst snd]. rewrite Hph, Hph'. solve_Permutation.
Qed.

Lemma choose_ok id v R :
  local_inv id Rescheduling v R → action_ok id R v (advance id Rescheduling v).
Proof.
  intros [Ht Hl (Hc & Ho & _) Hs]. cbn in Hc, Ho. destruct Hc as (k & Hk & t & Hkt & Haff).
  cbn [advance]. unfold choose_next, current_task, deref. rewrite Hk. cbn [unwrap mbind outcome_bind].
  rewrite Hkt. cbn [unwrap mbind outcome_bind].
  destruct (find_next_task_picks (tasks v) id (Some (priority t)) (lists_live _ Hl) (ok_levels _ Hl))
    as (r & ts' & -> & Hp). cbn [mbind outcome_bind fst snd].
  eexists _, _. split; [reflexivity|]. cbn [with_tasks tasks].
  destruct Hp as [_|before i after pre c post _ _ Hi _ (t' & Ht' & Hel)].
  - split; [|by apply keeps_refl]. split; [done..| |done]. split_and!; [|done|done]. exists k. split; [done|by exists t].
  - split; [|by apply keeps_refl]. destruct (ready_slots_insert _ _ _ (pre ++ post) Hi) as (R' & Hold & Hnew).
    split; cbn [with_tasks tasks cpu].
    + by apply tasks_ok_lists.
    + apply lists_ok_insert; [done|]. intros c' Hc'. eapply (ok_priorities _ Hl); [done|]. set_solver.
    + split_and!; cbn; [|done|by exists t']. exists k. split; [done|by exists t].
    + change (task_table (set_directory (tasks v) _)) with (task_table (tasks v)).
      rewrite Hnew, <- Hs, Hold. unfold cpu_slots, list_slots. cbn [fst snd]. rewrite !fmap_app, fmap_cons. cbn.
      solve_Permutation.
Qed.

Lemma prepare_switch_ok id v R next :
  local_inv id (Picked next) v R → action_ok id R v (advance id (Picked next) v).
Proof.
  intros Hli. pose proof (li_cpu _ _ _ _ Hli) as (Hc & Ho & Hn). cbn in Hc, Ho, Hn.
  destruct Hc as (k & Hk & _).
  destruct (slot_transition _ _ _ _ (task next) Ready Running
              (ready_slots (tasks v) ++ held Running (current (cpu v)) ++ R) Hli)
    as (ts' & Htrans & Hsl & Ht' & Hl' & Hrs & Hkeep & _).
  { unfold cpu_slots. cbn [fst snd]. rewrite Ho. cbn. solve_Permutation. }
  cbn [advance]. unfold prepare_task_switch. rewrite bool_decide_true by done.
  cbn [assert_ mbind outcome_bind]. unfold set_running. rewrite Htrans. cbn [mbind outcome_bind old].
  rewrite Hk. cbn [unwrap mbind outcome_bind].
  eexists _, _. split; [reflexivity|]. split; [|done]. split; cbn; [done|done| |].
  - split_and!; cbn; [|by eexists|done]. exists next. eauto.
  - unfold cpu_slots. cbn. rewrite Hrs, <- Hsl, Hk. cbn. solve_Permutation.
Qed.

Lemma switch_ok id v R :
  local_inv id Switching v R → action_ok id R v (advance id Switching v).
Proof.
  intros [Ht Hl (Hc & Ho & _) Hs]. cbn in Hc, Ho. destruct Hc as (k & Hk & Hkt), Ho as [o Ho].
  cbn [advance]. unfold switch_contexts. rewrite Ho, Hk. cbn [unwrap mbind outcome_bind].
  destruct (Context.switch_to (regs (cpu v)) (arch_context k) (mem v)) as [[saved live] m].
  cbn [mbind outcome_bind]. eexists _, _. split; [reflexivity|].
  split; [|by apply keeps_refl]. split; cbn [tasks cpu]; [done..| |].
  - split_and!; cbn; [|by eexists|done]. eauto.
  - rewrite <- Hs. unfold cpu_slots. cbn [fst snd current old]. by rewrite Hk, Ho.
Qed.

Lemma take_old_ok id v R :
  local_inv id Completing v R → action_ok id R v (advance id Completing v).
Proof.
  intros Hli. pose proof (li_cpu _ _ _ _ Hli) as (Hc & Ho & _). cbn in Hc, Ho.
  destruct Ho as [o Ho].
  destruct (slot_transition _ _ _ _ (task o) Running Ready
              (ready_slots (tasks v) ++ held Running (current (cpu v)) ++ R) Hli)
    as (ts' & Htrans & Hsl & Ht' & Hl' & Hrs & Hkeep & _).
  { unfold cpu_slots. cbn [fst snd]. rewrite Ho. cbn. solve_Permutation. }
  cbn [advance]. unfold take_old. rewrite Ho, bool_decide_true by by eexists.
  cbn [assert_ unwrap mbind outcome_bind]. unfold make_ready_state. rewrite Htrans.
  cbn [mbind outcome_bind]. eexists _, _. split; [reflexivity|]. split; [|done].
  split; cbn [fst snd with_tasks with_cpu tasks cpu]; [done|done| |].
  - split_and!; cbn; [|done|done]. destruct Hc as (k & ? & ?). eauto.
  - unfold cpu_slots. cbn. rewrite Hrs, <- Hsl. cbn. solve_Permutation.
Qed.

Lemma executing_ok id v R c :
  local_inv id Executing v R → current c = current (cpu v) → old c = old (cpu v) →
  local_inv id Executing (with_cpu v c) R.
Proof.
  intros [Ht Hl (Hc & Ho & Hp) Hs] Hcur Hold. split; cbn [with_cpu tasks cpu]; [done..| |].
  - split_and!; cbn in *; [by rewrite Hcur|by rewrite Hold|done].
  - rewrite <- Hs. unfold cpu_slots. cbn [fst snd]. by rewrite Hcur, Hold.
Qed.

(** Phases that hold the same boxes and need no more are interchangeable. *)
Lemma rephase id v R ph ph' :
  local_inv id ph v R → phase_slots ph' = phase_slots ph →
  (cpu_ok (tasks v) id (cpu v) ph → cpu_ok (tasks v) id (cpu v) ph') →
  local_inv id ph' v R.
Proof.
  intros [Ht Hl Hc Hs] Hsl Hcpu. split; [done|done|auto|].
  unfold cpu_slots in *. cbn [fst snd] in *. by rewrite Hsl.
Qed.

(** Every action of a CPU returns in a good state, except the two calls that
    may not: the stack allocator, and the [todo!()] a resumed task runs into. *)
Lemma advance_ok id ph v R :
  local_inv id ph v R → stacks_ok (stacks v) →
  action_ok id R v (advance id ph v) ∨
  (ph = Returning ∧ advance id ph v = Panic Unimplemented) ∨
  (∃ tr, ph = Allocating tr ∧ ∀ r, allocate_kernel_stack (stacks v) ≠ Ret r).
Proof.
  intros Hli Hsok. destruct ph.
  - left. eexists _, _. split; [reflexivity|]. split; [done|by apply keeps_refl].
  - left. by apply start_ok.
  - cbn [advance]. destruct (allocate_kernel_stack (stacks v)) as [[r p']|w|] eqn:Hal; [|right; right; by eexists..].
    left. cbn [mbind outcome_bind fst snd]. eexists _, _. split; [reflexivity|]. split; [|by apply keeps_refl].
    assert (local_inv id (Allocating trampoline) (mkView (cpu v) (tasks v) (mem v) p') R) as Hli'
      by (destruct Hli; by split).
    eapply rephase; [done|by destruct r|]. intros (Hc & Ho & _). destruct r as [ks|e]; split_and!; try done.
    cbn. by eapply (proj2 (allocated_stack_ok _ _ _ Hsok Hal)).
  - left. by apply create_ok.
  - left. by apply prepare_new_ok.
  - left. by eapply enqueue_phase_ok.
  - left. by apply choose_ok.
  - left. by apply prepare_switch_ok.
  - left. by apply switch_ok.
  - left. by apply take_old_ok.
  - left. by eapply enqueue_phase_ok.
  - cbn [advance]. unfold return_from_switch.
    destruct (Context.ret (regs (cpu v)) (mem v)) as [ctl l].
    assert (local_inv id Executing (with_cpu v (mkCpu (current (cpu v)) (old (cpu v)) l)) R) as Hli'.
    { eapply executing_ok; [|done..]. by eapply rephase. }
    destruct ctl; [by right; left|left..]; eexists _, _; (split; [reflexivity|]); (split; [done|by apply keeps_refl]).
Qed.

(** Only the allocation of a stack changes the state of paging. *)
Lemma make_current_stacks v r v' : make_current v r = Ret v' → stacks v' = stacks v.
Proof. unfold make_current, set_initial_task. intros E. inv_ret E. by subst. Qed.

Lemma prepare_task_switch_stacks v n v' : prepare_task_switch v n = Ret v' → stacks v' = stacks v.
Proof. unfold prepare_task_switch. intros E. inv_ret E. by subst. Qed.

Lemma switch_contexts_stacks v v' : switch_contexts v = Ret v' → stacks v' = stacks v.
Proof. unfold switch_contexts. intros E. inv_ret E. destruct (Context.switch_to _ _ _) as [[? ?] ?]. by simplify_eq. Qed.

Lemma enqueue_stacks v c v' : enqueue v c = Ret v' → stacks v' = stacks v.
Proof. unfold enqueue. intros E. inv_ret E. by subst. Qed.

Lemma return_stacks v r : return_from_switch v = Ret r → stacks r.2 = stacks v.
Proof. unfold return_from_switch. destruct (Context.ret _ _) as [[] ?]; intros ?; by simplify_eq. Qed.

Lemma advance_stacks id ph v ph' v' :
  advance id ph v = Ret (ph', v') →
  stacks v' = stacks v ∨ ∃ r, allocate_kernel_stack (stacks v) = Ret (r, stacks v').
Proof.
  intros E. destruct ph; cbn [advance] in E; inv_ret E; subst; try (left; done).
  - left. by eapply make_current_stacks.
  - right. destruct a as [r p']. by eexists.
  - left. unfold create_spawned in Ha. inv_ret Ha. by subst.
  - left. unfold startup_context in Ha. inv_ret Ha. unfold make_runnable_state in Ha0. inv_ret Ha0. by subst.
  - left. by eapply enqueue_stacks.
  - left. unfold choose_next in Ha. inv_ret Ha. by subst.
  - left. by eapply prepare_task_switch_stacks.
  - left. by eapply switch_contexts_stacks.
  - left. unfold take_old in Ha. inv_ret Ha. by subst.
  - left. by eapply enqueue_stacks.
  - left. by eapply return_stacks.
Qed.

(** *** From one CPU to all of them *)

Lemma all_cpu_slots_insert m id s :
  all_cpu_slots (<[id := s]> m) ≡ₚ cpu_slots s ++ all_cpu_slots (delete id m).
Proof.
  unfold all_cpu_slots. rewrite <- insert_delete_eq.
  rewrite map_to_list_insert by apply lookup_delete_eq. done.
Qed.

Lemma sched_inv_local (w : World P) id c ph :
  sched_inv w → cpus w !! id = Some (c, ph) →
  local_inv id ph (view_of w c) (all_cpu_slots (delete id (cpus w))).
Proof.
  intros [Ht Hl Hc Hs] Hid. split; [done|done|by apply Hc|]. cbn.
  rewrite <- Hs. rewrite <- (insert_id (cpus w) id (c, ph)) at 2 by done.
  by rewrite all_cpu_slots_insert.
Qed.

Lemma sched_inv_put (w : World P) id ph v :
  (∀ id' c ph, cpus w !! id' = Some (c, ph) → cpu_ok (w_tasks w) id' c ph) →
  local_inv id ph v (all_cpu_slots (delete id (cpus w))) → keeps_inits (w_tasks w) (tasks v) →
  sched_inv (put_view w id ph v).
Proof.
  intros Hc [Ht Hl Hcv Hs] Hk. split; cbn [put_view w_tasks cpus]; [done|done| |].
  - intros id' c' ph' [[<- [= <- <-]]|[_ Hid']]%lookup_insert_Some; [done|].
    eapply cpu_ok_keeps; [done|]. by apply Hc.
  - by rewrite all_cpu_slots_insert.
Qed.

Lemma sched_inv_initial m (p : P) : sched_inv (initial m p).
Proof.
  split; cbn; [apply TASK_DIRECTORY_ok| | |].
  - split; [done|]. intros [|[|i]] l c Hl Hc; cbn in Hl; simplify_eq; set_solver.
  - by intros id c ph ?.
  - done.
Qed.

Lemma sched_inv_boot (w : World P) id ks r ts l :
  sched_inv w → cpus w !! id = None → new_idle (w_tasks w) id ks = Ret (Success r, ts) →
  sched_inv (put_view w id (Starting r) (mkView (mkCpu None None l) ts (w_mem w) (w_stacks w))).
Proof.
  intros [Ht Hl Hc Hs] Hid Hnew. unfold new_idle in Hnew.
  destruct (create_task_ok (w_tasks w) true (mkTaskInit NO_TERMINATE ks (Some id) Idle) Ht)
    as (r' & ts' & Hnew' & Hcr & Hrl & Ht'). rewrite Hnew' in Hnew. simplify_eq.
  inversion Hcr as [|ts0 p Hp0 Hp1 Hh Hp2 Hr Hts]; subst.
  assert (keeps_inits (w_tasks w) ts) as Hk by by eapply keeps_append.
  apply sched_inv_put; [done| |done]. split; cbn [tasks cpu]; [done|by eapply lists_ok_keeps| |].
  - split_and!; cbn; [done|done|]. eexists. rewrite Hh, list_lookup_middle by done.
    split; [done|]. by right.
  - rewrite delete_id by done. unfold ready_slots. rewrite Hrl. destruct ts as [h' d']. cbn in Hh. subst h'.
    rewrite (task_table_append (w_tasks w)), <- Hs. unfold ready_slots, cpu_slots. cbn. solve_Permutation.
Qed.

Lemma sched_inv_step (w w' : World P) :
  sched_inv w → stacks_ok (w_stacks w) → step w w' → sched_inv w' ∧ stacks_ok (w_stacks w').
Proof.
  intros Hinv Hsok Hstep. pose proof (inv_cpus _ Hinv) as Hcpus.
  split; [|destruct Hstep as [| | | |w id c ph ph' v' _ [Hs|[r Hr]]%advance_stacks]; try done;
    [by cbn; rewrite Hs|by apply (allocated_stack_ok _ _ _ Hsok Hr)]].
  destruct Hstep as [w id ks r ts l Hid Hnew|w id c l m Hid|w id c tr Hid|w id c Hid|w id c ph ph' v' Hid Hadv].
  - by eapply sched_inv_boot.
  - apply sched_inv_put; [done| |by apply keeps_refl].
    apply (executing_ok _ (mkView c (w_tasks w) m (w_stacks w))); [|done..].
    by destruct (sched_inv_local w id c Executing Hinv Hid).
  - apply sched_inv_put; [done| |by apply keeps_refl].
    eapply rephase; [by eapply sched_inv_local|done|done].
  - apply sched_inv_put; [done| |by apply keeps_refl].
    eapply rephase; [by eapply sched_inv_local|done|done].
  - destruct (advance_ok id ph _ _ (sched_inv_local w id c ph Hinv Hid) Hsok)
      as [(ph2 & v2 & Hret & Hli & Hk)|[[_ Hp]|(tr & -> & Hno)]].
    + rewrite Hret in Hadv. simplify_eq. by apply sched_inv_put.
    + rewrite Hp in Hadv. done.
    + cbn [advance] in Hadv. inv_ret Hadv. by apply Hno in Ha.
Qed.

Lemma reachable_inv m (p : P) w : stacks_ok p → reachable m p w → sched_inv w ∧ stacks_ok (w_stacks w).
Proof.
  intros Hp. induction 1 as [|w w' _ [Hi Hs] Hst]; [by split; [apply sched_inv_initial|]|by eapply sched_inv_step].
Qed.

End actions.

Section theorems.
Context {P : Type} `{KernelStacksLaws P} `{CodeLayout}.

Lemma slots_NoDup (w : World P) :
  sched_inv w → NoDup (ready_slots (w_tasks w) ++ all_cpu_slots (cpus w)).*1.
Proof. intros [_ _ _ Hs]. rewrite Hs. apply task_table_NoDup. Qed.

(** C2: whatever the interleaving of any number of CPUs that boot, compute,
    spawn tasks and reschedule, the invariant of the scheduler holds: the
    process map indexes the tasks, each ready list holds tasks of its priority,
    the phase of each CPU fits its [CURRENT_TASK], and every task is in exactly
    one place, which matches its state: on a ready list or in transit to or
    from one when [Ready], current or outgoing on one CPU when [Running], held
    by its creator when [New]. *)
Theorem scheduler_invariant m (p : P) w :
  stacks_ok p → reachable m p w →
  sched_inv w ∧
  NoDup (ready_slots (w_tasks w) ++ all_cpu_slots (cpus w)).*1 ∧
  ∀ r s, (r, s) ∈ ready_slots (w_tasks w) ++ all_cpu_slots (cpus w) ↔
    ∃ t, heap (w_tasks w) !! r = Some t ∧ task_state t = s.
Proof.
  intros Hp Hr. destruct (reachable_inv _ _ _ Hp Hr) as [Hinv _].
  split_and!; [done|by apply slots_NoDup|]. intros r s. rewrite (inv_slots _ Hinv).
  split; [apply task_table_elem|]. intros Ht. apply list_elem_of_lookup.
  exists r. by apply task_table_lookup.
Qed.

(** In no interleaving does a CPU fail an assertion or an [unwrap] of the
    scheduler: every action inside a call returns, or is the allocation of a
    stack that itself does not return, or is the [ret] of a context switch into
    [todo!()]. *)
Theorem scheduler_no_panic m (p : P) w id c ph :
  stacks_ok p → reachable m p w → cpus w !! id = Some (c, ph) →
  (∃ ph' v', advance id ph (view_of w c) = Ret (ph', v')) ∨
  (ph = Returning ∧ advance id ph (view_of w c) = Panic Unimplemented) ∨
  (∃ tr, ph = Allocating tr ∧ ∀ r, allocate_kernel_stack (w_stacks w) ≠ Ret r).
Proof.
  intros Hp Hr Hid. destruct (reachable_inv _ _ _ Hp Hr) as [Hinv Hsok].
  destruct (advance_ok id ph _ _ (sched_inv_local w id c ph Hinv Hid) Hsok)
    as [(ph' & v' & Ha & _)|[?|?]]; eauto.
Qed.

Lemma cpu_slot_current (c : Cpu) ph k :
  current c = Some k ∨ old c = Some k → (task k, Running) ∈ cpu_slots (c, ph).
Proof. unfold cpu_slots. cbn [fst snd]. intros [-> | ->]; cbn; set_solver. Qed.

Lemma all_cpu_slots_elem m (id : Z) s x :
  m !! id = Some s → x ∈ cpu_slots s → x ∈ all_cpu_slots m.
Proof.
  intros Hid Hx. rewrite <- (insert_id m id s) by done. rewrite all_cpu_slots_insert.
  apply elem_of_app. by left.
Qed.

Lemma NoDup_fst_apart (l1 l2 : list slot) r s s' :
  NoDup (l1 ++ l2).*1 → (r, s) ∈ l1 → (r, s') ∈ l2 → False.
Proof.
  rewrite fmap_app. intros (_ & Hd & _)%NoDup_app Hx Hy.
  apply (Hd r); apply list_elem_of_fmap; [by exists (r, s)|by exists (r, s')].
Qed.

(** C22: a task that a CPU runs is in state [Running], allowed on that CPU,
    runs on no other CPU (neither current nor outgoing there), and is on no
    ready list. *)
Theorem running_task_exclusive m (p : P) w id c ph k :
  stacks_ok p → reachable m p w → cpus w !! id = Some (c, ph) → current c = Some k →
  (∃ t, heap (w_tasks w) !! task k = Some t ∧ task_state t = Running ∧
        (cpu_affinity t = None ∨ cpu_affinity t = Some id)) ∧
  (∀ id' c' ph' k', cpus w !! id' = Some (c', ph') → current c' = Some k' ∨ old c' = Some k' →
     task k' = task k → id' = id) ∧
  (∀ l k', l ∈ ready_lists (directory (w_tasks w)) → k' ∈ l → task k' ≠ task k).
Proof.
  intros Hp Hr Hid Hcur. destruct (reachable_inv _ _ _ Hp Hr) as [Hinv _].
  pose proof (slots_NoDup _ Hinv) as Hnd.
  assert ((task k, Running) ∈ cpu_slots (c, ph)) as Hk by (apply cpu_slot_current; auto).
  split_and!.
  - destruct (inv_cpus _ Hinv _ _ _ Hid) as (Hok & _ & _).
    assert (has_init (w_tasks w) (task k) (may_run_on id)) as (t & Ht & Ha).
    { destruct ph; cbn in Hok; naive_solver. }
    exists t. split_and!; [done| |done].
    assert ((task k, Running) ∈ task_table (w_tasks w)) as Hin.
    { rewrite <- (inv_slots _ Hinv). apply elem_of_app. right. by eapply all_cpu_slots_elem. }
    apply task_table_elem in Hin as (t' & ? & ?). by simplify_eq.
  - intros id' c' ph' k' Hid' Hk' Heq. destruct (decide (id' = id)) as [|Hne]; [done|exfalso].
    rewrite <- (insert_id (cpus w) id (c, ph)) in Hnd by done. rewrite all_cpu_slots_insert in Hnd.
    rewrite fmap_app in Hnd. apply NoDup_app in Hnd as (_ & _ & Hnd).
    eapply NoDup_fst_apart; [exact Hnd|exact Hk|]. rewrite <- Heq.
    apply (all_cpu_slots_elem _ id' (c', ph')); [by rewrite lookup_delete_ne|].
    by apply cpu_slot_current.
  - intros l k' Hl Hk' Heq. eapply NoDup_fst_apart; [exact Hnd| |by eapply all_cpu_slots_elem].
    rewrite <- Heq. unfold ready_slots. apply list_elem_of_In, in_concat. exists (list_slots l).
    rewrite <- !list_elem_of_In. split; [by apply list_elem_of_fmap_2|]. unfold list_slots. apply list_elem_of_fmap. by exists k'.
Qed.

(** The calls as they run on one CPU are runs of their atomic actions,
    panics included: six actions complete a [reschedule], ten a [spawn]. *)
Theorem calls_are_runs id (v : View P) trampoline :
  run_call 6 id Rescheduling v = (r ← reschedule id v; Ret r.2) ∧
  run_call 10 id (Allocating trampoline) v = (r ← spawn id v trampoline; Ret r.2).
Proof. split; [by apply run_reschedule|by apply run_spawn]. Qed.

End theorems.

(** ** Context switches *)

Section switching.
Context `{CodeLayout}.
Import ArchContext Context.

Lemma wrap64_small a : is_usize a → wrap64 a = a.
Proof. intros. unfold wrap64. by apply Z.mod_small. Qed.

(** The registers a saved context is loaded into. *)
Definition loaded (a : ArchContext) : ArchContext :=
  mkContext (cr3 a) (load_flags (rflags a)) (rbx a) (r12 a) (r13 a) (r14 a) (r15 a) (rsp a) (rbp a).

Lemma read_word_insert_ne m a b x : a ≠ b → read_word (<[a := x]> m) b = read_word m b.
Proof. intros. unfold read_word. by rewrite lookup_insert_ne. Qed.

Lemma switch_to_ok live next m :
  16 ≤ rsp live < usize_limit → 8 ≤ rsp next < usize_limit →
  ∃ m', switch_to live next m = (set_stack live (rsp live - 8), loaded next, m') ∧
    (rsp next ≠ rsp live → read_word m' (rsp live - 8) = after_switch) ∧
    ∀ a, a ≠ rsp live - 8 → a ≠ rsp live - 16 → a ≠ rsp next - 8 →
         read_word m' a = read_word m a.
Proof.
  intros Hl Hn. unfold switch_to, do_switch, push, pop. cbn [rsp set_stack rflags cr3 fst snd rbx r12 r13 r14 r15 rbp].
  rewrite !(wrap64_small (rsp live - 8)) by (unfold is_usize; lia).
  rewrite !(wrap64_small (rsp live - 8 - 8)) by (unfold is_usize; lia).
  rewrite !(wrap64_small (rsp live - 8 - 8 + 8)) by (unfold is_usize; lia).
  replace (rsp live - 8 - 8 + 8) with (rsp live - 8) by lia.
  rewrite !(wrap64_small (rsp live - 8 - 8)) by (unfold is_usize; lia).
  rewrite !(wrap64_small (rsp next - 8)) by (unfold is_usize; lia).
  replace (rsp live - 8 - 8 + 8) with (rsp live - 8) by lia.
  rewrite !(wrap64_small (rsp live - 8)) by (unfold is_usize; lia).
  replace (rsp next - 8 + 8) with (rsp next) by lia.
  rewrite (wrap64_small (rsp next)) by (unfold is_usize; lia).
  replace (rsp live - 8 - 8) with (rsp live - 16) by lia.
  eexists. split.
  - unfold read_word. rewrite !lookup_insert_eq. cbn [default].
    unfold loaded. destruct (Z.eqb_spec (cr3 next) (cr3 live)) as [->|]; reflexivity.
  - split.
    + intros. rewrite !read_word_insert_ne by lia. unfold read_word. by rewrite lookup_insert_eq.
    + intros. by rewrite !read_word_insert_ne by lia.
Qed.

(** [ret] into a task that was switched out. *)
Lemma ret_resumes live m :
  launch_trampoline ≠ after_switch → read_word m (rsp live) = after_switch →
  ret live m = (Resumed, set_stack live (wrap64 (rsp live + 8))).
Proof.
  intros Hne Hw. unfold ret, pop. rewrite Hw.
  destruct (Z.eqb_spec after_switch launch_trampoline) as [Heq|_]; [by rewrite Heq in Hne|].
  by rewrite Z.eqb_refl.
Qed.

(** C26: switching away from a task and, with any registers and memory in
    which its return address is still on its stack, back to it resumes right
    behind the switch with every register of the task as it was: page table,
    stack pointer, flags (bit 1 reads as one) and the callee-saved registers. *)
Theorem context_switch_roundtrip live next m saved live1 m1 live2 m2 saved2 live3 m3 :
  launch_trampoline ≠ after_switch →
  16 ≤ rsp live < usize_limit → 8 ≤ rsp next < usize_limit → rsp next ≠ rsp live →
  switch_to live next m = (saved, live1, m1) →
  read_word m2 (rsp live - 8) = read_word m1 (rsp live - 8) →
  16 ≤ rsp live2 < usize_limit → rsp live2 ≠ rsp live → rsp live2 ≠ rsp live + 8 →
  switch_to live2 saved m2 = (saved2, live3, m3) →
  ret live3 m3 =
    (Resumed, mkContext (cr3 live) (load_flags (rflags live)) (rbx live) (r12 live) (r13 live)
                (r14 live) (r15 live) (rsp live) (rbp live)).
Proof.
  intros Hne Hl Hn Hnl Hs1 Hw Hl2 Hd1 Hd2 Hs2.
  destruct (switch_to_ok live next m Hl Hn) as (m' & Heq & Hword & _).
  rewrite Heq in Hs1. simplify_eq.
  destruct (switch_to_ok live2 (set_stack live (rsp live - 8)) m2 Hl2) as (m' & Heq2 & _ & Hmem);
    [cbn; lia|].
  rewrite Heq2 in Hs2. simplify_eq. cbn [rsp set_stack] in Hmem.
  rewrite ret_resumes; [|done|].
  - unfold loaded, set_stack. cbn [rsp cr3 rflags rbx r12 r13 r14 r15 rbp].
    replace (rsp live - 8 + 8) with (rsp live) by lia. by rewrite wrap64_small by (unfold is_usize; lia).
  - cbn [rsp loaded set_stack]. rewrite Hmem by lia. rewrite Hw. by apply Hword.
Qed.

(** The stack of a new task launches its closure. *)
Lemma ret_launches live m trampoline :
  is_usize (rsp live + 16) → 0 ≤ rsp live →
  read_word m (rsp live) = launch_trampoline → read_word m (rsp live + 8) = trampoline →
  ret live m = (Launched trampoline, set_stack live (rsp live + 16)).
Proof.
  intros Hu H0 Hw Ht. unfold ret, pop. rewrite Hw, Z.eqb_refl. cbn [rsp set_stack].
  rewrite (wrap64_small (rsp live + 8)) by (unfold is_usize in *; lia).
  replace (rsp live + 8 + 8) with (rsp live + 16) by lia. rewrite wrap64_small by done.
  by rewrite Ht.
Qed.

End switching.

(** ** Whole calls *)

Section whole.
Context {P : Type} `{KernelStacksLaws P} `{CodeLayout}.
Implicit Types v : View P.
Import ArchContext.

(** The tasks after a switch from [k] to [n]: [n] runs, [k] is ready and last on
    its list. *)
Definition switched_tasks (ts : Tasks) (k n : TaskControl) (tk tn : Task) (l : list TaskControl) : Tasks :=
  mkTasks (<[task k := with_state tk Ready]> (<[task n := with_state tn Running]> (heap ts)))
    (set_ready_lists (directory ts)
       (<[priority_index (priority tk) := l ++ [k]]> (ready_lists (directory ts)))).

(** A [reschedule] that finds a task, up to the final [ret]. *)
Lemma reschedule_switches id v v1 n k tk tn l :
  choose_next id v = Ret (Some n, v1) →
  current (cpu v1) = Some k → old (cpu v1) = None → task n ≠ task k →
  heap (tasks v1) !! task k = Some tk → task_state tk = Running →
  heap (tasks v1) !! task n = Some tn → task_state tn = Ready →
  ready_lists (directory (tasks v1)) !! priority_index (priority tk) = Some l →
  16 ≤ rsp (regs (cpu v1)) < usize_limit → 8 ≤ rsp (arch_context n) < usize_limit →
  ∃ m', reschedule id v =
      (r ← return_from_switch
             (mkView (mkCpu (Some n) None (loaded (arch_context n)))
                (switched_tasks (tasks v1)
                   (mkControl (task k) (set_stack (regs (cpu v1)) (rsp (regs (cpu v1)) - 8))) n tk tn l)
                m' (stacks v1));
       Ret (Switched r.1, r.2)) ∧
    ∀ a, a ≠ rsp (regs (cpu v1)) - 8 → a ≠ rsp (regs (cpu v1)) - 16 → a ≠ rsp (arch_context n) - 8 →
         read_word m' a = read_word (mem v1) a.
Proof.
  intros Hch Hk Ho Hne Htk Hrun Htn Hrdy Hl Hb1 Hb2.
  unfold reschedule. rewrite Hch. cbn [mbind outcome_bind fst snd].
  unfold prepare_task_switch. rewrite bool_decide_true by done. cbn [assert_ mbind outcome_bind].
  unfold set_running. rewrite (transition_ok _ _ _ Running _ Htn Hrdy). cbn [mbind outcome_bind old].
  rewrite Hk. cbn [unwrap mbind outcome_bind]. unfold switch_contexts.
  cbn [cpu with_tasks with_cpu old current regs tasks unwrap mbind outcome_bind mem].
  destruct (switch_to_ok (regs (cpu v1)) (arch_context n) (mem v1) Hb1 Hb2) as (m' & -> & _ & Hmem).
  exists m'. split; [|done].
  cbn [mbind outcome_bind]. unfold complete_task_switch, take_old. cbn [old cpu].
  rewrite bool_decide_true by by eexists. cbn [assert_ unwrap mbind outcome_bind tasks].
  unfold make_ready_state. rewrite (transition_ok _ _ _ Ready tk); cbn [task heap tasks];
    [|by rewrite list_lookup_insert_ne|done].
  cbn [mbind outcome_bind fst snd]. unfold enqueue. cbn [with_tasks with_cpu tasks].
  rewrite (add_to_ready_list_ok _ _ (with_state tk Ready) l); cbn [task heap directory]; [|
    apply list_lookup_insert_eq; rewrite length_insert; by eapply lookup_lt_Some|done|done].
  done.
Qed.

(** What the invariant says of the tasks around a switch. *)
Lemma picked_facts id v R n :
  local_inv id (Picked n) v R →
  ∃ k tk tn l, current (cpu v) = Some k ∧ old (cpu v) = None ∧ task n ≠ task k ∧
    heap (tasks v) !! task k = Some tk ∧ task_state tk = Running ∧
    heap (tasks v) !! task n = Some tn ∧ task_state tn = Ready ∧
    ready_lists (directory (tasks v)) !! priority_index (priority tk) = Some l.
Proof.
  intros [Ht Hl (Hc & Ho & _) Hs]. cbn in Hc, Ho. destruct Hc as (k & Hk & _).
  unfold cpu_slots in Hs. cbn [fst snd] in Hs. rewrite Hk, Ho in Hs. cbn in Hs.
  assert ((task k, Running) ∈ task_table (tasks v)) as Hin1 by (rewrite <- Hs; set_solver).
  assert ((task n, Ready) ∈ task_table (tasks v)) as Hin2 by (rewrite <- Hs; set_solver).
  apply task_table_elem in Hin1 as (tk & Htk & Hrun), Hin2 as (tn & Htn & Hrdy).
  destruct (lookup_lt_is_Some_2 (ready_lists (directory (tasks v))) (priority_index (priority tk))) as [l Hll].
  { rewrite (ok_levels _ Hl). destruct (priority tk); cbn; lia. }
  exists k, tk, tn, l. split_and!; try done. intros Heq. rewrite Heq in Htn. congruence.
Qed.

(** When [reschedule] picks a task that was switched out before (its
    return address is on top of its stack), the CPU switches to it and then
    panics in the [todo!()] behind the switch. *)
Theorem resumed_task_panics id v R n v1 :
  launch_trampoline ≠ after_switch →
  local_inv id Executing v R → choose_next id v = Ret (Some n, v1) →
  read_word (mem v) (rsp (arch_context n)) = after_switch →
  16 ≤ rsp (regs (cpu v)) < usize_limit → 8 ≤ rsp (arch_context n) < usize_limit →
  rsp (regs (cpu v)) ≠ rsp (arch_context n) + 8 → rsp (regs (cpu v)) ≠ rsp (arch_context n) + 16 →
  reschedule id v = Panic Unimplemented.
Proof.
  intros Hne Hli Hch Hw Hb1 Hb2 Hd1 Hd2.
  assert (local_inv id Rescheduling v R) as Hli' by by eapply rephase.
  destruct (choose_ok _ _ _ Hli') as (ph & v' & Hadv & Hp & _). cbn [advance] in Hadv.
  rewrite Hch in Hadv. cbn [mbind outcome_bind fst snd] in Hadv. simplify_eq.
  assert (cpu v' = cpu v ∧ mem v' = mem v) as [Hcpu Hmem].
  { unfold choose_next in Hch. inv_ret Hch. simplify_eq. done. }
  destruct (picked_facts _ _ _ _ Hp) as (k & tk & tn & l & Hk & Ho & Hkn & Htk & Hrun & Htn & Hrdy & Hl).
  destruct (reschedule_switches id v v' n k tk tn l) as (m' & -> & Hm'); try done; try (by rewrite Hcpu).
  unfold return_from_switch. cbn [cpu regs mem]. rewrite ret_resumes; [done|done|].
  cbn [loaded rsp]. rewrite Hcpu in Hm'. rewrite Hm' by lia. by rewrite Hmem.
Qed.

(** [choose_next] on an idle CPU when one new task is ready for it. *)
Lemma choose_new id v k tk n lists l0 l1 :
  current (cpu v) = Some k → heap (tasks v) !! task k = Some tk → priority tk = Idle →
  lists_ok (tasks v) → ready_lists (directory (tasks v)) = lists → lists = [l0; l1 ++ [n]] →
  (∀ c, c ∈ l1 → ¬ eligible (tasks v) id c) → eligible (tasks v) id n →
  choose_next id v = Ret (Some n, with_tasks v (set_directory (tasks v)
                            (set_ready_lists (directory (tasks v)) [l0; l1]))).
Proof.
  intros Hk Htk Hidle Hl Hls -> Hnone Hel.
  unfold choose_next, current_task, deref. rewrite Hk. cbn [unwrap mbind outcome_bind].
  rewrite Htk. cbn [unwrap mbind outcome_bind].
  destruct (find_next_task_picks (tasks v) id (Some (priority tk)) (lists_live _ Hl) (ok_levels _ Hl))
    as (r & ts' & -> & Hp). cbn [mbind outcome_bind fst snd]. rewrite Hidle in Hp. cbn [search_levels] in Hp.
  destruct Hp as [Hp|before i after pre c post Hlv Hb Hi Hpre Hc]; rewrite ?Hls in *.
  - exfalso. apply (Hp 1%nat (l1 ++ [n]) n); set_solver.
  - destruct before as [|b before].
    + cbn in Hlv. injection Hlv as <- <-. cbn in Hi. injection Hi as Hi.
      assert (post = []) as ->.
      { destruct post as [|x post _] using rev_ind; [done|exfalso].
        rewrite app_comm_cons, app_assoc in Hi. apply app_inj_tail in Hi as [Hi _].
        apply (Hnone c); [|done]. rewrite Hi. set_solver. }
      apply app_inj_tail in Hi as [-> ->]. rewrite app_nil_r. done.
    + exfalso. destruct before as [|b' [|]]; cbn in Hlv; simplify_eq.
      apply (Hb 1%nat (l1 ++ [n]) n); set_solver.
Qed.

(** The context and the stack a spawned task starts from. *)
Definition startup_registers (v : View P) (top : Z) : ArchContext :=
  mkContext (cr3 (regs (cpu v))) 0 0 0 0 0 0 (top - 16) 0.
Definition startup_memory (v : View P) (top trampoline : Z) : gmap Z Z :=
  <[top - 16 := launch_trampoline]> (<[top - 8 := trampoline]> (mem v)).

(** [spawn] up to its call of [reschedule]. *)
Lemma spawn_enqueues id v trampoline ks p' top r ts l0 l1 :
  tasks_ok (tasks v) →
  ready_lists (directory (tasks v)) = [l0; l1] →
  allocate_kernel_stack (stacks v) = Ret (Ok ks, p') →
  stack_top ks = Ret top → 16 ≤ top →
  create_task (tasks v) false (mkTaskInit 0 ks None Normal) = Ret (Success r, ts) →
  ∃ t d, r = length (heap (tasks v)) ∧ task_state t = Ready ∧ priority t = Normal ∧ cpu_affinity t = None ∧
    ready_lists d = [l0; l1 ++ [mkControl r (startup_registers v top)]] ∧
    spawn id v trampoline =
      (e ← reschedule id (mkView (cpu v) (mkTasks (heap (tasks v) ++ [t]) d)
                            (startup_memory v top trampoline) p');
       Ret (match e.1 with Returns _ => Returns (Success r) | Switched c => Switched c end, e.2)).
Proof.
  intros Hok Hls Hal Htop Hge Hcr.
  destruct (create_task_ok (tasks v) false (mkTaskInit 0 ks None Normal) Hok)
    as (r' & ts' & Hcr' & Hcreated & Hrl & _). rewrite Hcr' in Hcr. simplify_eq.
  inversion Hcreated as [|ts0 p Hfree Huser Hh Hpm Hr Hts]; subst. rewrite Hls in Hrl.
  set (nt := new_task p (mkTaskInit 0 ks None Normal)) in *.
  assert (heap ts !! length (heap (tasks v)) = Some nt) as Hnt by (by rewrite Hh, list_lookup_middle).
  exists (with_state nt Ready). eexists. split_and!; [done..| |].
  2: { unfold spawn. rewrite Hal. cbn [mbind outcome_bind fst snd]. unfold create_spawned. cbn [tasks].
       rewrite Hcr'. cbn [mbind outcome_bind fst snd]. unfold startup_context, deref. cbn [with_tasks tasks].
       rewrite Hnt. cbn [unwrap mbind outcome_bind]. unfold task_stack_top. cbn [nt new_task inner Tasks.init kernel_stack].
       rewrite Htop. cbn [mbind outcome_bind].
       unfold Context.push_system_task_startup, Context.push_stack. cbn [rsp set_stack set_page_table].
       rewrite usub_ok by lia. cbn [mbind outcome_bind fst snd rsp set_stack].
       rewrite usub_ok by lia. cbn [mbind outcome_bind fst snd].
       unfold make_runnable, make_runnable_state. cbn [tasks].
       rewrite (transition_ok _ _ _ Ready _ Hnt) by done. cbn [mbind outcome_bind fst snd].
       unfold enqueue. cbn [with_tasks tasks].
       rewrite (add_to_ready_list_ok _ _ (with_state nt Ready) l1); cbn [task heap directory].
       - rewrite Hh, (insert_app_r_alt _ _ (length (heap (tasks v)))), Nat.sub_diag by done.
         cbn [mbind outcome_bind]. unfold startup_memory, startup_registers.
         replace (top - 16) with (top - 8 - 8) by lia. reflexivity.
       - apply list_lookup_insert_eq. by eapply lookup_lt_Some.
       - done.
       - by rewrite Hrl. }
  cbn. rewrite Hrl. cbn. unfold startup_registers. by replace (top - 16) with (top - 8 - 8) by lia.
Qed.

(** One more task, last on the list of its priority. *)
Lemma lists_ok_append ts t d l0 l1 a :
  lists_ok ts → ready_lists (directory ts) = [l0; l1] →
  priority t = Normal → ready_lists d = [l0; l1 ++ [mkControl (length (heap ts)) a]] →
  lists_ok (mkTasks (heap ts ++ [t]) d).
Proof.
  intros Hlok Hls Hpri Hd.
  assert (keeps_inits ts (mkTasks (heap ts ++ [t]) d)) as Hk by by eapply keeps_append.
  split; cbn [directory]; rewrite Hd; [done|]. intros [|[|i]] l c Hl Hc; cbn in Hl; simplify_eq.
  - eapply Hk, (ok_priorities _ Hlok); [by rewrite Hls|done].
  - apply elem_of_app in Hc as [Hc| ->%list_elem_of_singleton].
    + eapply Hk, (ok_priorities _ Hlok); [by rewrite Hls|done].
    + exists t. split; [by apply list_lookup_middle|].
      change (priority_index (priority t) = 1%nat). by rewrite Hpri.
Qed.

Lemma not_eligible_append ts new d id c :
  live ts c → ¬ eligible ts id c → ¬ eligible (mkTasks (heap ts ++ new) d) id c.
Proof.
  intros [t Ht] Hno (t' & Ht' & Hel). apply Hno. cbn in Ht'.
  rewrite (lookup_app_l_Some _ _ _ _ Ht) in Ht'. simplify_eq. by exists t'.
Qed.

(** C25: [spawn] on a CPU that runs its idle task, when no other task is ready
    for it, starts the new task at once: control enters the closure with the
    stack pointer at the top of the new stack, the page table unchanged and
    interrupts off; the new task is current and [Running], and the idle task is
    [Ready], last on the idle list with the registers it was left with. *)
Theorem spawn_from_idle_starts id v R k tk l0 l1 trampoline ks p' top r ts :
  local_inv id Executing v R →
  current (cpu v) = Some k → heap (tasks v) !! task k = Some tk → priority tk = Idle →
  ready_lists (directory (tasks v)) = [l0; l1] → (∀ c, c ∈ l1 → ¬ eligible (tasks v) id c) →
  allocate_kernel_stack (stacks v) = Ret (Ok ks, p') → stack_top ks = Ret top → 24 ≤ top < usize_limit →
  create_task (tasks v) false (mkTaskInit 0 ks None Normal) = Ret (Success r, ts) →
  16 ≤ rsp (regs (cpu v)) < usize_limit →
  rsp (regs (cpu v)) ≤ top - 16 ∨ top + 16 ≤ rsp (regs (cpu v)) →
  ∃ v' t, spawn id v trampoline = Ret (Switched (Context.Launched trampoline), v') ∧
    regs (cpu v') = mkContext (cr3 (regs (cpu v))) 2 0 0 0 0 0 top 0 ∧
    (∃ c, current (cpu v') = Some c ∧ task c = r) ∧ old (cpu v') = None ∧
    heap (tasks v') = <[task k := with_state tk Ready]> (heap (tasks v)) ++ [t] ∧
    r = length (heap (tasks v)) ∧ task_state t = Running ∧
    ready_lists (directory (tasks v')) =
      [l0 ++ [mkControl (task k) (set_stack (regs (cpu v)) (rsp (regs (cpu v)) - 8))]; l1].
Proof.
  intros Hli Hk Htk Hidle Hls Hnone Hal Htop Hb Hcr Hlive Hdis.
  destruct Hli as [Hok Hlok (_ & Ho & _) Hs]. cbn in Ho.
  assert ((task k, Running) ∈ task_table (tasks v)) as Hin.
  { rewrite <- Hs. unfold cpu_slots. cbn [fst snd]. rewrite Hk. cbn. set_solver. }
  apply task_table_elem in Hin as (tk' & Htk' & Hrun). simplify_eq.
  destruct (spawn_enqueues id v trampoline ks p' top r ts l0 l1) as (t & d & -> & Ht & Hpri & Haff & Hd & ->);
    [done..|lia|done|].
  set (n := mkControl (length (heap (tasks v))) (startup_registers v top)) in *.
  set (w := mkView (cpu v) (mkTasks (heap (tasks v) ++ [t]) d) (startup_memory v top trampoline) p').
  assert (heap (tasks w) !! task k = Some tk) as Hwk by (by apply lookup_app_l_Some).
  assert (heap (tasks w) !! task n = Some t) as Hwn by (by apply list_lookup_middle).
  assert (task n ≠ task k) as Hne by (apply lookup_lt_Some in Htk; cbn; lia).
  assert (lists_ok (tasks w)) as Hlw by (eapply lists_ok_append; done).
  pose proof (choose_new id w k tk n [l0; l1 ++ [n]] l0 l1 Hk Hwk Hidle Hlw Hd eq_refl) as Hch.
  destruct (reschedule_switches id w (with_tasks w (set_directory (tasks w)
              (set_ready_lists (directory (tasks w)) [l0; l1]))) n k tk t l0) as (m' & -> & Hm'); try done.
  - apply Hch; [|exists t; split; [done|by left]].
    intros c Hc. apply (not_eligible_append (tasks v) [t] d id c); [|by apply Hnone].
    destruct (ok_priorities _ Hlok 1%nat l1 c) as (tc & ? & _); [by rewrite Hls|done|by eexists].
  - by rewrite Hidle.
  - cbn. lia.
  - assert (∀ a, a = top - 16 ∨ a = top - 8 → read_word m' a = read_word (startup_memory v top trampoline) a) as Hkept.
    { intros a Ha. apply Hm'; cbn; lia. }
    unfold return_from_switch. cbn [cpu regs mem].
    rewrite (ret_launches _ _ trampoline); cbn [rsp loaded n arch_context startup_registers].
    2: unfold is_usize; lia. 2: lia.
    2: { rewrite Hkept by lia. unfold read_word, startup_memory. by rewrite lookup_insert_eq. }
    2: { replace (top - 16 + 8) with (top - 8) by lia. rewrite Hkept by lia. unfold read_word, startup_memory.
         rewrite lookup_insert_ne, lookup_insert_eq by lia. done. }
    cbn [mbind outcome_bind fst snd]. eexists _, (with_state t Running). split; [reflexivity|].
    cbn [with_cpu cpu regs tasks current old switched_tasks heap directory set_directory set_ready_lists ready_lists with_tasks w].
    split_and!; try done.
    + unfold loaded, set_stack, startup_registers. cbn. f_equal. lia.
    + by exists n.
    + cbn [task n]. rewrite (insert_app_r_alt _ _ (length (heap (tasks v)))), Nat.sub_diag by done. cbn.
      by rewrite insert_app_l by (by eapply lookup_lt_Some).
    + cbn. by rewrite Hidle.
Qed.

End whole.

(** ** Concrete runs *)

(** A supply of stacks of 32 pages each, below a limit. *)
Record Bump := mkBump { next_base : Z }.
Definition bump_stack (b : Z) : KernelStack :=
  mkKernelStack (Region.mkRegion (Regions.mkRegionInfo b (b + 0x20000)) 0 0x20000).
#[global] Instance Bump_stacks : KernelStacks Bump := {
  allocate_kernel_stack b :=
    if (0 <=? next_base b) && (next_base b <? 0x1000000)
    then Ret (Ok (bump_stack (next_base b)), mkBump (next_base b + 0x20000))
    else Ret (Err NoRegionAddressSpaceAvailable, b) }.

#[global, refine] Instance Bump_laws : KernelStacksLaws Bump := { stacks_ok b := 0 ≤ next_base b }.
Proof.
  intros p r p' Hp Hal. cbn in Hal.
  destruct (Z.leb_spec 0 (next_base p)), (Z.ltb_spec (next_base p) 0x1000000); simplify_eq/=; try done.
  split; [lia|]. intros ks [= <-].
  exists (next_base p + 0x20000). split; [|lia].
  unfold stack_top, Region.limit, Region.start. cbn. rewrite uadd_ok by lia. cbn.
  rewrite uadd_ok by lia. f_equal. lia.
Defined.

Lemma bump_ok : stacks_ok (mkBump 0x100000).
Proof. cbn. lia. Qed.

#[global] Instance example_layout : CodeLayout := {|
  launch_trampoline := 0x201000; after_switch := 0x202000; after_complete := 0x203000 |}.

(** A schedule, executed: which CPU boots, calls or acts next. *)
Inductive act := Boot (id : Z) | Call (id trampoline : Z) | Yield (id : Z) | Act (id : Z).

Definition boot_registers (id : Z) : ArchContext.ArchContext :=
  ArchContext.set_stack ArchContext.new (0x8000000 + 0x10000 * id).

Definition exec (w : World Bump) (a : act) : option (World Bump) :=
  match a with
  | Boot id =>
      match cpus w !! id, new_idle (w_tasks w) id (bump_stack 0x2000000) with
      | None, Ret (Success r, ts) =>
          Some (put_view w id (Starting r)
                  (mkView (mkCpu None None (boot_registers id)) ts (w_mem w) (w_stacks w)))
      | _, _ => None
      end
  | Call id tr =>
      match cpus w !! id with
      | Some (c, Executing) => Some (put_view w id (Allocating tr) (view_of w c))
      | _ => None
      end
  | Yield id =>
      match cpus w !! id with
      | Some (c, Executing) => Some (put_view w id Rescheduling (view_of w c))
      | _ => None
      end
  | Act id =>
      match cpus w !! id with
      | Some (c, ph) =>
          match advance id ph (view_of w c) with
          | Ret (ph', v') => Some (put_view w id ph' v')
          | _ => None
          end
      | None => None
      end
  end.

Definition exec_all (l : list act) (w : World Bump) : option (World Bump) :=
  foldl (λ o a, o ≫= λ w, exec w a) (Some w) l.

Lemma exec_step w a w' : exec w a = Some w' → step w w'.
Proof.
  destruct a as [id|id tr|id|id]; cbn [exec]; intros Hx.
  - destruct (cpus w !! id) eqn:Hid; [done|].
    destruct (new_idle _ _ _) as [[[r|e] ts]|why|] eqn:Hn; simplify_eq. by eapply step_boot.
  - destruct (cpus w !! id) as [[c []]|] eqn:Hid; simplify_eq. by eapply step_spawn.
  - destruct (cpus w !! id) as [[c []]|] eqn:Hid; simplify_eq. by eapply step_reschedule.
  - destruct (cpus w !! id) as [[c ph]|] eqn:Hid; [|done].
    destruct (advance _ _ _) as [[ph' v']|why|] eqn:Hn; simplify_eq. by eapply step_advance.
Qed.

Lemma exec_reachable m p l : ∀ w w',
  reachable m p w → exec_all l w = Some w' → reachable m p w'.
Proof.
  unfold exec_all. induction l as [|a l IH]; intros w w' Hr Hx; [by simplify_eq/=|].
  cbn in Hx. destruct (exec w a) as [w1|] eqn:Hw1; cbn in Hx.
  - eapply (IH w1); [|done]. eapply reachable_step; [done|by apply exec_step with a].
  - exfalso. clear -Hx. induction l; [done|]. by apply IHl.
Qed.

(** Two CPUs boot; CPU 0 spawns a task and CPU 1, in the middle of that, too. *)
Definition two_cpus : list act :=
  [Boot 0; Boot 1; Act 1; Act 0; Call 0 0x5000; Call 1 0x6000; Act 0; Act 0; Act 1; Act 0; Act 1;
   Act 1; Act 1; Act 0; Act 1; Act 1; Act 1; Act 1; Act 0; Act 0; Act 1].
Definition start_world : World Bump := initial ∅ (mkBump 0x100000).
Definition example_world : World Bump := default start_world (exec_all two_cpus start_world).

Lemma example_reachable : reachable ∅ (mkBump 0x100000) example_world.
Proof.
  apply (exec_reachable _ _ two_cpus start_world); [constructor|].
  unfold example_world. by vm_compute.
Qed.

Lemma scheduler_invariant_witness :
  length (heap (w_tasks example_world)) = 4%nat ∧
  sched_inv example_world ∧
  NoDup (ready_slots (w_tasks example_world) ++ all_cpu_slots (cpus example_world)).*1 ∧
  ∀ r s, (r, s) ∈ ready_slots (w_tasks example_world) ++ all_cpu_slots (cpus example_world) ↔
    ∃ t, heap (w_tasks example_world) !! r = Some t ∧ task_state t = s.
Proof.
  split; [by vm_compute|]. exact (scheduler_invariant ∅ (mkBump 0x100000) example_world bump_ok example_reachable).
Defined.

(** The CPU part of a CPU's state. *)
Definition cpu_of (w : World Bump) (id : Z) : Cpu :=
  match cpus w !! id with Some (c, _) => c | None => mkCpu None None ArchContext.new end.

Lemma scheduler_no_panic_witness :
  (∃ ph' v', advance 1 Returning (view_of example_world (cpu_of example_world 1)) = Ret (ph', v')) ∨
  (Returning = Returning ∧
   advance 1 Returning (view_of example_world (cpu_of example_world 1)) = Panic Unimplemented) ∨
  (∃ tr, Returning = Allocating tr ∧ ∀ r, allocate_kernel_stack (w_stacks example_world) ≠ Ret r).
Proof.
  apply (scheduler_no_panic ∅ (mkBump 0x100000) _ 1 _ Returning bump_ok example_reachable). by vm_compute.
Defined.

Lemma running_task_exclusive_witness :
  ∃ k, current (cpu_of example_world 1) = Some k ∧ task k = 3%nat ∧
  (∃ t, heap (w_tasks example_world) !! task k = Some t ∧ task_state t = Running ∧
        (cpu_affinity t = None ∨ cpu_affinity t = Some 1)) ∧
  (∀ id' c' ph' k', cpus example_world !! id' = Some (c', ph') →
     current c' = Some k' ∨ old c' = Some k' → task k' = task k → id' = 1) ∧
  (∀ l k', l ∈ ready_lists (directory (w_tasks example_world)) → k' ∈ l → task k' ≠ task k).
Proof.
  eexists. split; [by vm_compute|]. split; [done|].
  apply (running_task_exclusive ∅ (mkBump 0x100000) _ 1 (cpu_of example_world 1) Returning _ bump_ok example_reachable); by vm_compute.
Defined.

Lemma context_switch_roundtrip_witness :
  let live := ArchContext.mkContext 1 0x202 3 4 5 6 7 0x8000 9 in
  let next := ArchContext.mkContext 2 0x202 0 0 0 0 0 0x9000 0 in
  let s1 := Context.switch_to live next ∅ in
  let s2 := Context.switch_to (ArchContext.set_stack next 0x8f00) s1.1.1 s1.2 in
  Context.ret s2.1.2 s2.2 = (Context.Resumed, live).
Proof.
  intros live next s1 s2.
  apply (context_switch_roundtrip live next ∅ s1.1.1 s1.1.2 s1.2 (ArchContext.set_stack next 0x8f00)
           s1.2 s2.1.1 s2.1.2 s2.2);
    try (cbn; lia); by vm_compute.
Defined.

(** CPU 0 boots: its idle task runs. *)
Definition idle_world : World Bump := default start_world (exec_all [Boot 0; Act 0] start_world).
Definition idle_view : View Bump := view_of idle_world (cpu_of idle_world 0).

Lemma reachable_local l w id :
  exec_all l start_world = Some w → snd <$> cpus w !! id = Some Executing →
  local_inv id Executing (view_of w (cpu_of w id)) (all_cpu_slots (delete id (cpus w))).
Proof.
  intros Hx Hid. unfold cpu_of. destruct (cpus w !! id) as [[c ph]|] eqn:Hc; simplify_eq/=.
  apply sched_inv_local; [|done]. apply (reachable_inv ∅ (mkBump 0x100000) _ bump_ok).
  eapply exec_reachable; [constructor|exact Hx].
Qed.

Lemma spawn_from_idle_starts_witness :
  ∃ v' t, spawn 0 idle_view 0x5000 = Ret (Switched (Context.Launched 0x5000), v') ∧
    regs (cpu v') = ArchContext.mkContext 0 2 0 0 0 0 0 0x120000 0 ∧
    (∃ c, current (cpu v') = Some c ∧ task c = 1%nat) ∧ old (cpu v') = None ∧
    (∃ tk, heap (tasks v') = <[0%nat := with_state tk Ready]> (heap (tasks idle_view)) ++ [t]) ∧
    1%nat = length (heap (tasks idle_view)) ∧ task_state t = Running ∧
    ready_lists (directory (tasks v')) =
      [[mkControl 0 (ArchContext.set_stack (boot_registers 0) (0x8000000 - 8))]; []].
Proof.
  edestruct (spawn_from_idle_starts 0 idle_view) with (trampoline := 0x5000)
    as (v' & t & Hsp & Hregs & Hcur & Hold & Hh & Hlen & Hrun & Hlists).
  - apply (reachable_local [Boot 0; Act 0]); by vm_compute.
  - vm_compute; reflexivity.
  - vm_compute; reflexivity.
  - reflexivity.
  - vm_compute; reflexivity.
  - intros c Hc. by apply not_elem_of_nil in Hc.
  - vm_compute; reflexivity.
  - vm_compute; reflexivity.
  - lia.
  - vm_compute; reflexivity.
  - vm_compute. split; [discriminate|reflexivity].
  - right. vm_compute. discriminate.
  - exists v', t. split_and!; eauto.
Defined.

(** CPU 0 spawns a task, which spawns another; the second one yields. *)
Definition two_spawns : list act :=
  [Boot 0; Act 0; Call 0 0x5000] ++ repeat (Act 0) 10 ++ [Call 0 0x6000] ++ repeat (Act 0) 10.
Definition second_world : World Bump := default start_world (exec_all two_spawns start_world).
Definition second_view : View Bump := view_of second_world (cpu_of second_world 0).

Lemma resumed_task_panics_witness : reschedule 0 second_view = Panic Unimplemented.
Proof.
  eapply (resumed_task_panics 0 second_view).
  - discriminate.
  - apply (reachable_local two_spawns); by vm_compute.
  - vm_compute. reflexivity.
  - by vm_compute.
  - vm_compute. split; [discriminate|reflexivity].
  - vm_compute. split; [discriminate|reflexivity].
  - vm_compute. discriminate.
  - vm_compute. discriminate.
Defined.
