(* ===== verification/PagingCalls.v ===== *)
(** * What the rest of the kernel asks of paging (paging/mod.rs, paging/heap_region.rs)

    [map_physical_memory], through which the drivers reach their chips, and
    [allocate_kernel_stack], on the real machine: the addresses a driver is given
    lead to the physical addresses it asked for, byte by byte, and a stack grows
    down into a page that faults. With that paging keeps its promise to the
    scheduler, which runs on it whether or not memory runs out. *)
From S2P Require Import Prelude Align Physmem PageEntry PageTable Regions RegionMapping RegionRanges PagingState Tasks Scheduler.

(** [base + k] lies in page [k / PAGE_SIZE] of a range. *)
Lemma byte_page base k :
  0 ≤ base → base mod PAGE_SIZE = 0 → 0 ≤ k → same_page (base + k / PAGE_SIZE * PAGE_SIZE) (base + k).
Proof. intros Hb Hal Hk. unfold PAGE_SIZE in *. apply same_page_iff; [mlia|lia|]. f_equal. unfold PAGE_SIZE. mlia. Qed.

(** The pages a range of physical memory touches. *)
Definition window_pages (pa size : Z) : Z := (round_up (pa + size) PAGE_SIZE - round_down pa PAGE_SIZE) / PAGE_SIZE.

Lemma window_arith pa size :
  0 ≤ pa → 0 < size →
  round_down pa PAGE_SIZE + window_pages pa size * PAGE_SIZE = round_up (pa + size) PAGE_SIZE ∧
  0 < window_pages pa size ∧ 0 ≤ round_down pa PAGE_SIZE ∧ round_down pa PAGE_SIZE mod PAGE_SIZE = 0 ∧
  pa = round_down pa PAGE_SIZE + pa mod PAGE_SIZE ∧ pa mod PAGE_SIZE + size ≤ window_pages pa size * PAGE_SIZE.
Proof. intros Hpa Hsz. unfold window_pages, round_up, round_down, PAGE_SIZE in *. mlia. Qed.

(** A window can be mapped. *)
Lemma window_mappable pa len flags :
  0 ≤ pa → 0 < len → pa + len + PAGE_SIZE ≤ 2 ^ 52 →
  window_pages pa len * PAGE_SIZE < usize_limit ∧
  mappable (PhysicalMappingRegion (mkPhysicalMapping (round_down pa PAGE_SIZE) flags)) (window_pages pa len).
Proof.
  intros Hpa Hlen Hlim. destruct (window_arith pa len Hpa Hlen) as (Hend & _ & Hd0 & Hdm & _).
  assert (round_up (pa + len) PAGE_SIZE ≤ 2 ^ 52) as Hup by (unfold round_up, round_down, PAGE_SIZE in *; mlia).
  split; [lia|]. split_and!; cbn; lia.
Qed.

(** The processor's view of a window onto physical memory. *)
Lemma window_translate pm m p4 base n k :
  0 ≤ base → base mod PAGE_SIZE = 0 → 0 ≤ k < n * PAGE_SIZE →
  region_contents (PhysicalMappingRegion pm) m p4 base n → plain m p4 (base + k) →
  hw_translate m p4 (base + k) = Some (pm_physical_address pm + k).
Proof.
  intros Hb Hal Hk Hc Hpl.
  destruct (Hc (k / PAGE_SIZE)) as (pte & Hpr & Hfr & _); [unfold PAGE_SIZE in *; mlia|].
  rewrite (same_page_translate _ _ _ _ (byte_page base k Hb Hal ltac:(lia))) in Hpr.
  rewrite (plain_hw _ _ _ _ Hpl Hpr), Hfr. f_equal. unfold PAGE_SIZE in *. mlia.
Qed.

(** The handle of a sub-range. *)
Lemma apply_offset_ok info sz o len :
  0 ≤ o → 0 ≤ len → o + len ≤ sz → sz < usize_limit →
  Region.apply_offset (Region.mkRegion info 0 sz) o len = Ret (Region.mkRegion info o len).
Proof.
  intros Ho Hlen Hle Hlt. unfold Region.apply_offset. rewrite (uadd_ok o len) by lia. rewrite bind_bind_Ret.
  cbn [Region.size Region.sub_region_length Region.sub_region_offset Region.info].
  rewrite (proj2 (Z.leb_le _ _)) by done. cbn [assert_]. rewrite bind_bind_Ret.
  by rewrite uadd_ok by lia.
Qed.

Section calls.
Context (N : nat) (page_size B L : Z).
Context (HN : (2 ≤ N)%nat) (Hps : 0 ≤ page_size ≤ PAGE_SIZE) (HBL : L - B ≤ 2 ^ 47).

Abbreviation root p := (Frame.containing_address (cr3 (machine p))).

(** [map_physical_memory] is an allocation, and the handle of a part of it. *)
Lemma map_physical_memory_eq p pa len flags :
  0 ≤ pa → 0 < len → pa + len + PAGE_SIZE ≤ 2 ^ 52 →
  map_physical_memory N page_size p pa len flags =
    (r ← allocate_typed N page_size p (window_pages pa len) (PhysicalMappingRegion (mkPhysicalMapping (round_down pa PAGE_SIZE) flags));
     match r.1 with
     | Ok region => region' ← Region.apply_offset region (pa mod PAGE_SIZE) len; Ret (Ok region', r.2)
     | Err e => Ret (Err e, r.2)
     end).
Proof using Type.
  clear HN Hps HBL. intros Hpa Hlen Hlim. destruct (window_arith pa len Hpa Hlen) as (Hend & Hn & Hd0 & Hdm & Epa & Hin).
  assert (round_up (pa + len) PAGE_SIZE ≤ 2 ^ 52) as Hup by (unfold round_up, round_down, PAGE_SIZE in *; mlia).
  assert (0 ≤ pa mod PAGE_SIZE) as Hmod by (unfold PAGE_SIZE; mlia).
  unfold map_physical_memory. change PAGE_SIZE with (2 ^ 12).
  rewrite align_down_ok, bind_bind_Ret, uadd_ok, bind_bind_Ret by lia.
  rewrite align_up_ok, bind_bind_Ret by (unfold PAGE_SIZE in *; lia). change (2 ^ 12) with PAGE_SIZE.
  rewrite (usub_ok (round_up _ _)) by (unfold PAGE_SIZE in *; lia). rewrite bind_bind_Ret.
  rewrite (usub_ok pa) by lia. rewrite bind_bind_Ret.
  by replace (pa - round_down pa PAGE_SIZE) with (pa mod PAGE_SIZE) by lia.
Qed.


(** *** Stacks *)

(** The processor's view of a stack of [n] pages, the first of which is the guard. *)
Record stack_view (m : Machine) (p4 top n : Z) : Prop := {
  sv_pages : ∀ va, top - (n - 1) * PAGE_SIZE ≤ va < top → ∃ pa, hw_translate m p4 va = Some pa;
  sv_guard : ∀ va, top - n * PAGE_SIZE ≤ va < top - (n - 1) * PAGE_SIZE → hw_translate m p4 va = None;
  sv_apart : ∀ va va' pa, top - n * PAGE_SIZE ≤ va < top → top - n * PAGE_SIZE ≤ va' < top →
    hw_translate m p4 va = Some pa → hw_translate m p4 va' = Some pa → va = va';
}.

Section view.
Context (m : Machine) (p4 b n : Z) (G : gmap Z (list Z)) (H : gset Z).
Context (Hb : 0 ≤ b) (Hal : b mod PAGE_SIZE = 0) (Hn : 2 ≤ n).
Context (Hrel : releasable p4 b true 0 n m G H) (Hc : region_contents KernelStackRegion m p4 b n).

Lemma stack_byte k :
  0 ≤ k < n * PAGE_SIZE →
  plain m p4 (b + k) ∧
  translate m p4 (b + k) = translate m p4 (b + k / PAGE_SIZE * PAGE_SIZE) ∧ 0 ≤ k / PAGE_SIZE < n.
Proof.
  intros Hk. assert (0 ≤ k / PAGE_SIZE < n) as Hj by (unfold PAGE_SIZE in *; mlia).
  pose proof (byte_page b k Hb Hal ltac:(lia)) as Hs. split_and!; [| |lia|lia].
  - eapply same_page_plain; [exact Hs|]. apply (rl_plain _ _ _ _ _ _ _ _ Hrel). lia.
  - symmetry. by apply same_page_translate.
Qed.

(** The bytes of the pages behind the guard, and the frames they are in. *)
Lemma stack_frame k :
  PAGE_SIZE ≤ k < n * PAGE_SIZE →
  ∃ f, hw_translate m p4 (b + k) = Some (f * PAGE_SIZE + k mod PAGE_SIZE) ∧
    f ∈ freed_frames (translate m p4 (b + k / PAGE_SIZE * PAGE_SIZE)) true.
Proof.
  intros Hk. destruct (stack_byte k) as (Hpl & Ht & Hj); [unfold PAGE_SIZE in *; lia|].
  destruct (proj2 Hc (k / PAGE_SIZE)) as (pte & Hpr & _); [unfold PAGE_SIZE in *; mlia|].
  exists (Present.frame pte). split; [|apply elem_of_freed_frames; eauto].
  rewrite <- Ht in Hpr. rewrite (plain_hw _ _ _ _ Hpl Hpr). do 2 f_equal. unfold PAGE_SIZE in *. mlia.
Qed.

Lemma stack_guard k : 0 ≤ k < PAGE_SIZE → hw_translate m p4 (b + k) = None.
Proof.
  intros Hk. destruct (stack_byte k) as (Hpl & Ht & Hj); [unfold PAGE_SIZE in *; lia|].
  apply absent_hw; [done|]. rewrite Ht. replace (k / PAGE_SIZE) with 0 by (unfold PAGE_SIZE in *; mlia).
  rewrite Z.mul_0_l, Z.add_0_r, (proj1 Hc). by vm_compute.
Qed.

Lemma stack_seen : stack_view m p4 (b + n * PAGE_SIZE) n.
Proof.
  assert (∀ va, va = b + (va - b)) as E by (intros; lia).
  split.
  - intros va Hva. rewrite (E va). destruct (stack_frame (va - b)) as (f & Hf & _); [unfold PAGE_SIZE in *; lia|eauto].
  - intros va Hva. rewrite (E va). apply stack_guard. unfold PAGE_SIZE in *. lia.
  - intros va va' pa Hva Hva' Ht Ht'. rewrite (E va) in Ht. rewrite (E va') in Ht'.
    assert (∀ k, 0 ≤ k < n * PAGE_SIZE → hw_translate m p4 (b + k) = Some pa → PAGE_SIZE ≤ k) as Hge.
    { intros k Hk Hs. destruct (decide (k < PAGE_SIZE)); [|lia]. by rewrite stack_guard in Hs by lia. }
    pose proof (Hge (va - b) ltac:(lia) Ht) as Hk. pose proof (Hge (va' - b) ltac:(lia) Ht') as Hk'.
    destruct (stack_frame (va - b)) as (f & Hf & HfF); [lia|]. destruct (stack_frame (va' - b)) as (f' & Hf' & HfF'); [lia|].
    rewrite Ht in Hf. rewrite Ht' in Hf'. injection Hf as ->. injection Hf' as Heq.
    assert (f' = f ∧ (va' - b) mod PAGE_SIZE = (va - b) mod PAGE_SIZE) as [-> Em] by (unfold PAGE_SIZE in *; mlia).
    pose proof (rl_distinct _ _ _ _ _ _ _ _ Hrel ((va - b) / PAGE_SIZE) ((va' - b) / PAGE_SIZE) f) as Hd.
    specialize (Hd ltac:(unfold PAGE_SIZE in *; mlia) ltac:(unfold PAGE_SIZE in *; mlia) HfF HfF').
    unfold PAGE_SIZE in *. mlia.
Qed.
End view.

End calls.

(** ** The scheduler on top of paging *)

(** What is always true of the region manager, memory or no memory. *)
Definition manager_ok (N : nat) (p : Paging) : Prop :=
  ∃ B L c l, manager p = Some c ∧ RegionManager.table_ok N B L c l ∧
    backend_ok (machine p) (RegionManager.chain_frames c).

Lemma paging_manager_ok N B L p c l G F H : paging_ok N B L p c l G F H → manager_ok N p.
Proof.
  intros Hpk. exists B, L, c, l. split_and!; [apply Hpk|apply Hpk|by eapply backend_of_paging].
Qed.

Section promises.
Context (N : nat) (page_size : Z) (HN : (2 ≤ N)%nat) (Hps : 0 ≤ page_size ≤ PAGE_SIZE).

(** Any allocation that returns, whether it succeeds or not. *)
Lemma allocate_typed_returns p n t r p' :
  manager_ok N p → 0 < n → n * PAGE_SIZE < usize_limit → t ≠ Free →
  allocate_typed N page_size p n t = Ret (r, p') →
  manager_ok N p' ∧ ∀ region, r = Ok region →
    ∃ b, 0 ≤ b ∧ b + n * PAGE_SIZE < usize_limit ∧ Region.limit region = Ret (b + n * PAGE_SIZE).
Proof.
  intros (B & L & c & l & Hm & Htab & Hbk) Hn Hov Hnf. unfold allocate_typed. rewrite Hm. cbn [InitMutex.lock unwrap].
  rewrite bind_bind_Ret.
  destruct (RegionManager.allocate_region_ok N page_size HN Hps B L c l n t (machine p) Htab Hbk Hn Hov Hnf)
    as [[_ ->]|(l1 & e & l2 & -> & _ & Hfit & Hspec & Hti & Hco)].
  { intros [= <- <-]. split; [|done]. by exists B, L, c, l. }
  apply andb_true_iff in Hfit as [_ Hsz%Z.leb_le]. pose proof Htab as [_ Ht _ HB HL].
  pose proof (tiled_inside _ _ _ Ht) as Hin. apply Forall_app in Hin as [_ [(Hb & _ & Hl) _]%Forall_cons].
  assert (∀ m', backend_ok m' (RegionManager.chain_frames c ++ []) → manager_ok N (mkPaging (Some c) m')) as Hsame.
  { intros m' Hm'. exists B, L, c, (l1 ++ e :: l2). split_and!; [done|done|by rewrite app_nil_r in Hm']. }
  destruct Hspec as [(m' & _ & -> & Hbk')|(spare & m1 & _ & Hspec)].
  { intros [= <- <-]. split; [by apply Hsame|done]. }
  destruct (be_map_region t (base e) (base e + n * PAGE_SIZE) m1) as [[[u|er] m2]| |]; [|..|by rewrite Hspec].
  - destruct Hspec as (c' & m' & rest & -> & Hrep & Hbk' & _). rewrite bind_bind_Ret. cbn [fst snd].
    destruct (region_new_ok N HN (base e) n) as (region & -> & _ & Hlim & _); [lia|lia|lia|]. intros [= <- <-].
    split; [|intros ? [= <-]; exists (base e); split_and!; [lia|lia|done]].
    rewrite app_nil_r in Hbk'. exists B, L, c', (RegionManager.alloc_flat l1 e l2 (n * PAGE_SIZE) t). by split_and!.
  - destruct Hspec as (m' & -> & _ & Hbk'). intros [= <- <-]. split; [by apply Hsame|done].
  - by rewrite Hspec.
Qed.

(** Paging keeps its promise to the scheduler. *)
Definition Paging_stacks_laws : @KernelStacksLaws Paging (Paging_stacks N page_size).
Proof.
  refine {| stacks_ok := manager_ok N |}. intros p r p' Hp Ha. cbn in Ha. unfold RegionMapping.allocate_kernel_stack in Ha.
  apply bind_Ret_inv in Ha as ([r0 p0] & Ha & [= <- <-]). cbn [fst snd].
  destruct (allocate_typed_returns p DEFAULT_KERNEL_STACK_PAGES KernelStackRegion r0 p0 Hp) as [Hp' Hr]; [done..|].
  split; [done|]. intros ks E. destruct r0 as [region|]; [|done]. injection E as <-.
  destruct (Hr region eq_refl) as (b & Hb & Hlt & Hl). exists (b + DEFAULT_KERNEL_STACK_PAGES * PAGE_SIZE).
  split; [exact Hl|]. unfold DEFAULT_KERNEL_STACK_PAGES, PAGE_SIZE in *. lia.
Defined.

End promises.

(** C9: the scheduler on the real paging. From a state in which the region table,
    the page tables and the frame database agree, whatever the interleaving of any
    number of CPUs, and whether or not memory runs out, the invariant of the
    scheduler holds, the region table stays well-formed, and every action of a CPU
    inside a call returns, or is an allocation of a stack that does not return, or
    is the [ret] of a context switch into [todo!()]. *)
Theorem scheduler_paging_safe N page_size B L {layout : CodeLayout} m p c l G F H w :
  (2 ≤ N)%nat → 0 ≤ page_size ≤ PAGE_SIZE → paging_ok N B L p c l G F H →
  @reachable _ (Paging_stacks N page_size) _ m p w →
  sched_inv w ∧ manager_ok N (w_stacks w) ∧
  ∀ id k ph, cpus w !! id = Some (k, ph) →
    (∃ ph' v', @advance _ (Paging_stacks N page_size) _ id ph (view_of w k) = Ret (ph', v')) ∨
    (ph = Returning ∧ @advance _ (Paging_stacks N page_size) _ id ph (view_of w k) = Panic Unimplemented) ∨
    (∃ tr, ph = Allocating tr ∧
       ∀ r, RegionMapping.allocate_kernel_stack N page_size (w_stacks w) DEFAULT_KERNEL_STACK_PAGES ≠ Ret r).
Proof.
  intros HN Hps Hpk%paging_manager_ok Hr.
  destruct (@reachable_inv _ _ (Paging_stacks_laws N page_size HN Hps) _ m p w Hpk Hr) as [Hinv Hsok].
  split_and!; [done|done|]. intros id k ph Hid.
  destruct (@advance_ok _ _ (Paging_stacks_laws N page_size HN Hps) _ id ph _ _ (sched_inv_local w id k ph Hinv Hid) Hsok)
    as [(ph' & v' & Ha & _)|[?|?]]; eauto.
Qed.

(** ** Witnesses: the empty machine with a region table over the kernel heap *)



(** CPU 0 has booted and runs its idle task. *)
Definition booted_world : World Paging :=
  let w := initial ∅ heap_paging in
  match new_idle (w_tasks w) 0 (bump_stack 0x100000) with
  | Ret (Success r, ts) => put_view w 0 (Starting r) (mkView (mkCpu None None ArchContext.new) ts (w_mem w) (w_stacks w))
  | _ => w
  end.

Lemma scheduler_paging_safe_witness :
  sched_inv booted_world ∧ manager_ok 8 (w_stacks booted_world) ∧
  ∃ k, cpus booted_world !! 0 = Some (k, Starting 0) ∧
    ∃ ph' v', @advance _ (Paging_stacks 8 4096) _ 0 (Starting 0) (view_of booted_world k) = Ret (ph', v').
Proof.
  destruct (scheduler_paging_safe 8 4096 KERNEL_HEAP_BASE KERNEL_HEAP_LIMIT ∅ heap_paging heap_table [heap_entry]
    {[17 := []]} free_15 {[17]} booted_world ltac:(lia) ltac:(unfold PAGE_SIZE; lia) heap_paging_ok) as (Hinv & Hm & Hadv).
  - unfold booted_world. eapply reachable_step; [apply reachable_initial|].
    apply (step_boot _ 0 (bump_stack 0x100000)); reflexivity.
  - split; [exact Hinv|]. split; [exact Hm|]. eexists. split; [reflexivity|].
    destruct (Hadv 0 _ (Starting 0) eq_refl) as [Hr|[[Hr _]|(tr & Hr & _)]]; [exact Hr|discriminate Hr|discriminate Hr].
Defined.
