(* ===== verification/Descriptors.v ===== *)
(** * Segment and interrupt descriptors (gdt.rs, idt.rs)

    The packed entries the kernel builds, the tables made of them, and what the
    processor reads back from them: [Segment] and [Gate] decode the bytes the
    way the architecture defines. [Gdt] also follows the loading of the tables
    into the segment registers of one CPU; a load the processor refuses (a
    general-protection fault) is a panic here. *)
From S2P Require Import Prelude RegionMapping.

(** [x as u8], [x as u16], [x as u32]. *)
Definition as_u8 (x : Z) : Z := truncate 8 x.
Definition as_u16 (x : Z) : Z := truncate 16 x.
Definition as_u32 (x : Z) : Z := truncate 32 x.

(** A decidable property of the numbers below [n], checked one by one. *)
Lemma checked_below (P : nat → bool) n v : forallb P (seq 0 n) = true → (v < n)%nat → P v = true.
Proof.
  intros HP Hv. apply (proj1 (forallb_forall P _) HP), list_elem_of_In, elem_of_seq. lia.
Qed.
Lemma finite_range (P : Z → bool) n :
  forallb P (Z.of_nat <$> seq 0 n) = true → ∀ x, 0 ≤ x < Z.of_nat n → P x = true.
Proof.
  intros HP x Hx. eapply (proj1 (forallb_forall P _) HP).
  apply list_elem_of_In, list_elem_of_fmap. exists (Z.to_nat x).
  split; [lia|]. apply elem_of_seq. lia.
Qed.

(** ** The global descriptor table *)

Module Gdt.

Record GdtEntry := mkGdtEntry {
  limitl : Z; offsetl : Z; offsetm : Z; access : Z; flags_limith : Z; offseth : Z }.

Definition new (offset limit access flags : Z) : GdtEntry :=
  mkGdtEntry (as_u16 limit) (as_u16 offset) (as_u8 (Z.shiftr offset 16)) access
    (Z.lor (Z.land flags 0xF0) (Z.land (as_u8 (Z.shiftr limit 16)) 0x0F))
    (as_u8 (Z.shiftr offset 24)).

Definition set_offset (e : GdtEntry) (offset : Z) : GdtEntry :=
  mkGdtEntry (limitl e) (as_u16 offset) (as_u8 (Z.shiftr offset 16)) (access e) (flags_limith e)
    (as_u8 (Z.shiftr offset 24)).

Definition set_limit (e : GdtEntry) (limit : Z) : GdtEntry :=
  mkGdtEntry (as_u16 limit) (offsetl e) (offsetm e) (access e)
    (Z.lor (Z.land (flags_limith e) 0xF0) (Z.land (as_u8 (Z.shiftr limit 16)) 0x0F)) (offseth e).

Definition GDT_NULL : Z := 0.
Definition GDT_KERNEL_CODE : Z := 1.
Definition GDT_KERNEL_DATA : Z := 2.
Definition GDT_KERNEL_TLS_UNUSED : Z := 3.
Definition GDT_USER_CODE : Z := 4.
Definition GDT_USER_DATA : Z := 5.
Definition GDT_USER_TLS_UNUSED : Z := 6.
Definition GDT_TSS : Z := 7.
Definition GDT_TSS_HIGH : Z := 8.

Definition GDT_A_PRESENT : Z := Z.shiftl 1 7.
Definition GDT_A_RING_0 : Z := Z.shiftl 0 5.
Definition GDT_A_RING_1 : Z := Z.shiftl 1 5.
Definition GDT_A_RING_2 : Z := Z.shiftl 2 5.
Definition GDT_A_RING_3 : Z := Z.shiftl 3 5.
Definition GDT_A_SYSTEM : Z := Z.shiftl 1 4.
Definition GDT_A_EXECUTABLE : Z := Z.shiftl 1 3.
Definition GDT_A_CONFORMING : Z := Z.shiftl 1 2.
Definition GDT_A_PRIVILEGE : Z := Z.shiftl 1 1.
Definition GDT_A_DIRTY : Z := 1.
Definition GDT_A_TSS_AVAIL : Z := 0x9.
Definition GDT_A_TSS_BUSY : Z := 0xB.
Definition GDT_F_PAGE_SIZE : Z := Z.shiftl 1 7.
Definition GDT_F_PROTECTED_MODE : Z := Z.shiftl 1 6.
Definition GDT_F_LONG_MODE : Z := Z.shiftl 1 5.

(** [a | b | ..]. *)
Definition bits_or (l : list Z) : Z := foldl Z.lor 0 l.

(** The two halves of the descriptor of a task state segment at [tss_ptr]. *)
Definition tss_entries (tss_ptr tss_size : Z) : GdtEntry * GdtEntry :=
  let tss_ptr_0_32 := as_u32 tss_ptr in
  let tss_ptr_32_48 := as_u16 (Z.shiftr tss_ptr 32) in
  let tss_ptr_48_64 := as_u16 (Z.shiftr tss_ptr 48) in
  (new tss_ptr_0_32 (as_u32 tss_size) (bits_or [GDT_A_PRESENT; GDT_A_RING_3; GDT_A_TSS_AVAIL]) 0,
   new tss_ptr_48_64 tss_ptr_32_48 0 0).

Definition kernel_code : GdtEntry :=
  new 0 0 (bits_or [GDT_A_PRESENT; GDT_A_RING_0; GDT_A_SYSTEM; GDT_A_EXECUTABLE; GDT_A_PRIVILEGE]) GDT_F_LONG_MODE.
Definition kernel_data : GdtEntry :=
  new 0 0 (bits_or [GDT_A_PRESENT; GDT_A_RING_0; GDT_A_SYSTEM; GDT_A_PRIVILEGE]) GDT_F_LONG_MODE.
Definition user_code : GdtEntry :=
  new 0 0 (bits_or [GDT_A_PRESENT; GDT_A_RING_3; GDT_A_SYSTEM; GDT_A_EXECUTABLE; GDT_A_PRIVILEGE]) GDT_F_LONG_MODE.
Definition user_data : GdtEntry :=
  new 0 0 (bits_or [GDT_A_PRESENT; GDT_A_RING_3; GDT_A_SYSTEM; GDT_A_PRIVILEGE]) GDT_F_LONG_MODE.

Definition INIT_GDT : list GdtEntry := [new 0 0 0 0; kernel_code; kernel_data; user_data].

Definition GDT : list GdtEntry :=
  [new 0 0 0 0; kernel_code; kernel_data; kernel_data; user_code; user_data; user_data;
   new 0 0 (bits_or [GDT_A_PRESENT; GDT_A_RING_3; GDT_A_TSS_AVAIL]) 0; new 0 0 0 0].

(** *** What the processor reads *)

(** The eight bytes of an entry, as a little-endian word. *)
Definition word_of (e : GdtEntry) : Z :=
  limitl e + offsetl e * 2 ^ 16 + offsetm e * 2 ^ 32 + access e * 2 ^ 40 + flags_limith e * 2 ^ 48 +
  offseth e * 2 ^ 56.

Definition field (w lo len : Z) : Z := (w / 2 ^ lo) mod 2 ^ len.

Definition seg_base (e : GdtEntry) : Z := field (word_of e) 16 24 + field (word_of e) 56 8 * 2 ^ 24.
Definition seg_limit (e : GdtEntry) : Z := field (word_of e) 0 16 + field (word_of e) 48 4 * 2 ^ 16.
Definition seg_type (e : GdtEntry) : Z := field (word_of e) 40 5.
Definition seg_dpl (e : GdtEntry) : Z := field (word_of e) 45 2.
Definition seg_present (e : GdtEntry) : bool := field (word_of e) 47 1 =? 1.
Definition seg_long (e : GdtEntry) : bool := field (word_of e) 53 1 =? 1.

(** The base in the sixteen-byte descriptor of a task state segment. *)
Definition tss_base (low high : GdtEntry) : Z := seg_base low + field (word_of high) 0 32 * 2 ^ 32.

(** *** The segment registers of a CPU *)

(** The task state segment ([TaskStateSegment] of the x86 crate). *)
Record TaskStateSegment := mkTSS {
  tss_reserved : Z; tss_rsp : list Z; tss_reserved2 : Z; tss_ist : list Z;
  tss_reserved3 : Z; tss_reserved4 : Z; tss_iomap_base : Z }.

Definition TSS : TaskStateSegment := mkTSS 0 [0; 0; 0] 0 [0; 0; 0; 0; 0; 0; 0] 0 0 0xFFFF.

Record SegmentState := mkSegments {
  gdtr_limit : Z;
  table : list GdtEntry;
  cs : Z; ds : Z; es : Z; fs : Z; gs : Z; ss : Z;
  fs_base : Z; gs_base : Z;
  tr : Z;
  tss : TaskStateSegment }.

(** [SegmentSelector::new(index, rpl)]. *)
Definition selector (index rpl : Z) : Z := Z.lor (Z.shiftl index 3) rpl.

(** The descriptor a selector names, if the table's limit allows it. *)
Definition descriptor (s : SegmentState) (sel : Z) : outcome GdtEntry :=
  if sel / 8 * 8 + 7 <=? gdtr_limit s then slice_get (table s) (sel / 8) else Panic ExplicitPanic.

(** Loading a data segment register at ring 0: the descriptor must be a present
    code or data segment, and the base comes from it; the null selector gives
    base zero. *)
Definition loaded_base (s : SegmentState) (sel : Z) : outcome Z :=
  if sel / 4 =? 0 then Ret 0
  else e ← descriptor s sel;
       if seg_present e && (field (word_of e) 44 1 =? 1) then Ret (seg_base e)
       else Panic ExplicitPanic.

(** The stack segment at ring 0 must be a present, writable data segment of ring 0. *)
Definition stack_segment_ok (e : GdtEntry) : bool :=
  seg_present e && (field (word_of e) 44 1 =? 1) && (field (word_of e) 43 1 =? 0) &&
  (field (word_of e) 41 1 =? 1) && (seg_dpl e =? 0).

Definition with_gdtr (s : SegmentState) (lim : Z) (t : list GdtEntry) : SegmentState :=
  mkSegments lim t (cs s) (ds s) (es s) (fs s) (gs s) (ss s) (fs_base s) (gs_base s) (tr s) (tss s).
Definition with_fs_base (s : SegmentState) (b : Z) : SegmentState :=
  mkSegments (gdtr_limit s) (table s) (cs s) (ds s) (es s) (fs s) (gs s) (ss s) b (gs_base s) (tr s) (tss s).

(** A far return into [cs]: the descriptor must be present 64-bit code. *)
Definition load_cs (s : SegmentState) (sel : Z) : outcome SegmentState :=
  e ← descriptor s sel;
  if seg_present e && seg_long e && (field (word_of e) 43 1 =? 1) then
    Ret (mkSegments (gdtr_limit s) (table s) sel (ds s) (es s) (fs s) (gs s) (ss s)
           (fs_base s) (gs_base s) (tr s) (tss s))
  else Panic ExplicitPanic.
Definition load_ds (s : SegmentState) (sel : Z) : outcome SegmentState :=
  loaded_base s sel;;
  Ret (mkSegments (gdtr_limit s) (table s) (cs s) sel (es s) (fs s) (gs s) (ss s)
         (fs_base s) (gs_base s) (tr s) (tss s)).
Definition load_es (s : SegmentState) (sel : Z) : outcome SegmentState :=
  loaded_base s sel;;
  Ret (mkSegments (gdtr_limit s) (table s) (cs s) (ds s) sel (fs s) (gs s) (ss s)
         (fs_base s) (gs_base s) (tr s) (tss s)).
Definition load_fs (s : SegmentState) (sel : Z) : outcome SegmentState :=
  b ← loaded_base s sel;
  Ret (mkSegments (gdtr_limit s) (table s) (cs s) (ds s) (es s) sel (gs s) (ss s)
         b (gs_base s) (tr s) (tss s)).
Definition load_gs (s : SegmentState) (sel : Z) : outcome SegmentState :=
  b ← loaded_base s sel;
  Ret (mkSegments (gdtr_limit s) (table s) (cs s) (ds s) (es s) (fs s) sel (ss s)
         (fs_base s) b (tr s) (tss s)).
Definition load_ss (s : SegmentState) (sel : Z) : outcome SegmentState :=
  e ← descriptor s sel;
  assert_ (stack_segment_ok e);;
  Ret (mkSegments (gdtr_limit s) (table s) (cs s) (ds s) (es s) (fs s) (gs s) sel
         (fs_base s) (gs_base s) (tr s) (tss s)).

(** [load_tr]: the descriptor must be an available task state segment, and is
    marked busy. *)
Definition load_tr (s : SegmentState) (sel : Z) : outcome SegmentState :=
  e ← descriptor s sel;
  if seg_present e && (seg_type e =? GDT_A_TSS_AVAIL) then
    let busy := mkGdtEntry (limitl e) (offsetl e) (offsetm e) (access e + 2) (flags_limith e) (offseth e) in
    t ← slice_set (table s) (sel / 8) busy;
    Ret (mkSegments (gdtr_limit s) t (cs s) (ds s) (es s) (fs s) (gs s) (ss s)
           (fs_base s) (gs_base s) sel (tss s))
  else Panic ExplicitPanic.

(** [(table.len() * size_of::<GdtEntry>() - 1) as u16]. *)
Definition table_limit (t : list GdtEntry) : outcome Z :=
  n ← umul (Z.of_nat (length t)) 8; d ← usub n 1; Ret (as_u16 d).

(** The six segment registers, in the order both functions load them. *)
Definition load_segments (s : SegmentState) : outcome SegmentState :=
  s ← load_cs s (selector GDT_KERNEL_CODE 0);
  s ← load_ds s (selector GDT_KERNEL_DATA 0);
  s ← load_es s (selector GDT_KERNEL_DATA 0);
  s ← load_fs s (selector GDT_KERNEL_DATA 0);
  s ← load_gs s (selector GDT_KERNEL_DATA 0);
  load_ss s (selector GDT_KERNEL_DATA 0).

Definition init (s : SegmentState) : outcome SegmentState :=
  limit ← table_limit INIT_GDT;
  load_segments (with_gdtr s limit INIT_GDT).

Definition set_tss_stack (t : TaskStateSegment) (stack : KernelStack) : outcome TaskStateSegment :=
  top ← stack_top stack;
  l ← slice_set (tss_rsp t) 0 top;
  Ret (mkTSS (tss_reserved t) l (tss_reserved2 t) (tss_ist t) (tss_reserved3 t) (tss_reserved4 t)
         (tss_iomap_base t)).

(** [TSS.ist[0] = ..]. *)
Definition set_ist0 (t : TaskStateSegment) (v : Z) : outcome TaskStateSegment :=
  l ← slice_set (tss_ist t) 0 v;
  Ret (mkTSS (tss_reserved t) (tss_rsp t) (tss_reserved2 t) l (tss_reserved3 t) (tss_reserved4 t)
         (tss_iomap_base t)).

(** The thread-local table and task state segment are those of a fresh thread
    control block; the segment lies at [tss_ptr]. *)
Definition init_post_paging (s : SegmentState) (tcb_offset tss_ptr tss_size : Z)
    (init_stack fault_stack : KernelStack) : outcome SegmentState :=
  let s := with_fs_base s tcb_offset in
  limit ← table_limit GDT;
  let '(tss_low, tss_high) := tss_entries tss_ptr tss_size in
  t ← slice_set GDT GDT_TSS tss_low;
  t ← slice_set t GDT_TSS_HIGH tss_high;
  tss ← set_tss_stack TSS init_stack;
  top ← stack_top fault_stack;
  tss ← set_ist0 tss top;
  let s := mkSegments limit t (cs s) (ds s) (es s) (fs s) (gs s) (ss s)
             (fs_base s) (gs_base s) (tr s) tss in
  s ← load_segments s;
  let s := with_fs_base s tcb_offset in
  load_tr s (selector GDT_TSS 0).

Definition init_ap (s : SegmentState) (tcb_offset tss_ptr tss_size : Z)
    (init_stack fault_stack : KernelStack) : outcome SegmentState :=
  s ← init s; init_post_paging s tcb_offset tss_ptr tss_size init_stack fault_stack.

(** *** Encoding and decoding *)

Lemma nibbles f l :
  0 ≤ f < 256 → Z.lor (Z.land f 0xF0) (Z.land (as_u8 l) 0x0F) = f / 16 * 16 + l mod 16.
Proof.
  intros Hf. unfold as_u8, truncate.
  change 0x0F with (Z.ones 4). rewrite Z.land_ones by lia.
  replace ((l mod 2 ^ 8) mod 2 ^ 4) with (l mod 16) by mlia.
  assert (Hl : 0 ≤ l mod 16 < 16) by mlia. revert Hl. generalize (l mod 16). intros r Hr.
  apply Z.eqb_eq.
  assert (H : forallb (λ x, forallb (λ y, Z.lor (Z.land x 0xF0) y =? x / 16 * 16 + y)
                (Z.of_nat <$> seq 0 16)) (Z.of_nat <$> seq 0 256) = true) by (vm_compute; reflexivity).
  apply (finite_range _ 256 H) in Hf.
  exact (finite_range _ 16 Hf r Hr).
Qed.


Ltac decode_entry :=
  unfold seg_base, seg_limit, seg_type, seg_dpl, seg_present, seg_long, tss_base, field, word_of, new;
  cbn [limitl offsetl offsetm access flags_limith offseth];
  rewrite ?nibbles by done; unfold as_u8, as_u16, as_u32, truncate;
  rewrite ?Z.shiftr_div_pow2 by lia.

Section decoding.
Context (o l a f : Z) (Ho : 0 ≤ o < 2 ^ 32) (Ha : 0 ≤ a < 256) (Hf : 0 ≤ f < 256).

Lemma seg_base_new : seg_base (new o l a f) = o.
Proof using Ho Ha Hf. decode_entry. mlia. Qed.
Lemma seg_limit_new : seg_limit (new o l a f) = l mod 2 ^ 20.
Proof using Ho Ha Hf. decode_entry. mlia. Qed.
Lemma seg_type_new : seg_type (new o l a f) = a mod 32.
Proof using Ho Ha Hf. decode_entry. mlia. Qed.
Lemma seg_dpl_new : seg_dpl (new o l a f) = a / 32 mod 4.
Proof using Ho Ha Hf. decode_entry. mlia. Qed.
Lemma seg_present_new : seg_present (new o l a f) = (a / 128 =? 1).
Proof using Ho Ha Hf. decode_entry. f_equal. mlia. Qed.
Lemma seg_long_new : seg_long (new o l a f) = (f / 32 mod 2 =? 1).
Proof using Ho Ha Hf. decode_entry. f_equal. mlia. Qed.

(** The two setters rebuild the entry [new] would have built. *)
Lemma set_offset_new o' : set_offset (new o l a f) o' = new o' l a f.
Proof using. done. Qed.
Lemma set_limit_new l' : set_limit (new o l a f) l' = new o l' a f.
Proof using Ho Ha Hf.
  unfold set_limit, new. cbn [limitl offsetl offsetm access flags_limith offseth].
  f_equal. rewrite !nibbles by first [done | rewrite nibbles by done; mlia | mlia]. mlia.
Qed.
End decoding.

(** The packed entry is the processor's encoding of its arguments: for
    every 32-bit offset and limit and every access and flag byte the processor
    reads back that base, the low twenty bits of the limit, the type, the
    privilege level and the present and long-mode bits, and the setters
    [set_offset] and [set_limit] replace exactly their field. *)
Theorem gdt_entry_roundtrip o l a f o' l' :
  0 ≤ o < 2 ^ 32 → 0 ≤ o' < 2 ^ 32 → 0 ≤ l' < 2 ^ 20 → 0 ≤ a < 256 → 0 ≤ f < 256 →
  let e := set_limit (set_offset (new o l a f) o') l' in
  seg_base (new o l a f) = o ∧ seg_limit (new o l a f) = l mod 2 ^ 20 ∧
  seg_base e = o' ∧ seg_limit e = l' ∧ seg_type e = a mod 32 ∧ seg_dpl e = a / 32 mod 4 ∧
  seg_present e = (a / 128 =? 1) ∧ seg_long e = (f / 32 mod 2 =? 1).
Proof.
  intros Ho Ho' Hl Ha Hf. cbv zeta.
  rewrite set_offset_new, set_limit_new by done.
  rewrite !seg_base_new, !seg_limit_new, seg_type_new, seg_dpl_new, seg_present_new, seg_long_new by done.
  by rewrite (Z.mod_small l') by done.
Qed.

Lemma gdt_entry_roundtrip_witness :
  seg_base (new 0x12345678 0xABCDE 0x92 0x20) = 0x12345678 ∧
  seg_limit (set_limit (set_offset (new 0x12345678 0xABCDE 0x92 0x20) 5) 7) = 7.
Proof.
  destruct (gdt_entry_roundtrip 0x12345678 0xABCDE 0x92 0x20 5 7 ltac:(lia) ltac:(lia) ltac:(lia)
              ltac:(lia) ltac:(lia)) as (H1 & _ & _ & H2 & _).
  exact (conj H1 H2).
Defined.

(** The sixteen bytes built for a task state segment describe it. *)
Lemma tss_entries_ok p size low high :
  0 ≤ p < 2 ^ 64 → 0 ≤ size < 2 ^ 20 → tss_entries p size = (low, high) →
  tss_base low high = p ∧ seg_limit low = size ∧ seg_type low = GDT_A_TSS_AVAIL ∧
  seg_present low = true ∧ seg_dpl low = 3.
Proof.
  intros Hp Hs. unfold tss_entries.
  change (bits_or [GDT_A_PRESENT; GDT_A_RING_3; GDT_A_TSS_AVAIL]) with 233.
  assert (Hp32 : 0 ≤ as_u32 p < 2 ^ 32) by (unfold as_u32, truncate; mlia).
  intros [= <- <-].
  rewrite seg_limit_new, seg_type_new, seg_present_new, seg_dpl_new by (done || lia).
  split_and!; [|unfold as_u32, truncate; mlia|done..].
  unfold tss_base. rewrite seg_base_new by (done || lia).
  decode_entry. mlia.
Qed.

(** *** Loading the tables *)

(** The segment registers after the kernel's selectors have been loaded. *)
Definition kernel_segments (s : SegmentState) : SegmentState :=
  mkSegments (gdtr_limit s) (table s) 8 16 16 16 16 16 0 0 (tr s) (tss s).

Lemma descriptor_ok s sel e :
  sel / 8 * 8 + 7 ≤ gdtr_limit s → table s !! Z.to_nat (sel / 8) = Some e → descriptor s sel = Ret e.
Proof.
  intros Hlim He. unfold descriptor, slice_get. rewrite (proj2 (Z.leb_le _ _)) by done. by rewrite He.
Qed.

(** The descriptors of the running kernel, whatever was loaded. *)
Lemma load_segments_ok s :
  table s !! 1%nat = Some kernel_code → table s !! 2%nat = Some kernel_data → 31 ≤ gdtr_limit s →
  load_segments s = Ret (kernel_segments s).
Proof.
  destruct s as [lim t cs_ ds_ es_ fs_ gs_ ss_ fb gb tr_ tss_]; cbn [table gdtr_limit].
  intros H1 H2 Hlim.
  assert (Hd1 : ∀ c d e f g h b b' r x,
    descriptor (mkSegments lim t c d e f g h b b' r x) 8 = Ret kernel_code).
  { intros. apply descriptor_ok; cbn [gdtr_limit]; [mlia|done]. }
  assert (Hd2 : ∀ c d e f g h b b' r x,
    descriptor (mkSegments lim t c d e f g h b b' r x) 16 = Ret kernel_data).
  { intros. apply descriptor_ok; cbn [gdtr_limit]; [mlia|done]. }
  assert (Hb : ∀ c d e f g h b b' r x,
    loaded_base (mkSegments lim t c d e f g h b b' r x) 16 = Ret 0).
  { intros. unfold loaded_base. by rewrite Hd2. }
  unfold load_segments, load_cs, load_ds, load_es, load_fs, load_gs, load_ss.
  change (selector GDT_KERNEL_CODE 0) with 8. change (selector GDT_KERNEL_DATA 0) with 16.
  rewrite Hd1, bind_bind_Ret. change (seg_present kernel_code && seg_long kernel_code && _) with true.
  repeat (cbn [mbind outcome_bind table gdtr_limit cs ds es fs gs ss fs_base gs_base tr tss];
          first [rewrite Hb | rewrite Hd2]).
  done.
Qed.

Lemma init_ok s :
  init s = Ret (kernel_segments (with_gdtr s 31 INIT_GDT)).
Proof.
  unfold init. change (table_limit INIT_GDT) with (Ret 31). cbn [mbind outcome_bind].
  by rewrite load_segments_ok.
Qed.

(** The state a processor ends up in: its own table with its own task state
    segment, busy since it is the loaded one. *)
Definition busy (e : GdtEntry) : GdtEntry :=
  mkGdtEntry (limitl e) (offsetl e) (offsetm e) (access e + 2) (flags_limith e) (offseth e).

Definition boot_table (low high : GdtEntry) : list GdtEntry :=
  [new 0 0 0 0; kernel_code; kernel_data; kernel_data; user_code; user_data; user_data; low; high].

Definition final_table (low high : GdtEntry) : list GdtEntry :=
  [new 0 0 0 0; kernel_code; kernel_data; kernel_data; user_code; user_data; user_data; busy low; high].

Lemma init_post_paging_ok s tcb p size init_stack fault_stack ti tf low high :
  tss_entries p size = (low, high) →
  seg_present low = true → seg_type low = GDT_A_TSS_AVAIL →
  stack_top init_stack = Ret ti → stack_top fault_stack = Ret tf →
  init_post_paging s tcb p size init_stack fault_stack =
    Ret (mkSegments 71 (final_table low high) 8 16 16 16 16 16 tcb 0 56
           (mkTSS 0 [ti; 0; 0] 0 [tf; 0; 0; 0; 0; 0; 0] 0 0 0xFFFF)).
Proof.
  intros He Hp Hty Hi Hf. unfold init_post_paging.
  change (table_limit GDT) with (Ret 71). rewrite He, bind_bind_Ret.
  assert (Ht : (t ← slice_set GDT GDT_TSS low; slice_set t GDT_TSS_HIGH high) = Ret (boot_table low high))
    by reflexivity.
  rewrite <- bind_assoc, Ht, bind_bind_Ret.
  unfold set_tss_stack. rewrite Hi, Hf, bind_bind_Ret.
  change (slice_set (tss_rsp TSS) 0 ti) with (Ret [ti; 0; 0]). rewrite !bind_bind_Ret.
  unfold set_ist0 at 1. change (slice_set _ 0 tf) with (Ret [tf; 0; 0; 0; 0; 0; 0]). rewrite !bind_bind_Ret.
  rewrite load_segments_ok, bind_bind_Ret by done. unfold kernel_segments, with_fs_base.
  unfold load_tr. erewrite descriptor_ok by done.
  rewrite bind_bind_Ret, Hp, Hty. done.
Qed.

Lemma init_ap_ok s tcb p size init_stack fault_stack ti tf :
  0 ≤ p < 2 ^ 64 → 0 ≤ size < 2 ^ 20 →
  stack_top init_stack = Ret ti → stack_top fault_stack = Ret tf →
  init_ap s tcb p size init_stack fault_stack =
    Ret (mkSegments 71 (final_table (tss_entries p size).1 (tss_entries p size).2) 8 16 16 16 16 16 tcb 0 56
           (mkTSS 0 [ti; 0; 0] 0 [tf; 0; 0; 0; 0; 0; 0] 0 0 0xFFFF)).
Proof.
  intros Hp Hs Hi Hf. unfold init_ap. rewrite init_ok, bind_bind_Ret.
  destruct (tss_entries p size) as [low high] eqn:He.
  destruct (tss_entries_ok _ _ _ _ Hp Hs He) as (_ & _ & Hty & Hpr & _).
  by erewrite init_post_paging_ok.
Qed.

(** A processor's descriptor tables come up without a fault and describe
    what they should. [init_ap] (the boot processor runs the same two halves)
    never faults; afterwards [fs] and the thread-local base hold the thread
    control block, [cs] names present ring-0 64-bit code, the user code and
    data selectors name ring-3 segments, the task register names the busy
    descriptor whose base is the processor's task state segment, and that
    segment has the kernel stack as [rsp0] and the fault stack as [IST1]. *)
Theorem gdt_init_correct s tcb p size init_stack fault_stack ti tf :
  0 ≤ p < 2 ^ 64 → 0 ≤ size < 2 ^ 20 →
  stack_top init_stack = Ret ti → stack_top fault_stack = Ret tf →
  ∃ s', init_ap s tcb p size init_stack fault_stack = Ret s' ∧
    fs_base s' = tcb ∧
    (∃ e, descriptor s' (cs s') = Ret e ∧
       seg_present e = true ∧ seg_long e = true ∧ seg_dpl e = 0 ∧ seg_type e = 0x1A) ∧
    (∃ e, descriptor s' (selector GDT_USER_CODE 3) = Ret e ∧
       seg_present e = true ∧ seg_long e = true ∧ seg_dpl e = 3 ∧ seg_type e = 0x1A) ∧
    (∃ e, descriptor s' (selector GDT_USER_DATA 3) = Ret e ∧
       seg_present e = true ∧ seg_dpl e = 3 ∧ seg_type e = 0x12) ∧
    (∃ low high, descriptor s' (tr s') = Ret low ∧ descriptor s' (tr s' + 8) = Ret high ∧
       seg_type low = GDT_A_TSS_BUSY ∧ tss_base low high = p ∧ seg_limit low = size) ∧
    tss_rsp (tss s') !! 0%nat = Some ti ∧ tss_ist (tss s') !! 0%nat = Some tf.
Proof.
  intros Hp Hs Hi Hf. erewrite init_ap_ok by done.
  destruct (tss_entries p size) as [low high] eqn:He. cbn [fst snd].
  eexists. split; [reflexivity|].
  unfold final_table, descriptor, slice_get. cbn -[new seg_base seg_limit seg_type seg_dpl seg_present seg_long].
  split_and!; [done|eexists; split; [reflexivity|done]..| |done|done].
  eexists _, _. split_and!; [reflexivity..| | |];
    revert He; unfold tss_entries;
    change (bits_or [GDT_A_PRESENT; GDT_A_RING_3; GDT_A_TSS_AVAIL]) with 233; intros [= <- <-].
  all: change (busy (new ?o ?l ?a ?f)) with (new o l (a + 2) f).
  all: assert (Hp32 : 0 ≤ as_u32 p < 2 ^ 32) by (unfold as_u32, truncate; mlia).
  - by rewrite seg_type_new by lia.
  - unfold tss_base. rewrite seg_base_new by lia. decode_entry. mlia.
  - rewrite seg_limit_new by lia. unfold as_u32, truncate. mlia.
Qed.

Definition stack_at (b : Z) : KernelStack :=
  mkKernelStack (Region.mkRegion (Regions.mkRegionInfo b (b + 0x4000)) 0 0x4000).

Lemma gdt_init_correct_witness :
  ∃ s', init_ap (mkSegments 0 [] 0 0 0 0 0 0 0 0 0 TSS) 0x5000 0x6000 104 (stack_at 0x10000) (stack_at 0x20000)
      = Ret s' ∧ fs_base s' = 0x5000 ∧ tss_ist (tss s') !! 0%nat = Some 0x24000.
Proof.
  destruct (gdt_init_correct (mkSegments 0 [] 0 0 0 0 0 0 0 0 0 TSS) 0x5000 0x6000 104
    (stack_at 0x10000) (stack_at 0x20000) 0x14000 0x24000 ltac:(lia) ltac:(lia) eq_refl eq_refl)
    as (s' & H1 & H2 & _ & _ & _ & _ & _ & H3).
  exact (ex_intro _ s' (conj H1 (conj H2 H3))).
Defined.

End Gdt.

(** ** The interrupt descriptor table *)

Module Idt.

Module IdtFlags.
Definition PRESENT : Z := Z.shiftl 1 7.
Definition RING_0 : Z := Z.shiftl 0 5.
Definition RING_1 : Z := Z.shiftl 1 5.
Definition RING_2 : Z := Z.shiftl 2 5.
Definition RING_3 : Z := Z.shiftl 3 5.
Definition SS : Z := Z.shiftl 1 4.
Definition INTERRUPT : Z := 0xE.
Definition TRAP : Z := 0xF.
End IdtFlags.

Record IdtEntry := mkIdtEntry {
  offsetl : Z; selector : Z; ist : Z; attribute : Z; offsetm : Z; offseth : Z; zero2 : Z }.

Definition new : IdtEntry := mkIdtEntry 0 0 0 0 0 0 0.
Definition set_flags (e : IdtEntry) (flags : Z) : IdtEntry :=
  mkIdtEntry (offsetl e) (selector e) (ist e) flags (offsetm e) (offseth e) (zero2 e).
Definition set_offset (e : IdtEntry) (sel base : Z) : IdtEntry :=
  mkIdtEntry (as_u16 base) sel (ist e) (attribute e) (as_u16 (Z.shiftr base 16))
    (as_u32 (Z.shiftr base 32)) (zero2 e).
Definition set_func (e : IdtEntry) (func : Z) : IdtEntry :=
  set_offset (set_flags e (Gdt.bits_or [IdtFlags.PRESENT; IdtFlags.RING_0; IdtFlags.INTERRUPT])) 8 func.
Definition set_ist (e : IdtEntry) (i : Z) : outcome IdtEntry :=
  assert_ (i <? 8);;
  Ret (mkIdtEntry (offsetl e) (selector e) (as_u8 (i + 1)) (attribute e) (offsetm e) (offseth e) (zero2 e)).

(** The handlers the table names. *)
Inductive handler :=
  | divide_by_zero | debug | non_maskable | breakpoint | overflow | bound_range | invalid_opcode
  | device_not_available | double_fault | invalid_tss | segment_not_present | stack_segment
  | protection | page | fpu_fault | alignment_check | machine_check | simd | virtualization
  | security | timer | tlb | ipi_timer | halt | spurious.

#[global] Instance handler_eq_dec : EqDecision handler.
Proof. solve_decision. Defined.

(** The statements of [init] that fill the table. *)
Inductive idt_op :=
  | SetFunc (v : nat) (h : handler) | SetIst (v : nat) (i : Z) | SetFlags (v : nat) (flags : Z).

#[global] Instance idt_op_eq_dec : EqDecision idt_op.
Proof. solve_decision. Defined.

Definition idt_program (is_bsp : bool) : list idt_op :=
  [SetFunc 0 divide_by_zero; SetFunc 1 debug; SetFunc 2 non_maskable; SetIst 2 0; SetFunc 3 breakpoint;
   SetFlags 3 (Gdt.bits_or [IdtFlags.PRESENT; IdtFlags.RING_3; IdtFlags.INTERRUPT]);
   SetFunc 4 overflow; SetFunc 5 bound_range; SetFunc 6 invalid_opcode; SetFunc 7 device_not_available;
   SetFunc 8 double_fault; SetIst 8 0; SetFunc 10 invalid_tss; SetFunc 11 segment_not_present;
   SetFunc 12 stack_segment; SetFunc 13 protection; SetFunc 14 page; SetIst 14 0; SetFunc 16 fpu_fault;
   SetFunc 17 alignment_check; SetFunc 18 machine_check; SetFunc 19 simd; SetFunc 20 virtualization;
   SetFunc 30 security] ++
  (if is_bsp then [SetFunc 32 timer] else []) ++
  [SetFunc 0xf0 tlb; SetFunc 0xfd ipi_timer; SetFunc 0xfe halt; SetFunc 0xff spurious].

Section table.
(** Where the linker put the handlers. *)
Context (address : handler → Z).

Definition run_op (op : idt_op) (t : list IdtEntry) : outcome (list IdtEntry) :=
  match op with
  | SetFunc v h =>
      e ← slice_get t (Z.of_nat v); slice_set t (Z.of_nat v) (set_func e (address h))
  | SetIst v i =>
      e ← slice_get t (Z.of_nat v); e' ← set_ist e i; slice_set t (Z.of_nat v) e'
  | SetFlags v flags =>
      e ← slice_get t (Z.of_nat v); slice_set t (Z.of_nat v) (set_flags e flags)
  end.

(** [Idt::new]. *)
Definition new_table : list IdtEntry := replicate 256 new.

(** [init]: the table and the limit that [lidt] loads. [check] is the flag of
    this CPU. *)
Definition init (check is_bsp : bool) : outcome (list IdtEntry * Z) :=
  assert_ (negb check);;
  n ← umul 256 16; limit ← usub n 1;
  t ← for_each run_op (idt_program is_bsp) new_table;
  Ret (t, as_u16 limit).

End table.

(** *** What the processor reads *)

Record Gate := mkGate { gate_offset : Z; gate_selector : Z; gate_ist : Z; gate_type : Z; gate_dpl : Z }.

(** A gate, when its present bit is set. *)
Definition decode (e : IdtEntry) : option Gate :=
  if attribute e / 2 ^ 7 mod 2 =? 1
  then Some (mkGate (offsetl e + offsetm e * 2 ^ 16 + offseth e * 2 ^ 32) (selector e)
               (ist e mod 8) (attribute e mod 16) (attribute e / 2 ^ 5 mod 4))
  else None.

(** *** The table [init] builds *)

(** The macro a handler is declared with: whether its stub expects the
    processor to have pushed an error code. *)
Inductive handler_kind := InterruptStackHandler | InterruptErrorHandler | InterruptHandler.

#[global] Instance handler_kind_eq_dec : EqDecision handler_kind.
Proof. solve_decision. Defined.

Definition kind (h : handler) : handler_kind :=
  match h with
  | double_fault | invalid_tss | segment_not_present | stack_segment | protection | page
  | alignment_check | security => InterruptErrorHandler
  | tlb | ipi_timer | halt | spurious => InterruptHandler
  | _ => InterruptStackHandler
  end.

(** The vectors for which the processor pushes an error code. *)
Definition pushes_error_code (v : nat) : bool :=
  bool_decide (v ∈ [8; 10; 11; 12; 13; 14; 17; 21; 29; 30]%nat).

(** What the vector table should say: the handler, the interrupt stack (0 for
    none) and the privilege level that may raise it with [int]. *)
Definition vector_spec (is_bsp : bool) (v : nat) : option (handler * Z * Z) :=
  match Z.of_nat v with
  | 0 => Some (divide_by_zero, 0, 0) | 1 => Some (debug, 0, 0) | 2 => Some (non_maskable, 1, 0)
  | 3 => Some (breakpoint, 0, 3) | 4 => Some (overflow, 0, 0) | 5 => Some (bound_range, 0, 0)
  | 6 => Some (invalid_opcode, 0, 0) | 7 => Some (device_not_available, 0, 0)
  | 8 => Some (double_fault, 1, 0) | 10 => Some (invalid_tss, 0, 0)
  | 11 => Some (segment_not_present, 0, 0) | 12 => Some (stack_segment, 0, 0)
  | 13 => Some (protection, 0, 0) | 14 => Some (page, 1, 0) | 16 => Some (fpu_fault, 0, 0)
  | 17 => Some (alignment_check, 0, 0) | 18 => Some (machine_check, 0, 0) | 19 => Some (simd, 0, 0)
  | 20 => Some (virtualization, 0, 0) | 30 => Some (security, 0, 0)
  | 32 => if is_bsp then Some (timer, 0, 0) else None
  | 240 => Some (tlb, 0, 0) | 253 => Some (ipi_timer, 0, 0) | 254 => Some (halt, 0, 0)
  | 255 => Some (spurious, 0, 0)
  | _ => None
  end.

Definition op_vector (op : idt_op) : nat :=
  match op with SetFunc v _ | SetIst v _ | SetFlags v _ => v end.

Section table_facts.
Context (address : handler → Z).

(** The effect of one statement on its own entry. *)
Definition entry_op (op : idt_op) (e : IdtEntry) : outcome IdtEntry :=
  match op with
  | SetFunc _ h => Ret (set_func e (address h))
  | SetIst _ i => set_ist e i
  | SetFlags _ flags => Ret (set_flags e flags)
  end.

Lemma run_op_entry op t e e' :
  t !! op_vector op = Some e → entry_op op e = Ret e' →
  run_op address op t = Ret (<[op_vector op := e']> t).
Proof.
  intros Ht He. destruct op as [v h|v i|v f]; cbn [op_vector] in Ht |- *;
    unfold run_op, slice_get, slice_set; rewrite !Nat2Z.id, Ht; cbn [mbind outcome_bind].
  - by injection He as <-.
  - cbn [entry_op] in He. rewrite He. done.
  - by injection He as <-.
Qed.

(** The statements that name a vector decide its entry. *)
Lemma program_entry ops t t' v e :
  for_each (run_op address) ops t = Ret t' → t !! v = Some e →
  ∃ e', for_each entry_op (filter (λ op, op_vector op = v) ops) e = Ret e' ∧ t' !! v = Some e'.
Proof.
  revert t e. induction ops as [|op ops IH]; intros t e Hrun Ht.
  { injection Hrun as <-. by exists e. }
  cbn [for_each] in Hrun. apply bind_Ret_inv in Hrun as (t1 & Hop & Hrun).
  assert (∃ e0 e1, t !! op_vector op = Some e0 ∧ entry_op op e0 = Ret e1 ∧ t1 = <[op_vector op := e1]> t)
    as (e0 & e1 & Ht0 & He1 & ->).
  { destruct op as [u h|u i|u f]; unfold run_op, slice_get, slice_set in Hop; cbn [op_vector];
      rewrite !Nat2Z.id in Hop; destruct (t !! u) as [e0|]; try done; cbn [mbind outcome_bind] in Hop.
    - injection Hop as <-. by eexists _, _.
    - apply bind_Ret_inv in Hop as (e1 & He1 & Hop). injection Hop as <-. by eexists _, _.
    - injection Hop as <-. by eexists _, _. }
  destruct (decide (op_vector op = v)) as [<-|Hne].
  - rewrite Ht in Ht0. injection Ht0 as <-.
    rewrite filter_cons_True by done. cbn [for_each]. rewrite He1. cbn [mbind outcome_bind].
    eapply IH; [done|]. apply list_lookup_insert_eq. by eapply lookup_lt_Some.
  - rewrite filter_cons_False by done. eapply IH; [done|]. by rewrite list_lookup_insert_ne.
Qed.

(** A program whose statements stay within the table, with interrupt stacks below 8, runs. *)
Lemma program_runs ops t :
  Forall (λ op, (op_vector op < length t)%nat ∧ match op with SetIst _ i => i < 8 | _ => True end) ops →
  ∃ t', for_each (run_op address) ops t = Ret t' ∧ length t' = length t.
Proof.
  revert t. induction ops as [|op ops IH]; intros t Hops; [by exists t|].
  apply Forall_cons in Hops as [[Hv Hi] Hops].
  destruct (lookup_lt_is_Some_2 _ _ Hv) as [e He].
  assert (∃ e', entry_op op e = Ret e') as [e' He'].
  { destruct op; [by eexists| |by eexists]. cbn. unfold set_ist. rewrite (proj2 (Z.ltb_lt _ _)) by done.
    by eexists. }
  cbn [for_each]. erewrite run_op_entry by done. cbn [mbind outcome_bind].
  destruct (IH (<[op_vector op := e']> t)) as (t' & Hrun & Hlen).
  { by rewrite length_insert. }
  exists t'. by rewrite length_insert in Hlen.
Qed.
End table_facts.

(** The statements a vector's specification calls for. *)
Definition ops_of (v : nat) (spec : option (handler * Z * Z)) : list idt_op :=
  match spec with
  | None => []
  | Some (h, i, d) =>
      SetFunc v h :: (if i =? 0 then [] else [SetIst v (i - 1)]) ++
      (if d =? 0 then [] else [SetFlags v (128 + 32 * d + 14)])
  end.

Definition spec_sane (spec : option (handler * Z * Z)) : bool :=
  match spec with None => true | Some (_, i, d) => (0 <=? i) && (i <? 8) && (0 <=? d) && (d <? 4) end.

Lemma program_ops is_bsp v :
  (v < 256)%nat →
  filter (λ op, op_vector op = v) (idt_program is_bsp) = ops_of v (vector_spec is_bsp v) ∧
  spec_sane (vector_spec is_bsp v) = true.
Proof.
  intros Hv.
  assert (Hall : forallb (λ v, bool_decide (filter (λ op, op_vector op = v) (idt_program is_bsp)
                     = ops_of v (vector_spec is_bsp v)) && spec_sane (vector_spec is_bsp v))
                   (seq 0 256) = true) by (destruct is_bsp; vm_compute; reflexivity).
  apply (checked_below _ _ _ Hall), andb_true_iff in Hv. by rewrite bool_decide_eq_true in Hv.
Qed.

Lemma decode_ops address v spec e' :
  (∀ h, 0 ≤ address h < 2 ^ 64) → spec_sane spec = true →
  for_each (entry_op address) (ops_of v spec) new = Ret e' →
  decode e' = (λ '(h, i, d), mkGate (address h) 8 i 0xE d) <$> spec.
Proof.
  intros Ha Hsane. destruct spec as [[[h i] d]|]; [|by intros [= <-]].
  unfold spec_sane in Hsane. rewrite !andb_true_iff, !Z.leb_le, !Z.ltb_lt in Hsane.
  unfold ops_of. destruct (Z.eqb_spec i 0) as [->|Hi], (Z.eqb_spec d 0) as [->|Hd];
    cbn [for_each app entry_op mbind outcome_bind]; unfold set_ist;
    try (rewrite (proj2 (Z.ltb_lt _ _)) by lia); cbn [assert_ mbind outcome_bind];
    intros [= <-]; cbn [fmap option_fmap option_map];
    unfold decode, set_func, set_flags, set_offset;
    cbn [attribute offsetl offsetm offseth selector ist];
    rewrite ?Z.shiftr_div_pow2 by lia; unfold as_u16, as_u32, as_u8, truncate;
    specialize (Ha h);
    try change (Gdt.bits_or _) with 142;
    rewrite (proj2 (Z.eqb_eq _ _)) by mlia; f_equal; f_equal; mlia.
Qed.

Lemma error_code_kinds is_bsp v h i d :
  vector_spec is_bsp v = Some (h, i, d) → (v < 256)%nat →
  kind h = InterruptErrorHandler ↔ pushes_error_code v = true.
Proof.
  intros Hspec Hv.
  assert (Hall : forallb (λ v, match vector_spec is_bsp v with
                               | Some (h, _, _) => eqb (bool_decide (kind h = InterruptErrorHandler))
                                                     (pushes_error_code v)
                               | None => true end) (seq 0 256) = true)
    by (destruct is_bsp; vm_compute; reflexivity).
  apply (checked_below _ _ _ Hall) in Hv. rewrite Hspec in Hv. apply eqb_prop in Hv.
  by rewrite <- Hv, bool_decide_eq_true.
Qed.

Lemma idt_init_ok address is_bsp :
  (∀ h, 0 ≤ address h < 2 ^ 64) →
  ∃ t, init address false is_bsp = Ret (t, 256 * 16 - 1) ∧ length t = 256%nat ∧
    ∀ v, (v < 256)%nat →
      (∃ e, t !! v = Some e ∧
        decode e = (λ '(h, i, d), mkGate (address h) 8 i 0xE d) <$> vector_spec is_bsp v) ∧
      (∀ h i d, vector_spec is_bsp v = Some (h, i, d) →
         (kind h = InterruptErrorHandler ↔ pushes_error_code v = true) ∧
         (i = 1 ↔ v ∈ [2; 8; 14]%nat) ∧ (d = 3 ↔ v = 3%nat)).
Proof.
  intros Ha.
  destruct (program_runs address (idt_program is_bsp) new_table) as (t & Hrun & Hlen).
  { apply Forall_forall. intros op Hop.
    assert (Hall : forallb (λ op, (op_vector op <? 256)%nat &&
              match op with SetIst _ i => i <? 8 | _ => true end) (idt_program is_bsp) = true)
      by (destruct is_bsp; vm_compute; reflexivity).
    rewrite forallb_forall in Hall. apply list_elem_of_In, Hall in Hop.
    apply andb_true_iff in Hop as [?%Nat.ltb_lt Hi]. split; [done|].
    destruct op; [done|by apply Z.ltb_lt|done]. }
  exists t. split_and!.
  - unfold init. cbn [negb assert_ mbind outcome_bind]. rewrite umul_ok by lia. cbn [mbind outcome_bind].
    rewrite usub_ok by lia. cbn [mbind outcome_bind]. by rewrite Hrun.
  - by rewrite Hlen.
  - intros v Hv. split.
    + assert (Hnew : new_table !! v = Some new) by (apply lookup_replicate; split; [done|lia]).
      destruct (program_entry _ _ _ _ _ _ Hrun Hnew) as (e & He & Ht).
      destruct (program_ops is_bsp v Hv) as [Hops Hsane]. rewrite Hops in He.
      exists e. split; [done|]. by eapply decode_ops.
    + intros h i d Hspec. split; [by eapply error_code_kinds|].
      assert (Hall : forallb (λ v, match vector_spec is_bsp v with
          | Some (_, i, d) => eqb (i =? 1) (bool_decide (v ∈ [2; 8; 14]%nat)) && eqb (d =? 3) (v =? 3)%nat
          | None => true end) (seq 0 256) = true) by (destruct is_bsp; vm_compute; reflexivity).
      apply (checked_below _ _ _ Hall) in Hv. rewrite Hspec in Hv.
      apply andb_true_iff in Hv as [H1%eqb_prop H2%eqb_prop].
      rewrite <- Z.eqb_eq, H1, bool_decide_eq_true, <- Z.eqb_eq, H2, Nat.eqb_eq. done.
Qed.

(** C35: the interrupt table [init] builds is the specified one: it never
    panics on a fresh CPU, all 256 gates are present exactly where
    [vector_spec] has a handler and lead to that handler's address through the
    kernel code segment with interrupts off, on the fault stack exactly for
    the non-maskable interrupt, the double fault and the page fault, and only
    the breakpoint can be raised from user mode; and every vector whose stub
    pops an error code is one for which the processor pushes one. *)
Theorem idt_init_correct address is_bsp :
  (∀ h, 0 ≤ address h < 2 ^ 64) →
  ∃ t, init address false is_bsp = Ret (t, 256 * 16 - 1) ∧ length t = 256%nat ∧
    ∀ v, (v < 256)%nat →
      (∃ e, t !! v = Some e ∧
        decode e = (λ '(h, i, d), mkGate (address h) 8 i 0xE d) <$> vector_spec is_bsp v) ∧
      (∀ h i d, vector_spec is_bsp v = Some (h, i, d) →
         (kind h = InterruptErrorHandler ↔ pushes_error_code v = true) ∧
         (i = 1 ↔ v ∈ [2; 8; 14]%nat) ∧ (d = 3 ↔ v = 3%nat)).
Proof. apply idt_init_ok. Qed.

Lemma idt_init_correct_witness :
  ∃ t e, init (λ _, 0x201000) false true = Ret (t, 4095) ∧ t !! 8%nat = Some e ∧
    decode e = Some (mkGate 0x201000 8 1 0xE 0).
Proof.
  destruct (idt_init_correct (λ _, 0x201000) true ltac:(intros; lia)) as (t & Hi & _ & Hv).
  destruct (Hv 8%nat ltac:(lia)) as [(e & He & Hd) _]. by exists t, e.
Defined.

(** [set_ist] accepts eight stacks but the table has seven: the eighth is
    stored as 8, which the processor's three-bit field reads as "no stack". *)
Lemma set_ist_eighth e :
  ∃ e', set_ist e 7 = Ret e' ∧ ist e' = 8 ∧ ist e' mod 8 = 0.
Proof. by eexists. Qed.

End Idt.
