(* ===== verification/Interrupts.v ===== *)
(** * Interrupt entry and exit (interrupts/interrupt_macros.rs)

    The assembly stubs the three macros [interrupt_stack!], [interrupt!] and
    [interrupt_error!] expand to, as lists of instructions run by a processor
    with general registers, segment registers ([Descriptors.Gdt]) and a memory
    of 64-bit words. The processor's own part (the frame it pushes when it
    takes a vector of the table of [Descriptors.Idt], and [iretq]) is written
    from the architecture, for interrupts that arrive in ring 0, where the
    whole kernel runs. The Rust function behind the stub is a parameter that
    keeps the calling convention. *)
From S2P Require Import Prelude RegionMapping Descriptors.

(** ** The processor *)

Inductive reg :=
  | rax | rbx | rcx | rdx | rsi | rdi | rbp | rsp
  | r8 | r9 | r10 | r11 | r12 | r13 | r14 | r15.

#[global] Instance reg_eq_dec : EqDecision reg.
Proof. solve_decision. Defined.

(** One CPU and the memory it sees. Stack addresses stay far from the ends of
    the address space, so their arithmetic is written without wrap-around. *)
Record Cpu := mkCpu {
  regs : reg → Z; rip : Z; rflags : Z; segs : Gdt.SegmentState; mem : Z → Z }.

Definition update {A} `{EqDecision A} (f : A → Z) (a : A) (v : Z) : A → Z :=
  λ b, if decide (a = b) then v else f b.

Definition set_reg (c : Cpu) (r : reg) (v : Z) : Cpu :=
  mkCpu (update (regs c) r v) (rip c) (rflags c) (segs c) (mem c).
Definition with_segs (c : Cpu) (s : Gdt.SegmentState) : Cpu :=
  mkCpu (regs c) (rip c) (rflags c) s (mem c).

Definition push (c : Cpu) (v : Z) : Cpu :=
  let a := regs c rsp - 8 in
  mkCpu (update (regs c) rsp a) (rip c) (rflags c) (segs c) (update (mem c) a v).
Definition top (c : Cpu) : Z := mem c (regs c rsp).
Definition drop_top (c : Cpu) : Cpu := set_reg c rsp (regs c rsp + 8).

Inductive instr :=
  | Push (r : reg) | Pop (r : reg) | PushFs | PopFs
  | MovImm (r : reg) (v : Z) | MovFs (r : reg) | Mov (d s : reg)
  | XchgTop (r : reg) | AddRsp (n : Z) | CallInner | Iretq.

(** The flags the processor clears when it enters an interrupt gate: trap,
    interrupt enable, nested task, resume and virtual-8086 mode. *)
Definition GATE_CLEARS : Z := 0x34300.

(** The frame the processor pushes for a gate, on the interrupt stack the gate
    names or on the current one, aligned to 16 bytes. *)
Definition deliver (g : Idt.Gate) (error : option Z) (c : Cpu) : outcome Cpu :=
  stack ← (if Idt.gate_ist g =? 0 then Ret (regs c rsp)
           else slice_get (Gdt.tss_ist (Gdt.tss (segs c))) (Idt.gate_ist g - 1));
  let old_rsp := regs c rsp in
  let c1 := set_reg c rsp (stack - stack mod 16) in
  let c2 := push (push (push (push (push c1 (Gdt.ss (segs c))) old_rsp) (rflags c)) (Gdt.cs (segs c))) (rip c) in
  let c3 := match error with Some e => push c2 e | None => c2 end in
  s ← Gdt.load_cs (segs c) (Idt.gate_selector g);
  Ret (mkCpu (regs c3) (Idt.gate_offset g) (Z.ldiff (rflags c) GATE_CLEARS) s (mem c3)).

(** [iretq], which in 64-bit mode always pops the stack pointer too. *)
Definition iretq (c : Cpu) : outcome Cpu :=
  let word i := mem c (regs c rsp + 8 * i) in
  s ← Gdt.load_cs (segs c) (word 1);
  s ← Gdt.load_ss s (word 4);
  Ret (mkCpu (update (regs c) rsp (word 3)) (word 0) (word 2) s (mem c)).

(** ** The macros *)

Definition push_scratch : list instr :=
  [Push rcx; Push rdx; Push rdi; Push rsi; Push r8; Push r9; Push r10; Push r11].
Definition pop_scratch : list instr :=
  [Pop r11; Pop r10; Pop r9; Pop r8; Pop rsi; Pop rdi; Pop rdx; Pop rcx; Pop rax].
Definition push_preserved : list instr :=
  [Push rbx; Push rbp; Push r12; Push r13; Push r14; Push r15].
Definition pop_preserved : list instr :=
  [Pop r15; Pop r14; Pop r13; Pop r12; Pop rbp; Pop rbx].
Definition push_fs : list instr := [PushFs; MovImm rcx 0x18; MovFs rcx].
Definition pop_fs : list instr := [PopFs].

Definition interrupt_stack : list instr :=
  [Push rax] ++ push_scratch ++ push_preserved ++ push_fs ++
  [Mov rdi rsp; CallInner] ++
  pop_fs ++ pop_preserved ++ pop_scratch ++ [Iretq].

Definition interrupt : list instr :=
  [Push rax] ++ push_scratch ++ push_fs ++ [CallInner] ++ pop_fs ++ pop_scratch ++ [Iretq].

Definition interrupt_error : list instr :=
  [XchgTop rax] ++ push_scratch ++ push_preserved ++ push_fs ++
  [Push rax; Mov rdi rsp; CallInner; AddRsp 8] ++
  pop_fs ++ pop_preserved ++ pop_scratch ++ [Iretq].

(** ** The frames the inner functions are given *)

Record ScratchRegisters := mkScratch {
  s_r11 : Z; s_r10 : Z; s_r9 : Z; s_r8 : Z; s_rsi : Z; s_rdi : Z; s_rdx : Z; s_rcx : Z; s_rax : Z }.
Record PreservedRegisters := mkPreserved {
  p_r15 : Z; p_r14 : Z; p_r13 : Z; p_r12 : Z; p_rbp : Z; p_rbx : Z }.
Record IretRegisters := mkIret { i_rip : Z; i_cs : Z; i_rflags : Z; i_rsp : Z; i_ss : Z }.
Record InterruptStack := mkInterruptStack {
  st_fs : Z; st_preserved : PreservedRegisters; st_scratch : ScratchRegisters; st_iret : IretRegisters }.
Record InterruptErrorStack := mkInterruptErrorStack { code : Z; inner_stack : InterruptStack }.

(** The packed structures as they lie at an address, field after field. *)
Section layout.
Context (m : Z → Z).
Definition read_preserved (p : Z) : PreservedRegisters :=
  mkPreserved (m p) (m (p + 8)) (m (p + 16)) (m (p + 24)) (m (p + 32)) (m (p + 40)).
Definition read_scratch (p : Z) : ScratchRegisters :=
  mkScratch (m p) (m (p + 8)) (m (p + 16)) (m (p + 24)) (m (p + 32)) (m (p + 40)) (m (p + 48))
    (m (p + 56)) (m (p + 64)).
Definition read_iret (p : Z) : IretRegisters :=
  mkIret (m p) (m (p + 8)) (m (p + 16)) (m (p + 24)) (m (p + 32)).
Definition read_stack (p : Z) : InterruptStack :=
  mkInterruptStack (m p) (read_preserved (p + 8)) (read_scratch (p + 56)) (read_iret (p + 128)).
Definition read_error_stack (p : Z) : InterruptErrorStack :=
  mkInterruptErrorStack (m p) (read_stack (p + 8)).
End layout.

(** The context an interrupt arrives in, as the structure should present it. *)
Definition context (c : Cpu) : InterruptStack :=
  let r := regs c in
  mkInterruptStack (Gdt.fs (segs c))
    (mkPreserved (r r15) (r r14) (r r13) (r r12) (r rbp) (r rbx))
    (mkScratch (r r11) (r r10) (r r9) (r r8) (r rsi) (r rdi) (r rdx) (r rcx) (r rax))
    (mkIret (rip c) (Gdt.cs (segs c)) (rflags c) (r rsp) (Gdt.ss (segs c))).

(** ** Running a stub *)

Section run.
(** The effect of [call __interrupt_..], from the call to the return. *)
Context (inner : Cpu → outcome Cpu).

Definition exec (i : instr) (c : Cpu) : outcome Cpu :=
  match i with
  | Push r => Ret (push c (regs c r))
  | Pop r => Ret (set_reg (drop_top c) r (top c))
  | PushFs => Ret (push c (Gdt.fs (segs c)))
  | PopFs => s ← Gdt.load_fs (segs c) (as_u16 (top c)); Ret (with_segs (drop_top c) s)
  | MovImm r v => Ret (set_reg c r v)
  | MovFs r => s ← Gdt.load_fs (segs c) (as_u16 (regs c r)); Ret (with_segs c s)
  | Mov d s => Ret (set_reg c d (regs c s))
  | XchgTop r =>
      Ret (mkCpu (update (regs c) r (top c)) (rip c) (rflags c) (segs c)
             (update (mem c) (regs c rsp) (regs c r)))
  | AddRsp n => Ret (set_reg c rsp (regs c rsp + n))
  | CallInner => inner c
  | Iretq => iretq c
  end.

Definition take_interrupt (g : Idt.Gate) (error : option Z) (stub : list instr) (c : Cpu) : outcome Cpu :=
  c1 ← deliver g error c; for_each exec stub c1.

End run.

(** The stub a handler of each kind gets. *)
Definition stub_of (k : Idt.handler_kind) : list instr :=
  match k with
  | Idt.InterruptStackHandler => interrupt_stack
  | Idt.InterruptErrorHandler => interrupt_error
  | Idt.InterruptHandler => interrupt
  end.

(** Membership in a concrete list of registers, by evaluation. *)
Ltac by_decide := apply (bool_decide_unpack _); vm_compute; exact I.
Ltac by_not_in H := intros ?; subst; revert H; by_decide.

(** ** Words on the stack *)

Section facts.
Context (inner : Cpu → outcome Cpu).
Abbreviation run := (for_each (exec inner)).

Lemma update_eq {A} `{EqDecision A} (f : A → Z) a v : update f a v a = v.
Proof. unfold update. by rewrite decide_True. Qed.
Lemma update_ne {A} `{EqDecision A} (f : A → Z) a b v : a ≠ b → update f a v b = f b.
Proof. intros. unfold update. by rewrite decide_False. Qed.

(** [vs] lies on top of the stack. *)
Definition stacked (c : Cpu) (vs : list Z) : Prop :=
  ∀ (i : nat) v, vs !! i = Some v → mem c (regs c rsp + 8 * Z.of_nat i) = v.

(** The registers other than the stack pointer, and the rest of the state, agree. *)
Definition same_but_stack (c c' : Cpu) : Prop :=
  (∀ r, r ≠ rsp → regs c' r = regs c r) ∧ rip c' = rip c ∧ rflags c' = rflags c ∧ segs c' = segs c.

Lemma push_same c v : same_but_stack c (push c v).
Proof. split_and!; [|done..]. intros r Hr. cbn. by rewrite update_ne. Qed.

Lemma push_rsp c v : regs (push c v) rsp = regs c rsp - 8.
Proof. cbn. by rewrite update_eq. Qed.

Lemma stacked_push c v vs : stacked c vs → stacked (push c v) (v :: vs).
Proof.
  intros Hs i w Hi. rewrite push_rsp. cbn [mem push].
  destruct i as [|i]; cbn in Hi.
  - injection Hi as <-. rewrite Z.mul_0_r, Z.add_0_r. apply update_eq.
  - rewrite update_ne by lia. rewrite <- (Hs i w Hi). f_equal. lia.
Qed.

Lemma stacked_top c v vs : stacked c (v :: vs) → top c = v.
Proof. intros Hs. unfold top. rewrite <- (Hs 0%nat v eq_refl). f_equal. lia. Qed.

Lemma stacked_drop c v vs : stacked c (v :: vs) → stacked (drop_top c) vs.
Proof.
  intros Hs i w Hi. unfold drop_top, set_reg. cbn [regs mem]. rewrite update_eq.
  rewrite <- (Hs (Datatypes.S i) w Hi). f_equal. lia.
Qed.

Lemma stacked_set_reg c r v vs : r ≠ rsp → stacked c vs → stacked (set_reg c r v) vs.
Proof. intros Hr Hs i w Hi. cbn. rewrite update_ne by done. by apply Hs. Qed.

Lemma same_but_stack_trans c1 c2 c3 :
  same_but_stack c1 c2 → same_but_stack c2 c3 → same_but_stack c1 c3.
Proof.
  intros (H1 & H2 & H3 & H4) (K1 & K2 & K3 & K4). split_and!; [|congruence..].
  intros r Hr. rewrite K1, H1; done.
Qed.

(** A run of pushes leaves the registers on the stack, last one on top. *)
Lemma run_pushes rs c vs :
  rsp ∉ rs → stacked c vs →
  ∃ c', run (Push <$> rs) c = Ret c' ∧ same_but_stack c c' ∧
    stacked c' (reverse (regs c <$> rs) ++ vs).
Proof.
  revert c vs. induction rs as [|r rs IH]; intros c vs Hrs Hs.
  { exists c. by repeat split. }
  apply not_elem_of_cons in Hrs as [Hr Hrs].
  destruct (IH (push c (regs c r)) (regs c r :: vs)) as (c' & Hrun & Hsame & Hs'); [done|by apply stacked_push|].
  exists c'. split_and!.
  - cbn. exact Hrun.
  - eapply same_but_stack_trans; [apply push_same|done].
  - rewrite fmap_cons, reverse_cons, <- app_assoc. cbn [app].
    replace (regs c <$> rs) with (regs (push c (regs c r)) <$> rs); [done|].
    apply list_fmap_ext. intros i r' Hr'. apply (push_same c). intros ->.
    by apply Hrs, (list_elem_of_lookup_2 _ _ _ Hr').
Qed.

(** A run of pops fills the registers from the stack. *)
Lemma run_pops rs c vals vs :
  rsp ∉ rs → NoDup rs → length vals = length rs → stacked c (vals ++ vs) →
  ∃ c', run (Pop <$> rs) c = Ret c' ∧ stacked c' vs ∧ regs c' <$> rs = vals ∧
    (∀ r, r ∉ rs → r ≠ rsp → regs c' r = regs c r) ∧
    rip c' = rip c ∧ rflags c' = rflags c ∧ segs c' = segs c.
Proof.
  revert c vals. induction rs as [|r rs IH]; intros c vals Hrs Hnd Hlen Hs.
  { destruct vals; [|done]. exists c. by repeat split. }
  destruct vals as [|v vals]; [done|]. injection Hlen as Hlen.
  apply not_elem_of_cons in Hrs as [Hr Hrs]. apply NoDup_cons in Hnd as [Hr' Hnd].
  destruct (IH (set_reg (drop_top c) r (top c)) vals) as (c' & Hrun & Hs' & Hv & Hk & Hrest); [done..| |].
  { apply stacked_set_reg; [done|]. by eapply stacked_drop. }
  exists c'. split_and!.
  - exact Hrun.
  - done.
  - cbn. rewrite Hv, Hk by done. cbn. rewrite update_eq. f_equal. by eapply stacked_top.
  - intros s [Hs1 Hs2]%not_elem_of_cons Hs3. rewrite Hk by done.
    cbn. by rewrite !update_ne by done.
  - apply Hrest.
  - apply Hrest.
  - apply Hrest.
Qed.

(** ** Segment registers of the running kernel *)

(** The processor runs kernel code with the descriptor table of [Gdt.init_ap]. *)
Record ring0 (s : Gdt.SegmentState) : Prop := mkRing0 {
  r0_code : Gdt.table s !! 1%nat = Some Gdt.kernel_code;
  r0_data : Gdt.table s !! 2%nat = Some Gdt.kernel_data;
  r0_tls : Gdt.table s !! 3%nat = Some Gdt.kernel_data;
  r0_limit : 31 ≤ Gdt.gdtr_limit s;
  r0_cs : Gdt.cs s = 8;
  r0_ss : Gdt.ss s = 16;
  r0_fs : Gdt.fs s = 16 ∨ Gdt.fs s = 24 }.

(** The state after a load of [fs]: the base is that of a flat descriptor. *)
Definition with_fs (s : Gdt.SegmentState) (sel : Z) : Gdt.SegmentState :=
  Gdt.mkSegments (Gdt.gdtr_limit s) (Gdt.table s) (Gdt.cs s) (Gdt.ds s) (Gdt.es s) sel (Gdt.gs s)
    (Gdt.ss s) 0 (Gdt.gs_base s) (Gdt.tr s) (Gdt.tss s).

Lemma ring0_with_fs s sel : ring0 s → sel = 16 ∨ sel = 24 → ring0 (with_fs s sel).
Proof. intros [] Hsel. by constructor. Qed.

Lemma load_fs_ring0 s sel : ring0 s → sel = 16 ∨ sel = 24 → Gdt.load_fs s (as_u16 sel) = Ret (with_fs s sel).
Proof.
  intros Hs Hsel. unfold Gdt.load_fs, Gdt.loaded_base.
  assert (Gdt.descriptor s sel = Ret Gdt.kernel_data) as Hd.
  { apply Gdt.descriptor_ok; destruct Hs, Hsel as [-> | ->]; done || mlia. }
  assert (as_u16 sel = sel) as -> by by destruct Hsel as [-> | ->].
  assert ((sel / 4 =? 0) = false) as -> by by destruct Hsel as [-> | ->].
  by rewrite Hd.
Qed.

Lemma load_cs_ring0 s : ring0 s → Gdt.load_cs s 8 = Ret s.
Proof.
  intros []. unfold Gdt.load_cs. erewrite Gdt.descriptor_ok; [|mlia|done].
  rewrite bind_bind_Ret. change (_ && _) with true. cbv iota. destruct s; cbn in *. by subst.
Qed.

Lemma load_ss_ring0 s : ring0 s → Gdt.load_ss s 16 = Ret s.
Proof.
  intros []. unfold Gdt.load_ss. erewrite Gdt.descriptor_ok; [|mlia|done].
  rewrite bind_bind_Ret. change (assert_ _) with (Ret ()). rewrite bind_bind_Ret.
  destruct s; cbn in *. by subst.
Qed.

(** ** Prologue and epilogue *)

Lemma run_prologue rs c frame :
  rsp ∉ rs → ring0 (segs c) → stacked c frame →
  ∃ c', run ((Push <$> rs) ++ push_fs) c = Ret c' ∧
    stacked c' (Gdt.fs (segs c) :: reverse (regs c <$> rs) ++ frame) ∧
    (∀ r, r ≠ rsp → r ≠ rcx → regs c' r = regs c r) ∧ segs c' = with_fs (segs c) 24.
Proof.
  intros Hrs H0 Hs. destruct (run_pushes rs c frame Hrs Hs) as (c1 & Hrun & Hsame & Hs1).
  destruct Hsame as (Hregs & _ & _ & Hsegs).
  rewrite for_each_app, Hrun. cbn -[Gdt.load_fs as_u16]. rewrite update_eq, Hsegs, (load_fs_ring0 _ 24) by auto.
  eexists. split; [reflexivity|]. split_and!.
  - apply (stacked_set_reg (push c1 (Gdt.fs (segs c))) rcx 24); [done|]. by apply stacked_push.
  - intros r Hr1 Hr2. cbn. rewrite !update_ne by done. by apply Hregs.
  - done.
Qed.

Lemma run_epilogue rs c fsv vals rip' fl' rsp' :
  rsp ∉ rs → NoDup rs → length vals = length rs → ring0 (segs c) → fsv = 16 ∨ fsv = 24 →
  stacked c (fsv :: vals ++ [rip'; 8; fl'; rsp'; 16]) →
  ∃ c', run (pop_fs ++ (Pop <$> rs) ++ [Iretq]) c = Ret c' ∧
    regs c' <$> rs = vals ∧ regs c' rsp = rsp' ∧
    (∀ r, r ∉ rs → r ≠ rsp → regs c' r = regs c r) ∧
    rip c' = rip' ∧ rflags c' = fl' ∧ segs c' = with_fs (segs c) fsv.
Proof.
  intros Hrs Hnd Hlen H0 Hfs Hs.
  rewrite for_each_app. cbn [for_each pop_fs exec]. rewrite (stacked_top _ _ _ Hs), load_fs_ring0 by done.
  rewrite !bind_bind_Ret.
  destruct (run_pops rs (with_segs (drop_top c) (with_fs (segs c) fsv)) vals [rip'; 8; fl'; rsp'; 16])
    as (c1 & Hrun & Hs1 & Hvals & Hkeep & _ & _ & Hsegs); [done..|by eapply stacked_drop|].
  rewrite for_each_app, Hrun, bind_bind_Ret. cbn [for_each exec]. unfold iretq.
  rewrite (Hs1 0%nat _ eq_refl : mem c1 (regs c1 rsp + 8 * 0) = _),
    (Hs1 1%nat _ eq_refl : mem c1 (regs c1 rsp + 8 * 1) = _),
    (Hs1 2%nat _ eq_refl : mem c1 (regs c1 rsp + 8 * 2) = _),
    (Hs1 3%nat _ eq_refl : mem c1 (regs c1 rsp + 8 * 3) = _),
    (Hs1 4%nat _ eq_refl : mem c1 (regs c1 rsp + 8 * 4) = _), Hsegs.
  cbn [with_segs segs]. rewrite load_cs_ring0, bind_bind_Ret, load_ss_ring0, !bind_bind_Ret
    by by apply ring0_with_fs.
  eexists. split; [reflexivity|]. cbn [regs rip rflags segs]. split_and!; try done.
  - rewrite <- Hvals. apply list_fmap_ext. intros i r Hr. rewrite update_ne; [done|]. intros <-.
    by apply Hrs, (list_elem_of_lookup_2 _ _ _ Hr).
  - intros r Hr1 Hr2. rewrite update_ne, Hkeep by done. cbn. by rewrite update_ne.
Qed.

(** ** Taking an interrupt *)

(** The calling convention, for the functions behind the stubs: on return the
    stack pointer and the callee-saved registers are as before, the segment
    registers have not been touched, and the words the stub keeps on the stack
    are still there. *)
Definition callee_saved : list reg := [rsp; rbx; rbp; r12; r13; r14; r15].

Definition keeps_convention : Prop :=
  ∀ c c', inner c = Ret c' →
    (∀ r, r ∈ callee_saved → regs c' r = regs c r) ∧ segs c' = segs c ∧
    (∀ i, 0 ≤ i < 22 → mem c' (regs c rsp + 8 * i) = mem c (regs c rsp + 8 * i)).

Lemma convention_stacked c c' vs :
  keeps_convention → inner c = Ret c' → (length vs ≤ 22)%nat → stacked c vs → stacked c' vs.
Proof.
  intros Habi Hin Hlen Hs i v Hi. destruct (Habi c c' Hin) as (Hr & _ & Hm).
  rewrite (Hr rsp) by set_solver. rewrite Hm; [by apply Hs|].
  apply lookup_lt_Some in Hi. lia.
Qed.

(** What the processor leaves on the stack for a handler in the kernel. *)
Definition frame (c : Cpu) : list Z := [rip c; 8; rflags c; regs c rsp; 16].

(** A gate of the table, for a kernel that has its interrupt stacks. *)
Definition gate_ok (g : Idt.Gate) (s : Gdt.SegmentState) : Prop :=
  Idt.gate_selector g = 8 ∧
  (Idt.gate_ist g = 0 ∨ 1 ≤ Idt.gate_ist g ∧ is_Some (Gdt.tss_ist (Gdt.tss s) !! Z.to_nat (Idt.gate_ist g - 1))).

Lemma deliver_ok g error c :
  ring0 (segs c) → gate_ok g (segs c) →
  ∃ c1, deliver g error c = Ret c1 ∧ segs c1 = segs c ∧
    (∀ r, r ≠ rsp → regs c1 r = regs c r) ∧
    stacked c1 ((match error with Some e => [e] | None => [] end) ++ frame c).
Proof.
  intros H0 [Hsel Hist]. unfold deliver.
  assert (∃ st, (if Idt.gate_ist g =? 0 then Ret (regs c rsp)
           else slice_get (Gdt.tss_ist (Gdt.tss (segs c))) (Idt.gate_ist g - 1)) = Ret st) as [st ->].
  { destruct (Z.eqb_spec (Idt.gate_ist g) 0); [by eexists|].
    destruct Hist as [?|[_ [st Hst]]]; [done|]. unfold slice_get. rewrite Hst. by eexists. }
  rewrite bind_bind_Ret, Hsel, load_cs_ring0, bind_bind_Ret by done.
  rewrite (r0_cs _ H0), (r0_ss _ H0).
  eexists. split; [reflexivity|]. cbn [segs regs mem].
  set (c1 := set_reg c rsp (st - st mod 16)).
  set (c2 := push (push (push (push (push c1 16) (regs c rsp)) (rflags c)) 8) (rip c)).
  assert (Hs2 : stacked c2 (frame c)).
  { repeat apply stacked_push. by intros [|i] v. }
  assert (Hr2 : ∀ r, r ≠ rsp → regs c2 r = regs c r).
  { intros r Hr. unfold c2. do 5 (etransitivity; [by apply push_same|]). cbn. by rewrite update_ne. }
  split; [done|]. split.
  - intros r Hr. destruct error; [|by apply Hr2]. etransitivity; [by apply push_same|]. by apply Hr2.
  - destruct error; [|exact Hs2]. exact (stacked_push _ _ _ Hs2).
Qed.

(** The interrupted code goes on as if nothing had happened (but see
    [interrupt_loses_thread_base] for the base of [fs]). *)
Definition resumed (c c' : Cpu) : Prop :=
  (∀ r, regs c' r = regs c r) ∧ rip c' = rip c ∧ rflags c' = rflags c ∧
  segs c' = with_fs (segs c) (Gdt.fs (segs c)).

(** From the call of the inner function to [iretq]. [extra] is the error code
    below the frame, if there is one. *)
Lemma call_and_resume rs c c1 (extra : list Z) vals :
  keeps_convention → ring0 (segs c) → segs c1 = with_fs (segs c) 24 →
  rsp ∉ rs → NoDup rs → length vals = length rs → (length rs ≤ 15)%nat → (length extra ≤ 1)%nat →
  stacked c1 (extra ++ Gdt.fs (segs c) :: vals ++ frame c) →
  (∀ c2, inner c1 = Ret c2 → ∀ r, r ≠ rsp → regs c2 r = regs c r ∨ r ∈ rs) →
  vals = regs c <$> rs →
  let post := (if decide (extra = []) then [] else [AddRsp 8]) ++ pop_fs ++ (Pop <$> rs) ++ [Iretq] in
  match inner c1 with
  | Ret _ => ∃ c', run (CallInner :: post) c1 = Ret c' ∧ resumed c c'
  | Panic w => run (CallInner :: post) c1 = Panic w
  | Hang => run (CallInner :: post) c1 = Hang
  end.
Proof.
  intros Habi H0 Hsegs Hrs Hnd Hlen H15 H1 Hs Hkeep Hvals post.
  cbn [for_each exec]. destruct (inner c1) as [c2|w|] eqn:Hin; [|done..].
  rewrite bind_bind_Ret. pose proof (Habi _ _ Hin) as (_ & Hseg2 & _).
  eapply convention_stacked in Hs; [|done..|cbn; rewrite !length_app; cbn; rewrite length_app; cbn; lia].
  assert (∃ c3, run post c2 = run (pop_fs ++ (Pop <$> rs) ++ [Iretq]) c3 ∧
     stacked c3 (Gdt.fs (segs c) :: vals ++ frame c) ∧ segs c3 = segs c2 ∧
     ∀ r, r ≠ rsp → regs c3 r = regs c2 r) as (c3 & Hpost & Hs3 & Hseg3 & Hr3).
  { unfold post. destruct extra as [|e [|]]; [| |cbn in H1; lia].
    - exists c2. by rewrite decide_True.
    - exists (drop_top c2). rewrite decide_False by done. split; [done|]. split; [by eapply stacked_drop|].
      split; [done|]. intros r Hr. cbn. by rewrite update_ne. }
  rewrite Hpost. assert (ring0 (segs c3)) as H03.
  { rewrite Hseg3, Hseg2, Hsegs. apply ring0_with_fs; auto. }
  destruct (run_epilogue rs c3 (Gdt.fs (segs c)) vals (rip c) (rflags c) (regs c rsp))
    as (c' & Hrun & Hv & Hsp & Hk & Hip & Hfl & Hseg); [done..|apply H0|done|].
  exists c'. split; [done|]. split; [|split_and!; [done..|]].
  - intros r. destruct (decide (r = rsp)) as [->|Hr]; [done|].
    destruct (decide (r ∈ rs)) as [Hin'|Hnin].
    + apply list_elem_of_lookup_1 in Hin' as [i Hi].
      rewrite Hvals in Hv. apply (f_equal (.!! i)) in Hv.
      rewrite !list_lookup_fmap, Hi in Hv. by injection Hv.
    + rewrite Hk, Hr3 by done. by destruct (Hkeep _ eq_refl r Hr).
  - rewrite Hseg, Hseg3, Hseg2, Hsegs. done.
Qed.

Definition scratch_popped : list reg := [r11; r10; r9; r8; rsi; rdi; rdx; rcx; rax].
Definition preserved_popped : list reg := [r15; r14; r13; r12; rbp; rbx].
Abbreviation all_popped := (preserved_popped ++ scratch_popped).

Lemma read_stack_stacked c c1 p (extra : list Z) :
  ring0 (segs c) → p = regs c1 rsp + 8 * Z.of_nat (length extra) →
  stacked c1 (extra ++ Gdt.fs (segs c) :: (regs c <$> all_popped) ++ frame c) →
  read_stack (mem c1) p = context c.
Proof.
  intros H0 Hp Hs.
  assert (Hw : ∀ (i : nat) v d,
      (Gdt.fs (segs c) :: (regs c <$> all_popped) ++ frame c) !! i = Some v → d = 8 * Z.of_nat i →
      mem c1 (p + d) = v).
  { intros i v d Hi ->. rewrite Hp. rewrite <- (Hs (length extra + i)%nat v); [f_equal; lia|].
    rewrite lookup_app_r by lia. rewrite <- Hi. f_equal. lia. }
  unfold read_stack, read_preserved, read_scratch, read_iret, context.
  rewrite (r0_cs _ H0), (r0_ss _ H0), <- !Z.add_assoc.
  rewrite (Hw 1%nat _ 8 eq_refl eq_refl), (Hw 2%nat _ (8 + 8) eq_refl eq_refl), (Hw 3%nat _ (8 + 16) eq_refl eq_refl),
    (Hw 4%nat _ (8 + 24) eq_refl eq_refl), (Hw 5%nat _ (8 + 32) eq_refl eq_refl), (Hw 6%nat _ (8 + 40) eq_refl eq_refl),
    (Hw 7%nat _ 56 eq_refl eq_refl), (Hw 8%nat _ (56 + 8) eq_refl eq_refl), (Hw 9%nat _ (56 + 16) eq_refl eq_refl),
    (Hw 10%nat _ (56 + 24) eq_refl eq_refl), (Hw 11%nat _ (56 + 32) eq_refl eq_refl), (Hw 12%nat _ (56 + 40) eq_refl eq_refl),
    (Hw 13%nat _ (56 + 48) eq_refl eq_refl), (Hw 14%nat _ (56 + 56) eq_refl eq_refl), (Hw 15%nat _ (56 + 64) eq_refl eq_refl),
    (Hw 16%nat _ 128 eq_refl eq_refl), (Hw 17%nat _ (128 + 8) eq_refl eq_refl), (Hw 18%nat _ (128 + 16) eq_refl eq_refl),
    (Hw 19%nat _ (128 + 24) eq_refl eq_refl), (Hw 20%nat _ (128 + 32) eq_refl eq_refl).
  pose proof (Hw 0%nat _ 0 eq_refl eq_refl) as Hw0. rewrite Z.add_0_r in Hw0. by rewrite Hw0.
Qed.

(** What the function behind a stub of each kind is given in [rdi]. *)
Definition sees (k : Idt.handler_kind) (error : option Z) (c c1 : Cpu) : Prop :=
  match k, error with
  | Idt.InterruptStackHandler, _ => read_stack (mem c1) (regs c1 rdi) = context c
  | Idt.InterruptErrorHandler, Some e =>
      read_error_stack (mem c1) (regs c1 rdi) = mkInterruptErrorStack e (context c)
  | Idt.InterruptErrorHandler, None => False
  | Idt.InterruptHandler, _ => True
  end.

(** The outcome of a stub, given that of the function behind it. *)
Definition follows (c c1 : Cpu) (o : outcome Cpu) : Prop :=
  match inner c1 with
  | Ret _ => ∃ c', o = Ret c' ∧ resumed c c'
  | Panic w => o = Panic w
  | Hang => o = Hang
  end.

Section one_interrupt.
Context (g : Idt.Gate) (c : Cpu).
Context (Habi : keeps_convention) (H0 : ring0 (segs c)) (Hg : gate_ok g (segs c)).

Lemma regs_fmap_ext c1 c2 (rs : list reg) :
  (∀ r, r ∈ rs → regs c1 r = regs c2 r) → regs c1 <$> rs = regs c2 <$> rs.
Proof using. intros He. apply list_fmap_ext. intros i r Hr. by apply He, (list_elem_of_lookup_2 _ _ _ Hr). Qed.

Lemma interrupt_stack_ok :
  ∃ c1, sees Idt.InterruptStackHandler None c c1 ∧
    follows c c1 (take_interrupt inner g None interrupt_stack c).
Proof using Habi H0 Hg.
  destruct (deliver_ok g None c H0 Hg) as (c0 & Hdel & Hsegs & Hregs & Hs). cbn [app] in Hs.
  set (rs := [rax; rcx; rdx; rdi; rsi; r8; r9; r10; r11; rbx; rbp; r12; r13; r14; r15]).
  destruct (run_prologue rs c0 (frame c)) as (c1 & Hrun & Hs1 & Hr1 & Hsegs1);
    [by_decide|by rewrite Hsegs|done|].
  assert (Hvals : reverse (regs c0 <$> rs) = regs c <$> all_popped).
  { rewrite (regs_fmap_ext c0 c) by (intros r Hr; apply Hregs; by_not_in Hr). done. }
  rewrite Hvals, Hsegs in *.
  exists (set_reg c1 rdi (regs c1 rsp)).
  assert (Hs2 : stacked (set_reg c1 rdi (regs c1 rsp))
            ([] ++ Gdt.fs (segs c) :: (regs c <$> all_popped) ++ frame c)) by by apply stacked_set_reg.
  split.
  { cbn [sees]. eapply (read_stack_stacked c _ _ []); [done| |exact Hs2].
    cbn. rewrite !update_eq, update_ne by done. lia. }
  unfold take_interrupt. rewrite Hdel, bind_bind_Ret.
  change interrupt_stack with (((Push <$> rs) ++ push_fs) ++ Mov rdi rsp :: CallInner ::
    (if decide (([] : list Z) = []) then [] else [AddRsp 8]) ++ pop_fs ++ (Pop <$> all_popped) ++ [Iretq]).
  rewrite for_each_app, Hrun, bind_bind_Ret.
  apply (call_and_resume all_popped c (set_reg c1 rdi (regs c1 rsp)) [] (regs c <$> all_popped)); try done; try by_decide; try (cbn; lia).
  - intros c2 _ r Hr. right. destruct r; first [done | by_decide].
Qed.

Lemma interrupt_error_ok e :
  ∃ c1, sees Idt.InterruptErrorHandler (Some e) c c1 ∧
    follows c c1 (take_interrupt inner g (Some e) interrupt_error c).
Proof using Habi H0 Hg.
  destruct (deliver_ok g (Some e) c H0 Hg) as (c0 & Hdel & Hsegs & Hregs & Hs). cbn [app] in Hs.
  set (c0' := mkCpu (update (regs c0) rax (top c0)) (rip c0) (rflags c0) (segs c0)
             (update (mem c0) (regs c0 rsp) (regs c0 rax))).
  assert (Hs0 : stacked c0' (regs c rax :: frame c)).
  { intros i v Hi. unfold c0'. cbn [mem regs]. rewrite (update_ne (regs c0)) by done.
    destruct i as [|i]; cbn in Hi.
    - injection Hi as <-. rewrite Z.mul_0_r, Z.add_0_r, update_eq. by apply Hregs.
    - rewrite update_ne by lia. by apply (Hs (Datatypes.S i)). }
  set (rs := [rcx; rdx; rdi; rsi; r8; r9; r10; r11; rbx; rbp; r12; r13; r14; r15]).
  destruct (run_prologue rs c0' (regs c rax :: frame c)) as (c1 & Hrun & Hs1 & Hr1 & Hsegs1);
    [by_decide|by cbn; rewrite Hsegs|done|].
  assert (Hvals : reverse (regs c0' <$> rs) ++ regs c rax :: frame c = (regs c <$> all_popped) ++ frame c).
  { rewrite (regs_fmap_ext c0' c); [done|]. intros r Hr. cbn.
    rewrite update_ne by by_not_in Hr. apply Hregs. by_not_in Hr. }
  assert (Hcode : regs c1 rax = e).
  { rewrite Hr1 by done. cbn. rewrite update_eq. by eapply stacked_top. }
  rewrite Hvals in Hs1. cbn [segs c0'] in Hs1, Hsegs1. rewrite Hsegs in Hs1, Hsegs1.
  set (c2 := set_reg (push c1 (regs c1 rax)) rdi (regs (push c1 (regs c1 rax)) rsp)).
  assert (Hs2 : stacked c2 ([e] ++ Gdt.fs (segs c) :: (regs c <$> all_popped) ++ frame c)).
  { apply stacked_set_reg; [done|]. cbn [app]. rewrite Hcode. by apply stacked_push. }
  exists c2. split.
  { cbn [sees]. unfold read_error_stack.
    assert (regs c2 rdi = regs c2 rsp) as ->.
    { unfold c2. cbn. by rewrite update_eq. }
    f_equal.
    - rewrite <- (Hs2 0%nat e eq_refl). f_equal. lia.
    - eapply (read_stack_stacked c _ _ [e]); [done| |exact Hs2]. done. }
  unfold take_interrupt. rewrite Hdel, bind_bind_Ret.
  change interrupt_error with (XchgTop rax :: ((Push <$> rs) ++ push_fs) ++ Push rax :: Mov rdi rsp :: CallInner ::
    (if decide ([e] = []) then [] else [AddRsp 8]) ++ pop_fs ++ (Pop <$> all_popped) ++ [Iretq]).
  assert (Hx : ∀ rest, run (XchgTop rax :: rest) c0 = run rest c0') by reflexivity.
  assert (Hm : ∀ rest, run (Push rax :: Mov rdi rsp :: rest) c1 = run rest c2) by reflexivity.
  rewrite Hx, for_each_app, Hrun, bind_bind_Ret, Hm.
  apply (call_and_resume all_popped c c2 [e] (regs c <$> all_popped)); try done; try by_decide; try (cbn; lia).
  - intros c3 _ r Hr. right. destruct r; first [done | by_decide].
Qed.

Lemma interrupt_ok :
  ∃ c1, sees Idt.InterruptHandler None c c1 ∧
    follows c c1 (take_interrupt inner g None interrupt c).
Proof using Habi H0 Hg.
  destruct (deliver_ok g None c H0 Hg) as (c0 & Hdel & Hsegs & Hregs & Hs). cbn [app] in Hs.
  set (rs := [rax; rcx; rdx; rdi; rsi; r8; r9; r10; r11]).
  destruct (run_prologue rs c0 (frame c)) as (c1 & Hrun & Hs1 & Hr1 & Hsegs1);
    [by_decide|by rewrite Hsegs|done|].
  assert (Hvals : reverse (regs c0 <$> rs) = regs c <$> scratch_popped).
  { rewrite (regs_fmap_ext c0 c) by (intros r Hr; apply Hregs; by_not_in Hr). done. }
  rewrite Hvals, Hsegs in *. exists c1. split; [done|].
  unfold take_interrupt. rewrite Hdel, bind_bind_Ret.
  change interrupt with (((Push <$> rs) ++ push_fs) ++ CallInner ::
    (if decide (([] : list Z) = []) then [] else [AddRsp 8]) ++ pop_fs ++ (Pop <$> scratch_popped) ++ [Iretq]).
  rewrite for_each_app, Hrun, bind_bind_Ret.
  apply (call_and_resume scratch_popped c c1 [] (regs c <$> scratch_popped)); try done; try by_decide; try (cbn; lia).
  - intros c2 Hin r Hr. destruct (Habi _ _ Hin) as (Hcs & _).
    destruct (decide (r ∈ callee_saved)) as [Hc|Hc].
    + left. rewrite Hcs, Hr1 by (done || by_not_in Hc). by apply Hregs.
    + right. destruct r; first [done | by_decide | by exfalso; apply Hc; by_decide].
Qed.
End one_interrupt.

End facts.

(** ** The whole path, from the tables to the resumed code *)

(** A CPU that has gone through [Gdt.init_ap] is ready to take interrupts. *)
Lemma gdt_init_ring0 s tcb p size init_stack fault_stack ti tf s' :
  0 ≤ p < 2 ^ 64 → 0 ≤ size < 2 ^ 20 →
  stack_top init_stack = Ret ti → stack_top fault_stack = Ret tf →
  Gdt.init_ap s tcb p size init_stack fault_stack = Ret s' →
  ring0 s' ∧ Gdt.fs_base s' = tcb ∧ is_Some (Gdt.tss_ist (Gdt.tss s') !! 0%nat).
Proof.
  intros Hp Hs Hi Hf. erewrite Gdt.init_ap_ok by done. intros [= <-].
  split; [|by cbn; eauto]. constructor; cbn; first [done | by left | lia].
Qed.

Section booted.
Context (address : Idt.handler → Z) (is_bsp : bool) (t : list Idt.IdtEntry) (lim : Z).
Context (Haddr : ∀ h, 0 ≤ address h < 2 ^ 64) (Hidt : Idt.init address false is_bsp = Ret (t, lim)).
Context (v : nat) (e : Idt.IdtEntry) (g : Idt.Gate) (h : Idt.handler) (i d : Z).
Context (Hv : t !! v = Some e) (Hg : Idt.decode e = Some g) (Hspec : Idt.vector_spec is_bsp v = Some (h, i, d)).

Lemma installed_gate s :
  is_Some (Gdt.tss_ist (Gdt.tss s) !! 0%nat) →
  Idt.gate_offset g = address h ∧ gate_ok g s ∧
  (Idt.kind h = Idt.InterruptErrorHandler ↔ Idt.pushes_error_code v = true).
Proof using Haddr Hidt Hv Hg Hspec.
  intros Hist. destruct (Idt.idt_init_ok address is_bsp Haddr) as (t' & Hi & Hlen & Hall).
  rewrite Hidt in Hi. injection Hi as -> _.
  assert (v < 256)%nat as Hlt by (rewrite <- Hlen; by eapply lookup_lt_Some).
  destruct (Hall v Hlt) as [(e' & He' & Hd) Hrest]. rewrite Hv in He'. injection He' as <-.
  rewrite Hg, Hspec in Hd. injection Hd as ->. destruct (Hrest _ _ _ Hspec) as (Hk & Hi & _).
  destruct (Idt.program_ops is_bsp v Hlt) as [_ Hsane]. rewrite Hspec in Hsane. cbn in Hsane.
  split; [done|]. split; [|done]. split; [done|]. cbn.
  assert (Hall01 : forallb (λ v, match Idt.vector_spec is_bsp v with
     | Some (_, i, _) => (i =? 0) || (i =? 1) | None => true end) (seq 0 256) = true)
    by (destruct is_bsp; vm_compute; reflexivity).
  apply (checked_below _ _ _ Hall01) in Hlt. rewrite Hspec in Hlt.
  apply orb_true_iff in Hlt as [->%Z.eqb_eq | ->%Z.eqb_eq]; [by left|right]. by split.
Qed.

(** The error code the processor pushes for this vector. *)
Definition pushed (code : Z) : option Z := if Idt.pushes_error_code v then Some code else None.

Lemma interrupts_transparent_ok inner code c :
  keeps_convention inner → ring0 (segs c) → is_Some (Gdt.tss_ist (Gdt.tss (segs c)) !! 0%nat) →
  ∃ c1, sees (Idt.kind h) (pushed code) c c1 ∧
    follows inner c c1 (take_interrupt inner g (pushed code) (stub_of (Idt.kind h)) c).
Proof using Haddr Hidt Hv Hg Hspec.
  intros Habi H0 Hist. destruct (installed_gate _ Hist) as (_ & Hok & Hk).
  unfold pushed. destruct (Idt.pushes_error_code v) eqn:Hp, (Idt.kind h) eqn:Hkh;
    try (discriminate (proj2 Hk eq_refl)); try (discriminate (proj1 Hk eq_refl)).
  - by apply interrupt_error_ok.
  - by apply interrupt_stack_ok.
  - by apply interrupt_ok.
Qed.
End booted.

(** C27: interrupts are transparent to the code they interrupt. For every
    vector of the table that [Idt.init] installs, on a CPU that runs kernel
    code with the tables of [Gdt.init_ap], whatever the interrupted registers:
    the function behind the stub is called once, with a pointer to a structure
    that holds exactly the interrupted context (and the error code, for the
    vectors that push one); if it returns keeping the calling convention, the
    interrupted code resumes with every general register, [rsp], [rip],
    [rflags] and segment selector as it was; if it panics or hangs, so does
    the CPU. *)
Theorem interrupts_transparent address is_bsp t lim v e g h i d inner code c :
  (∀ h, 0 ≤ address h < 2 ^ 64) → Idt.init address false is_bsp = Ret (t, lim) →
  t !! v = Some e → Idt.decode e = Some g → Idt.vector_spec is_bsp v = Some (h, i, d) →
  keeps_convention inner → ring0 (segs c) → is_Some (Gdt.tss_ist (Gdt.tss (segs c)) !! 0%nat) →
  ∃ c1, sees (Idt.kind h) (pushed v code) c c1 ∧
    match inner c1 with
    | Ret _ => ∃ c', take_interrupt inner g (pushed v code) (stub_of (Idt.kind h)) c = Ret c' ∧
        (∀ r, regs c' r = regs c r) ∧ rip c' = rip c ∧ rflags c' = rflags c ∧
        Gdt.cs (segs c') = Gdt.cs (segs c) ∧ Gdt.ss (segs c') = Gdt.ss (segs c) ∧
        Gdt.fs (segs c') = Gdt.fs (segs c)
    | Panic w => take_interrupt inner g (pushed v code) (stub_of (Idt.kind h)) c = Panic w
    | Hang => take_interrupt inner g (pushed v code) (stub_of (Idt.kind h)) c = Hang
    end.
Proof.
  intros Ha Hi Hv Hg Hs Habi H0 Hist.
  destruct (interrupts_transparent_ok _ _ _ _ Ha Hi _ _ _ _ _ _ Hv Hg Hs inner code c Habi H0 Hist)
    as (c1 & Hsees & Hf).
  exists c1. split; [done|]. unfold follows in Hf. destruct (inner c1); [|done..].
  destruct Hf as (c' & Hrun & Hr & Hip & Hfl & Hseg). exists c'. by rewrite Hseg.
Qed.

(** An interrupt destroys the thread-local base. The stub loads [fs] with
    a selector before the call and again before [iretq], which takes the base
    from the flat descriptor: on a CPU fresh from [Gdt.init_ap], whose base is
    its thread control block, thread locals are gone (base zero) for the
    handler and for the code it returns to. *)
Theorem interrupt_loses_thread_base address is_bsp t lim v e g h i d inner code c
    s tcb p size init_stack fault_stack ti tf c' :
  (∀ h, 0 ≤ address h < 2 ^ 64) → Idt.init address false is_bsp = Ret (t, lim) →
  t !! v = Some e → Idt.decode e = Some g → Idt.vector_spec is_bsp v = Some (h, i, d) →
  0 ≤ p < 2 ^ 64 → 0 ≤ size < 2 ^ 20 →
  stack_top init_stack = Ret ti → stack_top fault_stack = Ret tf →
  Gdt.init_ap s tcb p size init_stack fault_stack = Ret (segs c) →
  keeps_convention inner →
  take_interrupt inner g (pushed v code) (stub_of (Idt.kind h)) c = Ret c' →
  Gdt.fs_base (segs c) = tcb ∧ Gdt.fs_base (segs c') = 0.
Proof.
  intros Ha Hi Hv Hg Hs Hp Hsz Hti Htf Hgdt Habi Hrun.
  destruct (gdt_init_ring0 _ _ _ _ _ _ _ _ _ Hp Hsz Hti Htf Hgdt) as (H0 & Hb & Hist).
  destruct (interrupts_transparent_ok _ _ _ _ Ha Hi _ _ _ _ _ _ Hv Hg Hs inner code c Habi H0 Hist)
    as (c1 & _ & Hf).
  split; [done|]. unfold follows in Hf. destruct (inner c1); rewrite Hrun in Hf; [|done..].
  destruct Hf as (c2 & [= <-] & _ & _ & _ & Hseg). by rewrite Hseg.
Qed.

(** ** Witnesses: a page fault on a booted CPU, with a handler that returns at once *)

Definition example_address : Idt.handler → Z := λ _, 0x201000.
Definition example_idt : list Idt.IdtEntry :=
  match Idt.init example_address false true with Ret (t, _) => t | _ => [] end.
Definition example_segs : Gdt.SegmentState :=
  match Gdt.init_ap (Gdt.mkSegments 0 [] 0 0 0 0 0 0 0 0 0 Gdt.TSS) 0x5000 0x6000 104
          (Gdt.stack_at 0x10000) (Gdt.stack_at 0x20000) with
  | Ret s => s
  | _ => Gdt.mkSegments 0 [] 0 0 0 0 0 0 0 0 0 Gdt.TSS
  end.
Definition example_cpu : Cpu :=
  mkCpu (λ r, if decide (r = rsp) then 0x13000 else 7) 0x200123 0x202 example_segs (λ _, 0).
Definition page_gate : Idt.Gate := Idt.mkGate 0x201000 8 1 0xE 0.
Definition page_entry : Idt.IdtEntry := Idt.mkIdtEntry 0x1000 8 1 142 0x20 0 0.

Lemma returning_handler_convention : keeps_convention Ret.
Proof. intros c c' [= <-]. done. Qed.

Lemma example_ready : ring0 example_segs ∧ Gdt.fs_base example_segs = 0x5000 ∧
  is_Some (Gdt.tss_ist (Gdt.tss example_segs) !! 0%nat).
Proof.
  apply (gdt_init_ring0 (Gdt.mkSegments 0 [] 0 0 0 0 0 0 0 0 0 Gdt.TSS) 0x5000 0x6000 104
    (Gdt.stack_at 0x10000) (Gdt.stack_at 0x20000) 0x14000 0x24000); [lia|lia|reflexivity|reflexivity|].
  vm_compute. reflexivity.
Qed.

Lemma interrupts_transparent_witness :
  ∃ c', take_interrupt Ret page_gate (Some 2) interrupt_error example_cpu = Ret c' ∧
    (∀ r, regs c' r = regs example_cpu r) ∧ rip c' = 0x200123.
Proof.
  destruct (interrupts_transparent example_address true example_idt 4095 14 page_entry page_gate
    Idt.page 1 0 Ret 2 example_cpu) as (c1 & _ & c' & Hrun & Hr & Hip & _).
  - intros h. unfold example_address. lia.
  - vm_compute. reflexivity.
  - vm_compute. reflexivity.
  - vm_compute. reflexivity.
  - reflexivity.
  - exact returning_handler_convention.
  - apply example_ready.
  - apply example_ready.
  - exists c'. exact (conj Hrun (conj Hr Hip)).
Defined.

Lemma interrupt_loses_thread_base_witness :
  Gdt.fs_base example_segs = 0x5000 ∧
  ∃ c', take_interrupt Ret page_gate (Some 2) interrupt_error example_cpu = Ret c' ∧
    Gdt.fs_base (segs c') = 0.
Proof.
  split; [reflexivity|].
  destruct (take_interrupt Ret page_gate (Some 2) interrupt_error example_cpu) as [c'| |] eqn:Hrun;
    [|vm_compute in Hrun; discriminate..].
  exists c'. split; [reflexivity|].
  apply (interrupt_loses_thread_base example_address true example_idt 4095 14 page_entry page_gate
    Idt.page 1 0 Ret 2 example_cpu (Gdt.mkSegments 0 [] 0 0 0 0 0 0 0 0 0 Gdt.TSS) 0x5000 0x6000 104
    (Gdt.stack_at 0x10000) (Gdt.stack_at 0x20000) 0x14000 0x24000 c').
  - intros h. unfold example_address. lia.
  - vm_compute. reflexivity.
  - vm_compute. reflexivity.
  - vm_compute. reflexivity.
  - reflexivity.
  - lia.
  - lia.
  - reflexivity.
  - reflexivity.
  - vm_compute. reflexivity.
  - exact returning_handler_convention.
  - exact Hrun.
Defined.
