(* ===== verification/Vga.v ===== *)
(** * The text console (vga_buffer.rs)

    The writer that prints to the 25 x 80 character buffer, with its in-place
    scrolling, and the layout it implements: the text cut at the line feeds
    and, within a line, every eighty characters, of which the screen shows the
    end. The buffer lies at 0xb8000 behind the identity map; the volatile cells
    are its rows here. *)
From S2P Require Import Prelude.

Inductive Color :=
  | Black | Blue | Green | Cyan | Red | Magenta | Brown | LightGray | DarkGray | LightBlue
  | LightGreen | LightCyan | LightRed | Pink | Yellow | White.

(** [color as u8]. *)
Definition color_code_of (c : Color) : Z :=
  match c with
  | Black => 0 | Blue => 1 | Green => 2 | Cyan => 3 | Red => 4 | Magenta => 5 | Brown => 6
  | LightGray => 7 | DarkGray => 8 | LightBlue => 9 | LightGreen => 10 | LightCyan => 11
  | LightRed => 12 | Pink => 13 | Yellow => 14 | White => 15
  end.

(** [ColorCode::new]: the shift is one of a [u8]. *)
Definition ColorCode_new (foreground background : Color) : Z :=
  Z.lor (truncate 8 (Z.shiftl (color_code_of background) 4)) (color_code_of foreground).

Record ScreenChar := mkChar { ascii_character : Z; color_code : Z }.

Definition BUFFER_HEIGHT : Z := 25.
Definition BUFFER_WIDTH : Z := 80.

Abbreviation Buffer := (list (list ScreenChar)).

Record Writer := mkWriter { column_position : Z; w_color : Z; buffer : Buffer }.

(** [chars[row][col].read()] and [.write(c)]. *)
Definition read_char (b : Buffer) (row col : Z) : outcome ScreenChar :=
  r ← slice_get b row; slice_get r col.
Definition write_char (b : Buffer) (row col : Z) (c : ScreenChar) : outcome Buffer :=
  r ← slice_get b row; r' ← slice_set r col c; slice_set b row r'.

(** The range [a..b]. *)
Definition range (a b : Z) : list Z := seqZ a (b - a).

Definition clear_row (w : Writer) (row : Z) : outcome Writer :=
  let blank := mkChar 32 (w_color w) in
  b ← for_each (λ col b, write_char b row col blank) (range 0 BUFFER_WIDTH) (buffer w);
  Ret (mkWriter (column_position w) (w_color w) b).

(** One row of [new_line]: copied onto the row above it, cell by cell. *)
Definition copy_row_up (row : Z) (b : Buffer) : outcome Buffer :=
  for_each (λ col b,
    character ← read_char b row col;
    above ← usub row 1;
    write_char b above col character) (range 0 BUFFER_WIDTH) b.

Definition new_line (w : Writer) : outcome Writer :=
  b ← for_each copy_row_up (range 1 BUFFER_HEIGHT) (buffer w);
  last_row ← usub BUFFER_HEIGHT 1;
  w ← clear_row (mkWriter (column_position w) (w_color w) b) last_row;
  Ret (mkWriter 0 (w_color w) (buffer w)).

Definition NEWLINE : Z := 10.

Definition write_byte (w : Writer) (byte : Z) : outcome Writer :=
  if byte =? NEWLINE then new_line w
  else
    w ← (if BUFFER_WIDTH <=? column_position w then new_line w else Ret w);
    row ← usub BUFFER_HEIGHT 1;
    let col := column_position w in
    b ← write_char (buffer w) row col (mkChar byte (w_color w));
    col' ← uadd col 1;
    Ret (mkWriter col' (w_color w) b).

(** The byte [write_string] prints for a byte of the text. *)
Definition printed (byte : Z) : Z :=
  if (0x20 <=? byte) && (byte <=? 0x7e) || (byte =? NEWLINE) then byte else 0xfe.

Definition write_string (w : Writer) (s : list Z) : outcome Writer :=
  for_each (λ byte w, write_byte w (printed byte)) s w.

(** [println!("{}", s)]: the formatter writes the text, then the line feed. *)
Definition println (w : Writer) (s : list Z) : outcome Writer :=
  w ← write_string w s; write_string w [NEWLINE].

(** [WRITER], over the cells the firmware left. *)
Definition WRITER (cells : Buffer) : Writer := mkWriter 0 (ColorCode_new Yellow Black) cells.

(** ** The layout *)

(** The text cut at its line feeds. *)
Fixpoint split_lines (s : list Z) : list (list Z) :=
  match s with
  | [] => [[]]
  | b :: s' =>
      if b =? NEWLINE then [] :: split_lines s'
      else match split_lines s' with
           | l :: ls => (b :: l) :: ls
           | [] => [[b]]
           end
  end.

(** A line cut every eighty characters; the empty line is one empty piece. *)
Definition pieces (l : list Z) : nat := Nat.max 1 ((length l + 79) / 80).
Definition wrap (l : list Z) : list (list Z) := (λ i, take 80 (drop (80 * i) l)) <$> seq 0 (pieces l).

(** The rows a text takes: the last one is the row of the cursor. *)
Definition layout (s : list Z) : list (list Z) := split_lines s ≫= wrap.

(** A row as it appears in a colour. *)
Definition shown (color : Z) (l : list Z) : list ScreenChar :=
  ((λ b, mkChar b color) <$> l) ++ replicate (80 - length l) (mkChar 32 color).

(** ** Overwriting a list from the front *)

Lemma length_tail {A} (l : list A) : length (tail l) = (length l - 1)%nat.
Proof. destruct l; cbn; lia. Qed.

Lemma tail_drop {A} (l : list A) : tail l = drop 1 l.
Proof. by destruct l. Qed.

Definition overwritten {A} (n : nat) (src dst : list A) : list A := take n src ++ drop n dst.

Lemma overwritten_0 {A} (src dst : list A) : overwritten 0 src dst = dst.
Proof. done. Qed.

Lemma overwritten_all {A} (src dst : list A) : overwritten (length dst) src dst = take (length dst) src.
Proof. unfold overwritten. by rewrite drop_all, app_nil_r. Qed.

Lemma length_overwritten {A} n (src dst : list A) :
  (n ≤ length src)%nat → (n ≤ length dst)%nat → length (overwritten n src dst) = length dst.
Proof. intros. unfold overwritten. rewrite length_app, length_take, length_drop. lia. Qed.

Lemma lookup_overwritten_ge {A} n (src dst : list A) i :
  (n ≤ i)%nat → (n ≤ length src)%nat → overwritten n src dst !! i = dst !! i.
Proof.
  intros Hi Hlen. unfold overwritten. rewrite lookup_app_r by (rewrite length_take; lia).
  rewrite length_take, lookup_drop. f_equal. lia.
Qed.

Lemma overwritten_step {A} n (src dst : list A) x :
  src !! n = Some x → (n < length dst)%nat →
  <[n := x]> (overwritten n src dst) = overwritten (S n) src dst.
Proof.
  intros Hx Hn. pose proof (lookup_lt_Some _ _ _ Hx). unfold overwritten.
  rewrite <- (Nat.add_0_r n) at 1.
  replace (n + 0)%nat with (length (take n src) + 0)%nat by (rewrite length_take; lia).
  rewrite insert_app_r. rewrite (drop_S dst (default x (dst !! n)) n); cbn.
  - by rewrite (take_S_r _ _ _ Hx), <- app_assoc.
  - destruct (lookup_lt_is_Some_2 dst n Hn) as [y Hy]. by rewrite Hy.
Qed.

(** ** Rows *)

Definition rows_ok (b : Buffer) : Prop := length b = 25%nat ∧ Forall (λ r, length r = 80%nat) b.

(** The writer's type invariant: the buffer has its shape and the cursor is in
    the bottom row, or just behind it. *)
Definition writer_ok (w : Writer) : Prop := rows_ok (buffer w) ∧ 0 ≤ column_position w ≤ 80.

Lemma read_char_ok b row col r c :
  b !! row = Some r → r !! col = Some c → read_char b (Z.of_nat row) (Z.of_nat col) = Ret c.
Proof. intros Hr Hc. unfold read_char, slice_get. rewrite !Nat2Z.id, Hr. cbn. by rewrite Hc. Qed.

Lemma write_char_ok b row col r c :
  b !! row = Some r → (col < length r)%nat →
  write_char b (Z.of_nat row) (Z.of_nat col) c = Ret (<[row := <[col := c]> r]> b).
Proof.
  intros Hr Hc. unfold write_char, slice_get, slice_set. rewrite !Nat2Z.id, Hr. cbn.
  destruct (lookup_lt_is_Some_2 r col Hc) as [x ->]. done.
Qed.

Lemma range_app a b done_ x todo :
  range a b = done_ ++ x :: todo → x = a + Z.of_nat (length done_) ∧ x < b.
Proof.
  intros Hr. unfold range in Hr. assert (seqZ a (b - a) !! length done_ = Some x) as Hx.
  { rewrite Hr. by apply list_lookup_middle. }
  apply lookup_seqZ in Hx. lia.
Qed.

Lemma length_range a b : a ≤ b → length (range a b) = Z.to_nat (b - a).
Proof. intros. unfold range. by rewrite length_seqZ. Qed.

(** Writing a row cell by cell, from values that do not depend on the row. *)
Lemma fill_row (b : Buffer) (row : nat) r (src : list ScreenChar) body :
  b !! row = Some r → length r = 80%nat → length src = 80%nat →
  (∀ (col : nat) c r', src !! col = Some c → length r' = 80%nat →
     body (Z.of_nat col) (<[row := r']> b) = Ret (<[row := <[col := c]> r']> b)) →
  for_each body (range 0 80) b = Ret (<[row := src]> b).
Proof.
  intros Hr Hlen Hsrc Hbody.
  destruct (for_each_inv body (λ done_ b', b' = <[row := overwritten (length done_) src r]> b) (range 0 80) b)
    as (b' & Hrun & ->).
  - cbn [length]. rewrite overwritten_0. by rewrite list_insert_id.
  - intros done_ x todo b' Hd ->. apply range_app in Hd as [-> Hlt].
    destruct (lookup_lt_is_Some_2 src (length done_)) as [c Hc]; [lia|].
    rewrite Z.add_0_l. rewrite (Hbody _ c) by (done || rewrite length_overwritten; lia).
    eexists. split; [reflexivity|]. rewrite length_app. cbn [length]. rewrite Nat.add_1_r.
    by rewrite overwritten_step by (done || lia).
  - rewrite Hrun. rewrite length_range by lia. change (Z.to_nat (80 - 0)) with 80%nat.
    rewrite <- Hlen at 1. rewrite overwritten_all, take_ge by lia. done.
Qed.

Lemma copy_row_up_ok b (row : nat) r r0 :
  b !! S row = Some r → b !! row = Some r0 → length r = 80%nat → length r0 = 80%nat →
  copy_row_up (Z.of_nat (S row)) b = Ret (<[row := r]> b).
Proof.
  intros Hr Hr0 Hl Hl0. unfold copy_row_up. eapply fill_row; [done..|].
  intros col c r' Hc Hr'.
  rewrite (read_char_ok _ _ _ r c) by (done || rewrite list_lookup_insert_ne by lia; done).
  cbn [mbind outcome_bind]. rewrite usub_ok by lia. cbn [mbind outcome_bind].
  replace (Z.of_nat (S row) - 1) with (Z.of_nat row) by lia.
  rewrite (write_char_ok _ _ _ r').
  - by rewrite list_insert_insert_eq.
  - apply list_lookup_insert_eq. by eapply lookup_lt_Some.
  - apply lookup_lt_Some in Hc. lia.
Qed.

Lemma clear_row_ok w (row : nat) r :
  buffer w !! row = Some r → length r = 80%nat →
  clear_row w (Z.of_nat row) =
    Ret (mkWriter (column_position w) (w_color w) (<[row := replicate 80 (mkChar 32 (w_color w))]> (buffer w))).
Proof.
  intros Hr Hl. unfold clear_row. erewrite fill_row; [done|done|done|apply length_replicate|].
  intros col c r' Hc Hr'. apply lookup_replicate in Hc as [-> Hc].
  rewrite (write_char_ok _ _ _ r').
  - by rewrite list_insert_insert_eq.
  - apply list_lookup_insert_eq. by eapply lookup_lt_Some.
  - lia.
Qed.

(** The in-place loops of [new_line] scroll: the top row is lost, a blank row
    comes in at the bottom. *)
Lemma new_line_ok w :
  rows_ok (buffer w) →
  new_line w = Ret (mkWriter 0 (w_color w) (tail (buffer w) ++ [replicate 80 (mkChar 32 (w_color w))])).
Proof.
  intros [Hlen Hrows]. set (b := buffer w) in *. unfold new_line. fold b.
  destruct (for_each_inv copy_row_up (λ done_ b', b' = overwritten (length done_) (tail b) b)
    (range 1 BUFFER_HEIGHT) b) as (b' & Hrun & ->).
  - done.
  - intros done_ x todo b' Hd ->. apply range_app in Hd as [-> Hlt]. unfold BUFFER_HEIGHT in Hlt.
    assert (length (tail b) = 24%nat) as Htl by (rewrite length_tail; lia).
    destruct (lookup_lt_is_Some_2 b (S (length done_))) as [r Hr]; [lia|].
    destruct (lookup_lt_is_Some_2 b (length done_)) as [r0 Hr0]; [lia|].
    replace (1 + Z.of_nat (length done_)) with (Z.of_nat (S (length done_))) by lia.
    rewrite (copy_row_up_ok _ _ r r0).
    + eexists. split; [reflexivity|]. rewrite length_app. cbn [length]. rewrite Nat.add_1_r.
      apply overwritten_step; [|lia]. by rewrite lookup_tail.
    + rewrite lookup_overwritten_ge by lia. done.
    + rewrite lookup_overwritten_ge by lia. done.
    + by eapply (Forall_lookup_1 _ _ _ _ Hrows).
    + by eapply (Forall_lookup_1 _ _ _ _ Hrows).
  - rewrite Hrun, length_range by done. change (Z.to_nat (BUFFER_HEIGHT - 1)) with 24%nat.
    cbn [mbind outcome_bind]. unfold BUFFER_HEIGHT. rewrite usub_ok by lia. cbn [mbind outcome_bind].
    assert (overwritten 24 (tail b) b = tail b ++ drop 24 b) as ->.
    { unfold overwritten. rewrite take_ge by (rewrite length_tail; lia). done. }
    destruct (drop 24 b) as [|r [|]] eqn:Hd;
      [apply (f_equal length) in Hd; rewrite length_drop in Hd; cbn in Hd; lia| |
       apply (f_equal length) in Hd; rewrite length_drop in Hd; cbn in Hd; lia].
    assert (length (tail b) = 24%nat) as Htl by (rewrite length_tail; lia).
    change (25 - 1) with (Z.of_nat 24). rewrite (clear_row_ok _ 24 r).
    + cbn. do 2 f_equal. rewrite <- Htl at 1. by rewrite list_insert_middle.
    + cbn. rewrite <- Htl. by rewrite list_lookup_middle.
    + apply (Forall_lookup_1 _ _ 24 r Hrows). rewrite <- (Nat.add_0_r 24), <- lookup_drop, Hd. done.
Qed.

(** ** The layout, one character at a time *)

Lemma split_lines_snoc s b :
  ∃ ls l, split_lines s = ls ++ [l] ∧
    split_lines (s ++ [b]) = if b =? NEWLINE then ls ++ [l; []] else ls ++ [l ++ [b]].
Proof.
  induction s as [|a s IH].
  { exists [], []. cbn. by destruct (b =? NEWLINE). }
  destruct IH as (ls & l & H1 & H2). cbn [app split_lines]. rewrite H1, H2.
  destruct (a =? NEWLINE).
  { exists ([] :: ls), l. by destruct (b =? NEWLINE). }
  destruct ls as [|l0 ls].
  - exists [], (a :: l). by destruct (b =? NEWLINE).
  - exists ((a :: l0) :: ls), l. by destruct (b =? NEWLINE).
Qed.

Lemma pieces_bounds l :
  (1 ≤ pieces l ∧ (pieces l = 1 ∨ 80 * (pieces l - 1) < length l) ∧ length l ≤ 80 * pieces l)%nat.
Proof.
  unfold pieces. pose proof (Nat.div_mod (length l + 79) 80 ltac:(lia)) as Hd.
  pose proof (Nat.mod_upper_bound (length l + 79) 80 ltac:(lia)). lia.
Qed.

Lemma wrap_last l :
  wrap l = ((λ i, take 80 (drop (80 * i) l)) <$> seq 0 (pieces l - 1)) ++ [drop (80 * (pieces l - 1)) l].
Proof.
  destruct (pieces_bounds l) as [H1 H2]. unfold wrap.
  replace (pieces l) with (pieces l - 1 + 1)%nat at 1 by lia.
  rewrite seq_app, fmap_app. cbn [seq fmap list_fmap]. f_equal. f_equal.
  rewrite Nat.add_0_l. apply take_ge. rewrite length_drop. lia.
Qed.

Lemma wrap_snoc l b :
  ∃ ws x, wrap l = ws ++ [x] ∧ (length x ≤ 80)%nat ∧
    wrap (l ++ [b]) = if decide (length x = 80%nat) then ws ++ [x; [b]] else ws ++ [x ++ [b]].
Proof.
  destruct (pieces_bounds l) as [H1 H2].
  eexists _, _. split; [apply wrap_last|]. rewrite length_drop. split; [lia|].
  rewrite wrap_last.
  assert (Hpre : ∀ n, (80 * n ≤ length l)%nat →
    (λ i, take 80 (drop (80 * i) (l ++ [b]))) <$> seq 0 n = (λ i, take 80 (drop (80 * i) l)) <$> seq 0 n).
  { intros n Hn. apply list_fmap_ext. intros i j [-> Hj]%lookup_seq.
    rewrite drop_app_le by lia. apply take_app_le. rewrite length_drop. lia. }
  destruct (pieces_bounds (l ++ [b])) as [H3 H4]. rewrite length_app in H4. cbn in H4.
  destruct (decide (length l - 80 * (pieces l - 1) = 80)%nat) as [He|He].
  - assert (pieces (l ++ [b]) = pieces l + 1)%nat as -> by lia.
    rewrite Hpre by lia. replace (pieces l + 1 - 1)%nat with (pieces l - 1 + 1)%nat by lia.
    rewrite seq_app, fmap_app, <- app_assoc. cbn [seq fmap list_fmap app]. rewrite Nat.add_0_l.
    rewrite (take_ge (drop _ l)) by (rewrite length_drop; lia).
    rewrite drop_app_ge by lia. replace (80 * (pieces l - 1 + 1) - length l)%nat with 0%nat by lia. done.
  - assert (pieces (l ++ [b]) = pieces l) as -> by lia.
    rewrite Hpre by lia. by rewrite drop_app_le by lia.
Qed.

Lemma layout_snoc s b :
  ∃ ls x, layout s = ls ++ [x] ∧ (length x ≤ 80)%nat ∧
    layout (s ++ [b]) =
      if b =? NEWLINE then ls ++ [x; []]
      else if decide (length x = 80%nat) then ls ++ [x; [b]] else ls ++ [x ++ [b]].
Proof.
  destruct (split_lines_snoc s b) as (ls & l & H1 & H2).
  destruct (wrap_snoc l b) as (ws & x & H3 & H4 & H5).
  exists ((ls ≫= wrap) ++ ws), x. unfold layout. rewrite H1, H2, bind_app, <- app_assoc. cbn [mbind list_bind].
  rewrite app_nil_r, H3. split; [done|]. split; [done|].
  destruct (b =? NEWLINE).
  - rewrite bind_app. cbn [mbind list_bind]. rewrite app_nil_r, H3, <- !app_assoc. done.
  - rewrite bind_app. cbn [mbind list_bind]. rewrite app_nil_r, H5.
    destruct (decide _); by rewrite <- app_assoc.
Qed.

(** ** The screen of a layout *)

Section screen.
Context (color : Z) (b0 : Buffer).

Abbreviation blanks := (replicate 80 (mkChar 32 color)).

(** A row of the layout over what was in its place: the first row is written
    over the bottom row of the screen, the others over blanks. *)
Definition row_over (under : list ScreenChar) (l : list Z) : list ScreenChar :=
  ((λ b, mkChar b color) <$> l) ++ drop (length l) under.
Definition under (i : nat) : list ScreenChar :=
  if decide (i = 0%nat) then default [] (b0 !! 24%nat) else blanks.

(** The last 25 of the rows that were on the screen above the cursor and those
    of the layout. *)
Definition screen (rows : list (list Z)) : Buffer :=
  drop (length rows - 1) (take 24 b0 ++ imap (λ i l, row_over (under i) l) rows).

Definition upper (ls : list (list Z)) : Buffer :=
  drop (length ls) (take 24 b0 ++ imap (λ i l, row_over (under i) l) ls).

Context (Hb0 : rows_ok b0).

Lemma length_upper ls : length (upper ls) = 24%nat.
Proof using Hb0.
  unfold upper. destruct Hb0 as [Hlen _]. rewrite length_drop, length_app, length_take, length_imap. lia.
Qed.

Lemma screen_snoc ls l : screen (ls ++ [l]) = upper ls ++ [row_over (under (length ls)) l].
Proof using Hb0.
  unfold screen, upper. destruct Hb0 as [Hlen _]. rewrite length_app. cbn [length].
  replace (length ls + 1 - 1)%nat with (length ls) by lia.
  rewrite imap_app. cbn. rewrite Nat.add_0_r, app_assoc, drop_app_le; [done|].
  rewrite length_app, length_take, length_imap. lia.
Qed.

Lemma under_length i : length (under i) = 80%nat.
Proof using Hb0.
  unfold under. destruct (decide _); [|apply length_replicate].
  destruct Hb0 as [Hlen Hrows]. destruct (lookup_lt_is_Some_2 b0 24) as [r Hr]; [lia|]. rewrite Hr.
  by apply (Forall_lookup_1 _ _ _ _ Hrows Hr).
Qed.

Lemma row_over_length u l : length u = 80%nat → (length l ≤ 80)%nat → length (row_over u l) = 80%nat.
Proof using. intros. unfold row_over. rewrite length_app, length_fmap, length_drop. lia. Qed.

Lemma screen_newline ls l : tail (screen (ls ++ [l])) ++ [blanks] = screen (ls ++ [l; []]).
Proof using Hb0.
  change (ls ++ [l; []]) with (ls ++ [l] ++ [[]]). rewrite app_assoc, !screen_snoc. f_equal.
  - unfold upper. rewrite length_app. cbn [length]. rewrite imap_app. cbn. rewrite Nat.add_0_r, app_assoc.
    rewrite tail_drop, <- drop_drop.
    rewrite (drop_app_le (_ ++ imap _ _) _ (length ls)); [done|].
    destruct Hb0 as [Hlen _]. rewrite length_app, length_take, length_imap. lia.
  - f_equal. unfold row_over, under. rewrite length_app. cbn [length].
    by rewrite decide_False by lia.
Qed.

Lemma row_over_put u l b :
  length u = 80%nat → (length l < 80)%nat →
  <[length l := mkChar b color]> (row_over u l) = row_over u (l ++ [b]).
Proof using.
  intros Hu Hl. unfold row_over.
  replace (length l) with (length ((λ b, mkChar b color) <$> l) + 0)%nat at 1 by (rewrite length_fmap; lia).
  rewrite insert_app_r. destruct (lookup_lt_is_Some_2 u (length l)) as [y Hy]; [lia|].
  rewrite (drop_S _ _ _ Hy). cbn. rewrite fmap_app, <- app_assoc, length_app. cbn. by rewrite Nat.add_1_r.
Qed.
End screen.

(** ** The writer shows the layout *)

Lemma Forall_tail_snoc {A} (P : A → Prop) l x : Forall P l → P x → Forall P (tail l ++ [x]).
Proof. intros Hl Hx. apply Forall_app. split; [destruct l; [done|by inversion Hl]|by constructor]. Qed.

Lemma rows_ok_scrolled w :
  rows_ok (buffer w) → rows_ok (tail (buffer w) ++ [replicate 80 (mkChar 32 (w_color w))]).
Proof.
  intros [Hl Hr]. split.
  - rewrite length_app, length_tail. cbn. lia.
  - apply Forall_tail_snoc; [done|apply length_replicate].
Qed.

(** The bottom cell under the cursor. *)
Lemma write_bottom w up r (col : nat) c :
  buffer w = up ++ [r] → length up = 24%nat → (col < length r)%nat →
  write_char (buffer w) (BUFFER_HEIGHT - 1) (Z.of_nat col) c = Ret (up ++ [<[col := c]> r]).
Proof.
  intros -> Hup Hcol. change (BUFFER_HEIGHT - 1) with (Z.of_nat 24). rewrite <- Hup.
  rewrite (write_char_ok _ _ _ r) by (done || by rewrite list_lookup_middle).
  by rewrite list_insert_middle.
Qed.

Lemma write_byte_ok w b :
  writer_ok w → ∃ w', write_byte w b = Ret w' ∧ writer_ok w' ∧ w_color w' = w_color w.
Proof.
  intros [Hrows Hcol]. unfold write_byte. destruct (b =? NEWLINE).
  { rewrite new_line_ok by done. eexists. split; [reflexivity|]. split; [|done].
    split; [by apply rows_ok_scrolled|cbn; lia]. }
  assert (∃ w1, (if BUFFER_WIDTH <=? column_position w then new_line w else Ret w) = Ret w1 ∧
     rows_ok (buffer w1) ∧ 0 ≤ column_position w1 < 80 ∧ w_color w1 = w_color w) as (w1 & -> & Hr1 & Hc1 & Hk).
  { unfold BUFFER_WIDTH. destruct (Z.leb_spec 80 (column_position w)).
    - rewrite new_line_ok by done. eexists. split; [reflexivity|]. split; [by apply rows_ok_scrolled|].
      cbn. lia.
    - exists w. split_and!; done || lia. }
  rewrite bind_bind_Ret. unfold BUFFER_HEIGHT. rewrite usub_ok, bind_bind_Ret by lia. cbv zeta.
  destruct Hr1 as [Hl1 Hf1]. destruct (exists_last (l := buffer w1)) as (up & r & Hb); [by intros E; rewrite E in Hl1|].
  rewrite Hb in Hl1, Hf1. rewrite length_app in Hl1. cbn in Hl1.
  apply Forall_app in Hf1 as [Hf1 Hr]. apply Forall_cons_1 in Hr as [Hr _].
  replace (column_position w1) with (Z.of_nat (Z.to_nat (column_position w1))) by lia.
  erewrite write_bottom; [|done|lia|lia]. rewrite bind_bind_Ret, uadd_ok, bind_bind_Ret by lia.
  eexists. split; [reflexivity|]. split; [|done]. split; [|cbn; lia]. split; cbn.
  - rewrite length_app. cbn. lia.
  - apply Forall_app. split; [done|]. apply Forall_singleton. by rewrite length_insert.
Qed.

Lemma write_string_ok w s :
  writer_ok w → ∃ w', write_string w s = Ret w' ∧ writer_ok w' ∧ w_color w' = w_color w.
Proof.
  unfold write_string. revert w. induction s as [|b s IH]; intros w Hw; [by exists w|].
  destruct (write_byte_ok w (printed b) Hw) as (w1 & Hb & Hw1 & Hk). cbn [for_each]. rewrite Hb, bind_bind_Ret.
  destruct (IH w1 Hw1) as (w' & Hr & Hw' & Hk'). exists w'. split_and!; [done..|congruence].
Qed.

(** The writer has printed the rows [ls ++ [l]]. *)
Definition displays (w0 : Writer) (rows : list (list Z)) (w : Writer) : Prop :=
  ∃ ls l, rows = ls ++ [l] ∧ (length l ≤ 80)%nat ∧ w_color w = w_color w0 ∧
    buffer w = screen (w_color w0) (buffer w0) rows ∧ column_position w = Z.of_nat (length l).

Lemma displays_put w0 ls l w b :
  writer_ok w0 → displays w0 (ls ++ [l]) w → (length l < 80)%nat →
  (row ← usub BUFFER_HEIGHT 1;
   b' ← write_char (buffer w) row (column_position w) (mkChar b (w_color w));
   col' ← uadd (column_position w) 1;
   Ret (mkWriter col' (w_color w) b')) =
  Ret (mkWriter (column_position w + 1) (w_color w) (screen (w_color w0) (buffer w0) (ls ++ [l ++ [b]]))).
Proof.
  intros [Hr0 _] (ls' & l' & Heq & Hl & Hk & Hb & Hc) Hlt. apply app_inj_tail in Heq as [<- <-].
  pose proof (under_length (w_color w0) (buffer w0) Hr0 (length ls)) as Hu.
  rewrite usub_ok, bind_bind_Ret by (unfold BUFFER_HEIGHT; lia).
  rewrite screen_snoc in Hb by done.
  rewrite Hc. erewrite write_bottom; [|done|by apply length_upper|].
  - rewrite bind_bind_Ret, uadd_ok, bind_bind_Ret by lia.
    rewrite Hk, row_over_put, <- screen_snoc by done. done.
  - rewrite row_over_length by (done || lia). done.
Qed.

Lemma displays_write w0 s b w :
  writer_ok w0 → writer_ok w → displays w0 (layout s) w →
  ∃ w', write_byte w b = Ret w' ∧ displays w0 (layout (s ++ [b])) w'.
Proof.
  intros Hw0 [Hrows Hcol] Hd. pose proof (proj1 Hw0) as Hr0.
  destruct (layout_snoc s b) as (ls & x & Hs & Hx & Hsb). rewrite Hs in Hd. rewrite Hsb. clear Hs Hsb.
  pose proof Hd as (ls' & x' & Heq & _ & Hk & Hb & Hc). apply app_inj_tail in Heq as [<- <-].
  assert (Hnl : new_line w = Ret (mkWriter 0 (w_color w0) (screen (w_color w0) (buffer w0) (ls ++ [x; []])))).
  { rewrite new_line_ok by done. by rewrite Hb, Hk, screen_newline. }
  assert (Hd1 : displays w0 ((ls ++ [x]) ++ [[]])
                  (mkWriter 0 (w_color w0) (screen (w_color w0) (buffer w0) (ls ++ [x; []])))).
  { exists (ls ++ [x]), []. rewrite <- app_assoc. split_and!; done || cbn; lia. }
  unfold write_byte. destruct (b =? NEWLINE).
  - rewrite Hnl. eexists. split; [reflexivity|]. by rewrite <- app_assoc in Hd1.
  - unfold BUFFER_WIDTH. rewrite Hc. destruct (decide (length x = 80%nat)) as [He|He].
    + rewrite (proj2 (Z.leb_le _ _)), Hnl, bind_bind_Ret by lia. cbv zeta.
      rewrite (displays_put w0 _ [] _ b) by (done || cbn; lia).
      eexists. split; [reflexivity|]. exists (ls ++ [x]), [b].
      cbn [w_color buffer column_position app]. rewrite <- app_assoc. split_and!; done || cbn; lia.
    + rewrite (proj2 (Z.leb_gt _ _)), bind_bind_Ret by lia. cbv zeta.
      rewrite (displays_put w0 ls x _ b) by (done || lia).
      eexists. split; [reflexivity|]. exists ls, (x ++ [b]).
      cbn [w_color buffer column_position]. rewrite length_app. cbn [length].
      split_and!; done || lia.
Qed.

Lemma displays_start w : writer_ok w → column_position w = 0 → displays w (layout []) w.
Proof.
  intros [[Hlen Hrows] _] Hc. exists [], []. split_and!; [done|cbn; lia|done| |done].
  unfold screen, row_over, under. cbn.
  destruct (lookup_lt_is_Some_2 (buffer w) 24) as [r Hr]; [lia|]. rewrite Hr. cbn.
  rewrite <- (take_drop 24 (buffer w)) at 1. f_equal.
  rewrite (drop_S _ _ _ Hr), drop_ge by lia. done.
Qed.

Lemma write_string_displays w s :
  writer_ok w → column_position w = 0 →
  ∃ w', write_string w s = Ret w' ∧ displays w (layout (printed <$> s)) w'.
Proof.
  intros Hw Hc. induction s as [|b s IH] using rev_ind.
  { exists w. split; [done|]. by apply displays_start. }
  destruct IH as (w1 & Hrun & Hd). destruct (write_string_ok w s Hw) as (w1' & Hrun' & Hw1 & _).
  assert (w1' = w1) as -> by congruence. unfold write_string in *. rewrite for_each_app, Hrun, bind_bind_Ret.
  destruct (displays_write w (printed <$> s) (printed b) w1 Hw Hw1 Hd) as (w' & Hb & Hd').
  exists w'. cbn [for_each]. rewrite Hb. split; [done|]. by rewrite fmap_app.
Qed.

(** C39: the console is memory-safe on every text: on a writer whose buffer is
    25 rows of 80 cells with the cursor at most one behind the bottom row,
    [write_string] of any bytes returns without an index out of bounds, and
    the writer it leaves is such a writer again, in the same colour. *)
Theorem vga_type_safe w s :
  writer_ok w → ∃ w', write_string w s = Ret w' ∧ writer_ok w' ∧ w_color w' = w_color w.
Proof. apply write_string_ok. Qed.

(** C33: the in-place scrolling console shows the layout of its text. From a
    writer at the start of its bottom row, [write_string s] leaves on the
    screen the last 25 rows of what was above the cursor followed by the text
    cut at the line feeds and every eighty characters (bytes that cannot be
    printed as the block 0xfe), and the cursor behind the last character. *)
Theorem vga_shows_layout w s :
  writer_ok w → column_position w = 0 →
  ∃ w' ls l, write_string w s = Ret w' ∧ layout (printed <$> s) = ls ++ [l] ∧
    buffer w' = screen (w_color w) (buffer w) (layout (printed <$> s)) ∧
    column_position w' = Z.of_nat (length l).
Proof.
  intros Hw Hc. destruct (write_string_displays w s Hw Hc) as (w' & Hrun & ls & l & Hl & _ & _ & Hb & Hcol).
  by exists w', ls, l.
Qed.

(** A line that fits. *)
Definition one_line (s : list Z) : Prop := Forall (λ b, 0x20 ≤ b ≤ 0x7e) s ∧ (length s ≤ 80)%nat.

Lemma printed_line s : Forall (λ b, 0x20 ≤ b ≤ 0x7e) s → printed <$> s = s.
Proof.
  induction 1 as [|b s Hb _ IH]; [done|]. cbn [fmap list_fmap]. rewrite IH. f_equal. unfold printed.
  by rewrite (proj2 (Z.leb_le 0x20 b)), (proj2 (Z.leb_le b 0x7e)) by lia.
Qed.

Lemma layout_line s : one_line s → layout (s ++ [NEWLINE]) = [s; []].
Proof.
  intros [Hs Hl].
  assert (Hsp : split_lines s = [s]).
  { induction Hs as [|b s Hb _ IH]; [done|]. cbn in *. rewrite IH by lia.
    by rewrite (proj2 (Z.eqb_neq b NEWLINE)) by (unfold NEWLINE; lia). }
  unfold layout. destruct (split_lines_snoc s NEWLINE) as (ls & l & H1 & H2). rewrite H2.
  change (NEWLINE =? NEWLINE) with true.
  rewrite Hsp in H1. apply (app_inj_tail [] ls) in H1 as [<- <-].
  assert (Hp : pieces s = 1%nat).
  { destruct (pieces_bounds s) as (? & ? & ?). lia. }
  cbn [mbind list_bind app]. rewrite (wrap_last s), Hp. done.
Qed.

(** What is printed can be read back from the screen: after
    [println!("{}", s)] of a line that fits, from a writer at the start of its
    bottom row, the row above the cursor starts with exactly the characters of
    [s] in the writer's colour (the repository's test [test_println_output],
    for every line). *)
Theorem println_reads_back w s :
  writer_ok w → column_position w = 0 → one_line s →
  ∃ w', println w s = Ret w' ∧ column_position w' = 0 ∧
    ∀ i b, s !! i = Some b → read_char (buffer w') (BUFFER_HEIGHT - 2) (Z.of_nat i) = Ret (mkChar b (w_color w)).
Proof.
  intros Hw Hc Hs. unfold println.
  destruct (write_string_displays w (s ++ [NEWLINE]) Hw Hc) as (w' & Hrun & ls & l & Hl & _ & _ & Hb & Hcol).
  unfold write_string in *. rewrite for_each_app in Hrun. exists w'. split; [exact Hrun|].
  rewrite fmap_app, printed_line in Hl, Hb by apply Hs.
  change (printed <$> [NEWLINE]) with [NEWLINE] in *. rewrite layout_line in Hl, Hb by done.
  apply (app_inj_tail [s] ls) in Hl as [<- <-]. split; [done|].
  intros i b Hi. change (BUFFER_HEIGHT - 2) with (Z.of_nat 23).
  eapply (read_char_ok _ _ _ (row_over (w_color w) (under (w_color w) (buffer w) 0) s)).
  - rewrite Hb. unfold screen. cbn [length Nat.sub]. rewrite lookup_drop, lookup_app_r;
      rewrite length_take, (proj1 (proj1 Hw)); [|lia]. done.
  - unfold row_over. rewrite lookup_app_l by (rewrite length_fmap; by eapply lookup_lt_Some).
    by rewrite list_lookup_fmap, Hi.
Qed.

(** ** Witnesses: a blank screen *)

Definition blank_screen : Buffer := replicate 25 (replicate 80 (mkChar 32 7)).

Lemma blank_screen_ok : writer_ok (WRITER blank_screen).
Proof.
  split; [|cbn; lia]. split; [done|]. apply Forall_replicate. done.
Qed.

Lemma vga_type_safe_witness :
  ∃ w', write_string (WRITER blank_screen) (replicate 200 0x80) = Ret w' ∧ writer_ok w'.
Proof.
  destruct (vga_type_safe (WRITER blank_screen) (replicate 200 0x80) blank_screen_ok) as (w' & H1 & H2 & _).
  exact (ex_intro _ w' (conj H1 H2)).
Defined.

(** "Hi\n": the text ends up in the row above the cursor, in yellow on black. *)
Lemma vga_shows_layout_witness :
  ∃ w', write_string (WRITER blank_screen) [72; 105; 10] = Ret w' ∧ column_position w' = 0 ∧
    (buffer w' !! 23%nat ≫= (.!! 0%nat)) = Some (mkChar 72 14).
Proof.
  destruct (vga_shows_layout (WRITER blank_screen) [72; 105; 10] blank_screen_ok eq_refl)
    as (w' & ls & l & Hrun & Hl & Hb & Hc).
  exists w'. split; [exact Hrun|]. rewrite Hb, Hc. split; [|vm_compute; reflexivity].
  change (layout _) with ([[72; 105]] ++ [[] : list Z]) in Hl.
  apply app_inj_tail in Hl as [_ <-]. reflexivity.
Defined.

Lemma println_reads_back_witness :
  ∃ w', println (WRITER blank_screen) [83; 111; 109; 101] = Ret w' ∧
    read_char (buffer w') 23 3 = Ret (mkChar 101 14).
Proof.
  destruct (println_reads_back (WRITER blank_screen) [83; 111; 109; 101] blank_screen_ok eq_refl)
    as (w' & Hrun & _ & Hread).
  { split; [repeat constructor; lia|cbn; lia]. }
  exact (ex_intro _ w' (conj Hrun (Hread 3%nat 101 eq_refl))).
Defined.
