(* ===== verification/IoApic.v ===== *)
(** * Interrupt routing (devices/io_apic.rs)

    The driver of the I/O APICs: their indirectly addressed registers, the
    64-bit redirection entries, masking, and [init], which routes the sixteen
    legacy interrupts. The chip is behind the interface [IoApicDevice]; what
    the driver relies on is [IoApicLaws], the register model of the data sheet
    (82093AA): two windows, one to select a register and one to access it, and
    redirection registers whose status bits are read-only. The theorems are
    proved against the laws; [RegisterFile] is a chip that has them. *)
From S2P Require Import Prelude.

(** [u32] and [u8] arithmetic of the development profile. *)
Definition add32 (a b : Z) : outcome Z := if a + b <? 2 ^ 32 then Ret (a + b) else Panic Overflow.
Definition sub32 (a b : Z) : outcome Z := if b <=? a then Ret (a - b) else Panic Overflow.
Definition add8 (a b : Z) : outcome Z := if a + b <? 2 ^ 8 then Ret (a + b) else Panic Overflow.
Definition mul8 (a b : Z) : outcome Z := if a * b <? 2 ^ 8 then Ret (a * b) else Panic Overflow.

(** ** The chip *)

Class IoApicDevice (D : Type) := {
  write_ioregsel : Z → D → D;
  read_iowin : D → Z;
  write_iowin : Z → D → D }.

(** The bits of a redirection register that software writes: everything in the
    low half but the delivery status (12) and the remote IRR (14) and the
    reserved bits; the destination in the high half. *)
Definition writable (reg : Z) : Z := if Z.even reg then 0x1AFFF else 0xFF000000.

Definition is_redirection (reg : Z) : Prop := 0x10 ≤ reg < 0x40.

Class IoApicLaws (D : Type) `{IoApicDevice D} := {
  register : D → Z → Z;
  selected : D → Z;
  register_32 d r : 0 ≤ register d r < 2 ^ 32;
  read_iowin_reg d : read_iowin d = register d (selected d);
  select_selected v d : 0 ≤ v < 256 → selected (write_ioregsel v d) = v;
  select_register v d r : register (write_ioregsel v d) r = register d r;
  write_selected v d : selected (write_iowin v d) = selected d;
  write_register_eq v d : is_redirection (selected d) → 0 ≤ v < 2 ^ 32 →
    register (write_iowin v d) (selected d) =
    Z.lor (Z.land v (writable (selected d))) (Z.ldiff (register d (selected d)) (writable (selected d)));
  write_register_ne v d r : selected d ≠ r → register (write_iowin v d) r = register d r }.

(** ** The driver *)

Section driver.
Context {D : Type} `{IoApicDevice D}.

Definition read_reg (reg : Z) (d : D) : Z * D :=
  let d := write_ioregsel reg d in (read_iowin d, d).
Definition write_reg (reg value : Z) (d : D) : D :=
  write_iowin value (write_ioregsel reg d).

Definition read_ioapicid (d : D) : Z * D := read_reg 0x00 d.
Definition read_ioapicver (d : D) : Z * D := read_reg 0x01 d.

(** [0x10 + idx * 2], and the register after it. *)
Definition redtbl_reg (idx : Z) : outcome Z := t ← mul8 idx 2; add8 0x10 t.

Definition read_ioredtbl (idx : Z) (d : D) : outcome (Z * D) :=
  assert_ (idx <? 24);;
  r ← redtbl_reg idx;
  let '(lo, d) := read_reg r d in
  r ← redtbl_reg idx; r' ← add8 r 1;
  let '(hi, d) := read_reg r' d in
  Ret (Z.lor lo (Z.shiftl hi 32), d).

Definition write_ioredtbl (idx value : Z) (d : D) : outcome D :=
  assert_ (idx <? 24);;
  let lo := truncate 32 value in
  let hi := truncate 32 (Z.shiftr value 32) in
  r ← redtbl_reg idx;
  let d := write_reg r lo d in
  r ← redtbl_reg idx; r' ← add8 r 1;
  Ret (write_reg r' hi d).

Definition max_redirection_table_entries (d : D) : Z * D :=
  let '(ver, d) := read_ioapicver d in (truncate 8 (Z.shiftr (Z.land ver 0x00FF0000) 16), d).
Definition apic_id (d : D) : Z * D :=
  let '(id_reg, d) := read_ioapicid d in (truncate 8 (Z.shiftr (Z.land id_reg 0x0F000000) 24), d).

Record IoApic := mkIoApic { registers : D; count : Z; global_system_interrupt_base : Z }.

(** [IoApic::new]. [open_] maps the registers at a physical address. *)
Definition new (open_ : Z → option D) (address id gsi_base : Z) : outcome (option IoApic) :=
  match open_ address with
  | None => Ret None
  | Some d =>
      let '(got, d) := apic_id d in
      assert_ (got =? id);;
      let '(count, d) := max_redirection_table_entries d in
      Ret (Some (mkIoApic d count gsi_base))
  end.

Inductive Polarity := PolaritySameAsBus | PolarityActiveHigh | PolarityActiveLow.
Inductive TriggerMode := TriggerSameAsBus | TriggerEdge | TriggerLevel.

Record Override := mkOverride {
  isa_source : Z; global_system_interrupt : Z; polarity : Polarity; trigger_mode : TriggerMode }.

Inductive ApicTriggerMode := Edge | Level.
Inductive ApicPolarity := ActiveHigh | ActiveLow.
Inductive DestinationMode := Physical | Logical.
Inductive DeliveryMode := Fixed | LowestPriority | Smi | Nmi | Init | ExtInt.

(** The discriminants, [x as u64]. *)
Definition trigger_code (t : ApicTriggerMode) : Z := match t with Edge => 0 | Level => 1 end.
Definition polarity_code (p : ApicPolarity) : Z := match p with ActiveHigh => 0 | ActiveLow => 1 end.
Definition dest_mode_code (m : DestinationMode) : Z := match m with Physical => 0 | Logical => 1 end.
Definition delivery_code (m : DeliveryMode) : Z :=
  match m with Fixed => 0 | LowestPriority => 1 | Smi => 2 | Nmi => 4 | Init => 5 | ExtInt => 7 end.

Record MapInfo := mkMapInfo {
  dest : Z; mask : bool; mi_trigger : ApicTriggerMode; mi_polarity : ApicPolarity;
  dest_mode : DestinationMode; delivery_mode : DeliveryMode; vector : Z }.

Definition as_raw (i : MapInfo) : outcome Z :=
  assert_ (0x20 <=? vector i);;
  assert_ (vector i <=? 0xFE);;
  Ret (Z.lor (Z.lor (Z.lor (Z.lor (Z.lor (Z.lor
    (Z.shiftl (dest i) 56)
    (Z.shiftl (Z.b2z (mask i)) 16))
    (Z.shiftl (trigger_code (mi_trigger i)) 15))
    (Z.shiftl (polarity_code (mi_polarity i)) 13))
    (Z.shiftl (dest_mode_code (dest_mode i)) 11))
    (Z.shiftl (delivery_code (delivery_mode i)) 8))
    (vector i)).

Definition map (a : IoApic) (idx : Z) (info : MapInfo) : outcome IoApic :=
  raw ← as_raw info;
  d ← write_ioredtbl idx raw (registers a);
  Ret (mkIoApic d (count a) (global_system_interrupt_base a)).

Definition set_mask (a : IoApic) (gsi : Z) (mask : bool) : outcome IoApic :=
  off ← sub32 gsi (global_system_interrupt_base a);
  let idx := truncate 8 off in
  r ← read_ioredtbl idx (registers a);
  let '(reg, d) := r in
  let reg := Z.land reg (not64 (Z.shiftl 1 16)) in
  let reg := Z.lor reg (Z.shiftl (Z.b2z mask) 16) in
  d ← write_ioredtbl idx reg d;
  Ret (mkIoApic d (count a) (global_system_interrupt_base a)).

(** ** Routing the legacy interrupts *)

(** What [init] leaves in [IOAPICS] and [SRC_OVERRIDES]. *)
Record Routing := mkRouting { io_apics : list IoApic; src_overrides : list Override }.

Definition get_src_override (s : Routing) (irq : Z) : option Override :=
  snd <$> list_find (λ o, isa_source o = irq) (src_overrides s).

(** The test of [find_ioapic]; the sum is one of [u32]. *)
Definition serves (gsi : Z) (a : IoApic) : outcome bool :=
  if global_system_interrupt_base a <=? gsi
  then limit ← add32 (global_system_interrupt_base a) (count a); Ret (gsi <? limit)
  else Ret false.

(** [io_apics().iter().find(..)], as the position of the chip. *)
Fixpoint find_from (gsi : Z) (i : nat) (l : list IoApic) : outcome (option nat) :=
  match l with
  | [] => Ret None
  | a :: l' => b ← serves gsi a; if b : bool then Ret (Some i) else find_from gsi (S i) l'
  end.
Definition find_ioapic (s : Routing) (gsi : Z) : outcome (option nat) := find_from gsi 0 (io_apics s).

(** Where a legacy interrupt goes, or [None] for one that another override has
    taken the place of. *)
Definition legacy_target (s : Routing) (irq : Z) : option (Z * TriggerMode * Polarity) :=
  match get_src_override s irq with
  | Some over => Some (global_system_interrupt over, trigger_mode over, polarity over)
  | None =>
      if existsb (λ over, (global_system_interrupt over =? irq) && negb (isa_source over =? irq))
           (src_overrides s)
         && negb (existsb (λ over, isa_source over =? irq) (src_overrides s))
      then None
      else Some (irq, TriggerSameAsBus, PolaritySameAsBus)
  end.

Definition legacy_info (bsp_apic_id irq : Z) (t : TriggerMode) (p : Polarity) : outcome MapInfo :=
  v ← add8 32 irq;
  Ret (mkMapInfo bsp_apic_id false
    (match t with TriggerEdge => Edge | TriggerLevel => Level | TriggerSameAsBus => Edge end)
    (match p with PolarityActiveHigh => ActiveHigh | PolarityActiveLow => ActiveLow
                | PolaritySameAsBus => ActiveHigh end)
    Physical Fixed v).

(** One turn of the loop over the legacy interrupts. *)
Definition route_legacy (bsp_apic_id irq : Z) (s : Routing) : outcome Routing :=
  match legacy_target s irq with
  | None => Ret s
  | Some (gsi, t, p) =>
      found ← find_ioapic s gsi;
      match found with
      | None => Ret s
      | Some i =>
          apic ← slice_get (io_apics s) (Z.of_nat i);
          off ← sub32 gsi (global_system_interrupt_base apic);
          info ← legacy_info bsp_apic_id irq t p;
          apic' ← map apic (truncate 8 off) info;
          l ← slice_set (io_apics s) (Z.of_nat i) apic';
          Ret (mkRouting l (src_overrides s))
      end
  end.

(** The interrupt model of the ACPI tables. *)
Record AcpiIoApic := mkAcpiIoApic { acpi_id : Z; acpi_address : Z; acpi_gsi_base : Z }.
Record ApicModel := mkApicModel { model_io_apics : list AcpiIoApic; model_overrides : list Override }.

(** The answer of the firmware's [\_PIC] method. *)
Inductive PicResult := PicOk | PicValueDoesNotExist | PicError.

Definition add_ioapic (open_ : Z → option D) (a : AcpiIoApic) (l : list IoApic) : outcome (list IoApic) :=
  o ← new open_ (acpi_address a) (acpi_id a) (acpi_gsi_base a);
  match o with
  | Some apic => Ret (l ++ [apic])
  | None => Panic ExplicitPanic
  end.

(** [init], with the processor's answer to [cpuid], the parsed ACPI tables and
    the way to the chips as arguments. *)
Definition init (feature_info : option Z) (acpi : option (option ApicModel)) (open_ : Z → option D)
    (invoke_pic : PicResult) : outcome Routing :=
  bsp_apic_id ← unwrap feature_info;
  interrupt_model ← unwrap acpi;
  match interrupt_model with
  | None => Panic ExplicitPanic
  | Some model =>
      l ← for_each (add_ioapic open_) (model_io_apics model) [];
      s ← for_each (route_legacy bsp_apic_id) (seqZ 0 16) (mkRouting l (model_overrides model));
      match invoke_pic with
      | PicOk | PicValueDoesNotExist => Ret s
      | PicError => Panic ExplicitPanic
      end
  end.

End driver.

Arguments IoApic D : clear implicits.
Arguments Routing D : clear implicits.

(** ** Redirection entries *)

Section entries.
Context {D : Type} `{IoApicLaws D}.

(** The 64-bit entry of a pin, as it is in the chip. *)
Definition entry (d : D) (pin : Z) : Z :=
  register d (0x10 + pin * 2) + register d (0x10 + pin * 2 + 1) * 2 ^ 32.

(** The entry [v] written over [old], status bits kept. *)
Definition written (old v : Z) : Z :=
  let W := 0xFF0000000001AFFF in Z.lor (Z.land v W) (Z.ldiff old W).

Lemma redtbl_reg_ok idx : 0 ≤ idx < 24 → redtbl_reg idx = Ret (0x10 + idx * 2).
Proof.
  intros Hi. unfold redtbl_reg, mul8, add8. rewrite (proj2 (Z.ltb_lt _ _)) by lia. cbn.
  by rewrite (proj2 (Z.ltb_lt _ _)) by lia.
Qed.

Lemma read_reg_ok r d :
  0 ≤ r < 256 → (read_reg r d).1 = register d r ∧ ∀ r', register (read_reg r d).2 r' = register d r'.
Proof.
  intros Hr. unfold read_reg. cbn [fst snd]. rewrite read_iowin_reg, select_selected by done.
  split; [apply select_register|]. intros. apply select_register.
Qed.

Lemma write_reg_eq r v d :
  is_redirection r → 0 ≤ v < 2 ^ 32 →
  register (write_reg r v d) r = Z.lor (Z.land v (writable r)) (Z.ldiff (register d r) (writable r)).
Proof.
  intros Hr Hv. unfold write_reg. assert (0 ≤ r < 256) by (unfold is_redirection in Hr; lia).
  pose proof (write_register_eq v (write_ioregsel r d)) as Hw.
  rewrite select_selected in Hw by done. rewrite Hw by done. by rewrite select_register.
Qed.

Lemma write_reg_ne r v d r' : 0 ≤ r < 256 → r ≠ r' → register (write_reg r v d) r' = register d r'.
Proof.
  intros Hr Hne. unfold write_reg. rewrite write_register_ne by by rewrite select_selected.
  apply select_register.
Qed.

(** Two 32-bit halves make a word, bit by bit. *)
Lemma halves_bits lo hi i :
  0 ≤ lo < 2 ^ 32 → 0 ≤ i →
  Z.testbit (lo + hi * 2 ^ 32) i = if i <? 32 then Z.testbit lo i else Z.testbit hi (i - 32).
Proof.
  intros Hlo Hi. destruct (Z.ltb_spec i 32).
  - rewrite <- (Z.mod_pow2_bits_low _ 32) by lia. rewrite Z.mod_add by lia.
    by rewrite Z.mod_small by done.
  - replace i with (i - 32 + 32) at 1 by lia. rewrite <- Z.div_pow2_bits by lia.
    rewrite Z.div_add by lia. by rewrite Z.div_small by done.
Qed.

Lemma entry_bits d pin i :
  0 ≤ i → Z.testbit (entry d pin) i =
    if i <? 32 then Z.testbit (register d (0x10 + pin * 2)) i
    else Z.testbit (register d (0x10 + pin * 2 + 1)) (i - 32).
Proof. intros. apply halves_bits; [apply register_32|done]. Qed.

Lemma truncate_32 x : 0 ≤ truncate 32 x < 2 ^ 32.
Proof. unfold truncate. apply Z.mod_pos_bound. lia. Qed.

Lemma writable_bits pin i :
  0 ≤ i < 64 →
  Z.testbit 0xFF0000000001AFFF i =
    if i <? 32 then Z.testbit (writable (0x10 + pin * 2)) i
    else Z.testbit (writable (0x10 + pin * 2 + 1)) (i - 32).
Proof.
  intros Hi. unfold writable.
  assert (Hev : Z.even (16 + pin * 2) = true) by (rewrite Z.even_add, Z.even_mul, orb_true_r; done).
  rewrite (Z.even_add _ 1), Hev. change (eqb true (Z.even 1)) with false. cbv iota.
  change 0xFF0000000001AFFF with (0x1AFFF + 0xFF000000 * 2 ^ 32).
  rewrite halves_bits by lia. done.
Qed.

(** Writing an entry: the writable bits of that pin, and nothing else. *)
Lemma write_ioredtbl_ok idx v d :
  0 ≤ idx < 24 →
  ∃ d', write_ioredtbl idx v d = Ret d' ∧
    (∀ i, 0 ≤ i < 64 → Z.testbit (entry d' idx) i = Z.testbit (written (entry d idx) v) i) ∧
    (∀ r, r ≠ 0x10 + idx * 2 → r ≠ 0x10 + idx * 2 + 1 → register d' r = register d r).
Proof.
  intros Hi. unfold write_ioredtbl. rewrite (proj2 (Z.ltb_lt _ _)) by lia. cbn [assert_ mbind outcome_bind].
  rewrite !redtbl_reg_ok by done. cbn [mbind outcome_bind]. unfold add8.
  rewrite (proj2 (Z.ltb_lt _ _)) by lia. cbn [mbind outcome_bind].
  eexists. split; [reflexivity|]. split.
  - intros i Hi'. rewrite entry_bits by lia. unfold written.
    rewrite Z.lor_spec, Z.land_spec, Z.ldiff_spec, (writable_bits idx) by done.
    rewrite entry_bits by lia. destruct (Z.ltb_spec i 32).
    + rewrite write_reg_ne, write_reg_eq by (unfold is_redirection; lia || apply truncate_32).
      rewrite Z.lor_spec, Z.land_spec, Z.ldiff_spec. unfold truncate.
      by rewrite Z.mod_pow2_bits_low by lia.
    + rewrite write_reg_eq, write_reg_ne by (unfold is_redirection; lia || apply truncate_32).
      rewrite Z.lor_spec, Z.land_spec, Z.ldiff_spec. unfold truncate.
      rewrite Z.mod_pow2_bits_low, Z.shiftr_spec by lia. by rewrite Z.sub_add.
  - intros r H1 H2. rewrite !write_reg_ne by lia. done.
Qed.

Lemma entry_range d pin : 0 ≤ entry d pin < 2 ^ 64.
Proof. unfold entry. pose proof (register_32 d (16 + pin * 2)). pose proof (register_32 d (16 + pin * 2 + 1)). lia. Qed.

Lemma entry_high_bits d pin i : 64 ≤ i → Z.testbit (entry d pin) i = false.
Proof.
  intros Hi. rewrite <- (Z.mod_small (entry d pin) (2 ^ 64)) by apply entry_range.
  by apply Z.mod_pow2_bits_high; lia.
Qed.

Lemma written_high_bits old v i : 64 ≤ i → Z.testbit old i = false → Z.testbit (written old v) i = false.
Proof.
  intros Hi Ho. unfold written. rewrite Z.lor_spec, Z.land_spec, Z.ldiff_spec, Ho.
  assert (Z.testbit 0xFF0000000001AFFF i = false) as ->; [|by rewrite andb_false_r].
  apply (Z.mod_pow2_bits_high 0xFF0000000001AFFF 64). lia.
Qed.

Lemma write_ioredtbl_entry idx v d :
  0 ≤ idx < 24 →
  ∃ d', write_ioredtbl idx v d = Ret d' ∧ entry d' idx = written (entry d idx) v ∧
    ∀ pin, pin ≠ idx → entry d' pin = entry d pin.
Proof.
  intros Hi. destruct (write_ioredtbl_ok idx v d Hi) as (d' & Hw & Hb & Hr). exists d'. split; [done|]. split.
  - apply Z.bits_inj'. intros i Hi'. destruct (Z.ltb_spec i 64); [by apply Hb|].
    rewrite entry_high_bits by done. symmetry. apply written_high_bits; [done|]. by apply entry_high_bits.
  - intros pin Hne. unfold entry. rewrite !Hr by lia. done.
Qed.

Lemma read_ioredtbl_ok idx d :
  0 ≤ idx < 24 →
  ∃ d', read_ioredtbl idx d = Ret (entry d idx, d') ∧ ∀ r, register d' r = register d r.
Proof.
  intros Hi. unfold read_ioredtbl. rewrite (proj2 (Z.ltb_lt _ _)) by lia. cbn [assert_ mbind outcome_bind].
  rewrite !redtbl_reg_ok by done. cbn [mbind outcome_bind].
  destruct (read_reg_ok (0x10 + idx * 2) d ltac:(lia)) as [Hlo Hd1].
  destruct (read_reg (0x10 + idx * 2) d) as [lo d1]. cbn [fst snd] in *. unfold add8.
  rewrite (proj2 (Z.ltb_lt _ _)) by lia. cbn [mbind outcome_bind].
  destruct (read_reg_ok (0x10 + idx * 2 + 1) d1 ltac:(lia)) as [Hhi Hd2].
  destruct (read_reg (0x10 + idx * 2 + 1) d1) as [hi d2]. cbn [fst snd] in *.
  exists d2. split; [|by intros; rewrite Hd2, Hd1].
  rewrite Hlo, Hhi, Hd1, Z.lor_comm. rewrite (lor_disjoint _ _ 32).
  - unfold entry. rewrite Z.shiftl_mul_pow2 by lia. do 2 f_equal. lia.
  - lia.
  - rewrite Z.shiftl_mul_pow2 by lia. by apply Z_mod_mult.
  - apply register_32.
Qed.

(** What the chip does with an entry: the description that [map] was given, if
    the delivery mode is a defined one. *)
Definition decode_delivery (c : Z) : option DeliveryMode :=
  match c with
  | 0 => Some Fixed | 1 => Some LowestPriority | 2 => Some Smi | 4 => Some Nmi | 5 => Some Init
  | 7 => Some ExtInt | _ => None
  end.

Definition decode (e : Z) : option MapInfo :=
  dm ← decode_delivery (bit_field e 8 3);
  Some (mkMapInfo (bit_field e 56 8) (bit_field e 16 1 =? 1)
    (if bit_field e 15 1 =? 1 then Level else Edge)
    (if bit_field e 13 1 =? 1 then ActiveLow else ActiveHigh)
    (if bit_field e 11 1 =? 1 then Logical else Physical) dm (bit_field e 0 8)).

(** The raw word is the sum of its fields. *)
Definition raw_sum (i : MapInfo) : Z :=
  dest i * 2 ^ 56 + Z.b2z (mask i) * 2 ^ 16 + trigger_code (mi_trigger i) * 2 ^ 15 +
  polarity_code (mi_polarity i) * 2 ^ 13 + dest_mode_code (dest_mode i) * 2 ^ 11 +
  delivery_code (delivery_mode i) * 2 ^ 8 + vector i.

Lemma codes_range i :
  0 ≤ Z.b2z (mask i) ≤ 1 ∧ 0 ≤ trigger_code (mi_trigger i) ≤ 1 ∧ 0 ≤ polarity_code (mi_polarity i) ≤ 1 ∧
  0 ≤ dest_mode_code (dest_mode i) ≤ 1 ∧ 0 ≤ delivery_code (delivery_mode i) ≤ 7.
Proof. destruct i as [? [] [] [] [] [] ?]; cbn; lia. Qed.

Definition info_ok (i : MapInfo) : Prop := 0 ≤ dest i < 256 ∧ 0x20 ≤ vector i ≤ 0xFE.

Lemma as_raw_ok i : info_ok i → as_raw i = Ret (raw_sum i).
Proof.
  intros [Hd Hv]. unfold as_raw. rewrite (proj2 (Z.leb_le _ _)) by lia. cbn [assert_ mbind outcome_bind].
  rewrite (proj2 (Z.leb_le _ _)) by lia. cbn [assert_ mbind outcome_bind]. f_equal. unfold raw_sum.
  pose proof (codes_range i) as Hc. revert Hc.
  generalize (Z.b2z (mask i)) (trigger_code (mi_trigger i)) (polarity_code (mi_polarity i))
    (dest_mode_code (dest_mode i)) (delivery_code (delivery_mode i)). intros a b c d e Hc.
  rewrite !Z.shiftl_mul_pow2 by lia.
  rewrite (lor_disjoint (dest i * 2 ^ 56) (a * 2 ^ 16) 17) by mlia.
  rewrite (lor_disjoint _ (b * 2 ^ 15) 16) by mlia.
  rewrite (lor_disjoint _ (c * 2 ^ 13) 14) by mlia.
  rewrite (lor_disjoint _ (d * 2 ^ 11) 12) by mlia.
  rewrite (lor_disjoint _ (e * 2 ^ 8) 11) by mlia.
  by rewrite (lor_disjoint _ (vector i) 8) by mlia.
Qed.

(** The fields of an entry after a write are those of the word written. *)
Lemma written_field old v lo len :
  0 ≤ lo → 0 ≤ len → bit_field 0xFF0000000001AFFF lo len = 2 ^ len - 1 →
  bit_field (written old v) lo len = bit_field v lo len.
Proof.
  intros Hlo Hlen HW. apply bit_field_ext; [done..|]. intros i Hi.
  assert (Z.testbit 0xFF0000000001AFFF i = true) as HWi.
  { pose proof (bit_field_testbit 0xFF0000000001AFFF lo len (i - lo) Hlo Hlen ltac:(lia)) as Hb.
    rewrite HW, (proj2 (Z.ltb_lt _ _)), Z.sub_add in Hb by lia. rewrite <- Hb.
    replace (2 ^ len - 1) with (Z.ones len) by (rewrite Z.ones_equiv; lia).
    apply Z.ones_spec_low. lia. }
  unfold written. rewrite Z.lor_spec, Z.land_spec, Z.ldiff_spec, HWi.
  by rewrite andb_true_r, andb_false_r, orb_false_r.
Qed.

Lemma decode_raw i : info_ok i → decode (raw_sum i) = Some i.
Proof.
  intros [Hd Hv]. pose proof (codes_range i) as Hc.
  set (e := raw_sum i). unfold raw_sum in e.
  assert (H1 : bit_field e 0 8 = vector i) by (unfold bit_field, e; mlia).
  assert (H2 : bit_field e 8 3 = delivery_code (delivery_mode i)) by (unfold bit_field, e; mlia).
  assert (H3 : bit_field e 11 1 = dest_mode_code (dest_mode i)) by (unfold bit_field, e; mlia).
  assert (H4 : bit_field e 13 1 = polarity_code (mi_polarity i)) by (unfold bit_field, e; mlia).
  assert (H5 : bit_field e 15 1 = trigger_code (mi_trigger i)) by (unfold bit_field, e; mlia).
  assert (H6 : bit_field e 16 1 = Z.b2z (mask i)) by (unfold bit_field, e; mlia).
  assert (H7 : bit_field e 56 8 = dest i) by (unfold bit_field, e; mlia).
  unfold decode. change (raw_sum i) with e. rewrite H1, H2, H3, H4, H5, H6, H7. clear.
  by destruct i as [? [] [] [] [] [] ?].
Qed.

Lemma decode_written old v : decode (written old v) = decode v.
Proof. unfold decode. by rewrite !written_field by done. Qed.

End entries.

(** ** Mapping and masking a pin *)

Section pins.
Context {D : Type} `{IoApicLaws D}.

Lemma map_ok (a : IoApic D) idx info :
  0 ≤ idx < 24 → info_ok info →
  ∃ d', map a idx info = Ret (mkIoApic d' (count a) (global_system_interrupt_base a)) ∧
    decode (entry d' idx) = Some info ∧
    ∀ pin, pin ≠ idx → entry d' pin = entry (registers a) pin.
Proof.
  intros Hi Hok. unfold map. rewrite as_raw_ok by done. cbn [mbind outcome_bind].
  destruct (write_ioredtbl_entry idx (raw_sum info) (registers a) Hi) as (d' & -> & He & Ho).
  exists d'. split; [done|]. split; [|done]. by rewrite He, decode_written, decode_raw.
Qed.

(** [IoApic::map] programs exactly one pin: for a pin below 24 and a
    vector in the range an I/O APIC accepts, the chip's redirection entry of
    that pin then decodes to the very description given (destination, mask,
    trigger mode, polarity, destination and delivery mode, vector), and the
    entries of all other pins are as before; a pin out of range or a vector
    out of range panics instead. *)
Theorem ioapic_map_correct (a : IoApic D) idx info :
  0 ≤ dest info < 256 → 0 ≤ idx →
  if (idx <? 24) && (0x20 <=? vector info) && (vector info <=? 0xFE) then
    ∃ a', map a idx info = Ret a' ∧ decode (entry (registers a') idx) = Some info ∧
      count a' = count a ∧ global_system_interrupt_base a' = global_system_interrupt_base a ∧
      ∀ pin, pin ≠ idx → entry (registers a') pin = entry (registers a) pin
  else map a idx info = Panic AssertFailed.
Proof.
  intros Hd Hi. unfold map, as_raw.
  destruct (Z.leb_spec 0x20 (vector info)); [|by rewrite andb_false_r].
  destruct (Z.leb_spec (vector info) 0xFE); [|by rewrite andb_false_r].
  rewrite !andb_true_r. destruct (Z.ltb_spec idx 24).
  - destruct (map_ok a idx info) as (d' & Hm & Hdec & Ho); [lia|done|].
    unfold map, as_raw in Hm. rewrite !(proj2 (Z.leb_le _ _)) in Hm by lia.
    eexists. split; [exact Hm|]. done.
  - cbn [assert_ mbind outcome_bind]. unfold write_ioredtbl. by rewrite (proj2 (Z.ltb_ge _ _)) by lia.
Qed.

Lemma not64_bits k i : 0 ≤ k < 64 → 0 ≤ i < 64 → Z.testbit (not64 (Z.shiftl 1 k)) i = negb (i =? k).
Proof.
  intros Hk Hi. unfold not64. rewrite Z.lxor_spec.
  change 18446744073709551615 with (Z.ones 64). rewrite Z.ones_spec_low by lia.
  rewrite Z.shiftl_spec by lia. rewrite xorb_true_r. f_equal.
  destruct (Z.eqb_spec i k) as [->|Hne]; [by rewrite Z.sub_diag|].
  destruct (Z.ltb_spec i k); [by rewrite Z.testbit_neg_r by lia|].
  apply (Z.bits_above_log2 1); cbn; lia.
Qed.

(** The word [set_mask] writes back. *)
Lemma masked_word e m :
  0 ≤ e < 2 ^ 64 →
  written e (Z.lor (Z.land e (not64 (Z.shiftl 1 16))) (Z.shiftl (Z.b2z m) 16)) =
    if m then Z.setbit e 16 else Z.clearbit e 16.
Proof.
  intros He. apply Z.bits_inj'. intros i Hi.
  assert (Hhigh : 64 ≤ i → Z.testbit e i = false).
  { intros. rewrite <- (Z.mod_small e (2 ^ 64)) by done. by apply Z.mod_pow2_bits_high; lia. }
  assert (Hm : Z.testbit (Z.shiftl (Z.b2z m) 16) i = m && (i =? 16)).
  { rewrite Z.shiftl_spec by lia. destruct m; cbn [Z.b2z andb]; [|by rewrite Z.bits_0].
    destruct (Z.eqb_spec i 16) as [->|Hne]; [done|].
    destruct (Z.ltb_spec i 16); [by rewrite Z.testbit_neg_r by lia|].
    apply (Z.bits_above_log2 1); cbn; lia. }
  assert (Hr : Z.testbit (if m then Z.setbit e 16 else Z.clearbit e 16) i =
               if i =? 16 then m else Z.testbit e i).
  { destruct m.
    - rewrite Z.setbit_eqb by lia. rewrite (Z.eqb_sym 16). by destruct (i =? 16).
    - rewrite Z.clearbit_eqb. rewrite (Z.eqb_sym 16).
      destruct (i =? 16); cbn; by rewrite ?andb_false_r, ?andb_true_r. }
  rewrite Hr. destruct (Z.ltb_spec i 64).
  - unfold written. rewrite !Z.lor_spec, !Z.land_spec, Z.ldiff_spec, Z.lor_spec, Z.land_spec, Hm, not64_bits by lia.
    destruct (Z.eqb_spec i 16) as [->|Hne]; cbn [negb].
    + change (Z.testbit 0xFF0000000001AFFF 16) with true. by destruct m, (Z.testbit e 16).
    + by destruct (Z.testbit e i), (Z.testbit 0xFF0000000001AFFF i), m.
  - rewrite written_high_bits by (done || by apply Hhigh).
    destruct (Z.eqb_spec i 16); [lia|]. by rewrite Hhigh.
Qed.

(** [IoApic::set_mask] changes one bit: for an interrupt of this chip's
    range the mask bit of its pin becomes the value asked for, every other bit
    of the entry (status bits included) and every other pin stay as they were. *)
Theorem ioapic_set_mask_correct (a : IoApic D) gsi m :
  let pin := gsi - global_system_interrupt_base a in
  0 ≤ pin < 24 →
  ∃ a', set_mask a gsi m = Ret a' ∧
    entry (registers a') pin =
      (if m then Z.setbit (entry (registers a) pin) 16 else Z.clearbit (entry (registers a) pin) 16) ∧
    ∀ pin', pin' ≠ pin → entry (registers a') pin' = entry (registers a) pin'.
Proof.
  intros pin Hpin. unfold set_mask, sub32. rewrite (proj2 (Z.leb_le _ _)) by lia. cbn [mbind outcome_bind].
  fold pin. assert (truncate 8 pin = pin) as -> by (unfold truncate; apply Z.mod_small; lia).
  destruct (read_ioredtbl_ok pin (registers a) Hpin) as (d1 & -> & Hd1). cbn [mbind outcome_bind].
  set (v := Z.lor _ _).
  destruct (write_ioredtbl_entry pin v d1 Hpin) as (d2 & -> & He & Ho). cbn [mbind outcome_bind].
  assert (Hentry : ∀ p, entry d1 p = entry (registers a) p) by (intros; unfold entry; by rewrite !Hd1).
  eexists. split; [reflexivity|]. cbn [registers]. split.
  - rewrite He, Hentry. apply masked_word, entry_range.
  - intros p Hp. by rewrite Ho, Hentry.
Qed.
End pins.

(** ** Routing *)

Section routing.
Context {D : Type} `{IoApicLaws D}.

(** The chips [init] can work with: their interrupts fit in 32 bits and they
    have at most 24 pins. *)
Definition apic_ok (a : IoApic D) : Prop :=
  0 ≤ global_system_interrupt_base a ∧ 0 ≤ count a ≤ 24 ∧
  global_system_interrupt_base a + count a < 2 ^ 32.

(** What the overrides of the firmware must satisfy: one override per source,
    one source per interrupt. *)
Record overrides_ok (l : list Override) : Prop := {
  ov_source : NoDup (isa_source <$> l);
  ov_gsi : NoDup (global_system_interrupt <$> l);
  ov_range : Forall (λ o, 0 ≤ global_system_interrupt o < 2 ^ 32) l }.

(** The parts of the routing state that no step changes. *)
Definition chip (a : IoApic D) : Z * Z := (count a, global_system_interrupt_base a).
Definition same_chips (s s' : Routing D) : Prop :=
  src_overrides s' = src_overrides s ∧ chip <$> io_apics s' = chip <$> io_apics s.

Lemma serves_chip gsi (a a' : IoApic D) : chip a = chip a' → serves gsi a = serves gsi a'.
Proof. unfold chip, serves. by intros [= -> ->]. Qed.

Lemma find_from_chips gsi i (l l' : list (IoApic D)) :
  chip <$> l = chip <$> l' → find_from gsi i l = find_from gsi i l'.
Proof.
  revert i l'. induction l as [|a l IH]; intros i [|a' l'] Hl; [done..|].
  injection Hl as Hc Hb Hl. cbn. rewrite (serves_chip gsi a a') by (unfold chip; congruence).
  destruct (serves gsi a') as [[]| |]; [done| |done|done]. cbn. by apply IH.
Qed.

Lemma serves_ok gsi (a : IoApic D) :
  apic_ok a → serves gsi a =
    Ret (bool_decide (global_system_interrupt_base a ≤ gsi < global_system_interrupt_base a + count a)).
Proof.
  intros (Hb & Hc & Hl). unfold serves, add32. destruct (Z.leb_spec (global_system_interrupt_base a) gsi).
  - rewrite (proj2 (Z.ltb_lt _ _)) by lia. cbn. f_equal.
    destruct (Z.ltb_spec gsi (global_system_interrupt_base a + count a)); symmetry.
    + apply bool_decide_eq_true_2. lia.
    + apply bool_decide_eq_false_2. lia.
  - f_equal. symmetry. apply bool_decide_eq_false_2. lia.
Qed.

Lemma find_from_ok gsi i (l : list (IoApic D)) :
  Forall apic_ok l →
  ∃ o, find_from gsi i l = Ret o ∧
    ∀ j, o = Some j → ∃ a, (i ≤ j)%nat ∧ l !! (j - i)%nat = Some a ∧
      global_system_interrupt_base a ≤ gsi < global_system_interrupt_base a + count a.
Proof.
  intros Hl. revert i. induction Hl as [|a l Ha _ IH]; intros i; [by exists None|].
  cbn. rewrite serves_ok by done. cbn. destruct (bool_decide_reflect
    (global_system_interrupt_base a ≤ gsi < global_system_interrupt_base a + count a)) as [Hs|Hs].
  - exists (Some i). split; [done|]. intros j [= <-]. exists a. rewrite Nat.sub_diag. split_and!; done || lia.
  - destruct (IH (S i)) as (o & Ho & Hj). exists o. split; [done|]. intros j ->.
    destruct (Hj j eq_refl) as (a' & Hij & Hlk & Hr). exists a'. split; [lia|]. split; [|done].
    replace (j - i)%nat with (S (j - S i)) by lia. done.
Qed.

(** The pin a legacy interrupt is wired to. *)
Definition legacy_pin (s : Routing D) (irq : Z) : option (nat * Z) :=
  match legacy_target s irq with
  | Some (gsi, _, _) =>
      match find_ioapic s gsi with
      | Ret (Some i) => a ← io_apics s !! i; Some (i, gsi - global_system_interrupt_base a)
      | _ => None
      end
  | None => None
  end.

Definition legacy_description (s : Routing D) (bsp irq : Z) : option MapInfo :=
  match legacy_target s irq with
  | Some (_, t, p) => match legacy_info bsp irq t p with Ret i => Some i | _ => None end
  | None => None
  end.

Definition pin_entry (s : Routing D) (pin : nat * Z) : option Z :=
  (λ a, entry (registers a) pin.2) <$> io_apics s !! pin.1.

Lemma same_chips_target s s' irq : same_chips s s' → legacy_target s' irq = legacy_target s irq.
Proof. intros [Ho _]. unfold legacy_target, get_src_override. by rewrite Ho. Qed.

Lemma same_chips_find s s' gsi : same_chips s s' → find_ioapic s' gsi = find_ioapic s gsi.
Proof. intros [_ Hc]. by apply find_from_chips. Qed.

Lemma same_chips_pin s s' irq : same_chips s s' → legacy_pin s' irq = legacy_pin s irq.
Proof.
  intros Hs. unfold legacy_pin. rewrite (same_chips_target _ _ _ Hs).
  destruct (legacy_target s irq) as [[[gsi t] p]|]; [|done]. rewrite (same_chips_find _ _ _ Hs).
  destruct (find_ioapic s gsi) as [[i|]| |]; [|done..].
  destruct Hs as [_ Hc]. apply (f_equal (.!! i)) in Hc. rewrite !list_lookup_fmap in Hc.
  destruct (io_apics s' !! i) as [a'|], (io_apics s !! i) as [a|]; cbn in Hc; [|done..].
  injection Hc as _ Hb. cbn. by rewrite Hb.
Qed.

Lemma same_chips_description s s' bsp irq :
  same_chips s s' → legacy_description s' bsp irq = legacy_description s bsp irq.
Proof. intros Hs. unfold legacy_description. by rewrite (same_chips_target _ _ _ Hs). Qed.

Lemma legacy_info_ok bsp irq t p :
  0 ≤ bsp < 256 → 0 ≤ irq < 16 → ∃ info, legacy_info bsp irq t p = Ret info ∧ info_ok info.
Proof.
  intros Hb Hi. unfold legacy_info, add8. rewrite (proj2 (Z.ltb_lt _ _)) by lia.
  eexists. split; [reflexivity|]. split; cbn; lia.
Qed.

(** One legacy interrupt: its pin, if it has one, gets its description, and no
    other pin changes. *)
Lemma route_legacy_ok bsp irq (s : Routing D) :
  0 ≤ bsp < 256 → 0 ≤ irq < 16 → Forall apic_ok (io_apics s) →
  ∃ s', route_legacy bsp irq s = Ret s' ∧ same_chips s s' ∧ Forall apic_ok (io_apics s') ∧
    (∀ pin, legacy_pin s irq = Some pin →
       (e ← pin_entry s' pin; decode e) = legacy_description s bsp irq) ∧
    (∀ pin, legacy_pin s irq ≠ Some pin → pin_entry s' pin = pin_entry s pin).
Proof.
  intros Hb Hi Hok. unfold route_legacy, legacy_pin, legacy_description.
  destruct (legacy_target s irq) as [[[gsi t] p]|] eqn:Ht; [|by exists s].
  destruct (find_from_ok gsi 0 (io_apics s) Hok) as (o & Ho & Hj). unfold find_ioapic. rewrite Ho, bind_bind_Ret.
  destruct o as [j|]; [|by exists s].
  destruct (Hj j eq_refl) as (a & _ & Ha & Hr). rewrite Nat.sub_0_r in Ha.
  destruct (legacy_info_ok bsp irq t p Hb Hi) as (info & -> & Hinfo).
  pose proof (Forall_lookup_1 _ _ _ _ Hok Ha) as (Hb0 & Hc & Hl).
  unfold slice_get, slice_set, sub32. rewrite !Nat2Z.id, Ha, bind_bind_Ret.
  rewrite (proj2 (Z.leb_le _ _)), !bind_bind_Ret by lia.
  assert (truncate 8 (gsi - global_system_interrupt_base a) = gsi - global_system_interrupt_base a) as ->
    by (unfold truncate; apply Z.mod_small; lia).
  destruct (map_ok a (gsi - global_system_interrupt_base a) info) as (d' & -> & Hdec & Hother); [lia|done|].
  rewrite !bind_bind_Ret. eexists. split; [reflexivity|]. cbn [io_apics src_overrides].
  pose proof (lookup_lt_Some _ _ _ Ha) as Hlt. split; [|split; [|split]].
  - split; [done|]. cbn. apply list_eq. intros i. rewrite !list_lookup_fmap.
    destruct (decide (i = j)) as [->|Hne].
    + rewrite list_lookup_insert_eq by done. by rewrite Ha.
    + by rewrite list_lookup_insert_ne by done.
  - by apply Forall_insert.
  - intros pin Hp. cbn in Hp. injection Hp as <-. unfold pin_entry. cbn [fst snd io_apics].
    rewrite list_lookup_insert_eq by done. cbn. by rewrite Hdec.
  - intros [i k] Hp. cbn in Hp. unfold pin_entry. cbn [fst snd io_apics].
    destruct (decide (i = j)) as [->|Hne].
    + rewrite list_lookup_insert_eq, Ha by done. cbn. f_equal. apply Hother. congruence.
    + by rewrite list_lookup_insert_ne.
Qed.

Lemma get_src_override_Some (s : Routing D) irq o :
  get_src_override s irq = Some o → o ∈ src_overrides s ∧ isa_source o = irq.
Proof.
  unfold get_src_override. intros Hf. apply fmap_Some in Hf as ([i o'] & Hf & ->).
  apply list_find_Some in Hf as (Hl & Hs & _). split; [by eapply list_elem_of_lookup_2|done].
Qed.

Lemma get_src_override_None (s : Routing D) irq o :
  get_src_override s irq = None → o ∈ src_overrides s → isa_source o ≠ irq.
Proof.
  unfold get_src_override. intros Hf%fmap_None. apply list_find_None in Hf.
  rewrite Forall_forall in Hf. by apply Hf.
Qed.

(** An interrupt that keeps its own number is taken by no override. *)
Lemma legacy_target_own (s : Routing D) irq t p gsi o :
  get_src_override s irq = None → legacy_target s irq = Some (gsi, t, p) →
  gsi = irq ∧ (o ∈ src_overrides s → global_system_interrupt o ≠ irq).
Proof.
  intros Hnone. unfold legacy_target. rewrite Hnone.
  destruct (_ && _) eqn:Hc; [done|]. intros [= -> _ _]. split; [done|]. intros Ho Hg.
  apply not_true_iff_false in Hc. apply Hc.
  pose proof (get_src_override_None _ _ _ Hnone Ho) as Hne. apply andb_true_iff. split.
  - apply existsb_exists. exists o. split; [by apply list_elem_of_In|].
    apply andb_true_iff. split; [by apply Z.eqb_eq|]. by apply negb_true_iff, Z.eqb_neq.
  - apply negb_true_iff, not_true_iff_false. intros (o' & Ho' & Hs)%existsb_exists.
    apply list_elem_of_In in Ho'. apply Z.eqb_eq in Hs. by apply (get_src_override_None _ _ _ Hnone Ho').
Qed.

(** Two legacy interrupts are never routed to the same one. *)
Lemma legacy_target_inj (s : Routing D) irq1 irq2 g t1 t2 p1 p2 :
  overrides_ok (src_overrides s) →
  legacy_target s irq1 = Some (g, t1, p1) → legacy_target s irq2 = Some (g, t2, p2) → irq1 = irq2.
Proof.
  intros Hov H1 H2.
  destruct (get_src_override s irq1) as [o1|] eqn:E1, (get_src_override s irq2) as [o2|] eqn:E2.
  - pose proof (get_src_override_Some _ _ _ E1) as [Ho1 <-]. pose proof (get_src_override_Some _ _ _ E2) as [Ho2 <-].
    unfold legacy_target in H1, H2. rewrite E1 in H1. rewrite E2 in H2.
    injection H1 as Hg1 _ _. injection H2 as Hg2 _ _. f_equal.
    apply list_elem_of_lookup_1 in Ho1 as [i Hi], Ho2 as [j Hj].
    assert (i = j) as ->; [|congruence].
    apply (NoDup_lookup _ _ _ g (ov_gsi _ Hov)); rewrite list_lookup_fmap; [rewrite Hi|rewrite Hj]; cbn; congruence.
  - pose proof (get_src_override_Some _ _ _ E1) as [Ho1 <-].
    destruct (legacy_target_own _ _ _ _ _ o1 E2 H2) as [-> Hne].
    unfold legacy_target in H1. rewrite E1 in H1. injection H1 as Hg1 _ _. by destruct (Hne Ho1).
  - pose proof (get_src_override_Some _ _ _ E2) as [Ho2 <-].
    destruct (legacy_target_own _ _ _ _ _ o2 E1 H1) as [-> Hne].
    unfold legacy_target in H2. rewrite E2 in H2. injection H2 as Hg2 _ _. by destruct (Hne Ho2).
  - destruct (legacy_target_own _ _ _ _ _ (mkOverride 0 0 PolaritySameAsBus TriggerEdge) E1 H1) as [<- _].
    by destruct (legacy_target_own _ _ _ _ _ (mkOverride 0 0 PolaritySameAsBus TriggerEdge) E2 H2) as [<- _].
Qed.

Lemma legacy_pin_inj (s : Routing D) irq1 irq2 pin :
  overrides_ok (src_overrides s) →
  legacy_pin s irq1 = Some pin → legacy_pin s irq2 = Some pin → irq1 = irq2.
Proof.
  intros Hov H1 H2. unfold legacy_pin in H1, H2.
  destruct (legacy_target s irq1) as [[[g1 t1] p1]|] eqn:T1; [|done].
  destruct (legacy_target s irq2) as [[[g2 t2] p2]|] eqn:T2; [|done].
  destruct (find_ioapic s g1) as [[i1|]| |]; [|done..]. destruct (find_ioapic s g2) as [[i2|]| |]; [|done..].
  destruct (io_apics s !! i1) as [a1|] eqn:A1; cbn in H1; [|done]. injection H1 as <-.
  destruct (io_apics s !! i2) as [a2|] eqn:A2; cbn in H2; [|done]. injection H2 as -> Hg.
  rewrite A1 in A2. injection A2 as <-.
  apply (legacy_target_inj s irq1 irq2 g1 t1 t2 p1 p2 Hov T1). rewrite T2. do 3 f_equal. lia.
Qed.

(** The chip the firmware describes is there: it can be mapped, has the stated
    identifier, and its interrupts fit. *)
Definition chip_present (open_ : Z → option D) (a : AcpiIoApic) (d : D) : Prop :=
  open_ (acpi_address a) = Some d ∧ bit_field (register d 0) 24 4 = acpi_id a ∧
  bit_field (register d 1) 16 8 < 24 ∧ 0 ≤ acpi_gsi_base a ∧ acpi_gsi_base a + 24 < 2 ^ 32.

(** The driver's object for it, before anything is routed. *)
Definition opened (open_ : Z → option D) (a : AcpiIoApic) (apic : IoApic D) : Prop :=
  ∃ d, open_ (acpi_address a) = Some d ∧ count apic = bit_field (register d 1) 16 8 ∧
    global_system_interrupt_base apic = acpi_gsi_base a ∧ apic_ok apic ∧
    ∀ pin, entry (registers apic) pin = entry d pin.

Lemma land_field x lo len :
  0 ≤ lo → 0 ≤ len → 0 ≤ x → Z.shiftr (Z.land x (Z.shiftl (Z.ones len) lo)) lo = bit_field x lo len.
Proof.
  intros Hlo Hlen Hx. apply Z.bits_inj'. intros i Hi.
  rewrite bit_field_testbit, Z.shiftr_spec, Z.land_spec, Z.shiftl_spec by lia. rewrite Z.add_simpl_r.
  destruct (Z.ltb_spec i len).
  - by rewrite Z.ones_spec_low, andb_true_r by lia.
  - by rewrite Z.ones_spec_high, andb_false_r by lia.
Qed.

Lemma max_entries_ok (d : D) :
  (max_redirection_table_entries d).1 = bit_field (register d 1) 16 8 ∧
  ∀ r, register (max_redirection_table_entries d).2 r = register d r.
Proof.
  unfold max_redirection_table_entries, read_ioapicver.
  destruct (read_reg_ok 0x01 d ltac:(lia)) as [Hv Hd]. destruct (read_reg 0x01 d) as [v d1]. cbn [fst snd] in *.
  split; [|done]. subst v. change 0x00FF0000 with (Z.shiftl (Z.ones 8) 16).
  rewrite land_field by (lia || apply register_32). unfold truncate, bit_field. by rewrite Z.mod_mod by lia.
Qed.

Lemma apic_id_ok (d : D) :
  (apic_id d).1 = bit_field (register d 0) 24 4 ∧ ∀ r, register (apic_id d).2 r = register d r.
Proof.
  unfold apic_id, read_ioapicid.
  destruct (read_reg_ok 0x00 d ltac:(lia)) as [Hv Hd]. destruct (read_reg 0x00 d) as [v d1]. cbn [fst snd] in *.
  split; [|done]. subst v. change 0x0F000000 with (Z.shiftl (Z.ones 4) 24).
  rewrite land_field by (lia || apply register_32). unfold truncate, bit_field. apply Z.mod_small. mlia.
Qed.

Lemma ioapic_new_ok open_ a d :
  chip_present open_ a d →
  ∃ apic, new open_ (acpi_address a) (acpi_id a) (acpi_gsi_base a) = Ret (Some apic) ∧ opened open_ a apic.
Proof.
  intros (Ho & Hid & Hm & Hb & Hl). unfold new. rewrite Ho.
  destruct (apic_id_ok d) as [H1 H2]. destruct (apic_id d) as [got d1]. cbn [fst snd] in *.
  rewrite H1, Hid, Z.eqb_refl. cbn [assert_ mbind outcome_bind].
  destruct (max_entries_ok d1) as [H3 H4]. destruct (max_redirection_table_entries d1) as [c d2]. cbn [fst snd] in *.
  eexists. split; [reflexivity|]. exists d. cbn. rewrite H3, H2. split_and!; try done.
  - assert (0 ≤ bit_field (register d 1) 16 8) by (unfold bit_field; mlia).
    split; cbn; lia.
  - intros pin. unfold entry. by rewrite !H4, !H2.
Qed.

Lemma add_ioapics_ok open_ l acc :
  (∀ a, a ∈ l → ∃ d, chip_present open_ a d) →
  ∃ l', for_each (add_ioapic open_) l acc = Ret (acc ++ l') ∧ Forall2 (opened open_) l l'.
Proof.
  revert acc. induction l as [|a l IH]; intros acc Hl.
  { exists []. by rewrite app_nil_r. }
  destruct (Hl a) as [d Hd]; [by left|]. destruct (ioapic_new_ok open_ a d Hd) as (apic & Hn & Hop).
  assert (Hadd : add_ioapic open_ a acc = Ret (acc ++ [apic])) by (unfold add_ioapic; by rewrite Hn).
  cbn [for_each]. rewrite Hadd, bind_bind_Ret.
  destruct (IH (acc ++ [apic])) as (l' & Hr & Hf); [intros; apply Hl; by right|].
  exists (apic :: l'). rewrite Hr, <- app_assoc. split; [done|]. by constructor.
Qed.

(** After the turns for the interrupts [done_], from [s0]. *)
Definition routed (bsp : Z) (s0 : Routing D) (done_ : list Z) (s : Routing D) : Prop :=
  same_chips s0 s ∧ Forall apic_ok (io_apics s) ∧
  (∀ irq pin, irq ∈ done_ → legacy_pin s0 irq = Some pin →
     (e ← pin_entry s pin; decode e) = legacy_description s0 bsp irq) ∧
  (∀ pin, (∀ irq, irq ∈ done_ → legacy_pin s0 irq ≠ Some pin) → pin_entry s pin = pin_entry s0 pin).

Lemma route_all_ok bsp (s0 : Routing D) :
  0 ≤ bsp < 256 → Forall apic_ok (io_apics s0) → overrides_ok (src_overrides s0) →
  ∃ s, for_each (route_legacy bsp) (seqZ 0 16) s0 = Ret s ∧ routed bsp s0 (seqZ 0 16) s.
Proof.
  intros Hb Hok Hov. apply (for_each_inv _ (routed bsp s0)).
  { split_and!; [by split|done|by intros ? ? ?%elem_of_nil|done]. }
  intros done_ irq todo s Hseq (Hsame & Hs & Hdone & Hrest).
  assert (Hirq : 0 ≤ irq < 16).
  { assert (irq ∈ seqZ 0 16) as Hin by (rewrite Hseq; set_solver). apply elem_of_seqZ in Hin. lia. }
  assert (Hnew : irq ∉ done_).
  { pose proof (NoDup_seqZ 0 16) as Hnd. rewrite Hseq in Hnd. apply NoDup_app in Hnd as (_ & Hnd & _).
    intros Hin. apply (Hnd irq Hin). by left. }
  destruct (route_legacy_ok bsp irq s Hb Hirq Hs) as (s' & Hr & Hsame' & Hs' & Hpin & Hother).
  rewrite (same_chips_description _ _ _ _ Hsame) in Hpin.
  setoid_rewrite (same_chips_pin _ _ irq Hsame) in Hpin. setoid_rewrite (same_chips_pin _ _ irq Hsame) in Hother.
  exists s'. split; [done|]. split_and!.
  - destruct Hsame, Hsame'. split; congruence.
  - done.
  - intros irq' pin [Hin|Hin]%elem_of_app Hp.
    + rewrite Hother; [by apply Hdone|]. intros Hp'. apply Hnew.
      by rewrite (legacy_pin_inj s0 irq irq' pin Hov Hp' Hp).
    + apply list_elem_of_singleton in Hin as ->. by apply Hpin.
  - intros pin Hno. rewrite Hother by (apply Hno; set_solver). apply Hrest. intros. apply Hno. set_solver.
Qed.


(** The last pin of an I/O APIC is never found. [count] is the version
    register's "maximum redirection entry", which is the index of the last pin
    and not the number of pins, so [find_ioapic] rejects the interrupt of that
    pin and [init] leaves it unmapped. *)
Theorem ioapic_last_pin_unreachable open_ a d overrides :
  chip_present open_ a d →
  ∃ apic, new open_ (acpi_address a) (acpi_id a) (acpi_gsi_base a) = Ret (Some apic) ∧
    let last_pin := bit_field (register d 1) 16 8 in
    find_ioapic (mkRouting [apic] overrides) (acpi_gsi_base a + last_pin) = Ret None ∧
    (0 < last_pin → find_ioapic (mkRouting [apic] overrides) (acpi_gsi_base a + last_pin - 1) = Ret (Some 0%nat)).
Proof.
  intros Hp. destruct (ioapic_new_ok open_ a d Hp) as (apic & Hn & d' & Ho & Hc & Hb & Hok & _).
  exists apic. split; [done|]. cbv zeta. destruct Hp as (Ho' & _). rewrite Ho in Ho'. injection Ho' as ->.
  unfold find_ioapic. cbn. rewrite !serves_ok by done. cbn [mbind outcome_bind]. rewrite Hc, Hb. split.
  - by rewrite bool_decide_eq_false_2 by lia.
  - intros Hlast. by rewrite bool_decide_eq_true_2 by lia.
Qed.

End routing.

(** ** A chip with these laws: a register file *)

Record RegisterFile := mkFile { f_selected : Z; f_regs : Z → Z }.

#[global] Instance RegisterFile_device : IoApicDevice RegisterFile := {|
  write_ioregsel v d := mkFile (truncate 8 v) (f_regs d);
  read_iowin d := truncate 32 (f_regs d (f_selected d));
  write_iowin v d :=
    let r := f_selected d in
    mkFile r (λ r', if (r =? r') && (0x10 <=? r) && (r <? 0x40)
                    then Z.lor (Z.land v (writable r)) (Z.ldiff (truncate 32 (f_regs d r)) (writable r))
                    else f_regs d r') |}.

#[global] Program Instance RegisterFile_laws : IoApicLaws RegisterFile := {|
  register d r := truncate 32 (f_regs d r);
  selected d := f_selected d |}.
Next Obligation. intros. unfold truncate. apply Z.mod_pos_bound. lia. Qed.
Next Obligation. done. Qed.
Next Obligation. intros v d Hv. cbn. unfold truncate. by apply Z.mod_small. Qed.
Next Obligation. done. Qed.
Next Obligation. done. Qed.
Next Obligation.
  intros v d Hr Hv. unfold is_redirection in Hr. cbn in *.
  rewrite Z.eqb_refl, (proj2 (Z.leb_le _ _)), (proj2 (Z.ltb_lt _ _)) by lia. cbn [andb].
  unfold truncate. apply Z.bits_inj'. intros i Hi. destruct (Z.ltb_spec i 32).
  - by rewrite Z.mod_pow2_bits_low by lia.
  - rewrite Z.mod_pow2_bits_high, Z.lor_spec, Z.land_spec, Z.ldiff_spec by lia.
    rewrite (Z.mod_pow2_bits_high (f_regs _ _)) by lia.
    rewrite <- (Z.mod_small v (2 ^ 32)), Z.mod_pow2_bits_high by lia. done.
Qed.
Next Obligation. intros v d r Hr. cbn in *. by rewrite (proj2 (Z.eqb_neq _ _)). Qed.

(** ** Witnesses: the usual chip and overrides of a PC *)

Definition pc_chip : RegisterFile :=
  mkFile 0 (λ r, if r =? 0 then 0x02000000 else if r =? 1 then 0x00170020 else if Z.even r then 0x10000 else 0).
Definition pc_open (_ : Z) : option RegisterFile := Some pc_chip.
Definition pc_io_apic : AcpiIoApic := mkAcpiIoApic 2 0xfec00000 0.
Definition pc_overrides : list Override :=
  [mkOverride 0 2 PolaritySameAsBus TriggerSameAsBus; mkOverride 9 9 PolarityActiveHigh TriggerLevel].
Definition pc_model : ApicModel := mkApicModel [pc_io_apic] pc_overrides.
Definition pc_apic : IoApic RegisterFile := mkIoApic pc_chip 23 0.

Lemma pc_chip_present : chip_present pc_open pc_io_apic pc_chip.
Proof. by repeat split. Qed.

Lemma ioapic_map_correct_witness :
  ∃ a', map pc_apic 2 (mkMapInfo 0 false Edge ActiveHigh Physical Fixed 32) = Ret a' ∧
    decode (entry (registers a') 2) = Some (mkMapInfo 0 false Edge ActiveHigh Physical Fixed 32).
Proof.
  destruct (ioapic_map_correct pc_apic 2 (mkMapInfo 0 false Edge ActiveHigh Physical Fixed 32) ltac:(cbn; lia)
    ltac:(lia)) as (a' & H1 & H2 & _).
  exact (ex_intro _ a' (conj H1 H2)).
Defined.

Lemma ioapic_set_mask_correct_witness :
  ∃ a', set_mask pc_apic 5 false = Ret a' ∧ entry (registers a') 5 = 0.
Proof.
  destruct (ioapic_set_mask_correct pc_apic 5 false ltac:(cbn; lia)) as (a' & H1 & H2 & _).
  exists a'. split; [exact H1|]. exact H2.
Defined.


Lemma ioapic_last_pin_unreachable_witness :
  ∃ apic, new pc_open 0xfec00000 2 0 = Ret (Some apic) ∧
    find_ioapic (mkRouting [apic] pc_overrides) 23 = Ret None.
Proof.
  destruct (ioapic_last_pin_unreachable pc_open pc_io_apic pc_chip pc_overrides pc_chip_present)
    as (apic & H1 & H2 & _).
  exact (ex_intro _ apic (conj H1 H2)).
Defined.
