(* ===== verification/LocalApic.v ===== *)
(** * The local APIC and inter-processor interrupts
    (devices/local_apic.rs, ipi.rs, interrupts/ipi.rs, interrupts/irq.rs, io_port.rs)

    Sending an interrupt command means polling the chip until it is idle,
    writing the two halves of the command and polling again: the loops are run
    with fuel, and a chip that finishes every command gives enough of it. The
    chip is behind [LocalApicDevice] with [LocalApicLaws]; the interrupt
    controller that [disable_pic] shuts off is the state machine of the 8259A
    data sheet. *)
From S2P Require Import Prelude Descriptors.

(** ** Ports and the legacy interrupt controllers *)

Module Pic.

(** What a controller expects next on its data port. *)
Inductive stage := Icw2 | Icw3 | Icw4 | Ready.

Record Chip := mkChip {
  expects : stage; wants_icw4 : bool; offset : Z; cascade : Z; mode_8086 : bool; imr : Z }.

(** A byte written to the command port: bit 4 starts the initialisation, which
    also clears the interrupt mask; other commands (end of interrupt) leave
    these fields alone. *)
Definition command (c : Chip) (v : Z) : Chip :=
  if Z.testbit v 4 then mkChip Icw2 (Z.testbit v 0) (offset c) (cascade c) (mode_8086 c) 0 else c.

Definition data (c : Chip) (v : Z) : Chip :=
  match expects c with
  | Icw2 => mkChip Icw3 (wants_icw4 c) (v / 8 * 8) (cascade c) (mode_8086 c) (imr c)
  | Icw3 => mkChip (if wants_icw4 c then Icw4 else Ready) (wants_icw4 c) (offset c) v (mode_8086 c) (imr c)
  | Icw4 => mkChip Ready (wants_icw4 c) (offset c) (cascade c) (Z.testbit v 0) (imr c)
  | Ready => mkChip Ready (wants_icw4 c) (offset c) (cascade c) (mode_8086 c) v
  end.

Record Pair := mkPair { master : Chip; slave : Chip }.

(** [IoPort<u8>]: the port number, and [out dx, al] of [write]. *)
Record IoPort := mkIoPort { port : Z }.
Definition write (p : IoPort) (value : Z) (s : Pair) : Pair :=
  match port p with
  | 0x20 => mkPair (command (master s) value) (slave s)
  | 0x21 => mkPair (data (master s) value) (slave s)
  | 0xa0 => mkPair (master s) (command (slave s) value)
  | 0xa1 => mkPair (master s) (data (slave s) value)
  | _ => s
  end.

Definition disable_pic (s : Pair) : Pair :=
  let master_cmd := mkIoPort 0x20 in
  let master_data := mkIoPort 0x21 in
  let slave_cmd := mkIoPort 0xa0 in
  let slave_data := mkIoPort 0xa1 in
  let s := write master_cmd 0x11 s in
  let s := write slave_cmd 0x11 s in
  let s := write master_data 0x20 s in
  let s := write slave_data 0x28 s in
  let s := write master_data 4 s in
  let s := write slave_data 2 s in
  let s := write master_data 1 s in
  let s := write slave_data 1 s in
  let s := write master_data 0xff s in
  let s := write slave_data 0xff s in
  let s := write master_cmd 0x20 s in
  write slave_cmd 0x20 s.

(** Whatever state the firmware left, both controllers end up initialised,
    with all their lines masked and their vectors clear of the exceptions. *)
Lemma disable_pic_ok s :
  disable_pic s = mkPair (mkChip Ready true 0x20 4 true 0xff) (mkChip Ready true 0x28 2 true 0xff).
Proof. destruct s as [[] []]. reflexivity. Qed.

End Pic.

(** ** The local APIC *)

Class LocalApicDevice (D : Type) := {
  la_read : Z → D → Z * D;
  la_write : Z → Z → D → D }.

(** What the driver relies on: the delivery status bit of the command register
    reads as set for a finite number of polls after a command, a command
    written while the chip is idle is sent, the other registers do not
    disturb this. *)
Class LocalApicLaws (D : Type) `{LocalApicDevice D} := {
  pending : D → nat;
  icr_high : D → Z;
  sent : D → list Z;
  spurious_register : D → Z;
  acknowledged : D → nat;
  read_status d :
    Z.testbit (la_read 0x300 d).1 12 = (0 <? Z.of_nat (pending d)) ∧
    pending (la_read 0x300 d).2 = pred (pending d);
  read_keeps r d :
    sent (la_read r d).2 = sent d ∧ icr_high (la_read r d).2 = icr_high d ∧
    spurious_register (la_read r d).2 = spurious_register d ∧
    acknowledged (la_read r d).2 = acknowledged d;
  write_high v d :
    icr_high (la_write 0x310 v d) = v ∧ sent (la_write 0x310 v d) = sent d ∧
    pending (la_write 0x310 v d) = pending d ∧
    spurious_register (la_write 0x310 v d) = spurious_register d ∧
    acknowledged (la_write 0x310 v d) = acknowledged d;
  write_low v d :
    pending d = 0%nat →
    sent (la_write 0x300 v d) = sent d ++ [v + icr_high d * 2 ^ 32] ∧
    spurious_register (la_write 0x300 v d) = spurious_register d ∧
    acknowledged (la_write 0x300 v d) = acknowledged d;
  write_eoi d :
    acknowledged (la_write 0xB0 0 d) = S (acknowledged d) ∧ sent (la_write 0xB0 0 d) = sent d ∧
    spurious_register (la_write 0xB0 0 d) = spurious_register d;
  write_spurious v d :
    spurious_register (la_write 0xf0 v d) = v ∧ sent (la_write 0xf0 v d) = sent d ∧
    acknowledged (la_write 0xf0 v d) = acknowledged d }.

Section driver.
Context {D : Type} `{LocalApicDevice D}.

Definition id (d : D) : Z * D := la_read 0x20 d.

(** [while self.read(0x300) & 1 << 12 == 1 << 12 {}]: [None] when the fuel is
    used up. *)
Fixpoint wait_idle (fuel : nat) (d : D) : option D :=
  match fuel with
  | O => None
  | S fuel' =>
      let '(v, d) := la_read 0x300 d in
      if Z.land v (Z.shiftl 1 12) =? Z.shiftl 1 12 then wait_idle fuel' d else Some d
  end.

Definition set_icr (fuel : nat) (value : Z) (d : D) : option D :=
  d ← wait_idle fuel d;
  let d := la_write 0x310 (truncate 32 (Z.shiftr value 32)) d in
  let d := la_write 0x300 (truncate 32 value) d in
  wait_idle fuel d.

Definition eoi (d : D) : D := la_write 0xB0 0 d.

(** The address the chip is mapped from: [rdmsr(IA32_APIC_BASE) & 0xffff_0000]. *)
Definition apic_address (msr : Z) : Z := Z.land msr 0xffff0000.

(** The state behind [LOCAL_APIC_ACCESS] on one CPU, with the legacy controllers. *)
Record State := mkState { access : option D; pics : Pic.Pair }.

(** [local_apic_access().unwrap()]. *)
Definition local_apic_access (s : State) : outcome D := unwrap (access s).

(** [init_bsp]: the legacy controllers off, the chip mapped ([open_]) and
    switched on with 0xff as its spurious vector. *)
Definition init_bsp (open_ : Z → option D) (msr : Z) (s : State) : outcome State :=
  let pics := Pic.disable_pic (pics s) in
  d ← unwrap (open_ (apic_address msr));
  Ret (mkState (Some (la_write 0xf0 0x1ff d)) pics).

Definition init_ap (s : State) : outcome State :=
  d ← local_apic_access s;
  Ret (mkState (Some (la_write 0xf0 0x1ff d)) (pics s)).

(** ** Inter-processor interrupts *)

Inductive IpiKind := Tlb | Timer | Halt.
Inductive IpiTarget := Current | All | Other.

Definition kind_code (k : IpiKind) : Z := match k with Tlb => 0xf0 | Timer => 0xfd | Halt => 0xfe end.
Definition target_code (t : IpiTarget) : Z := match t with Current => 1 | All => 2 | Other => 3 end.

Definition ipi_icr (k : IpiKind) (t : IpiTarget) : Z :=
  Z.lor (Z.lor (Z.shiftl (target_code t) 18) (Z.shiftl 1 14)) (kind_code k).

(** [ipi]: nothing before the local APIC is set up. *)
Definition ipi (fuel : nat) (k : IpiKind) (t : IpiTarget) (s : State) : option State :=
  match access s with
  | Some d => d ← set_icr fuel (ipi_icr k t) d; Some (mkState (Some d) (pics s))
  | None => Some s
  end.

(** The commands [start_aps] sends to the processor [apic_id]. *)
Definition init_icr (apic_id : Z) : Z := Z.lor 0x4500 (Z.shiftl apic_id 56).
Definition TRAMPOLINE : Z := 0x8000.
Definition startup_icr (apic_id : Z) : Z :=
  Z.lor (Z.lor 0x4600 (Z.land (Z.shiftr TRAMPOLINE 12) 0xFF)) (Z.shiftl apic_id 56).

(** ** The handlers that answer *)

Inductive event := FlushTlb | DisableAndHalt.

(** The function behind a stub of interrupts/ipi.rs or interrupts/irq.rs: the
    new state and what the processor does; [None] inside when a loop has run
    out of fuel. *)
Definition handle (fuel : nat) (h : Idt.handler) (s : State) : outcome (option (State * list event)) :=
  match h with
  | Idt.tlb => d ← local_apic_access s; Ret (Some (mkState (Some (eoi d)) (pics s), [FlushTlb]))
  | Idt.halt => d ← local_apic_access s; Ret (Some (mkState (Some (eoi d)) (pics s), [DisableAndHalt]))
  | Idt.ipi_timer => d ← local_apic_access s; Ret (Some (mkState (Some (eoi d)) (pics s), []))
  | Idt.timer =>
      d ← local_apic_access s;
      Ret ((λ s, (s, [])) <$> ipi fuel Timer Other (mkState (Some (eoi d)) (pics s)))
  | _ => Panic ExplicitPanic
  end.

End driver.
Arguments State D : clear implicits.

(** ** Sending a command *)

(** What the chip makes of a command word. *)
Inductive Shorthand := NoShorthand | Self | AllIncludingSelf | AllExcludingSelf.
Record Command := mkCommand {
  cmd_vector : Z; cmd_delivery : Z; cmd_logical : bool; cmd_assert : bool; cmd_level : bool;
  cmd_shorthand : Shorthand; cmd_dest : Z }.

Definition decode_icr (v : Z) : Command :=
  mkCommand (bit_field v 0 8) (bit_field v 8 3) (bit_field v 11 1 =? 1) (bit_field v 14 1 =? 1)
    (bit_field v 15 1 =? 1)
    (match bit_field v 18 2 with 0 => NoShorthand | 1 => Self | 2 => AllIncludingSelf | _ => AllExcludingSelf end)
    (bit_field v 56 8).

Definition FIXED : Z := 0.
Definition INIT : Z := 5.
Definition START_UP : Z := 6.

Section facts.
Context {D : Type} `{LocalApicLaws D}.

(** A step that only waits: nothing sent, nothing acknowledged. *)
Definition quiet (d d' : D) : Prop :=
  sent d' = sent d ∧ icr_high d' = icr_high d ∧ spurious_register d' = spurious_register d ∧
  acknowledged d' = acknowledged d.

Lemma busy_bit v : (Z.land v (Z.shiftl 1 12) =? Z.shiftl 1 12) = Z.testbit v 12.
Proof.
  change (Z.shiftl 1 12) with (2 ^ 12). destruct (Z.testbit v 12) eqn:Hb.
  - apply Z.eqb_eq, Z.bits_inj'. intros i Hi. rewrite Z.land_spec, Z.pow2_bits_eqb by lia.
    destruct (Z.eqb_spec 12 i) as [<-|]; [by rewrite Hb|apply andb_false_r].
  - apply Z.eqb_neq. intros Heq. apply (f_equal (λ x, Z.testbit x 12)) in Heq.
    rewrite Z.land_spec, Hb in Heq. done.
Qed.

Lemma wait_idle_ok fuel (d : D) :
  (pending d < fuel)%nat →
  ∃ d', wait_idle fuel d = Some d' ∧ pending d' = 0%nat ∧ quiet d d'.
Proof.
  revert d. induction fuel as [|fuel IH]; intros d Hf; [lia|]. cbn [wait_idle].
  destruct (read_status d) as [Hb Hp]. pose proof (read_keeps 0x300 d) as Hk.
  destruct (la_read 0x300 d) as [v d1]. cbn [fst snd] in *. rewrite busy_bit, Hb.
  destruct (pending d) as [|n] eqn:Hn.
  - exists d1. by rewrite Hp.
  - destruct (IH d1) as (d' & Hw & Hp' & Hq); [rewrite Hp; cbn; lia|].
    exists d'. split; [done|]. split; [done|]. destruct Hq as (? & ? & ? & ?), Hk as (? & ? & ? & ?).
    repeat split; congruence.
Qed.

Lemma wait_idle_more fuel fuel' (d d' : D) :
  (fuel ≤ fuel')%nat → wait_idle fuel d = Some d' → wait_idle fuel' d = Some d'.
Proof.
  revert fuel' d. induction fuel as [|fuel IH]; intros fuel' d Hle; [done|].
  destruct fuel' as [|fuel']; [lia|]. cbn. destruct (la_read 0x300 d) as [v d1].
  destruct (_ =? _); [|done]. apply IH. lia.
Qed.

(** Sending is finished by any chip that finishes its commands. *)
Definition sends (d : D) (v : Z) (d' : D) : Prop :=
  sent d' = sent d ++ [v] ∧ spurious_register d' = spurious_register d ∧
  acknowledged d' = acknowledged d ∧ pending d' = 0%nat.

Lemma set_icr_ok v (d : D) :
  0 ≤ v < 2 ^ 64 →
  ∃ fuel d', (∀ fuel', (fuel ≤ fuel')%nat → set_icr fuel' v d = Some d') ∧ sends d v d'.
Proof.
  intros Hv. destruct (wait_idle_ok (S (pending d)) d) as (d1 & Hw1 & Hp1 & Hq1); [lia|].
  set (d2 := la_write 0x300 (truncate 32 v) (la_write 0x310 (truncate 32 (Z.shiftr v 32)) d1)).
  destruct (wait_idle_ok (S (pending d2)) d2) as (d' & Hw2 & Hp2 & Hq2); [lia|].
  exists (S (pending d) + S (pending d2))%nat, d'. split.
  - intros fuel' Hf. unfold set_icr.
    rewrite (wait_idle_more (S (pending d)) fuel' _ _ ltac:(lia) Hw1). cbn. fold d2.
    by apply (wait_idle_more (S (pending d2)) fuel' _ _ ltac:(lia) Hw2).
  - destruct Hq1 as (Hs1 & _ & Hsp1 & Ha1), Hq2 as (Hs2 & _ & Hsp2 & Ha2).
    destruct (write_high (truncate 32 (Z.shiftr v 32)) d1) as (Hh & Hsh & Hph & Hsph & Hah).
    destruct (write_low (truncate 32 v) (la_write 0x310 (truncate 32 (Z.shiftr v 32)) d1)) as (Hl & Hspl & Hal);
      [congruence|]. fold d2 in Hl, Hspl, Hal.
    split_and!; [|congruence..|done]. rewrite Hs2, Hl, Hsh, Hs1, Hh. do 2 f_equal.
    unfold truncate. rewrite Z.shiftr_div_pow2 by lia. mlia.
Qed.

(** Sending an interrupt command terminates and sends it once. On a chip
    that is busy only for finitely many polls after a command, [set_icr]
    returns for every 64-bit command word (from some amount of fuel on, always
    with the same result), the chip has sent exactly that command after what
    it had sent before, written as two halves in the order that sends it
    whole, it is idle again, and nothing was acknowledged by the way. *)
Theorem set_icr_terminates v (d : D) :
  0 ≤ v < 2 ^ 64 →
  ∃ fuel d', (∀ fuel', (fuel ≤ fuel')%nat → set_icr fuel' v d = Some d') ∧
    sent d' = sent d ++ [v] ∧ acknowledged d' = acknowledged d ∧
    spurious_register d' = spurious_register d ∧ pending d' = 0%nat.
Proof.
  intros Hv. destruct (set_icr_ok v d Hv) as (fuel & d' & Hrun & H1 & H2 & H3 & H4). by exists fuel, d'.
Qed.

Definition shorthand_of (t : IpiTarget) : Shorthand :=
  match t with Current => Self | All => AllIncludingSelf | Other => AllExcludingSelf end.

Lemma ipi_icr_decode k t :
  0 ≤ ipi_icr k t < 2 ^ 64 ∧
  decode_icr (ipi_icr k t) = mkCommand (kind_code k) FIXED false true false (shorthand_of t) 0.
Proof. by destruct k, t. Qed.

Lemma ipi_ok k t (d : D) pics :
  ∃ fuel d', (∀ fuel', (fuel ≤ fuel')%nat →
      ipi fuel' k t (mkState (Some d) pics) = Some (mkState (Some d') pics)) ∧ sends d (ipi_icr k t) d'.
Proof.
  destruct (ipi_icr_decode k t) as [Hr _].
  destruct (set_icr_ok (ipi_icr k t) d Hr) as (fuel & d' & Hrun & Hs).
  exists fuel, d'. split; [|done]. intros fuel' Hf. unfold ipi. cbn. by rewrite (Hrun fuel' Hf).
Qed.

(** The handler that should answer. *)
Definition handler_of (k : IpiKind) : Idt.handler :=
  match k with Tlb => Idt.tlb | Timer => Idt.ipi_timer | Halt => Idt.halt end.

(** C36: an inter-processor interrupt reaches the handler meant for it: [ipi]
    sends exactly one command, of fixed delivery, with the shorthand of the
    target (itself, all, all others), whose vector is on every CPU the one
    under which the interrupt table has the handler of that kind; before the
    local APIC is set up it does nothing. *)
Theorem ipi_correct k t (d : D) pics fuel0 :
  ipi fuel0 k t (mkState (D := D) None pics) = Some (mkState None pics) ∧
  ∃ fuel d' v, (∀ fuel', (fuel ≤ fuel')%nat →
      ipi fuel' k t (mkState (Some d) pics) = Some (mkState (Some d') pics)) ∧
    sent d' = sent d ++ [v] ∧
    decode_icr v = mkCommand (kind_code k) FIXED false true false (shorthand_of t) 0 ∧
    ∀ is_bsp, Idt.vector_spec is_bsp (Z.to_nat (cmd_vector (decode_icr v))) = Some (handler_of k, 0, 0).
Proof.
  split; [done|]. destruct (ipi_ok k t d pics) as (fuel & d' & Hrun & Hs & _).
  exists fuel, d', (ipi_icr k t). split; [done|]. split; [done|]. split; [apply ipi_icr_decode|].
  intros is_bsp. by destruct is_bsp, k, t.
Qed.

(** The handlers of the inter-processor and timer interrupts. Each
    acknowledges its own interrupt exactly once; the timer interrupt of the
    boot processor then sends one timer command to all other processors, the
    flush handler flushes, the halt handler stops the processor; without a
    local APIC they panic. *)
Theorem ipi_handlers_correct h (d : D) pics :
  h ∈ [Idt.tlb; Idt.halt; Idt.ipi_timer; Idt.timer] →
  (∀ fuel, handle fuel h (mkState (D := D) None pics) = Panic UnwrapNone) ∧
  ∃ fuel d' events, (∀ fuel', (fuel ≤ fuel')%nat →
      handle fuel' h (mkState (Some d) pics) = Ret (Some (mkState (Some d') pics, events))) ∧
    acknowledged d' = S (acknowledged d) ∧
    sent d' = sent d ++ (if decide (h = Idt.timer) then [ipi_icr Timer Other] else []) ∧
    events = (if decide (h = Idt.tlb) then [FlushTlb] else if decide (h = Idt.halt) then [DisableAndHalt] else []).
Proof.
  intros Hh. destruct (write_eoi d) as (Ha & Hs & _). split.
  { intros fuel. repeat (apply elem_of_cons in Hh as [->|Hh]; [done|]). by apply elem_of_nil in Hh. }
  destruct (decide (h = Idt.timer)) as [->|Hne].
  - destruct (ipi_ok Timer Other (eoi d) pics) as (fuel & d' & Hrun & Hsent & _ & Hack & _).
    exists fuel, d', []. split_and!; [|rewrite Hack; exact Ha|rewrite Hsent; unfold eoi; by rewrite Hs|done].
    intros fuel' Hf. change (handle fuel' Idt.timer _)
      with (Ret ((λ s, (s, [] : list event)) <$> ipi fuel' Timer Other (mkState (Some (eoi d)) pics))).
    by rewrite (Hrun fuel' Hf).
  - exists 0%nat, (eoi d), (if decide (h = Idt.tlb) then [FlushTlb] else if decide (h = Idt.halt) then [DisableAndHalt] else []).
    split_and!; [|exact Ha|by rewrite app_nil_r|done].
    intros fuel' _. repeat (apply elem_of_cons in Hh as [->|Hh]; [done|]). by apply elem_of_nil in Hh.
Qed.

(** The two commands that start an application processor: INIT, then START-UP
    at the page of the trampoline, to that processor alone. *)
Lemma startup_commands apic_id :
  0 ≤ apic_id < 256 →
  decode_icr (init_icr apic_id) = mkCommand 0 INIT false true false NoShorthand apic_id ∧
  decode_icr (startup_icr apic_id) = mkCommand (TRAMPOLINE / 4096) START_UP false true false NoShorthand apic_id.
Proof.
  intros Hid.
  assert (Hor : ∀ c, 0 ≤ c < 2 ^ 56 → Z.lor c (Z.shiftl apic_id 56) = c + apic_id * 2 ^ 56).
  { intros c Hc. rewrite Z.shiftl_mul_pow2, Z.lor_comm by lia.
    rewrite (lor_disjoint _ _ 56); [lia|lia|by apply Z_mod_mult|done]. }
  assert (Hf : ∀ c lo len, 0 ≤ c < 2 ^ 56 → 0 ≤ lo → 0 ≤ len → lo + len ≤ 56 →
    bit_field (c + apic_id * 2 ^ 56) lo len = bit_field c lo len).
  { intros c lo len Hc Hlo Hlen Hle. unfold bit_field.
    replace (2 ^ 56) with (2 ^ (56 - lo - len) * 2 ^ len * 2 ^ lo)
      by (rewrite <- !Z.pow_add_r by lia; f_equal; lia).
    rewrite !Z.mul_assoc, Z.div_add by lia. by rewrite Z.mod_add by lia. }
  assert (Hd : ∀ c, 0 ≤ c < 2 ^ 56 → bit_field (c + apic_id * 2 ^ 56) 56 8 = apic_id).
  { intros c Hc. unfold bit_field. rewrite Z.div_add, (Z.div_small c) by lia. apply Z.mod_small. lia. }
  unfold init_icr, startup_icr.
  change (Z.lor 0x4600 (Z.land (Z.shiftr TRAMPOLINE 12) 0xFF)) with 0x4608.
  rewrite !Hor by lia. unfold decode_icr. rewrite !Hd by lia.
  rewrite !Hf by lia. done.
Qed.

End facts.

(** Bringing up the local APIC of the boot processor: from any state of
    the legacy controllers, [init_bsp] leaves both of them initialised with
    every line masked and their vectors at 0x20 and 0x28, and the local APIC
    software-enabled with a spurious vector for which the interrupt table has
    the spurious handler; it sends and acknowledges nothing. It panics exactly
    when the chip cannot be mapped. *)
Theorem local_apic_init_correct {D} `{LocalApicLaws D} (open_ : Z → option D) msr s :
  match open_ (apic_address msr) with
  | None => init_bsp open_ msr s = Panic UnwrapNone
  | Some d => ∃ d', init_bsp open_ msr s =
        Ret (mkState (Some d') (Pic.mkPair (Pic.mkChip Pic.Ready true 0x20 4 true 0xff)
                                  (Pic.mkChip Pic.Ready true 0x28 2 true 0xff))) ∧
      Z.testbit (spurious_register d') 8 = true ∧
      Idt.vector_spec true (Z.to_nat (bit_field (spurious_register d') 0 8)) = Some (Idt.spurious, 0, 0) ∧
      sent d' = sent d ∧ acknowledged d' = acknowledged d
  end.
Proof.
  unfold init_bsp. rewrite Pic.disable_pic_ok.
  destruct (open_ (apic_address msr)) as [d|]; [|done].
  destruct (write_spurious 0x1ff d) as (Hs & Hsent & Ha).
  eexists. split; [reflexivity|]. by rewrite Hs.
Qed.

(** ** A chip with these laws *)

Record Apic := mkApic {
  a_pending : nat; a_latency : nat; a_high : Z; a_sent : list Z; a_spurious : Z; a_ack : nat }.

Definition apic_write (r v : Z) (d : Apic) : Apic :=
  if r =? 0x310 then mkApic (a_pending d) (a_latency d) v (a_sent d) (a_spurious d) (a_ack d)
  else if r =? 0x300 then
    mkApic (a_latency d) (a_latency d) (a_high d) (a_sent d ++ [v + a_high d * 2 ^ 32]) (a_spurious d) (a_ack d)
  else if r =? 0xB0 then mkApic (a_pending d) (a_latency d) (a_high d) (a_sent d) (a_spurious d) (S (a_ack d))
  else if r =? 0xf0 then mkApic (a_pending d) (a_latency d) (a_high d) (a_sent d) v (a_ack d)
  else d.

#[global] Instance Apic_device : LocalApicDevice Apic := {|
  la_read r d :=
    if r =? 0x300
    then (if (0 <? a_pending d)%nat then 4096 else 0,
          mkApic (pred (a_pending d)) (a_latency d) (a_high d) (a_sent d) (a_spurious d) (a_ack d))
    else (0, d);
  la_write := apic_write |}.

#[global] Program Instance Apic_laws : LocalApicLaws Apic := {|
  pending := a_pending; icr_high := a_high; sent := a_sent; spurious_register := a_spurious;
  acknowledged := a_ack |}.
Next Obligation. intros d. cbn. by destruct (a_pending d). Qed.
Next Obligation. intros r d. cbn. by destruct (r =? 0x300). Qed.
Next Obligation. done. Qed.
Next Obligation. done. Qed.
Next Obligation. done. Qed.
Next Obligation. done. Qed.

Definition example_apic : Apic := mkApic 3 5 0 [] 0 0.

Lemma set_icr_terminates_witness :
  ∃ fuel d', set_icr fuel 0x4500 example_apic = Some d' ∧ sent d' = [0x4500].
Proof.
  destruct (set_icr_terminates 0x4500 example_apic ltac:(lia)) as (fuel & d' & Hrun & Hs & _).
  exists fuel, d'. split; [exact (Hrun fuel (Nat.le_refl fuel))|exact Hs].
Defined.

Lemma ipi_handlers_correct_witness :
  ∃ fuel d', handle fuel Idt.timer (mkState (Some example_apic) (Pic.mkPair (Pic.mkChip Pic.Ready true 0 0 true 0)
      (Pic.mkChip Pic.Ready true 0 0 true 0))) = Ret (Some (mkState (Some d') (Pic.mkPair (Pic.mkChip Pic.Ready true 0 0 true 0)
      (Pic.mkChip Pic.Ready true 0 0 true 0)), [])) ∧ sent d' = [0xC40FD].
Proof.
  destruct (ipi_handlers_correct Idt.timer example_apic (Pic.mkPair (Pic.mkChip Pic.Ready true 0 0 true 0)
      (Pic.mkChip Pic.Ready true 0 0 true 0)) ltac:(apply (bool_decide_unpack _); reflexivity))
    as (_ & fuel & d' & ev & Hrun & _ & Hs & ->).
  exists fuel, d'. split; [exact (Hrun fuel (Nat.le_refl fuel))|exact Hs].
Defined.

Definition example_pics : Pic.Pair :=
  Pic.mkPair (Pic.mkChip Pic.Icw4 false 0 0 false 0xb8) (Pic.mkChip Pic.Ready true 0x70 2 true 0).

Lemma ipi_correct_witness :
  ∃ fuel d', ipi fuel Halt Other (mkState (Some example_apic) example_pics) = Some (mkState (Some d') example_pics) ∧
    ∃ v, sent d' = [v] ∧ cmd_vector (decode_icr v) = 0xfe.
Proof.
  destruct (ipi_correct Halt Other example_apic example_pics 0) as (_ & fuel & d' & v & Hrun & Hs & Hd & _).
  exists fuel, d'. split; [exact (Hrun fuel (Nat.le_refl fuel))|]. exists v. split; [exact Hs|]. by rewrite Hd.
Defined.

Lemma local_apic_init_correct_witness :
  ∃ d' pics', init_bsp (λ _, Some example_apic) 0xfee00900 (mkState None example_pics) = Ret (mkState (Some d') pics') ∧
    Pic.imr (Pic.master pics') = 0xff.
Proof.
  destruct (local_apic_init_correct (λ _, Some example_apic) 0xfee00900 (mkState None example_pics)) as (d' & Hi & _).
  eexists d', _. split; [exact Hi|reflexivity].
Defined.
