(* ===== verification/Hpet.v ===== *)
(** * The event timer (devices/hpet.rs)

    [Hpet::new] programs timer 0 as the kernel's tick. The chip is behind
    [HpetDevice]; [HpetLaws] is what the specification says of the registers
    the driver touches: with "value set" the next write to the comparator sets
    the comparator itself, the one after it the interval. *)
From S2P Require Import Prelude Physmem.

Class HpetDevice (D : Type) := {
  hpet_read : Z → D → Z;
  hpet_write : Z → Z → D → D }.

Definition LEG_RT_CNF : Z := 2.
Definition ENABLE_CNF : Z := 1.
Definition TN_VAL_SET_CNF : Z := 0x40.
Definition TN_TYPE_CNF : Z := 0x08.
Definition TN_INT_ENB_CNF : Z := 0x04.
Definition CAPABILITY_OFFSET : Z := 0x00.
Definition GENERAL_CONFIG_OFFSET : Z := 0x10.
Definition LEG_RT_CAP : Z := 0x8000.
Definition T0_CONFIG_CAPABILITY_OFFSET : Z := 0x100.
Definition T0_COMPARATOR_OFFSET : Z := 0x108.
Definition PER_INT_CAP : Z := 0x10.

(** Timer 0 and the block's general configuration, as the chip holds them. *)
Record Timer := mkTimer {
  t_periodic : bool; t_interrupts : bool; t_value_set : bool; t_comparator : Z; t_interval : Z }.
Record Block := mkBlock { b_enabled : bool; b_legacy : bool; b_timer : Timer }.

Class HpetLaws (D : Type) `{HpetDevice D} := {
  block : D → Block;
  capabilities : D → Z;
  timer_capabilities : D → Z;
  counter : D → Z;
  capabilities_range d : 0 ≤ capabilities d < 2 ^ 64;
  counter_range d : 0 ≤ counter d < 2 ^ 64;
  read_capabilities d : hpet_read CAPABILITY_OFFSET d = capabilities d;
  read_timer d :
    Z.testbit (hpet_read T0_CONFIG_CAPABILITY_OFFSET d) 4 = Z.testbit (timer_capabilities d) 4;
  read_counter d : hpet_read 0xf0 d = counter d;
  read_config d :
    Z.testbit (hpet_read GENERAL_CONFIG_OFFSET d) 0 = b_enabled (block d) ∧
    Z.testbit (hpet_read GENERAL_CONFIG_OFFSET d) 1 = b_legacy (block d);
  write_keeps r v d :
    r ≠ 0xf0 → capabilities (hpet_write r v d) = capabilities d ∧
    timer_capabilities (hpet_write r v d) = timer_capabilities d ∧ counter (hpet_write r v d) = counter d;
  write_timer v d :
    Z.testbit (timer_capabilities d) 4 = true →
    block (hpet_write T0_CONFIG_CAPABILITY_OFFSET v d) =
      mkBlock (b_enabled (block d)) (b_legacy (block d))
        (mkTimer (Z.testbit v 3) (Z.testbit v 2) (Z.testbit v 6)
           (t_comparator (b_timer (block d))) (t_interval (b_timer (block d))));
  write_comparator_set v d :
    t_periodic (b_timer (block d)) = true → t_value_set (b_timer (block d)) = true →
    let t := b_timer (block d) in
    let b' := block (hpet_write T0_COMPARATOR_OFFSET v d) in
    b_enabled b' = b_enabled (block d) ∧ b_legacy b' = b_legacy (block d) ∧
    t_periodic (b_timer b') = true ∧ t_interrupts (b_timer b') = t_interrupts t ∧
    t_value_set (b_timer b') = false ∧ t_comparator (b_timer b') = v;
  write_comparator_interval v d :
    t_periodic (b_timer (block d)) = true → t_value_set (b_timer (block d)) = false →
    let t := b_timer (block d) in
    block (hpet_write T0_COMPARATOR_OFFSET v d) =
      mkBlock (b_enabled (block d)) (b_legacy (block d))
        (mkTimer true (t_interrupts t) false (t_comparator t) v);
  write_config v d :
    block (hpet_write GENERAL_CONFIG_OFFSET v d) =
      mkBlock (Z.testbit v 0) (Z.testbit v 1) (b_timer (block d)) }.

Section driver.
Context {D : Type} `{HpetDevice D}.

Definition current (d : D) : Z := hpet_read 0xf0 d.

Definition DESIRED_FS_PERIOD : Z := 2250286 * 1000000.

(** [a / b] of [u64]. *)
Definition udiv (a b : Z) : outcome Z := if b =? 0 then Panic DivideByZero else Ret (a / b).

(** [Hpet::new]. *)
Definition new (d : D) : outcome D :=
  let capability := hpet_read CAPABILITY_OFFSET d in
  if Z.land capability LEG_RT_CAP =? 0 then Panic ExplicitPanic
  else
    let counter_clk_period_fs := Z.shiftr capability 32 in
    clk_periods_per_kernel_tick ← udiv DESIRED_FS_PERIOD counter_clk_period_fs;
    let t0_capabilities := hpet_read T0_CONFIG_CAPABILITY_OFFSET d in
    if Z.land t0_capabilities PER_INT_CAP =? 0 then Panic ExplicitPanic
    else
      let t0_config_word := Z.lor (Z.lor TN_VAL_SET_CNF TN_TYPE_CNF) TN_INT_ENB_CNF in
      let d := hpet_write T0_CONFIG_CAPABILITY_OFFSET t0_config_word d in
      first ← uadd (current d) clk_periods_per_kernel_tick;
      let d := hpet_write T0_COMPARATOR_OFFSET first d in
      let d := hpet_write T0_COMPARATOR_OFFSET clk_periods_per_kernel_tick d in
      let enable_word := Z.lor (Z.lor (hpet_read GENERAL_CONFIG_OFFSET d) LEG_RT_CNF) ENABLE_CNF in
      Ret (hpet_write GENERAL_CONFIG_OFFSET enable_word d).

(** The HPET table of the firmware. *)
Record HpetInfo := mkHpetInfo {
  event_timer_block_id : Z; base_address : Z; hpet_number : Z; clock_tick_unit : Z }.

(** [HpetAccess::new]: the registers, if they can be mapped. *)
Definition access_new (open_ : Z → option D) (info : HpetInfo) : option D := open_ (base_address info).

(** [init], with the parsed ACPI tables as argument; [hpet] is [HPET]. *)
Definition init (acpi : option (option HpetInfo)) (open_ : Z → option D) (hpet : option D) : outcome (option D) :=
  tables ← unwrap acpi;
  match (info ← tables; access_new open_ info) with
  | Some access => d ← new access; Ret (InitMutex.init hpet d)
  | None => Panic UnwrapNone
  end.

End driver.

(** ** The tick *)

Section facts.
Context {D : Type} `{HpetLaws D}.

Lemma land_bit v k : 0 ≤ k → (Z.land v (2 ^ k) =? 0) = negb (Z.testbit v k).
Proof.
  intros Hk. rewrite <- (Z.mul_1_l (2 ^ k)), <- Z.shiftl_mul_pow2 by done. by apply land_bit_mask.
Qed.

(** The ticks between two interrupts, and the femtoseconds of one tick. *)
Definition tick_fs (d : D) : Z := Z.shiftr (capabilities d) 32.
Definition interval (d : D) : Z := DESIRED_FS_PERIOD / tick_fs d.

(** The programmed block. *)
Definition ticking (d : D) : Block :=
  mkBlock true true (mkTimer true true false (counter d + interval d) (interval d)).

Lemma program_ok d :
  Z.testbit (timer_capabilities d) 4 = true →
  let d1 := hpet_write T0_CONFIG_CAPABILITY_OFFSET (Z.lor (Z.lor TN_VAL_SET_CNF TN_TYPE_CNF) TN_INT_ENB_CNF) d in
  let d2 := hpet_write T0_COMPARATOR_OFFSET (counter d + interval d) d1 in
  let d3 := hpet_write T0_COMPARATOR_OFFSET (interval d) d2 in
  block (hpet_write GENERAL_CONFIG_OFFSET
    (Z.lor (Z.lor (hpet_read GENERAL_CONFIG_OFFSET d3) LEG_RT_CNF) ENABLE_CNF) d3) = ticking d.
Proof.
  intros Hper d1 d2 d3.
  assert (H1 : b_timer (block d1) = mkTimer true true true (t_comparator (b_timer (block d))) (t_interval (b_timer (block d)))).
  { unfold d1. by rewrite write_timer. }
  pose proof (write_comparator_set (counter d + interval d) d1) as H2. rewrite H1 in H2.
  destruct (H2 eq_refl eq_refl) as (_ & _ & Hp & Hi & Hs & Hc). cbn in Hi. fold d2 in Hp, Hi, Hs, Hc.
  assert (H3 : b_timer (block d3) = mkTimer true true false (counter d + interval d) (interval d)).
  { unfold d3. rewrite write_comparator_interval by done. cbn. by rewrite Hi, Hc. }
  rewrite write_config, H3, !Z.lor_spec. unfold ticking. f_equal; by destruct (Z.testbit (hpet_read _ _) _).
Qed.

(** C37: the kernel tick. [Hpet::new] panics when the block cannot replace the
    legacy timers, when timer 0 has no periodic mode, with a division by zero
    when the block reports no clock period, and with an overflow when the
    first deadline does not fit the counter; otherwise timer 0 is periodic
    with interrupts on, its first deadline one interval after the current
    counter, and the interval the largest number of clock periods within
    2.250286 ms; the block runs and drives the legacy interrupt. *)
Theorem hpet_tick_correct d :
  if negb (Z.testbit (capabilities d) 15) then new d = Panic ExplicitPanic
  else if tick_fs d =? 0 then new d = Panic DivideByZero
  else if negb (Z.testbit (timer_capabilities d) 4) then new d = Panic ExplicitPanic
  else if usize_limit <=? counter d + interval d then new d = Panic Overflow
  else ∃ d', new d = Ret d' ∧ block d' = ticking d ∧
    interval d * tick_fs d ≤ DESIRED_FS_PERIOD < (interval d + 1) * tick_fs d.
Proof.
  unfold new. rewrite read_capabilities. change LEG_RT_CAP with (2 ^ 15). change PER_INT_CAP with (2 ^ 4).
  rewrite !land_bit, read_timer by lia. fold (tick_fs d). unfold udiv.
  assert (Hc : current (hpet_write T0_CONFIG_CAPABILITY_OFFSET
       (Z.lor (Z.lor TN_VAL_SET_CNF TN_TYPE_CNF) TN_INT_ENB_CNF) d) = counter d).
  { unfold current. rewrite read_counter. by apply write_keeps. }
  rewrite Hc. fold (interval d).
  destruct (Z.testbit (capabilities d) 15); [|done]. cbn [negb].
  destruct (Z.eqb_spec (tick_fs d) 0) as [|Hz]; [done|]. rewrite bind_bind_Ret.
  destruct (Z.testbit (timer_capabilities d) 4) eqn:Hper; [|done]. cbn [negb]. unfold uadd.
  destruct (Z.leb_spec 18446744073709551616 (counter d + interval d)) as [Hge|Hlt];
    [by rewrite (proj2 (Z.ltb_ge _ _)) by done|].
  rewrite (proj2 (Z.ltb_lt _ _)), bind_bind_Ret by done.
  eexists. split; [reflexivity|]. split; [by apply program_ok|].
  assert (0 < tick_fs d) as Hpos.
  { assert (0 ≤ tick_fs d); [|lia]. unfold tick_fs. apply Z.shiftr_nonneg, capabilities_range. }
  unfold interval. pose proof (Z.div_mod DESIRED_FS_PERIOD (tick_fs d) ltac:(lia)).
  pose proof (Z.mod_pos_bound DESIRED_FS_PERIOD (tick_fs d) Hpos). lia.
Qed.

End facts.

(** ** A chip with these laws *)

Record Chip := mkChip { c_caps : Z; c_tcaps : Z; c_counter : Z; c_block : Block }.

Definition chip_write (r v : Z) (d : Chip) : Chip :=
  let b := c_block d in let t := b_timer b in
  let set b' := mkChip (c_caps d) (c_tcaps d) (c_counter d) b' in
  if r =? 0x100 then
    set (mkBlock (b_enabled b) (b_legacy b)
           (mkTimer (Z.testbit v 3) (Z.testbit v 2) (Z.testbit v 6) (t_comparator t) (t_interval t)))
  else if r =? 0x108 then
    set (mkBlock (b_enabled b) (b_legacy b)
           (mkTimer (t_periodic t) (t_interrupts t) false
              (if t_value_set t then v else t_comparator t) v))
  else if r =? 0x10 then set (mkBlock (Z.testbit v 0) (Z.testbit v 1) t)
  else d.

#[global] Instance Chip_device : HpetDevice Chip := {|
  hpet_read r d :=
    if r =? 0 then truncate 64 (c_caps d)
    else if r =? 0x10 then Z.b2z (b_enabled (c_block d)) + 2 * Z.b2z (b_legacy (c_block d))
    else if r =? 0x100 then c_tcaps d
    else if r =? 0xf0 then truncate 64 (c_counter d)
    else 0;
  hpet_write := chip_write |}.

#[global] Program Instance Chip_laws : HpetLaws Chip := {|
  block := c_block; capabilities d := truncate 64 (c_caps d); timer_capabilities := c_tcaps;
  counter d := truncate 64 (c_counter d) |}.
Next Obligation. intros. unfold truncate. apply Z.mod_pos_bound. lia. Qed.
Next Obligation. intros. unfold truncate. apply Z.mod_pos_bound. lia. Qed.
Next Obligation. done. Qed.
Next Obligation. done. Qed.
Next Obligation. done. Qed.
Next Obligation. intros [? ? ? [[] [] ?]]; done. Qed.
Next Obligation. intros r v d Hr. unfold hpet_write, Chip_device, chip_write. by repeat case_match. Qed.
Next Obligation. done. Qed.
Next Obligation. intros v [? ? ? [? ? [p i s c n]]]. cbn. intros -> ->. done. Qed.
Next Obligation. intros v [? ? ? [? ? [p i s c n]]]. cbn. intros -> ->. done. Qed.
Next Obligation. done. Qed.

(** The 10 MHz clock of the usual chip. *)
Definition example_chip : Chip :=
  mkChip (100000000 * 2 ^ 32 + 0x8086A201) 0x30 12345 (mkBlock false false (mkTimer false false false 0 0)).

Lemma hpet_tick_correct_witness :
  ∃ d', new example_chip = Ret d' ∧ t_interval (b_timer (block d')) = 22502.
Proof.
  pose proof (hpet_tick_correct example_chip) as H.
  replace (negb (Z.testbit (capabilities example_chip) 15)) with false in H by (vm_compute; reflexivity).
  replace (tick_fs example_chip =? 0) with false in H by (vm_compute; reflexivity).
  replace (negb (Z.testbit (timer_capabilities example_chip) 4)) with false in H by (vm_compute; reflexivity).
  replace (usize_limit <=? counter example_chip + interval example_chip) with false in H
    by (vm_compute; reflexivity).
  destruct H as (d' & Hn & Hb & _).
  exists d'. split; [exact Hn|]. rewrite Hb. reflexivity.
Defined.
