(* ===== verification/BootPaging.v ===== *)
(** * The kernel's own address space (the boot half of paging/mod.rs)

    [init] builds the page tables the kernel runs on: the identity map of the
    first 4 GiB in 2 MiB pages, the sections of the kernel image with the
    rights they need, copied from the boot loader's tables, and the boot stack;
    then it switches to them. [initialize_tcb] lays out the thread-local block
    of a CPU. The addresses the linker assigns are the record [Linker]. *)
From S2P Require Import Prelude Align AllocFreeList Physmem PageEntry PageTable Regions RegionMapping SimpleAlloc.

Definition HUGE_PAGE_SIZE : Z := PAGE_SIZE * 512.

(** ** Copying the boot loader's mapping *)

(** [t.next_table(i).unwrap()]. *)
Definition unwrap_table (m : Machine) (f i : Z) : outcome Frame :=
  o ← next_table m f i; unwrap o.

(** One turn of the loop. *)
Definition copy_page (boot_p4 init_p4 virt_page flags : Z) (m : Machine) : outcome (result () * Machine) :=
  r ← create_pte_mut_for_address m init_p4 virt_page;
  try_ r (λ init_pte m,
    boot_p3 ← unwrap_table m boot_p4 (p4_index virt_page);
    boot_p2 ← unwrap_table m boot_p3 (p3_index virt_page);
    boot_p1 ← unwrap_table m boot_p2 (p2_index virt_page);
    match Raw.present (read_pte m boot_p1 (p1_index virt_page)) with
    | InvalidPteError _ => Panic UnwrapNone
    | PteOk boot_p1_entry =>
        pte ← Present.from_frame_and_flags (Present.frame boot_p1_entry) flags;
        Ret (Ok (), write_pte m init_pte.1 init_pte.2 (Present.to_raw pte))
    end).

(** [while virt_page < end]. Every turn moves on by a page, so that the number of
    pages the range touches is enough fuel. *)
Fixpoint copy_loop (fuel : nat) (boot_p4 init_p4 virt_page end_ flags : Z) (m : Machine)
    : outcome (result () * Machine) :=
  if virt_page <? end_ then
    match fuel with
    | O => Hang
    | S fuel' =>
        r ← copy_page boot_p4 init_p4 virt_page flags m;
        try_ r (λ _ m,
          virt_page' ← uadd virt_page PAGE_SIZE;
          copy_loop fuel' boot_p4 init_p4 virt_page' end_ flags m)
    end
  else Ret (Ok (), m).

Definition copy_boot_mapping (boot_p4 init_p4 start end_ flags : Z) (m : Machine)
    : outcome (result () * Machine) :=
  copy_loop (Z.to_nat ((end_ - start + PAGE_SIZE - 1) / PAGE_SIZE)) boot_p4 init_p4 start end_ flags m.

(** ** The identity map *)

Definition IDENTITY_FLAGS : Z :=
  Z.lor (Z.lor (Z.lor PresentPageFlags.WRITABLE PresentPageFlags.HUGE_PAGE) PresentPageFlags.NO_EXECUTE)
    PresentPageFlags.GLOBAL.

(** [while va_pos < va_limit]: the table of the current gigabyte is carried along.
    Every turn moves on by a huge page. *)
Fixpoint identity_loop (fuel : nat) (p3_table va_pos va_limit current_p3_index current_p2_table : Z)
    (m : Machine) : outcome (result () * Machine) :=
  if va_pos <? va_limit then
    match fuel with
    | O => Hang
    | S fuel' =>
        r ← (if negb (p3_index va_pos =? current_p3_index)
             then create_next_table m p3_table (p3_index va_pos)
             else Ret (Ok current_p2_table, m));
        try_ r (λ current_p2_table m,
          phys_pos ← usub va_pos IDENTITY_MAP_REGION;
          pte ← Present.from_frame_and_flags (Frame.containing_address phys_pos) IDENTITY_FLAGS;
          let m := write_pte m current_p2_table (p2_index va_pos) (Present.to_raw pte) in
          va_pos' ← uadd va_pos HUGE_PAGE_SIZE;
          identity_loop fuel' p3_table va_pos' va_limit (p3_index va_pos) current_p2_table m)
    end
  else Ret (Ok (), m).

(** [has_1gib_pages] is the answer of [cpuid], if the processor has that leaf. *)
Definition prepare_identity_mapping (has_1gib_pages : option bool) (init_p4 : Z) (m : Machine)
    : outcome (result () * Machine) :=
  gib ← unwrap has_1gib_pages;
  if gib : bool then Panic Unimplemented
  else
    last ← uadd IDENTITY_MAP_REGION 0xffffffff;
    assert_ (p4_index last =? IDENTITY_MAP_PML4);;
    r ← create_next_table m init_p4 (p4_index IDENTITY_MAP_REGION);
    try_ r (λ p3_table m,
      let va_pos := IDENTITY_MAP_REGION in
      va_limit ← uadd IDENTITY_MAP_REGION IDENTITY_MAP_SIZE;
      r ← create_next_table m p3_table (p3_index va_pos);
      try_ r (λ p2_table m,
        identity_loop (Z.to_nat (IDENTITY_MAP_SIZE / HUGE_PAGE_SIZE)) p3_table va_pos va_limit (p3_index va_pos) p2_table m)).

(** ** [init] *)

(** The symbols of the linker script. *)
Record Linker := mkLinker {
  kernel_start : Z; kernel_end : Z;
  text_start : Z; text_end : Z; rodata_start : Z; rodata_end : Z; data_start : Z; data_end : Z;
  tdata_start : Z; tdata_end : Z; tbss_start : Z; tbss_end : Z; bss_start : Z; bss_end : Z }.

Definition GLOBAL_NX : Z := Z.lor PresentPageFlags.GLOBAL PresentPageFlags.NO_EXECUTE.
Definition GLOBAL_NX_W : Z := Z.lor GLOBAL_NX PresentPageFlags.WRITABLE.
Definition NX_W : Z := Z.lor PresentPageFlags.NO_EXECUTE PresentPageFlags.WRITABLE.

(** "Allow for the guard page on the stack". *)
Definition boot_stack_start : Z := 0x10000000 + PAGE_SIZE.
Definition boot_stack_end : Z := boot_stack_start + PAGE_SIZE * 8.

(** The ranges [init] copies, in its order: start, end, flags. The sections of
    the image, then the stack the boot loader provided. *)
Definition image_sections (l : Linker) : list (Z * Z * Z) :=
  [(text_start l, text_end l, PresentPageFlags.GLOBAL);
   (rodata_start l, rodata_end l, GLOBAL_NX);
   (data_start l, data_end l, GLOBAL_NX_W);
   (tdata_start l, tdata_end l, GLOBAL_NX);
   (tbss_start l, tbss_end l, GLOBAL_NX);
   (bss_start l, bss_end l, GLOBAL_NX_W)].
Definition sections (l : Linker) : list (Z * Z * Z) :=
  image_sections l ++ [(boot_stack_start, boot_stack_end, NX_W)].

(** [r.expect(..)]. *)
Definition expect_ok (r : result () * Machine) : outcome Machine :=
  match r.1 with Ok _ => Ret r.2 | Err _ => Panic UnwrapNone end.

Definition copy_section (boot_p4 init_p4 : Z) (s : Z * Z * Z) (m : Machine) : outcome Machine :=
  r ← copy_boot_mapping boot_p4 init_p4 s.1.1 s.1.2 s.2 m; expect_ok r.

(** [init] up to the switch: the new root table and the machine that runs on it. *)
Definition build_tables (has_1gib_pages : option bool) (l : Linker) (m : Machine) : outcome (Z * Machine) :=
  let start := page_align_down (kernel_start l) in
  end_ ← page_align_up (kernel_end l);
  assert_ (p4_index start =? KERNEL_PML4);;
  assert_ (p4_index end_ =? KERNEL_PML4);;
  boot_p4 ← table_in_frame (Frame.containing_address (cr3 m));
  r ← allocate_kernel_frame m;
  frame ← unwrap r.1;
  init_p4 ← table_in_frame frame;
  r ← prepare_identity_mapping has_1gib_pages init_p4 r.2;
  m ← expect_ok r;
  m ← for_each (copy_section boot_p4 init_p4) (sections l) m;
  root ← Frame.physical_address frame;
  Ret (init_p4, mkMachine (ram m) (frames m) root (page_lock m) (tlb_events m)).

(** ** The thread-local block *)

(** Memory by virtual address, one byte each. *)
Abbreviation bytes := (Z → Z) (only parsing).

Definition copy_bytes (src dst n : Z) (b : bytes) : bytes :=
  λ a, if (dst <=? a) && (a <? dst + n) then b (src + (a - dst)) else b a.
Definition write_bytes (dst v n : Z) (b : bytes) : bytes :=
  λ a, if (dst <=? a) && (a <? dst + n) then v else b a.
(** A 64-bit store, little-endian, and the load. *)
Definition store_usize (dst v : Z) (b : bytes) : bytes :=
  λ a, if (dst <=? a) && (a <? dst + 8) then v / 2 ^ (8 * (a - dst)) mod 256 else b a.
Definition load_usize (p : Z) (b : bytes) : Z :=
  b p + b (p + 1) * 2 ^ 8 + b (p + 2) * 2 ^ 16 + b (p + 3) * 2 ^ 24 + b (p + 4) * 2 ^ 32 +
  b (p + 5) * 2 ^ 40 + b (p + 6) * 2 ^ 48 + b (p + 7) * 2 ^ 56.

Section tcb.
Context {S : Type} `{HeapRegions S}.

Definition initialize_tcb (l : Linker) (s : S) (b : bytes) : outcome (result Z * S * bytes) :=
  let tcb_start_addr := tdata_start l in
  let tcb_end_addr := tbss_end l in
  len ← usub tcb_end_addr tcb_start_addr;
  per_cpu_size ← page_align_up len;
  tbss_offset ← usub (tbss_start l) tcb_start_addr;
  r ← hr_allocate (per_cpu_size / PAGE_SIZE) s;
  match r.1 with
  | Err e => Ret (Err e, r.2, b)
  | Ok slot_region =>
      slot_start_addr ← Region.start slot_region;
      slot_limit_addr ← uadd slot_start_addr per_cpu_size;
      let b := copy_bytes tcb_start_addr slot_start_addr tbss_offset b in
      dst ← uadd slot_start_addr tbss_offset;
      n ← usub per_cpu_size tbss_offset;
      let b := write_bytes dst 0 n b in
      tcb_offset ← usub slot_limit_addr 8;
      Ret (Ok tcb_offset, r.2, store_usize tcb_offset slot_limit_addr b)
  end.

(** [init_ap]: an application processor runs on the tables of the first. *)
Definition init_ap (l : Linker) (s : S) (b : bytes) : outcome (Z * S * bytes) :=
  r ← initialize_tcb l s b;
  match r.1.1 with
  | Ok tcb_offset => Ret (tcb_offset, r.1.2, r.2)
  | Err _ => Panic UnwrapNone
  end.
End tcb.

(** [pre_init]: the loader's offset of physical memory. *)
Definition pre_init (physical_memory_offset : Z) : outcome () :=
  assert_ (physical_memory_offset =? IDENTITY_MAP_REGION).

(** [init] as a whole: the tables, the region manager over the kernel's heap
    window, the thread-local block of the boot processor. *)
Definition paging_init (N : nat) (page_size : Z) (has_1gib_pages : option bool) (l : Linker)
    (p : Paging) (b : bytes) : outcome (Z * Paging * bytes) :=
  t ← build_tables has_1gib_pages l (machine p);
  init_ap (H := Paging_heap_regions N page_size) l
    (RegionMapping.init N (mkPaging (manager p) t.2) KERNEL_HEAP_BASE KERNEL_HEAP_LIMIT) b.

(** * Proofs *)

(** ** One page *)

Lemma create_pte_frame m p4 G F H va t i m1 :
  tables_ok m p4 G F H → clean m F → plain m p4 va → (3 ≤ size (kernel_free F))%nat →
  create_pte_mut_for_address m p4 va = Ret (Ok (t, i), m1) →
  t ∈ F ∪ H ∧ ∀ f j c, next_table_frame m f j = Some c → next_table_frame m1 f j = Some c.
Proof.
  intros Hok Hcl Hpl Hfree Hc.
  destruct (create_pte_ok m p4 G F H va Hok Hcl Hpl Hfree) as (t' & m' & G' & F' & H' & Hc' & Hg & Hw & _).
  rewrite Hc in Hc'. injection Hc' as -> -> ->.
  split.
  - destruct (walk_ok m' p4 G' F' H' va (gr_ok _ _ _ _ _ _ _ _ _ Hg) (gr_plain _ _ _ _ _ _ _ _ _ Hg _ Hpl)) as [_ Ht].
    destruct (Ht _ _ Hw) as [Ht' _]. apply (tab_held _ _ _ _ _ (gr_ok _ _ _ _ _ _ _ _ _ Hg)) in Ht'.
    pose proof (gr_total _ _ _ _ _ _ _ _ _ Hg). set_solver.
  - intros f j c Hn. by apply (gr_next _ _ _ _ _ _ _ _ _ Hg).
Qed.

(** The boot loader maps [va] to frame [c], with tables that are none of ours
    and within reach of the identity map. *)
Definition boot_maps (m : Machine) (U : gset Z) (boot_p4 va c : Z) : Prop :=
  ∃ t3 t2 t1,
    next_table_frame m boot_p4 (p4_index va) = Some t3 ∧
    next_table_frame m t3 (p3_index va) = Some t2 ∧
    next_table_frame m t2 (p2_index va) = Some t1 ∧
    next_table_frame m t1 (p1_index va) = Some c ∧
    table_frame t3 ∧ table_frame t2 ∧ table_frame t1 ∧
    (∀ f, f ∈ [boot_p4; t3; t2; t1] → f ∉ U) ∧ 0 ≤ c < 2 ^ 40.

Lemma boot_maps_mono m m' U boot_p4 va c :
  (∀ f i d, f ∉ U → next_table_frame m f i = Some d → next_table_frame m' f i = Some d) →
  boot_maps m U boot_p4 va c → boot_maps m' U boot_p4 va c.
Proof.
  intros Hm (t3 & t2 & t1 & H4 & H3 & H2 & H1 & Hr & Hr' & Hr'' & Hf & Hc).
  exists t3, t2, t1.
  assert ((boot_p4 ∉ U) ∧ (t3 ∉ U) ∧ (t2 ∉ U) ∧ (t1 ∉ U)) as (? & ? & ? & ?) by (split_and!; apply Hf; set_solver).
  split_and!; [by apply Hm..|done|done|done|done|apply Hc|apply Hc].
Qed.

Lemma next_frame_table m f i c : next_table_frame m f i = Some c → table_frame c → unwrap_table m f i = Ret c.
Proof. intros Hn Hc. unfold unwrap_table, next_table. rewrite Hn, table_in_frame_ok by done. done. Qed.

(** A page of the tables: its frame and rights. *)
Definition page_mapped (m : Machine) (p4 va frame flags : Z) : Prop :=
  ∃ pte, translate m p4 va = Present.to_raw pte ∧ Raw.present (Present.to_raw pte) = PteOk pte ∧
    Present.frame pte = frame ∧ Present.flags pte = flags.

Lemma copy_page_ok m boot_p4 p4 G F H va c flags :
  tables_ok m p4 G F H → clean m F → (3 ≤ size (kernel_free F))%nat → plain m p4 va →
  boot_maps m (F ∪ H) boot_p4 va c → valid_flags PresentPageFlags.all flags →
  ∃ pte m' G' F' H', copy_page boot_p4 p4 va flags m = Ret (Ok (), m') ∧
    mapped p4 m G F H va (Present.to_raw pte) m' G' F' H' ∧
    Raw.present (Present.to_raw pte) = PteOk pte ∧ Present.frame pte = c ∧ Present.flags pte = flags.
Proof.
  intros Hok Hcl Hfree Hpl Hboot Hfl.
  assert (0 ≤ c < 2 ^ 40) as Hcr by (destruct Hboot as (? & ? & ? & Hb); apply Hb).
  destruct (present_fields c flags 0) as (pte & Hpte & _ & Hfr & Hflg & _ & Hpr); [done|done|done|].
  destruct (write_entry_ok m p4 G F H va (Present.to_raw pte) Hok Hcl Hfree Hpl)
    as (t & m1 & G' & F' & H' & Hc & _ & Hm).
  destruct (create_pte_frame _ _ _ _ _ _ _ _ _ Hok Hcl Hpl Hfree Hc) as [_ Hnext].
  destruct (boot_maps_mono m m1 _ _ _ _ (λ f i d _, Hnext f i d) Hboot)
    as (t3 & t2 & t1 & B4 & B3 & B2 & B1 & T3 & T2 & T1 & _).
  exists pte. eexists _, G', F', H'. split; [|done].
  unfold copy_page. rewrite Hc, bind_bind_Ret. cbn [try_ fst snd].
  rewrite (next_frame_table _ _ _ _ B4 T3), bind_bind_Ret, (next_frame_table _ _ _ _ B3 T2), bind_bind_Ret,
    (next_frame_table _ _ _ _ B2 T1), bind_bind_Ret.
  unfold next_table_frame in B1. destruct (Raw.present (read_pte m1 t1 (p1_index va))) as [q|]; [|done].
  injection B1 as ->. unfold Present.from_frame_and_flags. by rewrite Hpte, bind_bind_Ret.
Qed.

(** ** Huge pages *)

(** [va] lies in a 2 MiB page that starts at frame [c]. *)
Definition huge_mapped (m : Machine) (p4 va c : Z) : Prop :=
  ∃ p3 p2, next_table_frame m p4 (p4_index va) = Some p3 ∧ huge_entry m p4 (p4_index va) = false ∧
    next_table_frame m p3 (p3_index va) = Some p2 ∧ huge_entry m p3 (p3_index va) = false ∧
    next_table_frame m p2 (p2_index va) = Some c ∧ huge_entry m p2 (p2_index va) = true.

Lemma huge_mapped_hw m p4 va c :
  huge_mapped m p4 va c → hw_translate m p4 va = Some (c * PAGE_SIZE + va mod 2 ^ 21).
Proof.
  intros (p3 & p2 & H4 & _ & H3 & Hh3 & H2 & Hh2). unfold hw_translate.
  rewrite H4. cbn. rewrite H3. cbn. rewrite Hh3, H2. cbn. by rewrite Hh2.
Qed.

(** Huge pages survive what leaves the directories alone. *)
Lemma huge_mapped_keep m m' p4 G F H va c :
  tables_ok m p4 G F H → dirs_kept G m m' → huge_mapped m p4 va c → huge_mapped m' p4 va c.
Proof.
  intros Hok Hkeep (p3 & p2 & H4 & Hh4 & H3 & Hh3 & H2 & Hh2). exists p3, p2.
  pose proof (tab_root _ _ _ _ _ Hok) as G4.
  destruct (Hkeep p4 [] (p4_index va) p3) as [K4 L4]; [done|cbn; lia|done|].
  assert (G !! p3 = Some [p4_index va]) as G3
    by (eapply (tab_child _ _ _ _ _ Hok p4 []); [done|cbn; lia|done|congruence]).
  destruct (Hkeep p3 _ (p3_index va) p2 G3) as [K3 L3]; [cbn; lia|done|].
  assert (G !! p2 = Some [p4_index va; p3_index va]) as G2
    by (eapply (tab_child _ _ _ _ _ Hok p3 [_]); [done|cbn; lia|done|congruence]).
  destruct (Hkeep p2 _ (p2_index va) c G2) as [K2 L2]; [cbn; lia|done|].
  split_and!; congruence.
Qed.

(** ** A list of pages *)

Section copying.
Context (boot_p4 p4 : Z).

(** The pages one after the other: address and rights. *)
Fixpoint copy_list (l : list (Z * Z)) (m : Machine) : outcome (result () * Machine) :=
  match l with
  | [] => Ret (Ok (), m)
  | (va, flags) :: l' => r ← copy_page boot_p4 p4 va flags m; try_ r (λ _ m, copy_list l' m)
  end.

Definition range_pages (start : Z) (n : nat) (flags : Z) : list (Z * Z) :=
  (λ i : nat, (start + Z.of_nat i * PAGE_SIZE, flags)) <$> seq 0 n.

Lemma range_pages_S start n flags :
  range_pages start (S n) flags = (start, flags) :: range_pages (start + PAGE_SIZE) n flags.
Proof.
  unfold range_pages. cbn [seq fmap list_fmap]. f_equal; [f_equal; lia|].
  rewrite <- fmap_S_seq, <- list_fmap_compose. apply list_fmap_ext. intros i j _. cbn. f_equal. lia.
Qed.

Lemma copy_loop_list fuel start n flags m :
  (n ≤ fuel)%nat → start + Z.of_nat n * PAGE_SIZE < usize_limit →
  copy_loop fuel boot_p4 p4 start (start + Z.of_nat n * PAGE_SIZE) flags m = copy_list (range_pages start n flags) m.
Proof.
  revert n start m. induction fuel as [|fuel IH]; intros n start m Hn Hlt; unfold PAGE_SIZE in *.
  { assert (n = 0%nat) as -> by lia. cbn. by rewrite (proj2 (Z.ltb_ge _ _)) by lia. }
  destruct n as [|n]; cbn [copy_loop].
  { by rewrite (proj2 (Z.ltb_ge _ _)) by lia. }
  rewrite (proj2 (Z.ltb_lt _ _)), range_pages_S by lia. cbn [copy_list].
  destruct (copy_page boot_p4 p4 start flags m) as [[[[]|e] m']|w|]; [|done..].
  rewrite !bind_bind_Ret. cbn [try_ fst snd]. unfold PAGE_SIZE. rewrite uadd_ok, bind_bind_Ret by lia.
  rewrite <- IH by (unfold PAGE_SIZE; lia). f_equal. unfold PAGE_SIZE. lia.
Qed.

Lemma copy_boot_mapping_list start n flags m :
  start + Z.of_nat n * PAGE_SIZE < usize_limit →
  copy_boot_mapping boot_p4 p4 start (start + Z.of_nat n * PAGE_SIZE) flags m = copy_list (range_pages start n flags) m.
Proof. intros Hlt. apply copy_loop_list; [unfold PAGE_SIZE in *; mlia|done]. Qed.

Lemma copy_list_app l1 l2 m :
  copy_list (l1 ++ l2) m = r ← copy_list l1 m; try_ r (λ _ m, copy_list l2 m).
Proof.
  revert m. induction l1 as [|[va fl] l1 IH]; intros m; [done|]. cbn.
  destruct (copy_page boot_p4 p4 va fl m) as [[[[]|e] m']|w|]; [|done..]. cbn. apply IH.
Qed.

(** What copying a list of pages leaves behind. *)
Record copied (src : Z → Z) (l : list (Z * Z)) (m : Machine) (F H : gset Z)
    (m' : Machine) (G' : gmap Z (list Z)) (F' H' : gset Z) : Prop := {
  cp_ok : tables_ok m' p4 G' F' H';
  cp_clean : clean m' F';
  cp_total : F' ∪ H' = F ∪ H;
  cp_free : (size (kernel_free F) ≤ 3 * length l + size (kernel_free F'))%nat;
  cp_plain : ∀ va, plain m p4 va → plain m' p4 va;
  cp_mapped : ∀ va flags, (va, flags) ∈ l → page_mapped m' p4 va (src va) flags;
  cp_rest : ∀ va, plain m p4 va → (∀ p, p ∈ l → ¬ same_page p.1 va) →
    translate m' p4 va = translate m p4 va;
  cp_state : cr3 m' = cr3 m ∧ page_lock m' = page_lock m ∧ tlb_events m' = tlb_events m;
  cp_ram : ∀ f i, f ∉ F ∪ H → ram m' f i = ram m f i;
  cp_huge : ∀ va c, huge_mapped m p4 va c → huge_mapped m' p4 va c }.

(** No two entries of the list are the same page. *)
Definition distinct_pages (l : list (Z * Z)) : Prop :=
  ∀ i j p q, l !! i = Some p → l !! j = Some q → same_page p.1 q.1 → i = j.

Lemma distinct_pages_cons p l :
  distinct_pages (p :: l) → (∀ q, q ∈ l → ¬ same_page p.1 q.1) ∧ distinct_pages l.
Proof.
  intros Hd. split.
  - intros q [i Hi]%list_elem_of_lookup_1 Hs. specialize (Hd 0%nat (S i) p q eq_refl Hi Hs). lia.
  - intros i j q r Hi Hj Hs. specialize (Hd (S i) (S j) q r Hi Hj Hs). lia.
Qed.

Lemma copy_list_ok src l m G F H :
  tables_ok m p4 G F H → clean m F → (3 * length l ≤ size (kernel_free F))%nat → distinct_pages l →
  (∀ va flags, (va, flags) ∈ l → plain m p4 va ∧ boot_maps m (F ∪ H) boot_p4 va (src va) ∧
     valid_flags PresentPageFlags.all flags) →
  ∃ m' G' F' H', copy_list l m = Ret (Ok (), m') ∧ copied src l m F H m' G' F' H'.
Proof.
  revert m G F H. induction l as [|[va fl] l IH]; intros m G F H Hok Hcl Hfree Hd Hall.
  { exists m, G, F, H. split; [done|]. split; try done. by intros ? ? ?%elem_of_nil. }
  apply distinct_pages_cons in Hd as [Hne Hd]. cbn [length] in Hfree.
  destruct (Hall va fl ltac:(by left)) as (Hpl & Hb & Hfl).
  destruct (copy_page_ok m boot_p4 p4 G F H va (src va) fl Hok Hcl ltac:(lia) Hpl Hb Hfl)
    as (pte & m1 & G1 & F1 & H1 & Hrun & Hm & Hpr & Hfr & Hflg).
  pose proof (mp_total _ _ _ _ _ _ _ _ _ _ _ Hm) as Ht. pose proof (mp_free _ _ _ _ _ _ _ _ _ _ _ Hm) as Hsz.
  destruct (IH m1 G1 F1 H1) as (m' & G' & F' & H' & Hrun' & Hcp).
  - apply Hm.
  - apply Hm.
  - lia.
  - done.
  - intros va' fl' Hin. destruct (Hall va' fl' ltac:(by right)) as (Hpl' & Hb' & Hfl').
    split_and!; [by apply (mp_plain _ _ _ _ _ _ _ _ _ _ _ Hm)| |done].
    rewrite Ht. eapply boot_maps_mono; [|done]. intros f i c Hf Hn.
    by apply (mp_other _ _ _ _ _ _ _ _ _ _ _ Hm f i c (or_introl Hf)).
  - exists m', G', F', H'. split.
    { cbn. rewrite Hrun. cbn. exact Hrun'. }
    destruct Hcp as [C1 C2 C3 C4 C5 C6 C7 C8 C9 C10]. split; try done.
    + congruence.
    + cbn [length]. lia.
    + intros va' Hva'. apply C5. by apply (mp_plain _ _ _ _ _ _ _ _ _ _ _ Hm).
    + intros va' fl' [Heq|Hin]%elem_of_cons; [|by apply C6]. injection Heq as -> ->.
      exists pte. split; [|done]. rewrite C7.
      * rewrite (mp_translate _ _ _ _ _ _ _ _ _ _ _ Hm) by done. by rewrite decide_True.
      * by apply (mp_plain _ _ _ _ _ _ _ _ _ _ _ Hm).
      * intros q Hq Hs. apply (Hne q Hq). by apply same_page_sym.
    + intros va' Hva' Hno. rewrite C7.
      * rewrite (mp_translate _ _ _ _ _ _ _ _ _ _ _ Hm) by done. rewrite decide_False; [done|].
        apply (Hno (va, fl)). by left.
      * by apply (mp_plain _ _ _ _ _ _ _ _ _ _ _ Hm).
      * intros q Hq. apply Hno. by right.
    + destruct C8 as (? & ? & ?), (mp_state _ _ _ _ _ _ _ _ _ _ _ Hm) as (? & ? & ?). split_and!; congruence.
    + intros f i Hf. rewrite C9 by (by rewrite Ht). apply (mp_ram _ _ _ _ _ _ _ _ _ _ _ Hm).
      eapply outside_table; [apply Hm|by rewrite Ht].
    + intros va' c Hh. apply C10. eapply huge_mapped_keep; [exact Hok|by eapply mapped_dirs|done].
Qed.

End copying.

(** ** The identity map *)

Lemma identity_indices x :
  0 ≤ x < 2 ^ 39 →
  p4_index (IDENTITY_MAP_REGION + x) = IDENTITY_MAP_PML4 ∧ p3_index (IDENTITY_MAP_REGION + x) = x / 2 ^ 30 ∧
  p2_index (IDENTITY_MAP_REGION + x) = x / 2 ^ 21 mod 512.
Proof.
  intros Hx. change IDENTITY_MAP_PML4 with 257. unfold IDENTITY_MAP_REGION.
  destruct (index_values (0xffff808000000000 + x)) as (_ & -> & -> & ->); [lia|]. mlia.
Qed.

(** Writing a huge page into a page directory, or anything into a table that an
    address does not pass through. *)
Section directory_write.
Context (m : Machine) (p4 : Z) (G : gmap Z (list Z)) (F H : gset Z) (t i : Z) (pre : list Z) (pte : RawPte).
Context (Hok : tables_ok m p4 G F H) (Ht : G !! t = Some pre).

Abbreviation written := (write_pte m t i pte).

Lemma written_ne f j : (f, j) ≠ (t, i) →
  next_table_frame written f j = next_table_frame m f j ∧ huge_entry written f j = huge_entry m f j.
Proof. intros Hne. unfold next_table_frame, huge_entry. rewrite read_write, bool_decide_false by naive_solver. done. Qed.

Lemma written_tables :
  huge_entry written t i = true → tables_ok written p4 G F H.
Proof using Hok Ht.
  intros Hh. split; try apply Hok. intros f pre' j c Hf Hlen Hn Hh'.
  destruct (decide ((f, j) = (t, i))) as [[= -> ->]|Hne]; [congruence|].
  destruct (written_ne f j Hne) as [En Eh]. rewrite En in Hn. rewrite Eh in Hh'.
  by apply (tab_child _ _ _ _ _ Hok f pre' j c).
Qed.

Lemma written_clean : clean m F → clean written F.
Proof using Hok Ht.
  intros Hc f j Hf. unfold write_pte. cbn. rewrite bool_decide_false; [by apply Hc|].
  intros [-> _]. apply (tab_held _ _ _ _ _ Hok) in Ht.
  pose proof (phys_disjoint _ _ _ (tab_phys _ _ _ _ _ Hok)). set_solver.
Qed.

(** The tables on the way to [va]. *)
Definition on_path (va : Z) (l : list Z) : Prop :=
  l = [] ∨ l = [p4_index va] ∨ l = [p4_index va; p3_index va] ∨ l = [p4_index va; p3_index va; p2_index va].

Lemma written_off_path va :
  ¬ on_path va pre → plain m p4 va →
  plain written p4 va ∧ translate written p4 va = translate m p4 va.
Proof using Hok Ht.
  intros Ha [H4 Hp]. pose proof (tab_root _ _ _ _ _ Hok) as G4.
  assert (Hoff : ∀ f l j, G !! f = Some l → on_path va l → next_table_frame written f j = next_table_frame m f j ∧
     huge_entry written f j = huge_entry m f j ∧ read_pte written f j = read_pte m f j).
  { intros f l j Hf Hl. assert (f ≠ t) as Hne by (intros ->; congruence).
    destruct (written_ne f j) as [-> ->]; [congruence|]. rewrite read_write, bool_decide_false by naive_solver. done. }
  unfold plain, translate, walk.
  destruct (Hoff p4 [] (p4_index va) G4 ltac:(by left)) as (E4 & E4' & _).
  rewrite E4, E4'. destruct (next_table_frame m p4 (p4_index va)) as [t3|] eqn:N4; cbn; [|naive_solver].
  destruct (Hp t3 eq_refl) as [H3 Hp3].
  pose proof (tab_child _ _ _ _ _ Hok _ _ _ _ G4 ltac:(cbn; lia) N4 H4) as G3.
  destruct (Hoff t3 _ (p3_index va) G3 ltac:(by right; left)) as (E3 & E3' & _).
  destruct (next_table_frame m t3 (p3_index va)) as [t2|] eqn:N3; cbn.
  2: { rewrite E3. split; [|done]. split; [done|]. intros ? [= <-]. rewrite E3, E3'. done. }
  pose proof (tab_child _ _ _ _ _ Hok _ _ _ _ G3 ltac:(cbn; lia) N3 H3) as G2.
  destruct (Hoff t2 _ (p2_index va) G2 ltac:(by right; right; left)) as (E2 & E2' & _).
  split.
  - split; [done|]. intros ? [= <-]. rewrite E3'. split; [done|]. rewrite E3. intros ? [= <-].
    rewrite E2'. by apply Hp3.
  - rewrite E3. cbn. rewrite E2. destruct (next_table_frame m t2 (p2_index va)) as [t1|] eqn:N2; cbn; [|done].
    pose proof (tab_child _ _ _ _ _ Hok _ _ _ _ G2 ltac:(cbn; lia) N2 ltac:(by apply Hp3)) as G1.
    by apply (Hoff t1 _ (p1_index va) G1 ltac:(by right; right; right)).
Qed.
End directory_write.

(** The entry of the [k]-th 2 MiB. *)
Lemma identity_pte k :
  0 ≤ k < 2048 →
  ∃ pte, Present.from_frame_and_flags (Frame.containing_address (k * 2 ^ 21)) IDENTITY_FLAGS = Ret pte ∧
    Raw.present (Present.to_raw pte) = PteOk pte ∧ Present.frame pte = k * 512 ∧ Present.is_huge pte = true.
Proof.
  intros Hk. assert (Frame.containing_address (k * 2 ^ 21) = k * 512) as ->.
  { rewrite containing_address_shiftr by (unfold is_usize; lia). rewrite Z.shiftr_div_pow2 by done. mlia. }
  destruct (present_fields (k * 512) IDENTITY_FLAGS 0) as (pte & Hpte & _ & Hfr & Hfl & _ & Hpr); [lia|done|done|].
  exists pte. split_and!; [done|done|done|]. unfold Present.is_huge. by rewrite Hfl.
Qed.

(** After [k] entries, with the directory [t2] of gigabyte [cur] at hand. *)
Record identity_state (m0 : Machine) (U : gset Z) (spare p4 p3 k cur t2 : Z)
    (m : Machine) (G : gmap Z (list Z)) (F H : gset Z) : Prop := {
  is_ok : tables_ok m p4 G F H;
  is_clean : clean m F;
  is_total : F ∪ H = U;
  is_p3 : G !! p3 = Some [IDENTITY_MAP_PML4] ∧ next_table_frame m p4 IDENTITY_MAP_PML4 = Some p3 ∧
    huge_entry m p4 IDENTITY_MAP_PML4 = false;
  is_p2 : G !! t2 = Some [IDENTITY_MAP_PML4; cur] ∧ next_table_frame m p3 cur = Some t2 ∧
    huge_entry m p3 cur = false;
  is_cur : 0 ≤ cur < 4 ∧ cur * 512 ≤ k ≤ (cur + 1) * 512;
  is_free : 0 ≤ spare ∧ spare + 3 - cur ≤ Z.of_nat (size (kernel_free F));
  is_fresh : ∀ j, cur < j < 4 → plain m p4 (IDENTITY_MAP_REGION + j * 2 ^ 30);
  is_done : ∀ j, 0 ≤ j < k → ∃ t, next_table_frame m p3 (j / 512) = Some t ∧ huge_entry m p3 (j / 512) = false ∧
    next_table_frame m t (j mod 512) = Some (j * 512) ∧ huge_entry m t (j mod 512) = true;
  is_rest : ∀ va, p4_index va ≠ IDENTITY_MAP_PML4 → plain m0 p4 va →
    plain m p4 va ∧ translate m p4 va = translate m0 p4 va;
  is_ram : ∀ f i, f ∉ U → ram m f i = ram m0 f i;
  is_state : cr3 m = cr3 m0 ∧ page_lock m = page_lock m0 ∧ tlb_events m = tlb_events m0 }.

Section identity.
Context (m0 : Machine) (U : gset Z) (spare p4 p3 : Z).
Abbreviation state := (identity_state m0 U spare p4 p3).

(** Moving on to the next gigabyte. *)
Lemma identity_enter k cur t2 m G F H :
  state k cur t2 m G F H → k = (cur + 1) * 512 → k < 2048 →
  ∃ t2' m' G' F' H', create_next_table m p3 (cur + 1) = Ret (Ok t2', m') ∧
    state k (cur + 1) t2' m' G' F' H'.
Proof.
  intros [Hok Hcl Htot (G3 & N4 & Hh4) (G2 & N3 & Hh3) Hcur Hfree Hfresh Hdone Hrest Hother Hst] Hk Hlt.
  destruct (identity_indices ((cur + 1) * 2 ^ 30)) as (I4 & I3 & _); [lia|].
  rewrite Z.div_mul in I3 by lia.
  assert (Hpl : plain m p4 (IDENTITY_MAP_REGION + (cur + 1) * 2 ^ 30)) by (apply Hfresh; lia).
  assert (Hhn : huge_entry m p3 (cur + 1) = false).
  { destruct Hpl as [_ Hp]. rewrite I4 in Hp. destruct (Hp p3 N4) as [Hp' _]. by rewrite I3 in Hp'. }
  destruct (create_next_table_ok m p4 G F H p3 (cur + 1) [IDENTITY_MAP_PML4] Hok Hcl G3)
    as (t' & m' & G' & F' & H' & Hc & Hg & Gt & Nt & Ht & Hsz); [cbn; lia|done|lia|].
  exists t', m', G', F', H'. split; [done|].
  destruct (gr_next _ _ _ _ _ _ _ _ _ Hg _ _ _ N4) as [N4' L4].
  split.
  - apply Hg.
  - apply Hg.
  - rewrite (gr_total _ _ _ _ _ _ _ _ _ Hg). done.
  - split_and!; [eapply lookup_weaken; [done|apply Hg]|done|congruence].
  - by split_and!.
  - lia.
  - lia.
  - intros j Hj. apply (gr_plain _ _ _ _ _ _ _ _ _ Hg). apply Hfresh. lia.
  - intros j Hj. destruct (Hdone j Hj) as (t & D1 & D2 & D3 & D4). exists t.
    destruct (gr_next _ _ _ _ _ _ _ _ _ Hg _ _ _ D1), (gr_next _ _ _ _ _ _ _ _ _ Hg _ _ _ D3).
    split_and!; congruence.
  - intros va Hva Hp. destruct (Hrest va Hva Hp) as [Hp' Ht']. split; [by apply (gr_plain _ _ _ _ _ _ _ _ _ Hg)|].
    rewrite (gr_translate _ _ _ _ _ _ _ _ _ Hg) by done. done.
  - intros f i Hf. rewrite (gr_ram _ _ _ _ _ _ _ _ _ Hg); [by apply Hother|].
    eapply outside_table; [apply Hg|]. by rewrite (gr_total _ _ _ _ _ _ _ _ _ Hg), Htot.
  - destruct (gr_state _ _ _ _ _ _ _ _ _ Hg) as (? & ? & ?), Hst as (? & ? & ?). split_and!; congruence.
Qed.

(** Writing one entry. *)
Lemma identity_write k cur t2 m G F H pte :
  state k cur t2 m G F H → k < (cur + 1) * 512 →
  Raw.present (Present.to_raw pte) = PteOk pte → Present.frame pte = k * 512 → Present.is_huge pte = true →
  state (k + 1) cur t2 (write_pte m t2 (k mod 512) (Present.to_raw pte)) G F H.
Proof.
  intros [Hok Hcl Htot (G3 & N4 & Hh4) (G2 & N3 & Hh3) Hcur Hfree Hfresh Hdone Hrest Hother Hst] Hk Hpr Hfr Hhu.
  set (m' := write_pte m t2 (k mod 512) (Present.to_raw pte)).
  assert (He : next_table_frame m' t2 (k mod 512) = Some (k * 512) ∧ huge_entry m' t2 (k mod 512) = true).
  { unfold next_table_frame, huge_entry, m'. rewrite read_write, bool_decide_true by done. by rewrite Hpr, Hfr, Hhu. }
  assert (Hne : ∀ f j, (f, j) ≠ (t2, k mod 512) →
    next_table_frame m' f j = next_table_frame m f j ∧ huge_entry m' f j = huge_entry m f j)
    by (intros f j; apply written_ne).
  assert (Hn4 : p4 ≠ t2) by (intros ->; rewrite (tab_root _ _ _ _ _ Hok) in G2; done).
  assert (Hn3 : p3 ≠ t2) by (intros ->; rewrite G3 in G2; done).
  split.
  - apply (written_tables m p4 G F H t2 (k mod 512) _ _ Hok G2), He.
  - by apply (written_clean m p4 G F H t2 (k mod 512) _ _ Hok G2).
  - done.
  - destruct (Hne p4 IDENTITY_MAP_PML4 ltac:(congruence)) as [-> ->]. done.
  - destruct (Hne p3 cur ltac:(congruence)) as [-> ->]. done.
  - lia.
  - done.
  - intros j Hj. apply (written_off_path m p4 G F H t2 (k mod 512) _ _ Hok G2); [|by apply Hfresh].
    destruct (identity_indices (j * 2 ^ 30)) as (I4 & I3 & _); [lia|]. rewrite Z.div_mul in I3 by lia.
    unfold on_path. rewrite I4, I3. intros [?|[?|[[= E]|?]]]; [done|done|lia|done].
  - intros j Hj. destruct (decide (j = k)) as [->|Hjk].
    + exists t2. assert (k / 512 = cur) as -> by mlia.
      destruct (Hne p3 cur ltac:(congruence)) as [-> ->]. split_and!; [done|done|apply He|apply He].
    + destruct (Hdone j ltac:(lia)) as (t & D1 & D2 & D3 & D4). exists t.
      destruct (Hne p3 (j / 512) ltac:(congruence)) as [-> ->].
      destruct (Hne t (j mod 512)) as [-> ->]; [|done].
      intros [= -> Hmod].
      pose proof (tab_child _ _ _ _ _ Hok _ _ _ _ G3 ltac:(cbn; lia) D1 D2) as Hg. rewrite G2 in Hg.
      injection Hg as Hg. mlia.
  - intros va Hva Hp. destruct (Hrest va Hva Hp) as [Hp' Ht'].
    destruct (written_off_path m p4 G F H t2 (k mod 512) _ (Present.to_raw pte) Hok G2 va) as [W1 W2].
    + unfold on_path. intros [?|[?|[[= E _]|?]]]; [done|done|congruence|done].
    + done.
    + split; [done|]. unfold m'. congruence.
  - intros f i Hf. rewrite <- Hother by done. unfold m'. cbn. rewrite bool_decide_false; [done|].
    intros [-> _]. apply (tab_held _ _ _ _ _ Hok) in G2. set_solver.
  - done.
Qed.

Lemma identity_loop_ok fuel k cur t2 m G F H :
  state k cur t2 m G F H → 0 ≤ k ≤ 2048 → 2048 - k ≤ Z.of_nat fuel →
  ∃ cur' t2' m' G' F' H',
    identity_loop fuel p3 (IDENTITY_MAP_REGION + k * 2 ^ 21) (IDENTITY_MAP_REGION + 2 ^ 32) cur t2 m = Ret (Ok (), m') ∧
    state 2048 cur' t2' m' G' F' H'.
Proof.
  revert k cur t2 m G F H. induction fuel as [|fuel IH]; intros k cur t2 m G F H Hs Hk Hf.
  { assert (k = 2048) as -> by lia. exists cur, t2, m, G, F, H. split; [|done]. cbn [identity_loop].
    by rewrite (proj2 (Z.ltb_ge _ _)) by lia. }
  cbn [identity_loop]. destruct (decide (k = 2048)) as [->|Hne].
  { exists cur, t2, m, G, F, H. split; [|done]. by rewrite (proj2 (Z.ltb_ge _ _)) by lia. }
  rewrite (proj2 (Z.ltb_lt _ _)) by lia.
  destruct (identity_indices (k * 2 ^ 21)) as (_ & I3 & I2); [lia|].
  rewrite Z.div_mul in I2 by lia.
  assert (k * 2 ^ 21 / 2 ^ 30 = k / 512) as E3 by mlia. rewrite E3 in I3. rewrite I3, I2.
  destruct (is_cur _ _ _ _ _ _ _ _ _ _ _ _ Hs) as [Hc1 Hc2].
  assert (∃ t2' m' G' F' H',
    (if negb (k / 512 =? cur) then create_next_table m p3 (k / 512) else Ret (Ok t2, m)) = Ret (Ok t2', m') ∧
    state k (k / 512) t2' m' G' F' H') as (t2' & m' & G' & F' & H' & -> & Hs').
  { destruct (Z.eqb_spec (k / 512) cur) as [->|Hn]; cbn [negb]; [by eexists _, _, _, _, _|].
    assert (k = (cur + 1) * 512) as Hkc by mlia. assert (k / 512 = cur + 1) as -> by mlia.
    apply (identity_enter k cur t2 m G F H Hs Hkc). lia. }
  rewrite bind_bind_Ret. cbn [try_ fst snd].
  destruct (identity_pte k) as (pte & Hpte & Hpr & Hfr & Hhu); [lia|].
  rewrite usub_ok, bind_bind_Ret by lia. rewrite Z.add_simpl_l, Hpte, bind_bind_Ret. cbv zeta.
  unfold IDENTITY_MAP_REGION, HUGE_PAGE_SIZE, PAGE_SIZE. rewrite uadd_ok, bind_bind_Ret by lia.
  replace (0xffff808000000000 + k * 2 ^ 21 + 4096 * 512) with (0xffff808000000000 + (k + 1) * 2 ^ 21) by lia.
  apply (IH (k + 1) (k / 512) t2' _ G' F' H'); [|lia|lia].
  apply identity_write; [done|mlia|done..].
Qed.

End identity.

(** Every address of the first 4 GiB, at its place in the identity map. *)
Definition identity_mapped (m : Machine) (p4 : Z) : Prop :=
  ∀ pa, 0 ≤ pa < IDENTITY_MAP_SIZE → ∃ c, huge_mapped m p4 (IDENTITY_MAP_REGION + pa) c ∧
    c * PAGE_SIZE + (IDENTITY_MAP_REGION + pa) mod 2 ^ 21 = pa.

Lemma identity_mapped_hw m p4 pa :
  identity_mapped m p4 → 0 ≤ pa < IDENTITY_MAP_SIZE →
  hw_translate m p4 (IDENTITY_MAP_REGION + pa) = Some pa.
Proof. intros Hi Hpa. destruct (Hi pa Hpa) as (c & Hh & He). by rewrite (huge_mapped_hw _ _ _ _ Hh), He. Qed.

(** What [prepare_identity_mapping] leaves behind. *)
Record identity_prepared (m : Machine) (p4 : Z) (F H : gset Z)
    (m' : Machine) (G' : gmap Z (list Z)) (F' H' : gset Z) : Prop := {
  ip_ok : tables_ok m' p4 G' F' H';
  ip_clean : clean m' F';
  ip_total : F' ∪ H' = F ∪ H;
  ip_free : (size (kernel_free F) ≤ 5 + size (kernel_free F'))%nat;
  ip_mapped : identity_mapped m' p4;
  ip_rest : ∀ va, p4_index va ≠ IDENTITY_MAP_PML4 → plain m' p4 va ∧ translate m' p4 va = Raw.unused;
  ip_ram : ∀ f i, f ∉ F ∪ H → ram m' f i = ram m f i;
  ip_state : cr3 m' = cr3 m ∧ page_lock m' = page_lock m ∧ tlb_events m' = tlb_events m }.

Lemma identity_finished m0 U spare p4 p3 cur t2 m G F H :
  identity_state m0 U spare p4 p3 2048 cur t2 m G F H → identity_mapped m p4.
Proof.
  intros Hs pa Hpa. unfold IDENTITY_MAP_SIZE in Hpa.
  destruct (is_done _ _ _ _ _ _ _ _ _ _ _ _ Hs (pa / 2 ^ 21)) as (t & D1 & D2 & D3 & D4); [mlia|].
  destruct (identity_indices pa) as (I4 & I3 & I2); [lia|].
  assert (pa / 2 ^ 21 / 512 = pa / 2 ^ 30) as E by mlia. rewrite E in *.
  exists (pa / 2 ^ 21 * 512). split.
  - exists p3, t. rewrite I4, I3, I2. destruct (is_p3 _ _ _ _ _ _ _ _ _ _ _ _ Hs) as (_ & ? & ?). done.
  - unfold IDENTITY_MAP_REGION, PAGE_SIZE. mlia.
Qed.

Lemma empty_root m p4 va : (∀ i, next_table_frame m p4 i = None) → plain m p4 va ∧ translate m p4 va = Raw.unused.
Proof.
  intros He. split.
  - split; [by apply absent_not_huge|]. intros t3. by rewrite He.
  - unfold translate, walk. by rewrite He.
Qed.

Lemma prepare_identity_ok m p4 G F H :
  tables_ok m p4 G F H → clean m F → (∀ i, next_table_frame m p4 i = None) → (5 ≤ size (kernel_free F))%nat →
  ∃ m' G' F' H', prepare_identity_mapping (Some false) p4 m = Ret (Ok (), m') ∧
    identity_prepared m p4 F H m' G' F' H'.
Proof.
  intros Hok Hcl He Hfree.
  destruct (identity_indices 0) as (I4 & I3 & _); [lia|]. rewrite Z.add_0_r in I4, I3.
  change (0 / 2 ^ 30) with 0 in I3.
  destruct (create_next_table_ok m p4 G F H p4 IDENTITY_MAP_PML4 []) as
    (p3 & m1 & G1 & F1 & H1 & C1 & g1 & T3 & N1 & L1 & S1);
    [done|done|apply Hok|cbn; lia|by apply absent_not_huge|lia|].
  assert (Hpl : ∀ va, plain m1 p4 va) by (intros va; apply g1, empty_root, He).
  destruct (create_next_table_ok m1 p4 G1 F1 H1 p3 0 [IDENTITY_MAP_PML4]) as
    (t2 & m2 & G2 & F2 & H2 & C2 & g2 & T2 & N2 & L2 & S2);
    [apply g1|apply g1|done|cbn; lia| |lia|].
  { destruct (Hpl IDENTITY_MAP_REGION) as [_ Hp]. rewrite I4 in Hp. rewrite <- I3. by apply Hp. }
  pose proof (grown_trans _ _ _ _ _ _ _ _ _ _ _ _ _ g1 g2) as g.
  destruct (gr_next _ _ _ _ _ _ _ _ _ g2 _ _ _ N1) as [N1' L1'].
  assert (Hs : identity_state m (F ∪ H) (Z.of_nat (size (kernel_free F)) - 5) p4 p3 0 0 t2 m2 G2 F2 H2).
  { split; try apply g.
    - split_and!; [eapply lookup_weaken; [exact T3|apply g2]|done|congruence].
    - done.
    - lia.
    - lia.
    - intros j _. apply g2, Hpl.
    - lia.
    - intros va _ Hva. split; [by apply (gr_plain _ _ _ _ _ _ _ _ _ g)|by apply (gr_translate _ _ _ _ _ _ _ _ _ g)].
    - intros f i Hf. apply (gr_ram _ _ _ _ _ _ _ _ _ g). eapply outside_table; [apply g|].
      by rewrite (gr_total _ _ _ _ _ _ _ _ _ g). }
  destruct (identity_loop_ok _ _ _ _ _ (Z.to_nat (IDENTITY_MAP_SIZE / HUGE_PAGE_SIZE)) 0 0 t2 m2 G2 F2 H2 Hs)
    as (cur & t2' & m' & G' & F' & H' & Hrun & Hs'); [lia|change (IDENTITY_MAP_SIZE / HUGE_PAGE_SIZE) with 2048; lia|].
  exists m', G', F', H'. split.
  - unfold prepare_identity_mapping. cbn [unwrap]. rewrite bind_bind_Ret. cbv iota.
    rewrite (uadd_ok _ 0xffffffff), bind_bind_Ret by (by vm_compute).
    destruct (identity_indices 0xffffffff) as (-> & _ & _); [lia|]. rewrite Z.eqb_refl.
    cbn [assert_]. rewrite bind_bind_Ret, I4, C1, bind_bind_Ret. cbn [try_ fst snd].
    rewrite uadd_ok, bind_bind_Ret, I3, C2, bind_bind_Ret by (by vm_compute). cbn [try_ fst snd].
    rewrite Z.add_0_r in Hrun. exact Hrun.
  - pose proof (is_free _ _ _ _ _ _ _ _ _ _ _ _ Hs') as Hf. pose proof (is_cur _ _ _ _ _ _ _ _ _ _ _ _ Hs') as Hc.
    split; try apply Hs'.
    + lia.
    + by apply (identity_finished _ _ _ _ _ _ _ _ _ _ _ Hs').
    + intros va Hva. destruct (empty_root m p4 va He) as [P T]. rewrite <- T.
      by apply (is_rest _ _ _ _ _ _ _ _ _ _ _ _ Hs').
Qed.

(** ** The pages of the kernel image *)

Definition section_pages (s : Z * Z * Z) : list (Z * Z) :=
  range_pages s.1.1 (Z.to_nat ((s.1.2 - s.1.1) / PAGE_SIZE)) s.2.
Definition kernel_pages (l : Linker) : list (Z * Z) := concat (section_pages <$> sections l).

(** Sections in ascending order from [a], each a whole number of pages. *)
Fixpoint ascending (a : Z) (ss : list (Z * Z * Z)) : Prop :=
  match ss with
  | [] => True
  | s :: ss' => a ≤ s.1.1 ∧ s.1.1 ≤ s.1.2 ∧ (s.1.2 - s.1.1) mod PAGE_SIZE = 0 ∧ ascending s.1.2 ss'
  end.

(** What the linker script guarantees: the sections follow each other, padded to
    pages, inside the kernel's 512 GiB. *)
Record linked (l : Linker) : Prop := {
  lk_start : 0xffff800000000000 ≤ kernel_start l;
  lk_sections : ascending (kernel_start l) (image_sections l);
  lk_bss : bss_end l ≤ kernel_end l;
  lk_end : kernel_end l + PAGE_SIZE < IDENTITY_MAP_REGION }.

Lemma elem_of_section p s :
  s.1.1 ≤ s.1.2 → (s.1.2 - s.1.1) mod PAGE_SIZE = 0 → p ∈ section_pages s →
  s.1.1 ≤ p.1 ∧ p.1 + PAGE_SIZE ≤ s.1.2 ∧ p.2 = s.2.
Proof.
  intros Hle Hm. unfold section_pages, range_pages. rewrite list_elem_of_fmap. intros (i & -> & Hi).
  apply elem_of_seq in Hi. cbn. unfold PAGE_SIZE in *. mlia.
Qed.

Lemma ascending_bound a ss b :
  ascending a ss → (∀ s, s ∈ ss → s.1.2 ≤ b) → ∀ p, p ∈ concat (section_pages <$> ss) →
  a ≤ p.1 ∧ p.1 + PAGE_SIZE ≤ b.
Proof.
  revert a. induction ss as [|s ss IH]; intros a Ha Hb p; cbn; [by intros ?%elem_of_nil|].
  destruct Ha as (H1 & H2 & H3 & H4). rewrite elem_of_app. intros [Hp|Hp].
  - destruct (elem_of_section p s H2 H3 Hp) as (? & ? & _). pose proof (Hb s ltac:(by left)). lia.
  - destruct (IH _ H4 (λ s' Hs', Hb s' ltac:(by right)) p Hp). lia.
Qed.

Lemma distinct_pages_app l1 l2 :
  distinct_pages l1 → distinct_pages l2 → (∀ p q, p ∈ l1 → q ∈ l2 → ¬ same_page p.1 q.1) →
  distinct_pages (l1 ++ l2).
Proof.
  intros H1 H2 H12 i j p q [Hi|[Hi Hi']]%lookup_app_Some [Hj|[Hj Hj']]%lookup_app_Some Hs.
  - by eapply H1.
  - destruct (H12 p q); [by eapply list_elem_of_lookup_2..|done].
  - destruct (H12 q p); [by eapply list_elem_of_lookup_2..|by apply same_page_sym].
  - pose proof (H2 _ _ _ _ Hi' Hj' Hs). lia.
Qed.

(** Pages at least a page apart are different pages. *)
Lemma apart_pages va va' :
  0 ≤ va → va + PAGE_SIZE ≤ va' → va' < va + 2 ^ 47 → ¬ same_page va va'.
Proof. intros ???. rewrite same_page_iff by (unfold PAGE_SIZE in *; lia). unfold PAGE_SIZE in *. mlia. Qed.

Lemma section_distinct s :
  0 ≤ s.1.1 → s.1.1 ≤ s.1.2 → (s.1.2 - s.1.1) mod PAGE_SIZE = 0 → s.1.2 < s.1.1 + 2 ^ 47 →
  distinct_pages (section_pages s).
Proof.
  intros H0 H1 H2 H3. unfold section_pages, range_pages. intros i j p q.
  intros (i' & -> & Hi)%list_lookup_fmap_Some_1 (j' & -> & Hj)%list_lookup_fmap_Some_1 Hs. cbn in Hs.
  apply lookup_seq in Hi as [Ei Hi]. apply lookup_seq in Hj as [Ej Hj]. subst i' j'. unfold PAGE_SIZE in *.
  destruct (Nat.lt_trichotomy i j) as [Hij|[->|Hij]]; [exfalso|done|exfalso].
  - revert Hs. apply apart_pages; unfold PAGE_SIZE; mlia.
  - apply same_page_sym in Hs. revert Hs. apply apart_pages; unfold PAGE_SIZE; mlia.
Qed.

Lemma ascending_distinct a ss b :
  0 ≤ a → ascending a ss → (∀ s, s ∈ ss → s.1.2 ≤ b) → b < a + 2 ^ 47 →
  distinct_pages (concat (section_pages <$> ss)).
Proof.
  revert a. induction ss as [|s ss IH]; intros a H0 Ha Hb Hlt; cbn; [intros ? ? ? ? [=]|].
  destruct Ha as (H1 & H2 & H3 & H4). pose proof (Hb s ltac:(by left)) as Hs.
  assert (∀ s', s' ∈ ss → s'.1.2 ≤ b) as Hb' by (intros s' Hs'; apply Hb; by right).
  apply distinct_pages_app.
  - apply section_distinct; [lia|done|done|lia].
  - apply (IH s.1.2); [lia|done|done|lia].
  - intros p q Hp Hq. destruct (elem_of_section p s H2 H3 Hp) as (? & ? & _).
    destruct (ascending_bound _ _ b H4 Hb' q Hq). unfold PAGE_SIZE in *. apply apart_pages; unfold PAGE_SIZE; lia.
Qed.

Lemma image_ends l : linked l → ∀ s, s ∈ image_sections l → s.1.2 ≤ kernel_end l.
Proof.
  intros [_ Ha Hb _] s. unfold image_sections in *. cbn in Ha. rewrite !elem_of_cons, elem_of_nil.
  intros [->|[->|[->|[->|[->|[->|[]]]]]]]; cbn; lia.
Qed.

Lemma elem_of_kernel_pages l p :
  p ∈ kernel_pages l ↔ p ∈ concat (section_pages <$> image_sections l) ∨
    p ∈ section_pages (boot_stack_start, boot_stack_end, NX_W).
Proof.
  unfold kernel_pages, sections. rewrite fmap_app, concat_app, elem_of_app.
  cbn [fmap list_fmap concat]. by rewrite app_nil_r.
Qed.

(** The pages of the image are in the kernel's PML4 entry, those of the stack in
    the first one. *)
Lemma image_page l p :
  linked l → p ∈ concat (section_pages <$> image_sections l) →
  0xffff800000000000 ≤ p.1 < IDENTITY_MAP_REGION ∧ p4_index p.1 = KERNEL_PML4.
Proof.
  intros Hl Hp. destruct (ascending_bound _ _ _ (lk_sections _ Hl) (image_ends l Hl) p Hp) as [Hs He].
  pose proof (lk_start _ Hl). pose proof (lk_end _ Hl). unfold PAGE_SIZE, IDENTITY_MAP_REGION in *.
  split; [lia|]. change KERNEL_PML4 with 256. destruct (index_values p.1) as (_ & _ & _ & ->); [lia|]. mlia.
Qed.

Lemma stack_page p :
  p ∈ section_pages (boot_stack_start, boot_stack_end, NX_W) →
  boot_stack_start ≤ p.1 < boot_stack_end ∧ p4_index p.1 = 0.
Proof.
  intros Hp. destruct (elem_of_section p (boot_stack_start, boot_stack_end, NX_W)) as (Hs & He & _); [done..|].
  cbn in Hs, He. unfold boot_stack_end, boot_stack_start, PAGE_SIZE in *. split; [lia|].
  destruct (index_values p.1) as (_ & _ & _ & ->); [lia|]. mlia.
Qed.

Lemma kernel_page_index l p : linked l → p ∈ kernel_pages l → p4_index p.1 ≠ IDENTITY_MAP_PML4.
Proof.
  intros Hl [Hp|Hp]%elem_of_kernel_pages.
  - by destruct (image_page l p Hl Hp) as [_ ->].
  - by destruct (stack_page p Hp) as [_ ->].
Qed.

Lemma kernel_pages_distinct l : linked l → distinct_pages (kernel_pages l).
Proof.
  intros Hl. unfold kernel_pages, sections. rewrite fmap_app, concat_app.
  pose proof (lk_start _ Hl) as Hs. pose proof (lk_end _ Hl) as He. unfold IDENTITY_MAP_REGION, PAGE_SIZE in He.
  apply distinct_pages_app.
  - apply (ascending_distinct (kernel_start l) _ (kernel_end l)); [lia|apply Hl|by apply image_ends|lia].
  - cbn [fmap list_fmap concat]. rewrite app_nil_r. by apply section_distinct.
  - cbn [fmap list_fmap concat]. rewrite app_nil_r. intros p q Hp Hq (H4 & _).
    destruct (image_page l p Hl Hp) as [_ E], (stack_page q Hq) as [_ E']. rewrite E, E' in H4. done.
Qed.

(** Nothing is both writable and executable. *)
Lemma write_xor_execute l p :
  p ∈ kernel_pages l → valid_flags PresentPageFlags.all p.2 ∧
  (Z.land p.2 PresentPageFlags.WRITABLE = 0 ∨ Z.land p.2 PresentPageFlags.NO_EXECUTE ≠ 0).
Proof.
  intros Hp. assert (p.2 ∈ [PresentPageFlags.GLOBAL; GLOBAL_NX; GLOBAL_NX_W; NX_W]) as Hin.
  { unfold kernel_pages in Hp. apply list_elem_of_In, in_concat in Hp as (ps & Hps & Hp).
    apply list_elem_of_In, list_elem_of_fmap in Hps as (s & -> & Hs). apply list_elem_of_In in Hp.
    assert (p.2 = s.2) as ->.
    { unfold section_pages, range_pages in Hp. by apply list_elem_of_fmap in Hp as (? & -> & _). }
    unfold sections, image_sections in Hs. cbn in Hs. rewrite !elem_of_cons, elem_of_nil in Hs.
    rewrite !elem_of_cons. intuition (subst; cbn; auto). }
  rewrite !elem_of_cons, elem_of_nil in Hin.
  destruct Hin as [->|[->|[->|[->|[]]]]]; (split; [by vm_compute|first [by left; vm_compute|by right; vm_compute]]).
Qed.

(** Copying the sections is copying their pages. *)
Lemma copy_sections_list boot_p4 p4 ss m :
  (∀ s, s ∈ ss → 0 ≤ s.1.1 ≤ s.1.2 ∧ (s.1.2 - s.1.1) mod PAGE_SIZE = 0 ∧ s.1.2 < usize_limit) →
  for_each (copy_section boot_p4 p4) ss m =
    (r ← copy_list boot_p4 p4 (concat (section_pages <$> ss)) m; expect_ok r).
Proof.
  revert m. induction ss as [|s ss IH]; intros m Hss; [done|]. cbn [for_each fmap list_fmap concat].
  destruct (Hss s ltac:(by left)) as (Hle & Hmod & Hlt).
  assert (s.1.1 + Z.of_nat (Z.to_nat ((s.1.2 - s.1.1) / PAGE_SIZE)) * PAGE_SIZE = s.1.2) as Hend
    by (unfold PAGE_SIZE in *; mlia).
  assert (copy_list boot_p4 p4 (section_pages s) m = copy_boot_mapping boot_p4 p4 s.1.1 s.1.2 s.2 m) as Hs.
  { unfold section_pages. rewrite <- copy_boot_mapping_list, Hend by lia. done. }
  rewrite copy_list_app, Hs.
  change (copy_section boot_p4 p4 s m) with (r ← copy_boot_mapping boot_p4 p4 s.1.1 s.1.2 s.2 m; expect_ok r).
  destruct (copy_boot_mapping boot_p4 p4 s.1.1 s.1.2 s.2 m) as [[[[]|e] m']|w|]; [|done..]. cbn.
  apply IH. intros s' Hs'. apply Hss. by right.
Qed.

Lemma sections_paged l : linked l → ∀ s, s ∈ sections l →
  0 ≤ s.1.1 ≤ s.1.2 ∧ (s.1.2 - s.1.1) mod PAGE_SIZE = 0 ∧ s.1.2 < usize_limit.
Proof.
  intros Hl s [Hs| ->%list_elem_of_singleton]%elem_of_app; [|by vm_compute].
  pose proof (image_ends l Hl s Hs) as Hend. destruct Hl as [Hst Ha _ He].
  unfold PAGE_SIZE, IDENTITY_MAP_REGION in *. cut (0 ≤ s.1.1 ≤ s.1.2 ∧ (s.1.2 - s.1.1) mod 4096 = 0); [lia|].
  unfold image_sections in *. cbn in Ha. unfold PAGE_SIZE in Ha. rewrite !elem_of_cons, elem_of_nil in Hs.
  destruct Hs as [->|[->|[->|[->|[->|[->|[]]]]]]]; cbn; lia.
Qed.

(** The root table: the first frame the frame database hands out. *)
Lemma fresh_root m F H :
  phys_owns (frames m) F H → 1048575 ∉ F → clean m F → (0 < size (kernel_free F))%nat →
  ∃ c p', allocate_kernel_frame m = Ret (Some c, set_frames m p') ∧ table_frame c ∧
    tables_ok (set_frames m p') c {[c := []]} (F ∖ {[c]}) (H ∪ {[c]}) ∧ clean (set_frames m p') (F ∖ {[c]}) ∧
    (F ∖ {[c]}) ∪ (H ∪ {[c]}) = F ∪ H ∧ (∀ i, next_table_frame (set_frames m p') c i = None) ∧
    size (kernel_free F) = S (size (kernel_free (F ∖ {[c]}))).
Proof.
  intros Hown Hlast Hcl Hfree.
  destruct (kernel_frame_available _ _ _ Hown) as (c & p' & Ha & Hc & Hown').
  { intros E. rewrite E, size_empty in Hfree. lia. }
  destruct (kernel_free_range c F Hc) as [HcF Hr]. exists c, p'.
  assert (table_frame c) as Ht.
  { unfold table_frame. destruct (decide (c = 1048575)) as [->|]; [done|lia]. }
  assert (∀ i, next_table_frame (set_frames m p') c i = None) as He by (intros i; by apply zero_entry, Hcl).
  split_and!; [|done| | | |done|by apply kernel_free_delete].
  - unfold allocate_kernel_frame. by rewrite Ha.
  - split; [apply lookup_singleton_eq| |..].
    + intros f pre i d [<- _]%lookup_singleton_Some _. by rewrite He.
    + by intros f pre [<- _]%lookup_singleton_Some.
    + intros f pre [<- _]%lookup_singleton_Some. set_solver.
    + done.
    + set_solver.
  - intros f i Hf. apply Hcl. set_solver.
  - apply set_eq. intros f. destruct (decide (f = c)); set_solver.
Qed.

Lemma kernel_frame_asserts l :
  linked l → p4_index (page_align_down (kernel_start l)) = KERNEL_PML4 ∧
  ∃ e, page_align_up (kernel_end l) = Ret e ∧ p4_index e = KERNEL_PML4.
Proof.
  intros [Hs Ha Hb He]. cbn in Ha. assert (kernel_start l ≤ kernel_end l) by lia. clear Ha Hb.
  unfold PAGE_SIZE, IDENTITY_MAP_REGION in He. change KERNEL_PML4 with 256.
  rewrite page_align_down_spec, page_align_up_spec by (unfold PAGE_SIZE; lia).
  unfold round_up, round_down, PAGE_SIZE. split; [|eexists; split; [done|]].
  - match goal with |- p4_index ?x = _ => destruct (index_values x) as (_ & _ & _ & ->) end; mlia.
  - match goal with |- p4_index ?x = _ => destruct (index_values x) as (_ & _ & _ & ->) end; mlia.
Qed.

(** The machine [init] switches to. *)
Record booted (l : Linker) (m : Machine) (F H : gset Z) (src : Z → Z) (p4 : Z)
    (m' : Machine) (G' : gmap Z (list Z)) (F' H' : gset Z) : Prop := {
  bt_root : cr3 m' = p4 * PAGE_SIZE;
  bt_tables : tables_ok m' p4 G' F' H';
  bt_total : F' ∪ H' = F ∪ H;
  bt_window : identity_mapped m' p4;
  bt_image : ∀ va flags, (va, flags) ∈ kernel_pages l → page_mapped m' p4 va (src va) flags;
  bt_rest : ∀ va, p4_index va ≠ IDENTITY_MAP_PML4 → (∀ p, p ∈ kernel_pages l → ¬ same_page p.1 va) →
    translate m' p4 va = Raw.unused;
  bt_plain : ∀ va, p4_index va ≠ IDENTITY_MAP_PML4 → plain m' p4 va;
  bt_clean : clean m' F';
  bt_free : (size (kernel_free F) ≤ 6 + 3 * length (kernel_pages l) + size (kernel_free F'))%nat;
  bt_lock : page_lock m' = page_lock m;
  bt_ram : ∀ f i, f ∉ F ∪ H → ram m' f i = ram m f i;
}.

Lemma build_tables_ok l m F H src :
  linked l → phys_owns (frames m) F H → 1048575 ∉ F → clean m F →
  (6 + 3 * length (kernel_pages l) ≤ size (kernel_free F))%nat →
  is_usize (cr3 m) → table_frame (cr3 m / PAGE_SIZE) →
  (∀ va flags, (va, flags) ∈ kernel_pages l → boot_maps m (F ∪ H) (cr3 m / PAGE_SIZE) va (src va)) →
  ∃ p4 m' G' F' H', build_tables (Some false) l m = Ret (p4, m') ∧ booted l m F H src p4 m' G' F' H'.
Proof.
  intros Hl Hown Hlast Hcl Hfree Hcr3 Hboot Hmaps.
  destruct (fresh_root m F H Hown Hlast Hcl) as (p4 & p' & Ha & Hp4 & Hok1 & Hcl1 & Ht1 & He1 & Hs1); [lia|].
  set (m1 := set_frames m p') in *.
  destruct (prepare_identity_ok m1 p4 _ _ _ Hok1 Hcl1 He1) as (m2 & G2 & F2 & H2 & Hrun2 & Hip); [lia|].
  pose proof (ip_free _ _ _ _ _ _ _ _ Hip) as Hf2.
  destruct (copy_list_ok (cr3 m / PAGE_SIZE) p4 src (kernel_pages l) m2 G2 F2 H2) as (m3 & G3 & F3 & H3 & Hrun3 & Hcp);
    [apply Hip|apply Hip|lia|by apply kernel_pages_distinct| |].
  { intros va fl Hin. destruct (write_xor_execute l _ Hin) as [Hv _]. split_and!; [| |done].
    - apply (ip_rest _ _ _ _ _ _ _ _ Hip). by apply (kernel_page_index l (va, fl)).
    - rewrite (ip_total _ _ _ _ _ _ _ _ Hip), Ht1. eapply boot_maps_mono; [|by eapply Hmaps].
      rewrite <- Ht1. intros f i c Hf Hn. rewrite (same_next m1 m2) by (by apply (ip_ram _ _ _ _ _ _ _ _ Hip)). exact Hn. }
  exists p4, (mkMachine (ram m3) (frames m3) (p4 * PAGE_SIZE) (page_lock m3) (tlb_events m3)), G3, F3, H3.
  split.
  { destruct (kernel_frame_asserts l Hl) as (E1 & e & E2 & E3).
    assert (Frame.containing_address (cr3 m) = cr3 m / PAGE_SIZE) as Ec
      by (rewrite containing_address_shiftr, Z.shiftr_div_pow2 by done; done).
    unfold build_tables. rewrite E1, E2, bind_bind_Ret, E3. cbn [assert_]. rewrite !Z.eqb_refl. cbn [assert_].
    rewrite !bind_bind_Ret, Ec, table_in_frame_ok, bind_bind_Ret, Ha, bind_bind_Ret by done. cbn [fst snd unwrap].
    rewrite bind_bind_Ret, table_in_frame_ok, bind_bind_Ret by done. fold m1. rewrite Hrun2, bind_bind_Ret.
    cbn [expect_ok fst snd]. rewrite bind_bind_Ret, copy_sections_list by (by apply sections_paged).
    unfold kernel_pages in Hrun3. rewrite Hrun3, bind_bind_Ret. cbn [expect_ok fst snd]. rewrite bind_bind_Ret.
    unfold table_frame in Hp4. unfold Frame.physical_address, Frame.index, PAGE_SIZE. step_by lia. done. }
  split.
  - done.
  - split; apply Hcp.
  - rewrite (cp_total _ _ _ _ _ _ _ _ _ _ Hcp), (ip_total _ _ _ _ _ _ _ _ Hip). done.
  - intros pa Hpa. destruct (ip_mapped _ _ _ _ _ _ _ _ Hip pa Hpa) as (c & Hh & E).
    exists c. split; [|done]. exact (cp_huge _ _ _ _ _ _ _ _ _ _ Hcp _ _ Hh).
  - apply Hcp.
  - intros va Hva Hno. destruct (ip_rest _ _ _ _ _ _ _ _ Hip va Hva) as [Hp Ht].
    rewrite <- Ht. exact (cp_rest _ _ _ _ _ _ _ _ _ _ Hcp va Hp Hno).
  - intros va Hva. destruct (ip_rest _ _ _ _ _ _ _ _ Hip va Hva) as [Hp _].
    exact (cp_plain _ _ _ _ _ _ _ _ _ _ Hcp va Hp).
  - apply Hcp.
  - pose proof (cp_free _ _ _ _ _ _ _ _ _ _ Hcp). lia.
  - cbn. rewrite (proj1 (proj2 (cp_state _ _ _ _ _ _ _ _ _ _ Hcp))).
    by rewrite (proj1 (proj2 (ip_state _ _ _ _ _ _ _ _ Hip))).
  - intros f i Hf. cbn. rewrite (cp_ram _ _ _ _ _ _ _ _ _ _ Hcp) by (by rewrite (ip_total _ _ _ _ _ _ _ _ Hip), Ht1).
    rewrite (ip_ram _ _ _ _ _ _ _ _ Hip) by (by rewrite Ht1). done.
Qed.


(** ** The thread-local block *)

Lemma load_store_usize p v b : 0 ≤ v < usize_limit → load_usize p (store_usize p v b) = v.
Proof.
  intros Hv. unfold load_usize, store_usize.
  assert (∀ k, 0 ≤ k < 8 → (p <=? p + k) && (p + k <? p + 8) = true) as Hin
    by (intros k Hk; apply andb_true_iff; split; [apply Z.leb_le|apply Z.ltb_lt]; lia).
  pose proof (Hin 0 ltac:(lia)) as H0. rewrite Z.add_0_r in H0.
  rewrite H0, !Hin, Z.sub_diag, !Z.add_simpl_l by lia. cbn [Z.mul Pos.mul].
  replace (v / 2 ^ 0) with v by (by rewrite Z.div_1_r).
  replace (v / 2 ^ 16) with (v / 256 / 256) by (rewrite Z.div_div; done).
  replace (v / 2 ^ 24) with (v / 256 / 256 / 256) by (rewrite !Z.div_div; done).
  replace (v / 2 ^ 32) with (v / 256 / 256 / 256 / 256) by (rewrite !Z.div_div; done).
  replace (v / 2 ^ 40) with (v / 256 / 256 / 256 / 256 / 256) by (rewrite !Z.div_div; done).
  replace (v / 2 ^ 48) with (v / 256 / 256 / 256 / 256 / 256 / 256) by (rewrite !Z.div_div; done).
  replace (v / 2 ^ 56) with (v / 256 / 256 / 256 / 256 / 256 / 256 / 256) by (rewrite !Z.div_div; done).
  change (2 ^ 8) with 256. mlia.
Qed.

(** The block of thread-local data a linked image describes. *)
Definition tcb_size (l : Linker) : Z := round_up (tbss_end l - tdata_start l) PAGE_SIZE.

Record tcb_linked (l : Linker) : Prop := {
  tl_start : 0 ≤ tdata_start l ≤ tbss_start l;
  tl_reserve : tbss_start l + 8 ≤ tbss_end l;
  tl_end : tbss_end l + PAGE_SIZE < usize_limit }.

(** The block, once a region for it was granted. *)
Record tcb_block (l : Linker) (start : Z) (b b' : bytes) : Prop := {
  tb_data : ∀ i, 0 ≤ i < tbss_start l - tdata_start l → b' (start + i) = b (tdata_start l + i);
  tb_zero : ∀ i, tbss_start l - tdata_start l ≤ i < tcb_size l - 8 → b' (start + i) = 0;
  tb_self : load_usize (start + tcb_size l - 8) b' = start + tcb_size l;
  tb_outside : ∀ a, a < start ∨ start + tcb_size l ≤ a → b' a = b a;
}.

Lemma tcb_size_ok l :
  tcb_linked l → tbss_end l - tdata_start l ≤ tcb_size l ∧ tcb_size l / PAGE_SIZE * PAGE_SIZE = tcb_size l ∧ 0 < tcb_size l / PAGE_SIZE.
Proof. intros [Hs Hr He]. unfold tcb_size, round_up, round_down, PAGE_SIZE in *. mlia. Qed.

Lemma initialize_tcb_granted {S : Type} `{HeapRegions S} l (s s' : S) b region start :
  tcb_linked l → hr_allocate (tcb_size l / PAGE_SIZE) s = Ret (Ok region, s') → Region.start region = Ret start →
  tbss_end l ≤ start → start + tcb_size l < usize_limit →
  ∃ b', initialize_tcb l s b = Ret (Ok (start + tcb_size l - 8), s', b') ∧ tcb_block l start b b'.
Proof.
  intros Hl Ha Est Hlo Hhi. destruct (tcb_size_ok l Hl) as (Hge & _ & _). destruct Hl as [Hs Hr He].
  unfold initialize_tcb. rewrite (usub_ok (tbss_end l)), bind_bind_Ret by lia.
  rewrite page_align_up_spec, bind_bind_Ret by (unfold PAGE_SIZE in *; lia). fold (tcb_size l).
  rewrite (usub_ok (tbss_start l)), bind_bind_Ret by lia.
  rewrite Ha, bind_bind_Ret. cbn [fst snd]. rewrite Est, bind_bind_Ret. do 4 step_by lia.
  eexists. split; [reflexivity|].
  assert (∀ a d n, a < d ∨ d + n ≤ a → (d <=? a) && (a <? d + n) = false) as Hout
    by (intros a d n Ha'; apply andb_false_iff; rewrite Z.leb_gt, Z.ltb_ge; lia).
  assert (∀ a d n, d ≤ a < d + n → (d <=? a) && (a <? d + n) = true) as Hin
    by (intros a d n Ha'; apply andb_true_iff; rewrite Z.leb_le, Z.ltb_lt; lia).
  split.
  - intros i Hi. unfold store_usize, write_bytes, copy_bytes.
    rewrite (Hout _ (_ - 8)), Hout, Hin by lia. f_equal. lia.
  - intros i Hi. unfold store_usize, write_bytes. rewrite (Hout _ (_ - 8)), Hin by lia. done.
  - apply load_store_usize. lia.
  - intros a Ha'. unfold store_usize, write_bytes, copy_bytes. by rewrite !Hout by lia.
Qed.

Section tcb_proofs.
Context {S : Type} `{HeapRegionsLaws S}.

(** [initialize_tcb] gives a CPU a block of its own, disjoint from every
    region in use. It starts with a copy of the initialised thread-local data,
    continues with zeroes, and its last word, whose address is the result, holds
    the end of the block; nothing outside the block changes. When there is no
    address space left, nothing changes. *)
Theorem initialize_tcb_correct l s X b :
  hr_inv s X → hr_ready s (tcb_size l / PAGE_SIZE) → tcb_linked l → tbss_end l ≤ hr_base →
  ∃ r s' b', initialize_tcb l s b = Ret (r, s', b') ∧
  match r with
  | Err _ => b' = b ∧ hr_inv s' X
  | Ok tcb => ∃ start, let limit := start + tcb_size l in
      let data := tbss_start l - tdata_start l in
      tcb = limit - 8 ∧ start mod PAGE_SIZE = 0 ∧
      (∀ a c, (a, c) ∈ X → c ≤ start ∨ limit ≤ a) ∧ hr_inv s' ({[(start, limit)]} ∪ X) ∧
      (∀ i, 0 ≤ i < data → b' (start + i) = b (tdata_start l + i)) ∧
      (∀ i, data ≤ i < tcb_size l - 8 → b' (start + i) = 0) ∧
      load_usize tcb b' = limit ∧
      (∀ a, a < start ∨ limit ≤ a → b' a = b a)
  end.
Proof.
  intros Hinv Hready Hl Hbase. destruct hr_window as (Hw1 & Hw2 & Hw3). unfold FreeList.min_alignment in Hw3.
  destruct (tcb_size_ok l Hl) as (Hge & Hmul & Hpos).
  destruct (hr_allocate_ok s X (tcb_size l / PAGE_SIZE) Hinv Hpos Hready) as (r & s' & Ha & Hr'). destruct r as [region|e].
  - destruct Hr' as (start & Est & _ & _ & Hal & Hlo & Hhi & Hdis & Hinv'). rewrite Hmul in *.
    destruct (initialize_tcb_granted l s s' b region start Hl Ha Est) as (b' & -> & [T1 T2 T3 T4]); [lia|lia|].
    eexists _, _, _. split; [reflexivity|]. by exists start.
  - exists (Err e), s', b. split; [|done]. destruct Hl as [Hs Hr He]. unfold initialize_tcb.
    rewrite (usub_ok (tbss_end l)), bind_bind_Ret by lia.
    rewrite page_align_up_spec, bind_bind_Ret by (unfold PAGE_SIZE in *; lia). fold (tcb_size l).
    rewrite (usub_ok (tbss_start l)), bind_bind_Ret by lia. by rewrite Ha, bind_bind_Ret.
Qed.
End tcb_proofs.

(** ** Witnesses *)

(** 64 free frames; the loader's tables are frames 5000 to 5006. *)
Definition boot_region : PageFrameRegion := Physmem.mkRegion 16 4096 64 0 (replicate 8 255).
Definition boot_tables : Z → Z → Z := λ f i,
  if (f <? 5000) || (5006 <? f) then 0
  else match f with
  | 5000 => if i =? 256 then 5001 * 4096 + 3 else if i =? 0 then 5004 * 4096 + 3 else 0
  | 5001 => if i =? 2 then 5002 * 4096 + 3 else 0
  | 5002 => if i =? 0 then 5003 * 4096 + 3 else 0
  | 5003 => (6000 + i) * 4096 + 3
  | 5004 => if i =? 0 then 5005 * 4096 + 3 else 0
  | 5005 => if i =? 128 then 5006 * 4096 + 3 else 0
  | 5006 => (6100 + i) * 4096 + 3
  | _ => 0
  end.
Definition boot_machine : Machine :=
  mkMachine boot_tables (mkPhysMem (Some boot_region) None None) 20480000 false [].
Definition boot_linker : Linker :=
  let k := 0xffff800080001000 in
  mkLinker k (k + 0x5000) k (k + 0x1000) (k + 0x1000) (k + 0x2000) (k + 0x2000) (k + 0x3000)
    (k + 0x3000) (k + 0x3000) (k + 0x3000) (k + 0x4000) (k + 0x4000) (k + 0x5000).
Definition boot_frame (va : Z) : Z := (if va <? 2 ^ 40 then 6100 else 6000) + p1_index va.

Lemma boot_region_range f : f ∈ free_set boot_region → 16 ≤ f < 80.
Proof.
  intros [Hge Hbit]%elem_of_free_set. cbn [start_frame boot_region] in Hge.
  pose proof (bit_at_true_lt (replicate 8 255) (f - 16) ltac:(lia) Hbit). unfold bit_count in *. cbn in *. lia.
Qed.

Lemma boot_machine_owns : phys_owns (frames boot_machine) (free_set boot_region) ∅.
Proof.
  apply phys_owns_low; [|done|done]. split; [|done|done|set_solver..].
  split; [done|done| |by vm_compute|intros f Hf%boot_region_range; cbn; lia|by vm_compute].
  apply Forall_replicate. lia.
Qed.

(** The loader's walk to a page, through the three tables [ts]. *)
Definition loader_walk (va : Z) (ts : Z * Z * Z) : Prop :=
  next_table_frame boot_machine 5000 (p4_index va) = Some ts.1.1 ∧
  next_table_frame boot_machine ts.1.1 (p3_index va) = Some ts.1.2 ∧
  next_table_frame boot_machine ts.1.2 (p2_index va) = Some ts.2 ∧
  next_table_frame boot_machine ts.2 (p1_index va) = Some (boot_frame va) ∧ 0 ≤ boot_frame va < 2 ^ 40.
#[global] Instance loader_walk_dec va ts : Decision (loader_walk va ts).
Proof. unfold loader_walk. apply _. Defined.

Lemma loader_walks :
  Forall (λ p, loader_walk p.1 (5001, 5002, 5003) ∨ loader_walk p.1 (5004, 5005, 5006)) (kernel_pages boot_linker).
Proof. apply (bool_decide_unpack _). vm_compute. exact I. Qed.

Lemma loader_maps F va :
  (∀ f, f ∈ F → f < 5000) → loader_walk va (5001, 5002, 5003) ∨ loader_walk va (5004, 5005, 5006) →
  boot_maps boot_machine F 5000 va (boot_frame va).
Proof.
  intros HF Hw. assert (∀ t3 t2 t1 : Z, 5000 ≤ t3 → 5000 ≤ t2 → 5000 ≤ t1 → ∀ f, f ∈ [5000; t3; t2; t1] → f ∉ F) as Hnot.
  { intros t3 t2 t1 ??? f Hf. rewrite !elem_of_cons, elem_of_nil in Hf. intros ?%HF. lia. }
  destruct Hw as [(H4 & H3 & H2 & H1 & Hc)|(H4 & H3 & H2 & H1 & Hc)]; eexists _, _, _;
    (split_and!; [exact H4|exact H3|exact H2|exact H1|unfold table_frame; cbn; lia..|apply Hnot; cbn; lia|apply Hc|apply Hc]).
Qed.

Lemma boot_machine_maps va flags :
  (va, flags) ∈ kernel_pages boot_linker → boot_maps boot_machine (free_set boot_region ∪ ∅) 5000 va (boot_frame va).
Proof.
  intros Hin. apply loader_maps.
  - intros f. rewrite union_empty_r_L. intros ?%boot_region_range. lia.
  - pose proof loader_walks as Hw. rewrite Forall_forall in Hw. apply (Hw _ Hin).
Qed.


Lemma initialize_tcb_correct_witness :
  ∃ tcb s' b', initialize_tcb boot_linker (mkFresh KERNEL_HEAP_BASE) (λ a, a mod 251) = Ret (Ok tcb, s', b') ∧
    tcb = KERNEL_HEAP_BASE + 4088 ∧ load_usize tcb b' = KERNEL_HEAP_BASE + 4096.
Proof.
  destruct (initialize_tcb_correct boot_linker (mkFresh KERNEL_HEAP_BASE) ∅ (λ a, a mod 251))
    as (r & s' & b' & Hrun & Hr).
  - by split_and!; [..|intros ? ? ?%elem_of_empty].
  - done.
  - by split.
  - done.
  - assert (match initialize_tcb boot_linker (mkFresh KERNEL_HEAP_BASE) (λ a, a mod 251) with
            | Ret (Ok t, _, _) => t | _ => 0 end = KERNEL_HEAP_BASE + 4088) as E by (vm_compute; reflexivity).
    rewrite Hrun in E. destruct r as [tcb|]; [|done]. subst tcb.
    destruct Hr as (start & Et & _ & _ & _ & _ & _ & Hl & _).
    assert (start + tcb_size boot_linker = KERNEL_HEAP_BASE + 4096) as Hs by lia. rewrite Hs in Hl.
    exact (ex_intro _ _ (ex_intro _ s' (ex_intro _ b' (conj Hrun (conj eq_refl Hl))))).
Defined.
