(* ===== verification/PagingGrowth.v ===== *)
(** * Regions that come one after the other (paging/heap_region.rs)

    What holds between two states of paging when regions were allocated in between:
    what was mapped stays mapped, no frame is lost, and both memory and addresses
    have shrunk by a known amount. *)
From S2P Require Import Prelude Align AllocFreeList Physmem PageEntry PageTable Regions RegionMapping RegionRanges PagingState SimpleAlloc PagingCalls BootPaging.

(** The frame database of a well-formed paging state may grow. *)
Lemma paging_frames_ok N B L p c l G F H fr F' :
  paging_ok N B L p c l G F H → phys_owns fr F' H → 1048575 ∉ F' → (∀ f, f ∈ F' → f < 2 ^ 40) →
  paging_ok N B L (mkPaging (manager p) (set_frames (machine p) fr)) c l G F' H.
Proof.
  intros [Km Kt Ka [Tr Tc Tg Th _ _] Kl Kr Kc Kf Ke Ko Ks] Hown Hlast H40.
  split; cbn [manager machine set_frames cr3 page_lock]; try done.
  - intros f [Hf|Hf]%elem_of_union; [by apply H40|]. apply Kr. set_solver.
  - intros e He. destruct (Ke e He). by split.
Qed.

(** ** The entries an allocation or a release leaves alone *)

Section entries.
Context (N : nat) (B L : Z).
Abbreviation root p := (Frame.containing_address (cr3 (machine p))).

Lemma entry_inside p c l G F H x :
  paging_ok N B L p c l G F H → x ∈ l →
  0 ≤ B ∧ B ≤ base x < limit x ∧ limit x ≤ L ∧ L < usize_limit ∧ base x mod PAGE_SIZE = 0 ∧
  limit x = base x + entry_pages x * PAGE_SIZE.
Proof.
  intros [_ [_ Hti _ HB HL] Hal _ _ _ _ _ _ _ _] Hx. pose proof (tiled_inside _ _ _ Hti) as Hin.
  rewrite Forall_forall in Hin, Hal. destruct (Hin x Hx) as (? & ? & ?). destruct (Hal x Hx) as [Hb Hl].
  split_and!; [lia..|done|]. by apply entry_size.
Qed.

(** The page of an entry a byte is in. *)
Lemma entry_byte p c l G F H x va :
  paging_ok N B L p c l G F H → x ∈ l → base x ≤ va < limit x →
  0 ≤ (va - base x) / PAGE_SIZE < entry_pages x ∧ same_page (base x + (va - base x) / PAGE_SIZE * PAGE_SIZE) va.
Proof.
  intros Hpk Hx Hva. destruct (entry_inside _ _ _ _ _ _ _ Hpk Hx) as (? & ? & ? & ? & ? & ?).
  split; [unfold PAGE_SIZE in *; mlia|].
  pose proof (byte_page (base x) (va - base x) ltac:(lia) ltac:(done) ltac:(lia)) as Hs.
  by replace (base x + (va - base x)) with va in Hs by lia.
Qed.

Lemma entry_plain p c l G F H x va :
  paging_ok N B L p c l G F H → x ∈ l → base x ≤ va < limit x → plain (machine p) (root p) va.
Proof.
  intros Hpk Hx Hva. destruct (entry_byte _ _ _ _ _ _ _ _ Hpk Hx Hva) as [Hj Hs].
  eapply same_page_plain; [exact Hs|]. apply (rl_plain _ _ _ _ _ _ _ _ (pk_entries _ _ _ _ _ _ _ _ _ Hpk x Hx)). lia.
Qed.

Lemma entries_apart p c l G F H x y :
  paging_ok N B L p c l G F H → x ∈ l → y ∈ l → x = y ∨ limit x ≤ base y ∨ limit y ≤ base x.
Proof. intros [_ [_ Hti _ _ _] _ _ _ _ _ _ _ _ _]. by eapply tiled_apart. Qed.

(** Entries in use are not merged with one that is freed. *)
Lemma used_not_merged l1 e l2 x :
  x ∈ l1 ++ l2 → region_type_of x ≠ Some Free → x ∈ RegionManager.dealloc_flat l1 e l2.
Proof.
  intros Hx Hu.
  assert (∀ b, x ∈ l2 → x ∈ RegionManager.merged b e l2) as Hm.
  { intros b Hx2. unfold RegionManager.merged. right. destruct l2 as [|z k2]; [set_solver|]. cbn.
    case_bool_decide as Hz; [|done]. apply elem_of_cons in Hx2 as [->|Hx2]; [done|exact Hx2]. }
  unfold RegionManager.dealloc_flat. destruct (last l1) as [y|] eqn:Hl.
  - apply last_Some in Hl as [k ->]. destruct (Regions.is_free y) eqn:Hy.
    + rewrite removelast_last. apply bool_decide_eq_true in Hy.
      apply elem_of_app in Hx as [[Hx|Hx%list_elem_of_singleton]%elem_of_app|Hx]; [set_solver|congruence|set_solver].
    + set_solver.
  - apply last_None in Hl as ->. set_solver.
Qed.

(** ** Growth *)

(** What the invariant of paging speaks of: the chain of the region table, its
    entries, the page tables, the free frames and those in use. *)
Record PView := mkPView {
  v_chain : chain; v_entries : list RegionMapEntry; v_tables : gmap Z (list Z); v_free : gset Z; v_held : gset Z }.

Definition view_ok (p : Paging) (v : PView) : Prop :=
  paging_ok N B L p (v_chain v) (v_entries v) (v_tables v) (v_free v) (v_held v) ∧ clean (machine p) (v_free v).

(** A free range of [r] bytes. *)
Definition free_room (v : PView) (r : Z) : Prop :=
  ∃ e, e ∈ v_entries v ∧ region_type_of e = Some Free ∧ r ≤ limit e - base e.

(** What was mapped stays mapped: entries in use, addresses outside the window of
    the region manager, and huge pages. *)
Record kept (p : Paging) (v : PView) (p' : Paging) (v' : PView) : Prop := {
  kp_root : cr3 (machine p') = cr3 (machine p);
  kp_used : ∀ x, x ∈ v_entries v → region_type_of x ≠ Some Free → x ∈ v_entries v' ∧
    ∀ va, base x ≤ va < limit x → translate (machine p') (root p) va = translate (machine p) (root p) va;
  kp_outside : ∀ va, plain (machine p) (root p) va → (∀ w, B ≤ w < L → ¬ same_page w va) →
    plain (machine p') (root p) va ∧ translate (machine p') (root p) va = translate (machine p) (root p) va;
  kp_huge : ∀ va c, huge_mapped (machine p) (root p) va c → huge_mapped (machine p') (root p) va c }.

(** From [p] to [p'] at most [cost] kernel frames and [len] addresses were used. *)
Record expanded (p : Paging) (v : PView) (cost : nat) (len : Z) (p' : Paging) (v' : PView) : Prop := {
  ex_ok : view_ok p' v';
  ex_total : v_free v' ∪ v_held v' = v_free v ∪ v_held v;
  ex_memory : (size (kernel_free (v_free v)) ≤ cost + size (kernel_free (v_free v')))%nat;
  ex_room : ∀ r, free_room v r → len < r → free_room v' (r - len);
  ex_shape : same_shape (frames (machine p)) (frames (machine p'));
  ex_ram : ∀ f i, f ∉ v_free v ∪ v_held v → ram (machine p') f i = ram (machine p) f i;
  ex_kept : kept p v p' v' }.

Lemma kept_refl p v : kept p v p v.
Proof. by split. Qed.

Lemma kept_trans p1 v1 p2 v2 p3 v3 : kept p1 v1 p2 v2 → kept p2 v2 p3 v3 → kept p1 v1 p3 v3.
Proof.
  intros [A1 A2 A3 A4] [B1 B2 B3 B4]. rewrite A1 in *. split.
  - by rewrite B1.
  - intros x Hx Hu. destruct (A2 x Hx Hu) as [Hx2 Ht2]. destruct (B2 x Hx2 Hu) as [Hx3 Ht3].
    split; [done|]. intros va Hva. by rewrite Ht3, Ht2.
  - intros va Hpl Hout. destruct (A3 va Hpl Hout) as [Hpl2 Ht2]. destruct (B3 va Hpl2 Hout) as [Hpl3 Ht3].
    split; [done|]. by rewrite Ht3.
  - auto.
Qed.

Lemma expanded_refl p v : view_ok p v → expanded p v 0 0 p v.
Proof.
  intros Hv. split; try done. intros r (e & He & Hf & Hr) _. exists e. split_and!; [done|done|lia].
Qed.

Lemma expanded_weaken p v k n p' v' k' n' :
  (k ≤ k')%nat → n ≤ n' → expanded p v k n p' v' → expanded p v k' n' p' v'.
Proof.
  intros Hk Hn [A1 A2 A3 A4 A5 A6 A7]. split; try done; [lia|].
  intros r Hr Hlt. destruct (A4 r Hr ltac:(lia)) as (e & ? & ? & ?). exists e. split_and!; [done|done|lia].
Qed.

(** A processor sees in an entry in use what it saw before. *)
Lemma kept_hw p v p' v' x va :
  view_ok p v → view_ok p' v' → kept p v p' v' → x ∈ v_entries v → region_type_of x ≠ Some Free →
  base x ≤ va < limit x → hw_translate (machine p') (root p') va = hw_translate (machine p) (root p) va.
Proof.
  intros [Hpk _] [Hpk' _] Hg Hx Hu Hva. destruct (kp_used _ _ _ _ Hg x Hx Hu) as [Hx' Ht]. specialize (Ht va Hva).
  pose proof (entry_plain _ _ _ _ _ _ _ _ Hpk Hx Hva) as Hpl.
  pose proof (entry_plain _ _ _ _ _ _ _ _ Hpk' Hx' Hva) as Hpl'.
  rewrite (kp_root _ _ _ _ Hg) in *.
  destruct (Raw.is_present (translate (machine p) (root p) va)) eqn:E.
  - destruct (Raw.present (translate (machine p) (root p) va)) as [pte|e] eqn:Ep; [|unfold Raw.present in Ep; by rewrite E in Ep].
    rewrite (plain_hw _ _ _ _ Hpl Ep). apply (plain_hw _ _ _ _ Hpl'). by rewrite Ht.
  - rewrite (absent_hw _ _ _ Hpl E). apply (absent_hw _ _ _ Hpl'). by rewrite Ht.
Qed.

Lemma alloc_flat_used l1 e l2 req t x :
  region_type_of e = Some Free → x ∈ l1 ++ e :: l2 → region_type_of x ≠ Some Free →
  x ∈ RegionManager.alloc_flat l1 e l2 req t.
Proof.
  intros He Hx Hu. unfold RegionManager.alloc_flat.
  apply elem_of_app in Hx as [Hx|[->|Hx]%elem_of_cons]; [set_solver|done|]. destruct (_ =? _); set_solver.
Qed.

Lemma alloc_flat_room c l1 e l2 G F H c' G' F' H' req t r :
  region_type_of e = Some Free → base e + req ≤ limit e → 0 ≤ req < r →
  free_room (mkPView c (l1 ++ e :: l2) G F H) r →
  free_room (mkPView c' (RegionManager.alloc_flat l1 e l2 req t) G' F' H') (r - req).
Proof.
  intros He Hreq Hr (x & Hx & Hf & Hsz). cbn in *. unfold RegionManager.alloc_flat, free_room. cbn [v_entries].
  apply elem_of_app in Hx as [Hx|[->|Hx]%elem_of_cons].
  - exists x. split_and!; [set_solver|done|lia].
  - exists (mkEntry (base e + req) (limit e) (Some Free)). cbn. split_and!; [|done|lia].
    rewrite (proj2 (Z.eqb_neq _ _)) by lia. set_solver.
  - exists x. split_and!; [|done|lia]. destruct (_ =? _); set_solver.
Qed.

Context (HBL : L - B ≤ 2 ^ 47).

(** A byte of one entry shares no page with a range inside another. *)
Lemma entry_elsewhere p c l G F H x y n va :
  paging_ok N B L p c l G F H → x ∈ l → y ∈ l → x ≠ y → base y + n * PAGE_SIZE ≤ limit y → base x ≤ va < limit x →
  ∀ j, 0 ≤ j < n → ¬ same_page (base y + j * PAGE_SIZE) va.
Proof.
  intros Hpk Hx Hy Hne Hn Hva. destruct (entry_inside _ _ _ _ _ _ _ Hpk Hx) as (? & ? & ? & ? & ? & ?).
  destruct (entry_inside _ _ _ _ _ _ _ Hpk Hy) as (? & ? & ? & ? & ? & ?).
  apply (outside_range B L); [done|done|lia|lia|done|lia|].
  destruct (entries_apart _ _ _ _ _ _ _ _ Hpk Hx Hy) as [?|[?|?]]; [done|lia..].
Qed.

Lemma typed_expanded p c l1 e l2 G F H n t region p' c' G' F' H' :
  paging_ok N B L p c (l1 ++ e :: l2) G F H → 0 < n → RegionManager.fits (n * PAGE_SIZE) e = true →
  typed_region N B L p l1 e l2 G F H n t region p' c' G' F' H' →
  expanded p (mkPView c (l1 ++ e :: l2) G F H) (4 * Z.to_nat n + 1) (n * PAGE_SIZE)
    p' (mkPView c' (RegionManager.alloc_flat l1 e l2 (n * PAGE_SIZE) t) G' F' H').
Proof.
  intros Hpk Hn Hfit R. pose proof Hfit as [Hfree%bool_decide_eq_true Hsz%Z.leb_le]%andb_true_iff.
  destruct (entry_inside _ _ _ _ _ _ e Hpk ltac:(set_solver)) as (? & ? & ? & ? & ? & ?).
  assert (∀ x, x ∈ l1 ++ e :: l2 → region_type_of x ≠ Some Free → ∀ va, base x ≤ va < limit x →
    translate (machine p') (root p) va = translate (machine p) (root p) va) as Hkeep.
  { intros x Hx Hu va Hva. assert (x ≠ e) as Hne by (by intros ->).
    apply (tr_others _ _ _ _ _ _ _ _ _ _ _ _ _ _ _ _ _ _ R); [by eapply entry_plain|].
    by eapply (entry_elsewhere p c _ G F H x e n va Hpk Hx); [set_solver|done|lia|]. }
  split; cbn [v_chain v_entries v_tables v_free v_held].
  - split; apply R.
  - apply R.
  - pose proof (tr_memory _ _ _ _ _ _ _ _ _ _ _ _ _ _ _ _ _ _ R). lia.
  - intros r Hr Hlt. eapply alloc_flat_room; [done|lia|unfold PAGE_SIZE in *; lia|exact Hr].
  - apply R.
  - apply R.
  - split; [apply R|..].
    + intros x Hx Hu. split; [by apply alloc_flat_used|by apply Hkeep].
    + intros va Hpl Hout. split; [by apply (tr_plain _ _ _ _ _ _ _ _ _ _ _ _ _ _ _ _ _ _ R)|].
      apply (tr_others _ _ _ _ _ _ _ _ _ _ _ _ _ _ _ _ _ _ R); [done|]. intros j Hj. apply Hout.
      unfold PAGE_SIZE in *. lia.
    + intros va d. eapply huge_mapped_keep; [apply Hpk|apply R].
Qed.

Context (page_size : Z) (HN : (2 ≤ N)%nat) (Hps : 0 ≤ page_size ≤ PAGE_SIZE).

(** A region of [n] pages at [b] that was not there before. *)
Record new_region (p : Paging) (v : PView) (b n : Z) (t : RegionType) (region : Region.Region)
    (p' : Paging) (v' : PView) : Prop := {
  nr_start : Region.start region = Ret b;
  nr_limit : Region.limit region = Ret (b + n * PAGE_SIZE);
  nr_info : Region.info region = mkRegionInfo b (b + n * PAGE_SIZE);
  nr_aligned : b mod PAGE_SIZE = 0;
  nr_inside : B ≤ b ∧ b + n * PAGE_SIZE ≤ L ∧ 0 ≤ B ∧ L < usize_limit;
  nr_entry : mkEntry b (b + n * PAGE_SIZE) (Some t) ∈ v_entries v';
  nr_contents : region_contents t (machine p') (root p') b n;
  nr_apart : ∀ x, x ∈ v_entries v → region_type_of x ≠ Some Free → limit x ≤ b ∨ b + n * PAGE_SIZE ≤ base x;
  nr_handle : region = Region.mkRegion (mkRegionInfo b (b + n * PAGE_SIZE)) 0 (n * PAGE_SIZE) }.

(** Paging answers a request it has memory for; it has no other reason to refuse
    one than that no free range is long enough. *)
Lemma allocate_expanded p v n t :
  view_ok p v → 0 < n → n * PAGE_SIZE < usize_limit → mappable t n →
  (4 * Z.to_nat n + 1 ≤ size (kernel_free (v_free v)))%nat →
  (allocate_typed N page_size p n t = Ret (Err NoRegionAddressSpaceAvailable, p) ∧ ¬ free_room v (n * PAGE_SIZE)) ∨
  ∃ b region p' v', allocate_typed N page_size p n t = Ret (Ok region, p') ∧
    expanded p v (4 * Z.to_nat n + 1) (n * PAGE_SIZE) p' v' ∧ new_region p v b n t region p' v'.
Proof.
  destruct v as [c l G F H]. intros [Hpk Hcl] Hn Hov Ht Hmem. cbn [v_chain v_entries v_tables v_free v_held] in *.
  destruct (allocate_typed_ok N page_size B L HN Hps HBL p c l G F H n t Hpk Hcl Hn Hov Ht Hmem)
    as [[Hno ->]|(l1 & e & l2 & region & p' & c' & G' & F' & H' & -> & _ & Hfit & -> & R)]; [left|right].
  { split; [done|]. intros (e & He & Hf & Hsz). rewrite Forall_forall in Hno. specialize (Hno e He).
    unfold RegionManager.fits in Hno. rewrite bool_decide_true in Hno by done. apply Z.leb_gt in Hno. lia. }
  exists (base e), region, p', (mkPView c' (RegionManager.alloc_flat l1 e l2 (n * PAGE_SIZE) t) G' F' H').
  split; [done|]. split; [by eapply typed_expanded|].
  pose proof Hfit as [Hfree%bool_decide_eq_true Hsz%Z.leb_le]%andb_true_iff.
  destruct (entry_inside _ _ _ _ _ _ e Hpk ltac:(set_solver)) as (? & ? & ? & ? & ? & ?).
  split; cbn [v_entries].
  - apply R.
  - apply R.
  - apply R.
  - done.
  - split_and!; lia.
  - unfold RegionManager.alloc_flat. set_solver.
  - rewrite (tr_root _ _ _ _ _ _ _ _ _ _ _ _ _ _ _ _ _ _ R). apply R.
  - intros x Hx Hu. destruct (entries_apart _ _ _ _ _ _ x e Hpk Hx ltac:(set_solver)) as [->|[?|?]]; [done|lia..].
  - apply R.
Qed.

End entries.
