(* ===== verification/HeapPaging.v ===== *)
(** * The heap on the real paging (allocator/simple_allocator.rs over paging/)

    [SimpleAlloc] verifies the heap against what it relies on of paging, the laws
    [HeapRegionsLaws]. Here paging keeps them: it is ready for a request while the
    frame database has enough frames that hold zeroes, and then the regions it gives
    are memory. Every byte of a block the heap hands out is then a byte of physical
    memory that no other block has. *)
From S2P Require Import Prelude Align AllocFreeList Physmem PageEntry PageTable Regions RegionMapping RegionRanges PagingState SimpleAlloc PagingCalls BootPaging PagingGrowth.

Import FreeList.

Section memory.
Context (N : nat) (B L : Z).
Abbreviation root p := (Frame.containing_address (cr3 (machine p))).

(** ** Memory behind a region of the heap *)

(** An entry all of whose pages are memory. *)
Definition backed (p : Paging) (x : RegionMapEntry) : Prop :=
  region_type_of x = Some Heap ∧ region_contents Heap (machine p) (root p) (base x) (entry_pages x).

Lemma backed_byte p c l G F H x va :
  paging_ok N B L p c l G F H → x ∈ l → backed p x → base x ≤ va < limit x →
  ∃ f, hw_translate (machine p) (root p) va = Some (f * PAGE_SIZE + va mod PAGE_SIZE) ∧
    f ∈ freed_frames (translate (machine p) (root p) (base x + (va - base x) / PAGE_SIZE * PAGE_SIZE)) true.
Proof.
  intros Hpk Hx [_ Hc] Hva. destruct (entry_byte _ _ _ _ _ _ _ _ _ _ _ Hpk Hx Hva) as [Hj Hs].
  destruct (Hc _ Hj) as (pte & Hpr & _). exists (Present.frame pte). split; [|apply elem_of_freed_frames; eauto].
  rewrite (same_page_translate _ _ _ _ Hs) in Hpr. by rewrite (plain_hw _ _ _ _ (entry_plain _ _ _ _ _ _ _ _ _ _ _ Hpk Hx Hva) Hpr).
Qed.

(** No byte of memory is behind two addresses. *)
Lemma backed_apart p c l G F H x x' va va' pa :
  paging_ok N B L p c l G F H → x ∈ l → x' ∈ l → backed p x → backed p x' →
  base x ≤ va < limit x → base x' ≤ va' < limit x' →
  hw_translate (machine p) (root p) va = Some pa → hw_translate (machine p) (root p) va' = Some pa → va = va'.
Proof.
  intros Hpk Hx Hx' Hb Hb' Hva Hva' E E'.
  destruct (backed_byte _ _ _ _ _ _ _ _ Hpk Hx Hb Hva) as (f & Ef & Hf).
  destruct (backed_byte _ _ _ _ _ _ _ _ Hpk Hx' Hb' Hva') as (f' & Ef' & Hf').
  destruct (entry_byte _ _ _ _ _ _ _ _ _ _ _ Hpk Hx Hva) as [Hj _].
  destruct (entry_byte _ _ _ _ _ _ _ _ _ _ _ Hpk Hx' Hva') as [Hj' _].
  destruct (entry_inside _ _ _ _ _ _ _ _ _ _ Hpk Hx) as (_ & _ & _ & _ & Hm & _).
  rewrite Ef in E. rewrite Ef' in E'. injection E as <-. injection E' as E.
  assert (f' = f ∧ va' mod PAGE_SIZE = va mod PAGE_SIZE) as [-> Em] by (clear -E; unfold PAGE_SIZE in *; mlia).
  assert (∀ y j, region_type_of y = Some Heap → 0 ≤ j < entry_pages y →
    f ∈ freed_frames (translate (machine p) (root p) (base y + j * PAGE_SIZE)) true →
    f ∈ entry_frames (machine p) (root p) y) as Hown.
  { intros y j Hy Hj0 Hfj. unfold entry_frames, frees_of. rewrite Hy. apply elem_of_freed_run. exists j.
    split; [apply elem_of_seqZ; lia|done]. }
  assert (x' = x) as -> by (eapply (pk_own _ _ _ _ _ _ _ _ _ Hpk); [done|done|eapply Hown; [apply Hb'|..]|eapply Hown; [apply Hb|..]]; done).
  pose proof (rl_distinct _ _ _ _ _ _ _ _ (pk_entries _ _ _ _ _ _ _ _ _ Hpk x Hx) ((va - base x) / PAGE_SIZE)
    ((va' - base x) / PAGE_SIZE) f ltac:(lia) ltac:(lia)) as Hd.
  unfold frees_of in Hd. rewrite (proj1 Hb) in Hd. specialize (Hd Hf Hf'). unfold PAGE_SIZE in *. mlia.
Qed.

End memory.

(** ** Paging keeps the promises the heap relies on *)

Section laws.
Context (N : nat).
Abbreviation root p := (Frame.containing_address (cr3 (machine p))).
Abbreviation B := KERNEL_HEAP_BASE.
Abbreviation L := KERNEL_HEAP_LIMIT.

(** The ranges the heap holds are entries of the region table, and memory. *)
Definition ranges_backed (p : Paging) (l : list RegionMapEntry) (X : gset (Z * Z)) : Prop :=
  ∀ a b, (a, b) ∈ X → mkEntry a b (Some Heap) ∈ l ∧ backed p (mkEntry a b (Some Heap)).

Definition paging_inv (p : Paging) (X : gset (Z * Z)) : Prop :=
  ∃ c l G F H, paging_ok N B L p c l G F H ∧ ranges_backed p l X.

(** The region table, the page tables and the frame database agree. *)
Definition parts_agree (p : Paging) : Prop := ∃ c l G F H, paging_ok N B L p c l G F H.

(** There are enough free kernel frames, and they hold zeroes. *)
Definition paging_ready (p : Paging) (pages : Z) : Prop :=
  pages * PAGE_SIZE < usize_limit ∧
  ∃ F H, phys_owns (frames (machine p)) F H ∧ clean (machine p) F ∧
    (4 * Z.to_nat pages + 1 ≤ size (kernel_free F))%nat.

Lemma entry_pages_range a n t : entry_pages (mkEntry a (a + n * PAGE_SIZE) t) = n.
Proof. unfold entry_pages. cbn [base limit]. replace (a + n * PAGE_SIZE - a) with (n * PAGE_SIZE) by lia. by apply Z.div_mul. Qed.

Lemma backed_same p c l G F H p' x :
  paging_ok N B L p c l G F H → x ∈ l → cr3 (machine p') = cr3 (machine p) →
  (∀ va, base x ≤ va < limit x → translate (machine p') (root p) va = translate (machine p) (root p) va) →
  backed p x → backed p' x.
Proof.
  intros Hpk Hx Hr Ht [Hty Hc]. split; [done|]. rewrite Hr. intros j Hj.
  destruct (entry_inside _ _ _ _ _ _ _ _ _ _ Hpk Hx) as (_ & _ & _ & _ & _ & Hl).
  destruct (Hc j Hj) as (pte & Hp & Hfl). exists pte. by rewrite Ht by (unfold PAGE_SIZE in *; lia).
Qed.

Lemma ranges_expanded p v k n p' v' X :
  view_ok N B L p v → expanded N B L p v k n p' v' → ranges_backed p (v_entries v) X → ranges_backed p' (v_entries v') X.
Proof.
  intros [Hpk _] Hg HX a b Hab. destruct (HX a b Hab) as [Hin Hb].
  destruct (kp_used _ _ _ _ _ _ (ex_kept _ _ _ _ _ _ _ _ _ Hg) _ Hin) as [Hin' Ht]; [done|]. split; [done|].
  eapply (backed_same _ _ _ _ _ _ _ _ Hpk Hin); [apply (ex_kept _ _ _ _ _ _ _ _ _ Hg)|exact Ht|done].
Qed.

Lemma ranges_new p v b n region p' v' X :
  new_region B L p v b n Heap region p' v' → ranges_backed p' (v_entries v') X →
  ranges_backed p' (v_entries v') ({[(b, b + n * PAGE_SIZE)]} ∪ X).
Proof.
  intros Hnew HX a c [[= -> ->]%elem_of_singleton|Hac]%elem_of_union; [|by apply HX].
  split; [apply Hnew|]. split; [done|]. rewrite entry_pages_range. apply Hnew.
Qed.

Context (page_size : Z) (HN : (2 ≤ N)%nat) (Hps : 0 ≤ page_size ≤ PAGE_SIZE).

Definition Paging_heap_laws : @HeapRegionsLaws Paging (Paging_heap_regions N page_size).
Proof.
  refine {| hr_base := B; hr_limit := L; hr_inv := paging_inv; hr_ready := paging_ready |}.
  - done.
  - intros p X pages (c & l & G & F & H & Hpk & HX) Hn (Hov & F0 & H0 & Hown & Hcl & Hmem).
    rewrite (phys_owns_free _ _ _ _ _ Hown (tab_phys _ _ _ _ _ (pk_tables _ _ _ _ _ _ _ _ _ Hpk))) in Hcl, Hmem.
    set (v := mkPView c l G F H). assert (view_ok N B L p v) as Hv by done. cbn [hr_allocate Paging_heap_regions].
    destruct (allocate_expanded N B L heap_window page_size HN Hps p v pages Heap Hv Hn Hov I Hmem)
      as [[E _]|(b & region & p' & v' & E & Hg & Hnew)].
    { eexists _, _. split; [exact E|]. by exists c, l, G, F, H. }
    eexists _, _. split; [exact E|]. exists b. cbn zeta. split; [apply Hnew|]. split; [apply Hnew|].
    split; [apply Hnew|]. split; [apply Hnew|]. destruct (nr_inside _ _ _ _ _ _ _ _ _ _ Hnew) as (? & ? & _).
    split; [done|]. split; [done|]. split.
    + intros a d Had. destruct (HX a d Had) as [Hin _]. by apply (nr_apart _ _ _ _ _ _ _ _ _ _ Hnew _ Hin).
    + exists (v_chain v'), (v_entries v'), (v_tables v'), (v_free v'), (v_held v'). split; [apply Hg|].
      eapply ranges_new; [exact Hnew|]. by eapply (ranges_expanded p v).
  - intros p X region start limit (c & l & G & F & H & Hpk & HX) Hin Hinfo.
    destruct (HX _ _ Hin) as [He _]. apply list_elem_of_split in He as (l1 & l2 & ->).
    destruct (drop_region_ok N page_size B L HN Hps heap_window p c l1 _ l2 G F H Heap region Hpk eq_refl ltac:(done) Hinfo)
      as (p' & c' & F' & H' & E & Hpk' & _ & _ & _ & Hr & _ & Hoth).
    exists p'. split; [exact E|]. eexists _, _, _, _, _. split; [exact Hpk'|].
    intros a b [Hab Hne]%elem_of_difference. destruct (HX a b Hab) as [Hx Hb].
    set (x := mkEntry a b (Some Heap)) in *. set (e := mkEntry start limit (Some Heap)) in *.
    assert (x ≠ e) as Hxe by (intros [= -> ->]; set_solver).
    split; [apply used_not_merged; [set_solver|done]|].
    destruct (entry_inside _ _ _ _ _ _ _ _ _ e Hpk ltac:(set_solver)) as (_ & _ & _ & _ & _ & Hl).
    eapply (backed_same _ _ _ _ _ _ _ _ Hpk Hx); [done| |done]. intros va Hva.
    apply Hoth; [by eapply entry_plain|].
    eapply (entry_elsewhere N B L heap_window p c _ G F H x e (entry_pages e) va Hpk Hx); [set_solver|done|lia|done].
Defined.

(** ** Blocks of the heap *)

Section blocks.
Context (size_of_HeapRegion free_list_offset : Z).
Abbreviation hsize := size_of_HeapRegion.
Abbreviation heap_ok_ := (@heap_ok Paging _ Paging_heap_laws hsize).
Abbreviation alloc_ := (@alloc Paging (Paging_heap_regions N page_size) hsize free_list_offset).

(** With memory and addresses for the region it may need, [alloc] succeeds, and
    paging has expanded by at most that region. *)
Lemma heap_alloc_expanded rs gs p v o l pages :
  header_ok hsize → heap_ok_ rs gs p → view_ok N B L p v →
  0 ≤ layout_size o → is_power_of_two (layout_align o) = true → Forall (λ g, g_limit g ≤ L) gs →
  L + layout_size o + layout_align o + 64 < usize_limit →
  align_layout o = Ret (Some l) → expansion_pages hsize l = Ret pages → 0 < pages → pages * PAGE_SIZE < usize_limit →
  (4 * Z.to_nat pages + 1 ≤ size (kernel_free (v_free v)))%nat → free_room v (pages * PAGE_SIZE) →
  ∃ q rs' gs' p' v', alloc_ rs o p = Ret (Some q, rs', p') ∧
    expanded N B L p v (4 * Z.to_nat pages + 1) (pages * PAGE_SIZE) p' v' ∧
    heap_ok_ rs' gs' p' ∧ Forall (λ g, g_limit g ≤ L) gs' ∧
    q mod layout_align o = 0 ∧ (∀ l', ¬ live_in gs q l') ∧ block_added gs gs' q l.
Proof.
  intros Hhd Hheap Hv Hs Hp Htops Hb Hal Hpg Hpos Hov Hmem Hroom.
  destruct (@alloc_ok Paging _ Paging_heap_laws hsize free_list_offset rs gs p o L Hhd Hheap Hs Hp Htops ltac:(done) Hb)
    as (r & rs' & p' & E & Hr).
  { intros l0 pages0 Hal0 _ Hpg0. rewrite Hal in Hal0. injection Hal0 as <-. rewrite Hpg in Hpg0. injection Hpg0 as <-.
    split; [done|]. exists (v_free v), (v_held v). split; [apply Hv|]. split; [apply Hv|done]. }
  assert (is_Some r ∧ ∃ v', expanded N B L p v (4 * Z.to_nat pages + 1) (pages * PAGE_SIZE) p' v') as [[q ->] [v' Hg]].
  { destruct (alloc_calls _ _ _ _ _ _ _ _ _ _ Hal Hpg E) as [[-> Hq]|(x & Ex & Hx)].
    - split; [done|]. exists v. eapply expanded_weaken; [| |by apply expanded_refl]; [lia|unfold PAGE_SIZE; lia].
    - change (hr_allocate pages p) with (allocate_typed N page_size p pages Heap) in Ex.
      destruct (allocate_expanded N B L heap_window page_size HN Hps p v pages Heap Hv Hpos Hov I Hmem)
        as [[_ Hno]|(b & region & p2 & v2 & E2 & Hg & _)]; [done|].
      rewrite Ex in E2. injection E2 as -> <-. split; [by eapply Hx|]. by exists v2. }
  destruct Hr as (gs' & l' & Hheap' & Hal' & _ & Hmod & Hfresh & Hadd & Htops').
  rewrite Hal in Hal'. injection Hal' as <-. exists q, rs', gs', p', v'. by split_and!.
Qed.

Abbreviation step_ := (@heap_step Paging _ Paging_heap_laws hsize free_list_offset).

(** The entry of the region table a byte of a block is in, if it is not in the
    static buffer. *)
Lemma live_backed rs gs p l q al x :
  header_ok hsize → heap_ok_ rs gs p → ranges_backed p l (held_ranges gs) →
  live_in gs q al → q ≤ x < q + al_size al → B ≤ x < L →
  ∃ e, e ∈ l ∧ backed p e ∧ base e ≤ x < limit e.
Proof.
  intros [Hh _] [HF _ _] HX (g & Hg & Hgq) Hx HxL.
  destruct (Forall2_elem_r _ _ _ HF g Hg) as (hr & Hok). destruct (live_range _ _ _ _ _ Hok Hgq) as (_ & Hlo & Hhi).
  destruct Hok as (_ & _ & pl & _ & (_ & Hpay) & _).
  destruct (g_buffer g) eqn:Hbuf; [exfalso; destruct Hpay as [_ [?|?]]; cbn in *; lia|].
  destruct (HX (g_start g) (g_limit g)) as [Hin Hb].
  { apply held_elem. exists g. by split_and!. }
  eexists. split; [exact Hin|]. split; [exact Hb|]. cbn. lia.
Qed.

Lemma client_blocks_backed top rs p live :
  header_ok hsize → @client_inv Paging _ Paging_heap_laws hsize top (rs, p, live) →
  ∃ c l G F H, paging_ok N B L p c l G F H ∧
    ∀ q o x, live !! q = Some o → q ≤ x < q + layout_size o → B ≤ x < L →
      ∃ e, e ∈ l ∧ backed p e ∧ base e ≤ x < limit e.
Proof.
  intros Hhd (gs & Hheap & _ & Hfw & _). cbn in Hheap, Hfw.
  destruct (heap_held _ _ _ _ Hheap) as (c & l & G & F & H & Hpk & HX). exists c, l, G, F, H. split; [done|].
  intros q o x Hq Hx HxL. destruct (Hfw q o Hq) as (Hs & _ & al & Hal & Hlive).
  destruct (align_layout_inv o al Hs Hal) as [Hsz _]. by eapply (live_backed rs gs p l q al x); [..|lia|].
Qed.


End blocks.

End laws.

(** ** Witness: a heap that outgrows its static buffer, with 255 free frames *)

Definition roomy_mask : list Z := 253 :: replicate 31 255.
Definition roomy_paging : Paging := root_paging 255 roomy_mask.
Definition roomy_heap : list HeapRegion := match new_allocator 104 40 false ex_buffer with Ret rs => rs | _ => [] end.
Definition large_block : Layout := mkLayout 140000 8.

Lemma table_of_8 : (2 ≤ 8)%nat.
Proof. lia. Qed.
Lemma page_of_4096 : 0 ≤ 4096 ≤ PAGE_SIZE.
Proof. unfold PAGE_SIZE. lia. Qed.

Abbreviation roomy_step := (@heap_step Paging (Paging_heap_regions 8 4096) (Paging_heap_laws 8 4096 table_of_8 page_of_4096) 104 40 KERNEL_HEAP_LIMIT).

Lemma roomy_mask_ok : small_mask 255 roomy_mask.
Proof. split; [unfold bytes_ok, roomy_mask; repeat constructor; lia|by vm_compute|done|by vm_compute]. Qed.

Lemma roomy_ready : paging_ready roomy_paging 35.
Proof.
  split; [by vm_compute|]. exists (free_set (byte_region 255 roomy_mask)), {[17]}. split_and!.
  - apply (root_paging_ok _ _ roomy_mask_ok).
  - by intros f i _.
  - apply Nat.leb_le. vm_compute. reflexivity.
Qed.

Definition pointer_of {A B} (r : outcome (option Z * A * B)) : Z := match r with Ret (Some q, _, _) => q | _ => 0 end.

Lemma pointer_of_ok {A B} (r : outcome (option Z * A * B)) q :
  pointer_of r = q → q ≠ 0 → ∃ a b, r = Ret (Some q, a, b).
Proof. destruct r as [[[[x|] a] b]|w|]; cbn; intros <- Hq; try done. by exists a, b. Qed.

Lemma large_pages l pages :
  align_layout large_block = Ret (Some l) → expansion_pages 104 l = Ret pages → pages = 35.
Proof.
  assert ((al ← align_layout large_block; l ← unwrap al; expansion_pages 104 l) = Ret 35) as E by (by vm_compute).
  intros Hl Hp. rewrite Hl in E. cbn [mbind outcome_bind unwrap] in E. rewrite Hp in E. by injection E.
Qed.

Lemma roomy_run :
  ∃ rs p, rtc roomy_step (roomy_heap, roomy_paging, ∅) (rs, p, {[KERNEL_HEAP_BASE + 104 := large_block]}).
Proof.
  destruct (pointer_of_ok (alloc (H := Paging_heap_regions 8 4096) 104 40 roomy_heap large_block roomy_paging) (KERNEL_HEAP_BASE + 104))
    as (rs & p & Ea); [vm_compute; reflexivity|discriminate|].
  exists rs, p. apply rtc_once.
  apply (heap_step_alloc (H0 := Paging_heap_laws 8 4096 table_of_8 page_of_4096)); [by vm_compute..| |exact Ea].
  intros l pages Hl _ Hp. rewrite (large_pages l pages Hl Hp). exact roomy_ready.
Qed.

