(* ===== verification/DeviceWindows.v ===== *)
(** * The registers of the drivers, on the machine (devices/local_apic.rs,
    devices/hpet.rs, devices/io_apic.rs: the access objects)

    The drivers are verified against the registers of their chips. Here are the
    objects through which they reach them: each maps the chip's physical page with
    [map_physical_memory] and then loads and stores at offsets from the window. On
    the real paging a load or store through the window is one of the chip's
    register, and stays so whatever paging maps later. *)
From S2P Require Import Prelude Align Physmem PageEntry PageTable Regions RegionMapping RegionRanges PagingState PagingCalls SimpleAlloc LocalApic Hpet PagingGrowth HeapPaging.

(** What answers at a physical address: a read of [n] bytes, which may change the
    state of a chip, and a write. *)
Class Bus (S : Type) := {
  bus_read : Z → Z → S → Z * S;
  bus_write : Z → Z → Z → S → S }.

Section access.
Context {S : Type} `{Bus S}.
(** The machine whose tables the processor uses. *)
Context (m : Machine).
Abbreviation p4 := (Frame.containing_address (cr3 m)).

(** [volatile_load], [volatile_store] of [n] bytes: an address without a translation
    faults. *)
Definition volatile_load (n va : Z) (s : S) : outcome (Z * S) :=
  pa ← unwrap (hw_translate m p4 va); Ret (bus_read n pa s).
Definition volatile_store (n va value : Z) (s : S) : outcome S :=
  pa ← unwrap (hw_translate m p4 va); Ret (bus_write n pa value s).

Definition lapic_read (mapping : Region.Region) (offset : Z) (s : S) : outcome (Z * S) :=
  va ← Region.as_ptr_offset mapping offset; volatile_load 4 va s.
Definition lapic_write (mapping : Region.Region) (offset value : Z) (s : S) : outcome S :=
  va ← Region.as_ptr_offset mapping offset; volatile_store 4 va value s.

Definition timer_read (mapping : Region.Region) (register : Z) (s : S) : outcome (Z * S) :=
  va ← Region.as_ptr_offset mapping register; volatile_load 8 va s.
Definition timer_write (mapping : Region.Region) (register value : Z) (s : S) : outcome S :=
  va ← Region.as_ptr_offset mapping register; volatile_store 8 va value s.

Definition ioregsel (mapping : Region.Region) : outcome Z := Region.as_ptr_offset mapping 0.
Definition iowin (mapping : Region.Region) : outcome Z := Region.as_ptr_offset mapping 0x10.
Definition mapped_write_ioregsel (mapping : Region.Region) (value : Z) (s : S) : outcome S :=
  va ← ioregsel mapping; volatile_store 4 va value s.
Definition mapped_read_iowin (mapping : Region.Region) (s : S) : outcome (Z * S) :=
  va ← iowin mapping; volatile_load 4 va s.
Definition mapped_write_iowin (mapping : Region.Region) (value : Z) (s : S) : outcome S :=
  va ← iowin mapping; volatile_store 4 va value s.

End access.

Section open.
Context (N : nat) (page_size : Z).

(** [LocalApicAccess::new], with the value of [IA32_APIC_BASE]. *)
Definition lapic_new (msr : Z) (p : Paging) : outcome (Region.Region * Paging) :=
  r ← map_physical_memory N page_size p (apic_address msr) PAGE_SIZE PhysicalMappingFlags.UNCACHED;
  match r.1 with Ok mapping => Ret (mapping, r.2) | Err _ => Panic UnwrapNone end.

(** [.ok()] of a result. *)
Definition ok {A} (r : result A) : option A := match r with Ok a => Some a | Err _ => None end.

(** [HpetAccess::new]. *)
Definition timer_new (base_address : Z) (p : Paging) : outcome (option Region.Region * Paging) :=
  r ← map_physical_memory N page_size p base_address 1024 PhysicalMappingFlags.UNCACHED; Ret (ok r.1, r.2).

(** [IoApicRegisters::new]. *)
Definition io_registers_new (address : Z) (p : Paging) : outcome (option Region.Region * Paging) :=
  r ← map_physical_memory N page_size p address 8 PhysicalMappingFlags.UNCACHED; Ret (ok r.1, r.2).

(** The loop of [io_apic::init]. *)
Fixpoint map_io_apics (addresses : list Z) (p : Paging) : outcome (list Region.Region * Paging) :=
  match addresses with
  | [] => Ret ([], p)
  | address :: rest =>
      r ← io_registers_new address p;
      match r.1 with
      | Some mapping => t ← map_io_apics rest r.2; Ret (mapping :: t.1, t.2)
      | None => Panic ExplicitPanic
      end
  end.

(** What [devices::init_bsp] maps: the local APIC, the I/O APICs, the timer. *)
Definition map_devices (msr : Z) (io_apics : list Z) (hpet : Z) (p : Paging)
    : outcome (Region.Region * list Region.Region * Region.Region * Paging) :=
  a ← lapic_new msr p;
  i ← map_io_apics io_apics a.2;
  t ← timer_new hpet i.2;
  timer ← unwrap t.1;
  Ret (a.1, i.1, timer, t.2).

End open.

(** * Proofs *)

Abbreviation B := KERNEL_HEAP_BASE.
Abbreviation L := KERNEL_HEAP_LIMIT.
Abbreviation root p := (Frame.containing_address (cr3 (machine p))).

(** A window onto [pa]: its handle starts at [pa], and all its [n] pages are those
    around [pa], also the bytes that were not asked for. *)
Record window (p : Paging) (v : PView) (mapping : Region.Region) (pa n : Z) : Prop := {
  w_entry : ∃ start pm, Region.start mapping = Ret start ∧ 0 < start - pa mod PAGE_SIZE ∧
    start - pa mod PAGE_SIZE + n * PAGE_SIZE ≤ L ∧
    mkEntry (start - pa mod PAGE_SIZE) (start - pa mod PAGE_SIZE + n * PAGE_SIZE) (Some (PhysicalMappingRegion pm)) ∈ v_entries v ∧
    ∀ k, - (pa mod PAGE_SIZE) ≤ k < n * PAGE_SIZE - pa mod PAGE_SIZE →
      hw_translate (machine p) (root p) (start + k) = Some (pa + k) }.

(** A pointer into a window leads to the chip. *)
Lemma window_pointer p v mapping pa n k :
  window p v mapping pa n → 0 ≤ k < n * PAGE_SIZE - pa mod PAGE_SIZE →
  ∃ va, Region.as_ptr_offset mapping k = Ret va ∧ hw_translate (machine p) (root p) va = Some (pa + k).
Proof.
  intros [(start & pm & Hs & Hlo & Hhi & _ & Ht)] Hk. unfold KERNEL_HEAP_LIMIT in Hhi.
  exists (start + k). unfold Region.as_ptr_offset. rewrite Hs, bind_bind_Ret, uadd_ok by (unfold PAGE_SIZE in *; mlia).
  split; [done|]. apply Ht. unfold PAGE_SIZE in *. mlia.
Qed.

(** A chip's registers take at most two pages. *)
Lemma small_window pa len : 0 ≤ pa → 0 < len ≤ PAGE_SIZE → 0 < window_pages pa len ≤ 2.
Proof. intros Hpa Hlen. unfold window_pages, round_up, round_down, PAGE_SIZE in *. mlia. Qed.

(** The bytes of a window that are behind its start. *)
Lemma window_rest pa len : 0 ≤ pa → 0 < len → len ≤ window_pages pa len * PAGE_SIZE - pa mod PAGE_SIZE.
Proof. intros Hpa Hlen. destruct (window_arith pa len Hpa Hlen) as (_ & _ & _ & _ & _ & ?). lia. Qed.

Lemma apic_address_range msr : 0 ≤ apic_address msr < 2 ^ 51.
Proof.
  unfold apic_address. split; [apply Z.land_nonneg; lia|]. apply bits_bound; [lia|apply Z.land_nonneg; lia|].
  intros n Hn. rewrite Z.land_spec, (high_bits_zero 0xffff0000 32), andb_false_r by lia. done.
Qed.

Section windows.
Context (N : nat) (page_size : Z) (HN : (2 ≤ N)%nat) (Hps : 0 ≤ page_size ≤ PAGE_SIZE).
Abbreviation view_ := (view_ok N B L).
Abbreviation expanded_ := (expanded N B L).

(** It stays. *)
Lemma window_kept p v p' v' mapping pa n :
  view_ p v → view_ p' v' → kept B L p v p' v' → window p v mapping pa n → window p' v' mapping pa n.
Proof.
  intros Hv Hv' Hk [(start & pm & Hs & Hlo & Hhi & He & Ht)]. split. exists start, pm. split_and!; [done|done|done| |].
  - by apply (kp_used _ _ _ _ _ _ Hk _ He).
  - intros k Hk'. rewrite <- (Ht k Hk'). eapply (kept_hw N B L p v p' v'); [done|done|done|exact He|done|]. cbn. lia.
Qed.

Lemma map_window p v pa len flags :
  let n := window_pages pa len in
  view_ p v → 0 ≤ pa → 0 < len → pa + len + PAGE_SIZE ≤ 2 ^ 52 →
  (4 * Z.to_nat n + 1 ≤ size (kernel_free (v_free v)))%nat → free_room v (n * PAGE_SIZE) →
  ∃ mapping p' v', map_physical_memory N page_size p pa len flags = Ret (Ok mapping, p') ∧
    expanded_ p v (4 * Z.to_nat n + 1) (n * PAGE_SIZE) p' v' ∧ window p' v' mapping pa n.
Proof.
  intros n Hv Hpa Hlen Hlim Hmem Hroom. destruct (window_arith pa len Hpa Hlen) as (Hend & Hn & Hd0 & Hdm & Epa & Hin).
  destruct (window_mappable pa len flags Hpa Hlen Hlim) as [Hov Hmap]. fold n in Hend, Hn, Hin, Hov, Hmap.
  assert (0 ≤ pa mod PAGE_SIZE) as Hmod by (unfold PAGE_SIZE; mlia).
  rewrite map_physical_memory_eq by done. fold n. set (pm := mkPhysicalMapping (round_down pa PAGE_SIZE) flags) in *.
  destruct (allocate_expanded N B L heap_window page_size HN Hps p v n (PhysicalMappingRegion pm) Hv Hn Hov Hmap Hmem)
    as [[_ Hno]|(b & region & p' & v' & -> & Hx & Hnew)]; [done|].
  destruct (nr_inside _ _ _ _ _ _ _ _ _ _ Hnew) as (Hlo & Hhi & _).
  pose proof (nr_aligned _ _ _ _ _ _ _ _ _ _ Hnew) as Hal. pose proof (nr_entry _ _ _ _ _ _ _ _ _ _ Hnew) as He.
  rewrite (nr_handle _ _ _ _ _ _ _ _ _ _ Hnew), bind_bind_Ret. cbn [fst snd].
  rewrite apply_offset_ok, bind_bind_Ret by lia.
  unfold KERNEL_HEAP_BASE in Hlo. unfold KERNEL_HEAP_LIMIT in Hhi.
  eexists _, p', v'. split; [done|]. split; [done|]. split. exists (b + pa mod PAGE_SIZE), pm.
  replace (b + pa mod PAGE_SIZE - pa mod PAGE_SIZE) with b by lia. split_and!; [|lia|exact Hhi|exact He|].
  - unfold Region.start. cbn. apply uadd_ok; lia.
  - intros k Hk. replace (b + pa mod PAGE_SIZE + k) with (b + (pa mod PAGE_SIZE + k)) by lia.
    rewrite (window_translate pm _ _ b n); [cbn; f_equal; lia|lia|done|lia|apply Hnew|].
    destruct (ex_ok _ _ _ _ _ _ _ _ _ Hx) as [Hpk' _]. eapply entry_plain; [exact Hpk'|exact He|]. cbn. lia.
Qed.

(** Frames and addresses that are left. *)
Definition roomy (p : Paging) (v : PView) (cost : nat) (len : Z) : Prop :=
  view_ p v ∧ (cost ≤ size (kernel_free (v_free v)))%nat ∧ free_room v len.

Lemma open_window p v pa len cost room flags :
  roomy p v (9 + cost) (2 * PAGE_SIZE + room) → 0 < room → 0 ≤ pa < 2 ^ 51 → 0 < len ≤ PAGE_SIZE →
  ∃ mapping p' v', map_physical_memory N page_size p pa len flags = Ret (Ok mapping, p') ∧
    roomy p' v' cost room ∧ kept B L p v p' v' ∧ window p' v' mapping pa (window_pages pa len).
Proof.
  intros (Hv & Hmem & Hroom) Hr Hpa Hlen. pose proof (small_window pa len ltac:(lia) Hlen) as Hn.
  destruct (map_window p v pa len flags) as (mapping & p' & v' & E & Hx & Hw); [done|lia|lia|unfold PAGE_SIZE in *; lia|lia| |].
  - destruct Hroom as (e & ? & ? & ?). exists e. split_and!; [done|done|unfold PAGE_SIZE in *; lia].
  - exists mapping, p', v'. pose proof (ex_memory _ _ _ _ _ _ _ _ _ Hx) as Hm.
    split; [done|]. split; [|split; [apply Hx|done]]. split; [apply Hx|]. split; [lia|].
    destruct (ex_room _ _ _ _ _ _ _ _ _ Hx _ Hroom) as (e & ? & ? & ?); [unfold PAGE_SIZE in *; lia|].
    exists e. split_and!; [done|done|unfold PAGE_SIZE in *; lia].
Qed.

Lemma map_io_apics_ok addresses : ∀ p v cost room,
  roomy p v (9 * length addresses + cost) (2 * Z.of_nat (length addresses) * PAGE_SIZE + room) → 0 < room →
  Forall (λ a, 0 ≤ a < 2 ^ 51) addresses →
  ∃ maps p' v', map_io_apics N page_size addresses p = Ret (maps, p') ∧ roomy p' v' cost room ∧ kept B L p v p' v' ∧
    Forall2 (λ mapping a, window p' v' mapping a (window_pages a 8)) maps addresses.
Proof.
  induction addresses as [|a rest IH]; intros p v cost room Hroom Hr Ha; cbn [map_io_apics length] in *.
  { exists [], p, v. split_and!; [done| |apply kept_refl|done]. exact Hroom. }
  apply Forall_cons in Ha as [Ha Hrest].
  destruct (open_window p v a 8 (9 * length rest + cost) (2 * Z.of_nat (length rest) * PAGE_SIZE + room)
    PhysicalMappingFlags.UNCACHED) as (mapping & p1 & v1 & E & Hroom1 & Hk1 & Hw); [|unfold PAGE_SIZE; lia|done|unfold PAGE_SIZE; lia|].
  { replace (9 + (9 * length rest + cost))%nat with (9 * S (length rest) + cost)%nat by lia.
    replace (2 * PAGE_SIZE + (2 * Z.of_nat (length rest) * PAGE_SIZE + room)) with (2 * Z.of_nat (S (length rest)) * PAGE_SIZE + room) by lia.
    exact Hroom. }
  destruct (IH p1 v1 cost room Hroom1 Hr Hrest) as (maps & p' & v' & E' & Hroom' & Hk' & Hws).
  exists (mapping :: maps), p', v'. unfold io_registers_new. rewrite E, !bind_bind_Ret. cbn [fst snd ok].
  rewrite E', bind_bind_Ret. split_and!; [done|done|by eapply kept_trans|]. constructor; [|done].
  eapply window_kept; [apply Hroom1|apply Hroom'|exact Hk'|exact Hw].
Qed.

Lemma map_devices_ok msr io_apics hpet p v :
  view_ p v → (9 * (length io_apics + 2) ≤ size (kernel_free (v_free v)))%nat →
  free_room v (2 * (Z.of_nat (length io_apics) + 2) * PAGE_SIZE + 1) →
  0 ≤ hpet < 2 ^ 51 → Forall (λ a, 0 ≤ a < 2 ^ 51) io_apics →
  ∃ lapic ios timer p' v', map_devices N page_size msr io_apics hpet p = Ret (lapic, ios, timer, p') ∧
    view_ p' v' ∧ kept B L p v p' v' ∧
    window p' v' lapic (apic_address msr) (window_pages (apic_address msr) PAGE_SIZE) ∧
    Forall2 (λ mapping a, window p' v' mapping a (window_pages a 8)) ios io_apics ∧
    window p' v' timer hpet (window_pages hpet 1024).
Proof.
  intros Hv Hmem Hroom Hh Hio. pose proof (apic_address_range msr) as Hapic.
  set (room := 2 * (Z.of_nat (length io_apics) + 2) * PAGE_SIZE + 1) in *.
  destruct (open_window p v (apic_address msr) PAGE_SIZE (9 * length io_apics + 9) (room - 2 * PAGE_SIZE)
    PhysicalMappingFlags.UNCACHED) as (lapic & p1 & v1 & E1 & Hr1 & Hk1 & Hw1); [|unfold room, PAGE_SIZE; lia|lia|done|].
  { split; [done|]. split; [lia|]. by replace (2 * PAGE_SIZE + (room - 2 * PAGE_SIZE)) with room by lia. }
  destruct (map_io_apics_ok io_apics p1 v1 9 (2 * PAGE_SIZE + 1)) as (ios & p2 & v2 & E2 & Hr2 & Hk2 & Hws); [|done|done|].
  { replace (2 * Z.of_nat (length io_apics) * PAGE_SIZE + (2 * PAGE_SIZE + 1)) with (room - 2 * PAGE_SIZE) by (unfold room; lia).
    exact Hr1. }
  destruct (open_window p2 v2 hpet 1024 0 1 PhysicalMappingFlags.UNCACHED)
    as (timer & p3 & v3 & E3 & Hr3 & Hk3 & Hw3); [exact Hr2|done|done|done|].
  exists lapic, ios, timer, p3, v3. split.
  { unfold map_devices, lapic_new. rewrite E1, !bind_bind_Ret. cbn [fst snd]. rewrite bind_bind_Ret. cbn [fst snd].
    rewrite E2, bind_bind_Ret. unfold timer_new. cbn [fst snd]. by rewrite E3. }
  split; [apply Hr3|]. split; [eapply kept_trans; [exact Hk1|eapply kept_trans; [exact Hk2|exact Hk3]]|]. split_and!; [| |done].
  - eapply window_kept; [apply Hr1|apply Hr3|eapply kept_trans; [exact Hk2|exact Hk3]|exact Hw1].
  - eapply Forall2_impl; [exact Hws|]. intros mapping a Hw. eapply window_kept; [apply Hr2|apply Hr3|exact Hk3|exact Hw].
Qed.

(** *** The registers *)

Section registers.
Context {S : Type} `{Bus S}.
Implicit Types s : S.

Lemma window_load p v mapping pa n k size s :
  window p v mapping pa n → 0 ≤ k < n * PAGE_SIZE - pa mod PAGE_SIZE →
  (va ← Region.as_ptr_offset mapping k; volatile_load (machine p) size va s) = Ret (bus_read size (pa + k) s).
Proof.
  intros Hw Hk. destruct (window_pointer _ _ _ _ _ _ Hw Hk) as (va & -> & Ht). rewrite bind_bind_Ret.
  unfold volatile_load. by rewrite Ht.
Qed.

Lemma window_store p v mapping pa n k size value s :
  window p v mapping pa n → 0 ≤ k < n * PAGE_SIZE - pa mod PAGE_SIZE →
  (va ← Region.as_ptr_offset mapping k; volatile_store (machine p) size va value s) = Ret (bus_write size (pa + k) value s).
Proof.
  intros Hw Hk. destruct (window_pointer _ _ _ _ _ _ Hw Hk) as (va & -> & Ht). rewrite bind_bind_Ret.
  unfold volatile_store. by rewrite Ht.
Qed.


End registers.

End windows.

(** ** Witness: a machine with 255 free frames, and the chips of a PC *)

(** Registers that hold what was written last. *)
#[global] Instance Flat_bus : Bus (Z → Z) := {
  bus_read _ pa s := (s pa, s);
  bus_write _ pa value s := λ a, if a =? pa then value else s a }.

