(* ===== verification/PagingInit.v ===== *)
(** * Paging, brought up (paging/mod.rs [init])

    The parts of [init] were verified one by one: the kernel's page tables
    (BootPaging), the region manager over the page tables and the frame database
    (PagingState), and the thread-local block (BootPaging again, against the
    interface of the regions). Here they run one after the other, as [init] runs
    them, on the real machine, and on the frames the database starts with. *)
From S2P Require Import Prelude Align Physmem PageEntry PageTable Regions RegionMapping RegionRanges PagingState SimpleAlloc BootPaging.

(** ** The window the regions come from *)

(** It has the last PML4 entry. *)
Lemma heap_page_index va : KERNEL_HEAP_BASE ≤ va < KERNEL_HEAP_LIMIT → p4_index va = 511.
Proof.
  unfold KERNEL_HEAP_BASE, KERNEL_HEAP_LIMIT. intros Hva. destruct (index_values va) as (_ & _ & _ & ->); [lia|]. mlia.
Qed.

Lemma kernel_page_not_heap l q va :
  linked l → q ∈ kernel_pages l → KERNEL_HEAP_BASE ≤ va < KERNEL_HEAP_LIMIT → ¬ same_page q.1 va.
Proof.
  intros Hl Hq Hva (E & _). rewrite (heap_page_index va Hva) in E.
  apply elem_of_kernel_pages in Hq as [Hq|Hq].
  - by rewrite (proj2 (image_page l q Hl Hq)) in E.
  - by rewrite (proj2 (stack_page q Hq)) in E.
Qed.

(** ** The frames [build_tables] takes *)

Lemma takes_expect r m : expect_ok r = Ret m → r.2 = m.
Proof. unfold expect_ok. destruct r as [[?|?] ?]; [by intros [= <-]|done]. Qed.

Lemma takes_copy_page p4 p4' va flags m : only_takes snd m (copy_page p4 p4' va flags m).
Proof.
  unfold copy_page. apply (only_takes_bind snd); [apply takes_create_pte|]. intros r. apply only_takes_try. intros a.
  do 3 (apply only_takes_pure; intros ?). destruct (Raw.present _); [|done].
  apply only_takes_pure. intros ?. by apply only_takes_ret, takes_same.
Qed.

Lemma takes_copy_loop fuel p4 p4' flags e : ∀ va m, only_takes snd m (copy_loop fuel p4 p4' va e flags m).
Proof.
  induction fuel as [|fuel IH]; intros va m; cbn [copy_loop]; destruct (va <? e); try done; try by apply only_takes_ret.
  apply (only_takes_bind snd); [apply takes_copy_page|]. intros r. apply only_takes_try. intros _.
  apply only_takes_pure. intros ?. apply IH.
Qed.

Lemma takes_identity_loop fuel p3 e : ∀ va i t m, only_takes snd m (identity_loop fuel p3 va e i t m).
Proof.
  induction fuel as [|fuel IH]; intros va i t m; cbn [identity_loop]; destruct (va <? e); try done; try by apply only_takes_ret.
  apply (only_takes_bind snd).
  - destruct (negb _); [apply takes_create_next|by apply only_takes_ret].
  - intros r. apply only_takes_try. intros t'. do 2 (apply only_takes_pure; intros ?). cbn zeta.
    apply only_takes_pure. intros ? ? ?%IH. etransitivity; [|done]. by apply takes_same.
Qed.

Lemma takes_identity h p4 m : only_takes snd m (prepare_identity_mapping h p4 m).
Proof.
  unfold prepare_identity_mapping. apply only_takes_pure. intros [|]; [done|]. do 2 (apply only_takes_pure; intros ?).
  apply (only_takes_bind snd); [apply takes_create_next|]. intros r. apply only_takes_try. intros p3. cbn zeta.
  apply only_takes_pure. intros ?. apply (only_takes_bind snd); [apply takes_create_next|]. intros r'.
  apply only_takes_try. intros p2. apply takes_identity_loop.
Qed.

Lemma takes_sections p4 p4' l : ∀ m, only_takes id m (for_each (copy_section p4 p4') l m).
Proof.
  induction l as [|s l IH]; intros m; [by apply only_takes_ret|]. cbn [for_each].
  apply (only_takes_bind id); [|intros; apply IH]. unfold copy_section.
  apply (only_takes_bind snd); [apply takes_copy_loop|]. intros r m' <-%takes_expect. done.
Qed.

Lemma build_tables_takes h l m p4 m' : build_tables h l m = Ret (p4, m') → takes_frames m m'.
Proof.
  unfold build_tables. cbn zeta. intros E. do 4 apply bind_Ret_inv in E as (? & _ & E).
  apply bind_Ret_inv in E as (r & [T1 _]%takes_kernel & E). do 2 apply bind_Ret_inv in E as (? & _ & E).
  apply bind_Ret_inv in E as (r2 & [T2 _]%takes_identity & E). apply bind_Ret_inv in E as (m3 & <-%takes_expect & E).
  apply bind_Ret_inv in E as (m4 & [T3 _]%takes_sections & E). apply bind_Ret_inv in E as (? & _ & [= _ <-]).
  transitivity r.2; [done|]. transitivity r2.2; [done|]. transitivity m4; [done|]. by apply takes_same.
Qed.

(** ** The machine after [build_tables], as the region manager finds it *)

Section booted.
Context (l : Linker) (m : Machine) (F H : gset Z) (src : Z → Z) (p4 : Z).
Context (m' : Machine) (G' : gmap Z (list Z)) (F' H' : gset Z).
Context (Hl : linked l) (Hb : booted l m F H src p4 m' G' F' H').

Lemma booted_root : Frame.containing_address (cr3 m') = p4.
Proof.
  destruct Hb as [Hroot Hok _ _ _ _ _ _ _ _]. pose proof (tab_range _ _ _ _ _ Hok _ _ (tab_root _ _ _ _ _ Hok)) as Hp.
  unfold table_frame in Hp. rewrite Hroot, containing_address_shiftr by (unfold is_usize, PAGE_SIZE; lia).
  rewrite Z.shiftr_div_pow2 by done. by apply Z.div_mul.
Qed.

Lemma booted_heap va :
  KERNEL_HEAP_BASE ≤ va < KERNEL_HEAP_LIMIT → plain m' p4 va ∧ translate m' p4 va = Raw.unused.
Proof.
  intros Hva. assert (p4_index va ≠ IDENTITY_MAP_PML4) as Hi by (by rewrite heap_page_index).
  split; [by apply (bt_plain _ _ _ _ _ _ _ _ _ _ Hb)|].
  apply (bt_rest _ _ _ _ _ _ _ _ _ _ Hb); [done|]. intros q Hq. by apply (kernel_page_not_heap l).
Qed.

Lemma booted_paging N page_size :
  (2 ≤ N)%nat → 0 ≤ page_size ≤ PAGE_SIZE → page_lock m = false → (∀ f, f ∈ F ∪ H → f < 2 ^ 40) →
  paging_ok N KERNEL_HEAP_BASE KERNEL_HEAP_LIMIT
    (mkPaging (Some (RegionManager.new N KERNEL_HEAP_BASE KERNEL_HEAP_LIMIT)) m')
    (RegionManager.new N KERNEL_HEAP_BASE KERNEL_HEAP_LIMIT) [heap_entry] G' F' H'.
Proof.
  intros HN Hps Hlk H40. apply (fresh_paging_ok N page_size); try done; rewrite ?booted_root.
  - apply Hb.
  - by rewrite (bt_lock _ _ _ _ _ _ _ _ _ _ Hb).
  - intros f. rewrite (bt_total _ _ _ _ _ _ _ _ _ _ Hb). apply H40.
  - exact booted_heap.
Qed.

End booted.

(** ** The theorem *)

(** What [init] leaves: the thread-local block is the first region of the window,
    and everything [build_tables] set up is still there. *)
Record brought_up (N : nat) (l : Linker) (m : Machine) (F H : gset Z) (src : Z → Z) (b : bytes)
    (tcb : Z) (p' : Paging) (b' : bytes) (c' : chain) (G' : gmap Z (list Z)) (F' H' : gset Z) : Prop := {
  bu_tcb : tcb = KERNEL_HEAP_BASE + tcb_size l - 8;
  bu_block : tcb_block l KERNEL_HEAP_BASE b b';
  bu_paging : paging_ok N KERNEL_HEAP_BASE KERNEL_HEAP_LIMIT p' c'
    (RegionManager.alloc_flat [] heap_entry [] (tcb_size l) Heap) G' F' H';
  bu_clean : clean (machine p') F';
  bu_total : F' ∪ H' = F ∪ H;
  bu_memory : (size (kernel_free F) ≤
    7 + 3 * length (kernel_pages l) + 4 * Z.to_nat (tcb_size l / PAGE_SIZE) + size (kernel_free F'))%nat;
  bu_pages : ∀ j, 0 ≤ j < tcb_size l / PAGE_SIZE →
    kernel_page (machine p') (Frame.containing_address (cr3 (machine p'))) (KERNEL_HEAP_BASE + j * PAGE_SIZE);
  bu_identity : identity_mapped (machine p') (Frame.containing_address (cr3 (machine p')));
  bu_window : ∀ pa, 0 ≤ pa < IDENTITY_MAP_SIZE →
    hw_translate (machine p') (Frame.containing_address (cr3 (machine p'))) (IDENTITY_MAP_REGION + pa) = Some pa;
  bu_plain : ∀ va, p4_index va ≠ IDENTITY_MAP_PML4 →
    plain (machine p') (Frame.containing_address (cr3 (machine p'))) va;
  bu_image : ∀ va flags, (va, flags) ∈ kernel_pages l →
    page_mapped (machine p') (Frame.containing_address (cr3 (machine p'))) va (src va) flags;
  bu_rest : ∀ va, p4_index va ≠ IDENTITY_MAP_PML4 → (∀ q, q ∈ kernel_pages l → ¬ same_page q.1 va) →
    (∀ j, 0 ≤ j < tcb_size l / PAGE_SIZE → ¬ same_page (KERNEL_HEAP_BASE + j * PAGE_SIZE) va) →
    translate (machine p') (Frame.containing_address (cr3 (machine p'))) va = Raw.unused;
  bu_shape : same_shape (frames m) (frames (machine p'));
  bu_ram : ∀ f i, f ∉ F ∪ H → ram (machine p') f i = ram m f i;
}.

Section init.
Context (N : nat) (page_size : Z) (l : Linker) (p : Paging) (F H : gset Z) (src : Z → Z) (b : bytes).
Context (HN : (2 ≤ N)%nat) (Hps : 0 ≤ page_size ≤ PAGE_SIZE).
Context (Hl : linked l) (Ht : tcb_linked l) (Htl : tcb_size l ≤ KERNEL_HEAP_LIMIT - KERNEL_HEAP_BASE).
Abbreviation m := (machine p).
Abbreviation pages := (tcb_size l / PAGE_SIZE).

(** The block fits in front of the window. *)
Lemma tcb_pages : 0 < pages ∧ pages * PAGE_SIZE = tcb_size l ∧ pages * PAGE_SIZE < usize_limit ∧
  RegionManager.fits (pages * PAGE_SIZE) heap_entry = true.
Proof.
  destruct (tcb_size_ok l Ht) as (_ & Hmul & Hpos). rewrite Hmul. split_and!; [done|done| |].
  - unfold KERNEL_HEAP_LIMIT, KERNEL_HEAP_BASE in Htl. lia.
  - unfold RegionManager.fits. rewrite bool_decide_true by done. by apply Z.leb_le.
Qed.

(** The address of the block is above the image it is copied from. *)
Lemma tcb_above : tbss_end l ≤ KERNEL_HEAP_BASE ∧ KERNEL_HEAP_BASE + tcb_size l < usize_limit.
Proof.
  pose proof (lk_sections _ Hl) as (_ & _ & _ & _ & _ & _ & _ & _ & _ & _ & _ & _ & _ & _ & _ & H1 & H2 & _).
  pose proof (lk_bss _ Hl). pose proof (lk_end _ Hl). cbn [fst snd] in *.
  unfold IDENTITY_MAP_REGION, KERNEL_HEAP_BASE, KERNEL_HEAP_LIMIT, PAGE_SIZE in *. lia.
Qed.

(** From the new tables to the end. *)
Lemma finish_init p4 m' G' F' H' :
  booted l m F H src p4 m' G' F' H' → same_shape (frames m) (frames m') → page_lock m = false →
  (∀ f, f ∈ F ∪ H → f < 2 ^ 40) →
  (7 + 3 * length (kernel_pages l) + 4 * Z.to_nat pages ≤ size (kernel_free F))%nat →
  ∃ tcb p' b' c' G2 F2 H2,
    init_ap (H := Paging_heap_regions N page_size) l
      (mkPaging (Some (RegionManager.new N KERNEL_HEAP_BASE KERNEL_HEAP_LIMIT)) m') b = Ret (tcb, p', b') ∧
    brought_up N l m F H src b tcb p' b' c' G2 F2 H2.
Proof.
  intros Hb Hsh Hlk H40 Hmem. destruct tcb_pages as (Hpos & Hmul & Hlt & Hfit). destruct tcb_above as [Habove Hend].
  pose proof (booted_root _ _ _ _ _ _ _ _ _ _ Hb) as Hroot. pose proof (bt_free _ _ _ _ _ _ _ _ _ _ Hb) as Hfree.
  pose proof (booted_paging _ _ _ _ _ _ _ _ _ _ Hl Hb N page_size HN Hps Hlk H40) as Hpk.
  destruct (allocate_typed_ok N page_size _ _ HN Hps heap_window _ _ _ _ _ _ pages Heap Hpk
    (bt_clean _ _ _ _ _ _ _ _ _ _ Hb) Hpos Hlt I ltac:(lia))
    as [[Hno _]|(l1 & e & l2 & region & p' & c' & G2 & F2 & H2 & El & _ & _ & Ha & R)].
  { apply Forall_cons in Hno as [Hno _]. congruence. }
  destruct (heap_fit _ _ _ El) as (-> & -> & ->).
  destruct R as [Rst _ _ Rok Rcl Rtot Rmem Rcr Rpl Rcont Roth Rdirs _ Rshape Rram]. cbn [machine] in *. rewrite Hroot in *.
  destruct (initialize_tcb_granted (H := Paging_heap_regions N page_size) l _ p' b region KERNEL_HEAP_BASE Ht Ha Rst Habove Hend)
    as (b' & Hi & Hblk).
  exists (KERNEL_HEAP_BASE + tcb_size l - 8), p', b', c', G2, F2, H2. split.
  { unfold init_ap. rewrite Hi. done. }
  assert (identity_mapped (machine p') p4) as Hid.
  { intros a Ha'. destruct (bt_window _ _ _ _ _ _ _ _ _ _ Hb a Ha') as (d & Hd & E). exists d. split; [|done].
    eapply huge_mapped_keep; [apply Hb|exact Rdirs|done]. }
  rewrite Hmul in Rok. split; rewrite ?Rcr, ?Hroot; try done.
  - rewrite Rtot. apply Hb.
  - lia.
  - intros pa Hpa. by apply identity_mapped_hw.
  - intros va Hva. by apply Rpl, (bt_plain _ _ _ _ _ _ _ _ _ _ Hb).
  - intros va fl Hin. destruct (bt_image _ _ _ _ _ _ _ _ _ _ Hb va fl Hin) as (pte & Hp). exists pte.
    rewrite Roth; [done| |].
    + apply (bt_plain _ _ _ _ _ _ _ _ _ _ Hb). exact (kernel_page_index l _ Hl Hin).
    + intros j Hj Hs%same_page_sym. apply (kernel_page_not_heap l _ _ Hl Hin) in Hs; [done|].
      cbn. unfold KERNEL_HEAP_LIMIT, KERNEL_HEAP_BASE, PAGE_SIZE in *. lia.
  - intros va Hva Hk Hj. rewrite Roth; [|by apply (bt_plain _ _ _ _ _ _ _ _ _ _ Hb)|done].
    by apply (bt_rest _ _ _ _ _ _ _ _ _ _ Hb).
  - by transitivity (frames m').
  - intros f i Hf. rewrite Rram by (by rewrite (bt_total _ _ _ _ _ _ _ _ _ _ Hb)).
    by apply (bt_ram _ _ _ _ _ _ _ _ _ _ Hb).
Qed.

Lemma paging_init_ok :
  phys_owns (frames m) F H → 1048575 ∉ F → clean m F → (∀ f, f ∈ F ∪ H → f < 2 ^ 40) → page_lock m = false →
  (7 + 3 * length (kernel_pages l) + 4 * Z.to_nat pages ≤ size (kernel_free F))%nat →
  is_usize (cr3 m) → table_frame (cr3 m / PAGE_SIZE) →
  (∀ va flags, (va, flags) ∈ kernel_pages l → boot_maps m (F ∪ H) (cr3 m / PAGE_SIZE) va (src va)) →
  ∃ tcb p' b' c' G' F' H', paging_init N page_size (Some false) l p b = Ret (tcb, p', b') ∧
    brought_up N l m F H src b tcb p' b' c' G' F' H'.
Proof.
  intros Hown Hlast Hcl H40 Hlk Hmem Hcr3 Hboot Hmaps.
  destruct (build_tables_ok l m F H src) as (p4 & m' & G' & F' & H' & Hrun & Hb); [done..|lia|done|done|done|].
  unfold paging_init. rewrite Hrun, bind_bind_Ret. apply (finish_init p4 m' G' F' H'); try done.
  by eapply build_tables_takes.
Qed.

End init.

(** ** After [physmem::early_init] *)

Section low.
Context `{BootMemoryMap}.

(** The frames of the low region can all be reached. *)
Lemma low_frames memory_map f : f ∈ zone_usable Low memory_map → 16 ≤ f < 4096.
Proof.
  intros Hf%elem_of_list_to_set%elem_of_window. destruct zone_extents as (El & _). rewrite El in Hf. cbn in Hf. lia.
Qed.

Lemma paging_up_ok N page_size memory_map l p src b :
  let F := zone_usable Low memory_map in
  let boot_p4 := cr3 (machine p) / PAGE_SIZE in
  (2 ≤ N)%nat → 0 ≤ page_size ≤ PAGE_SIZE → linked l → tcb_linked l → tcb_size l ≤ KERNEL_HEAP_LIMIT - KERNEL_HEAP_BASE →
  map_ok memory_map → frames (machine p) = mkPhysMem None None None → page_lock (machine p) = false →
  clean (machine p) F →
  (7 + 3 * length (kernel_pages l) + 4 * Z.to_nat (tcb_size l / PAGE_SIZE) ≤ size (kernel_free F))%nat →
  is_usize (cr3 (machine p)) → table_frame boot_p4 →
  (∀ va flags, (va, flags) ∈ kernel_pages l → boot_maps (machine p) F boot_p4 va (src va)) →
  ∃ fr tcb p' b' c' G' F' H',
    Physmem.early_init (frames (machine p)) memory_map = Ret fr ∧
    paging_init N page_size (Some false) l (mkPaging (manager p) (set_frames (machine p) fr)) b = Ret (tcb, p', b') ∧
    brought_up N l (set_frames (machine p) fr) F ∅ src b tcb p' b' c' G' F' H' ∧
    covered (frames (machine p')) memory_map Low ∧
    NORMAL_REGION (frames (machine p')) = None ∧ HIGH_REGION (frames (machine p')) = None.
Proof.
  intros F boot_p4 HN Hps Hl Ht Htl Hmap Hfr Hlk Hcl Hmem Hcr Hp4 Hboot. rewrite Hfr.
  destruct (early_init_ok memory_map Hmap) as (fr & Hrun & Hown & Hcov & Hn & Hh).
  destruct (paging_init_ok N page_size l (mkPaging (manager p) (set_frames (machine p) fr)) F ∅ src b)
    as (tcb & p' & b' & c' & G' & F' & H' & Hi & Hup); cbn [machine frames cr3 page_lock set_frames]; try done.
  - intros ?%low_frames. lia.
  - intros f. rewrite union_empty_r_L. intros ?%low_frames. lia.
  - rewrite union_empty_r_L. exact Hboot.
  - pose proof (bu_shape _ _ _ _ _ _ _ _ _ _ _ _ _ _ Hup) as Hs. cbn in Hs.
    exists fr, tcb, p', b', c', G', F', H'. split; [exact Hrun|]. split; [exact Hi|]. split; [exact Hup|].
    split_and!; [|by apply (mem_shape_none _ Normal); rewrite Hs|by apply (mem_shape_none _ High); rewrite Hs].
    unfold covered. rewrite Hs. exact Hcov.
Qed.

End low.
