(* ===== verification/BringUp.v ===== *)
(** * Memory, all of it (init.rs [kstart], up to the first kernel stack)

    The heap, paging and the frame database are brought up in turns: the heap lives
    in its static buffer until paging is there, paging needs the frames below
    16 MiB, and the masks of the other frames come from the heap, which may have to
    ask paging for the room. Here they run one after the other on the real machine,
    and then the first two kernel stacks are allocated. *)
From S2P Require Import Prelude Align AllocFreeList Physmem PageEntry PageTable Regions RegionMapping RegionRanges PagingState SimpleAlloc Tasks Scheduler PagingCalls BootPaging PagingGrowth HeapPaging PagingInit.

Import FreeList.

(** The statics the calls of [kstart] change: [ALLOCATOR_IMPL], and paging with the
    machine and the frame database. *)
Record Memory := mkMemory { allocator : option (list HeapRegion); mem_paging : Paging }.

Definition db (m : Memory) : PhysMem := frames (machine (mem_paging m)).
Definition with_frames (p : Paging) (fr : PhysMem) : Paging := mkPaging (manager p) (set_frames (machine p) fr).
Definition set_db (m : Memory) (fr : PhysMem) : Memory := mkMemory (allocator m) (with_frames (mem_paging m) fr).

(** [alloc_error_handler]. *)
Definition alloc_error_handler {A} (l : Layout) : outcome A := Panic ExplicitPanic.

Section kstart.
Context `{BootMemoryMap}.
(** Sizes the compiler chooses, and where it puts the static buffer of the heap. *)
Context (size_of_HeapRegion free_list_offset size_of_MemoryRegion align_of_MemoryRegion INITIAL_HEAP_REGION : Z).
(** The entries of a page of the region table, and its size. *)
Context (N : nat) (page_size : Z).
Abbreviation hsize := size_of_HeapRegion.

(** The buffer of a [Vec] or a boxed slice. *)
Definition alloc_buffer (size align : Z) (m : Memory) : outcome Memory :=
  if size =? 0 then Ret m
  else
    let l := mkLayout size align in
    r ← global_alloc (H := Paging_heap_regions N page_size) hsize free_list_offset (allocator m) l (mem_paging m);
    if r.1.1 =? 0 then alloc_error_handler l else Ret (mkMemory r.1.2 r.2).

(** [paging::allocate_kernel_stack(DEFAULT_KERNEL_STACK_PAGES).expect(..)]. *)
Definition expect_stack (m : Memory) : outcome (KernelStack * Memory) :=
  r ← RegionMapping.allocate_kernel_stack N page_size (mem_paging m) DEFAULT_KERNEL_STACK_PAGES;
  match r.1 with
  | Ok ks => Ret (ks, mkMemory (allocator m) r.2)
  | Err _ => Panic UnwrapNone
  end.

Definition memory_map_size (memory_map : list MemoryRegion) : Z := Z.of_nat (length memory_map) * size_of_MemoryRegion.

(** The thread-local offset, the two stacks, and the state. *)
Definition kstart_memory (has_1gib_pages : option bool) (memory_map : list MemoryRegion)
    (l : Linker) (p : Paging) (b : bytes) : outcome (Z * KernelStack * KernelStack * Memory * bytes) :=
  fr ← Physmem.early_init (frames (machine p)) memory_map;
  a ← global_init hsize free_list_offset None false INITIAL_HEAP_REGION;
  m ← alloc_buffer (memory_map_size memory_map) align_of_MemoryRegion (mkMemory a (with_frames p fr));
  r ← paging_init N page_size has_1gib_pages l (mem_paging m) b;
  m ← Physmem.init_post_paging db set_db (λ n, alloc_buffer n 1) (mkMemory (allocator m) r.1.2) memory_map;
  s1 ← expect_stack m;
  s2 ← expect_stack s1.2;
  Ret (r.1.1, s1.1, s2.1, s2.2, r.2).

End kstart.

(** * Proofs *)

Abbreviation B := KERNEL_HEAP_BASE.
Abbreviation L := KERNEL_HEAP_LIMIT.
Abbreviation root p := (Frame.containing_address (cr3 (machine p))).

Section proofs.
Context `{BootMemoryMap}.
Context (size_of_HeapRegion free_list_offset size_of_MemoryRegion align_of_MemoryRegion INITIAL_HEAP_REGION : Z).
Context (N : nat) (page_size : Z) (HN : (2 ≤ N)%nat) (Hps : 0 ≤ page_size ≤ PAGE_SIZE).
Abbreviation hsize := size_of_HeapRegion.
Abbreviation laws := (Paging_heap_laws N page_size HN Hps).
Abbreviation heap_ok_ := (@heap_ok Paging (Paging_heap_regions N page_size) laws hsize).
Abbreviation inv_ := (paging_inv N).
Abbreviation view_ := (view_ok N B L).
Abbreviation expanded_ := (expanded N B L).

(** ** Steps of paging, under the invariant the heap has of it *)

Lemma inv_ready p v n :
  view_ p v → n * PAGE_SIZE < usize_limit → (4 * Z.to_nat n + 1 ≤ size (kernel_free (v_free v)))%nat → paging_ready p n.
Proof. intros [Hpk Hcl] Hov Hmem. split; [done|]. exists (v_free v), (v_held v). by split_and!; [apply Hpk|..]. Qed.

Lemma inv_allocate p X n t region p' :
  inv_ p X → paging_ready p n → 0 < n → mappable t n → allocate_typed N page_size p n t = Ret (Ok region, p') → inv_ p' X.
Proof.
  intros (c & l & G & F & H0 & Hpk & HX) (Hov & F0 & H1 & Hown & Hcl & Hmem) Hn Ht Ha.
  rewrite (phys_owns_free _ _ _ _ _ Hown (tab_phys _ _ _ _ _ (pk_tables _ _ _ _ _ _ _ _ _ Hpk))) in Hcl, Hmem.
  set (v := mkPView c l G F H0). assert (view_ p v) as Hv by done.
  destruct (allocate_expanded N B L heap_window page_size HN Hps p v n t Hv Hn Hov Ht Hmem)
    as [[E _]|(b & r & p2 & v2 & E & Hg & _)]; [congruence|]. rewrite Ha in E. injection E as <- <-.
  exists (v_chain v2), (v_entries v2), (v_tables v2), (v_free v2), (v_held v2). split; [apply Hg|].
  by eapply (ranges_expanded N p v).
Qed.

(** The frames of a zone are added. *)
Definition add_frames (v : PView) (U : gset Z) : PView :=
  mkPView (v_chain v) (v_entries v) (v_tables v) (v_free v ∪ U) (v_held v).

Definition zone_reachable (memory_map : list MemoryRegion) (z : zone) : Prop :=
  ∀ f, f ∈ zone_usable z memory_map → f < 2 ^ 40 ∧ f ≠ 1048575.

Lemma ok_gains memory_map z p c l G F H0 fr :
  paging_ok N B L p c l G F H0 → gains memory_map z (frames (machine p)) fr → zone_reachable memory_map z →
  paging_ok N B L (with_frames p fr) c l G (F ∪ zone_usable z memory_map) H0.
Proof.
  intros Hpk Hg Hr. pose proof (pk_tables _ _ _ _ _ _ _ _ _ Hpk) as Hok.
  eapply paging_frames_ok; [exact Hpk|apply Hg, Hok| |].
  - intros [?|Hf]%elem_of_union; [by apply (tab_last _ _ _ _ _ Hok)|]. by destruct (Hr 1048575 Hf).
  - intros f [Hf|Hf]%elem_of_union; [|by apply Hr]. apply (pk_reach _ _ _ _ _ _ _ _ _ Hpk). by apply elem_of_union_l.
Qed.

Lemma view_gains memory_map z p v fr :
  view_ p v → gains memory_map z (frames (machine p)) fr → zone_reachable memory_map z →
  clean (machine p) (zone_usable z memory_map) →
  view_ (with_frames p fr) (add_frames v (zone_usable z memory_map)).
Proof.
  intros [Hpk Hcl] Hg Hr Hz. split; [by apply ok_gains|]. intros f i [Hf|Hf]%elem_of_union; [by apply Hcl|by apply Hz].
Qed.

Lemma heap_gains memory_map z rs gs p fr :
  heap_ok_ rs gs p → gains memory_map z (frames (machine p)) fr → zone_reachable memory_map z →
  heap_ok_ rs gs (with_frames p fr).
Proof.
  intros [HF Hap (c & l & G & F & H0 & Hpk & HX)] Hg Hr. split; [done|done|].
  eexists c, l, G, _, H0. split; [by apply ok_gains|]. exact HX.
Qed.

(** ** Buffers from the heap *)

(** The pages of the region a buffer may need. *)
Definition buffer_pages (size : Z) : Z :=
  if size =? 0 then 0
  else match (al ← align_layout (mkLayout size 1); l ← unwrap al; expansion_pages hsize l) with Ret k => k | _ => 0 end.

Lemma buffer_pages_ok n :
  header_ok hsize → 0 < n ≤ 2 ^ 50 →
  ∃ l, align_layout (mkLayout n 1) = Ret (Some l) ∧ expansion_pages hsize l = Ret (buffer_pages n) ∧
    0 < buffer_pages n ∧ n ≤ buffer_pages n * PAGE_SIZE.
Proof.
  intros Hhd Hn. destruct (align_layout_ok (mkLayout n 1)) as (l & El & Hl & Hsz & Hal);
    [cbn; lia|cbn; unfold min_alignment; lia|done|cbn; unfold min_alignment; lia|]. cbn in Hsz, Hal.
  pose proof (round_up_bounds (Z.max n min_alloc_size) min_alignment ltac:(done)) as Hb. unfold min_alloc_size, min_alignment in *.
  destruct (expansion_pages_ok hsize l Hhd Hl) as (k & Ek & Hk & _ & Hf); [lia|].
  assert (buffer_pages n = k) as ->.
  { unfold buffer_pages. rewrite (proj2 (Z.eqb_neq _ _)), El by lia. cbn [mbind outcome_bind unwrap]. by rewrite Ek. }
  exists l. split_and!; [done|done|done|]. specialize (Hf 0 ltac:(done)). apply orb_true_iff in Hf.
  assert (0 + hsize ≤ fit_start (mkHole (0 + hsize) (k * PAGE_SIZE - hsize)) l).
  { unfold fit_start. cbn [h_addr]. pose proof (round_up_bounds (0 + hsize + min_alloc_size) (al_align l) ltac:(lia)).
    unfold min_alloc_size in *. case_bool; lia. }
  unfold hole_end in Hf. cbn [h_addr h_size] in Hf. destruct Hhd as [? _]. unfold min_alloc_size in *.
  destruct Hf as [Hf%Z.eqb_eq|Hf%Z.leb_le]; lia.
Qed.

Lemma live_nonzero rs gs p q l : header_ok hsize → heap_ok_ rs gs p → live_in gs q l → q ≠ 0.
Proof.
  intros [? _] Hheap (g & Hg & Hgq). destruct (Forall2_elem_r _ _ _ (heap_regions _ _ _ _ Hheap) g Hg) as (hr & Hok).
  destruct (live_range _ _ _ _ _ Hok Hgq) as (_ & Hlo & _). destruct Hok as (_ & ? & _). lia.
Qed.

Abbreviation alloc_buffer_ := (alloc_buffer hsize free_list_offset N page_size).

Lemma alloc_buffer_expanded rs gs p v n :
  header_ok hsize → heap_ok_ rs gs p → view_ p v → Forall (λ g, g_limit g ≤ L) gs → 0 ≤ n ≤ 2 ^ 50 →
  buffer_pages n * PAGE_SIZE ≤ L - B → (4 * Z.to_nat (buffer_pages n) + 1 ≤ size (kernel_free (v_free v)))%nat →
  free_room v (buffer_pages n * PAGE_SIZE) →
  ∃ rs' gs' p' v', alloc_buffer_ n 1 (mkMemory (Some rs) p) = Ret (mkMemory (Some rs') p') ∧
    expanded_ p v (4 * Z.to_nat (buffer_pages n) + 1) (buffer_pages n * PAGE_SIZE) p' v' ∧
    heap_ok_ rs' gs' p' ∧ Forall (λ g, g_limit g ≤ L) gs'.
Proof.
  intros Hhd Hheap Hv Htop Hn Haddr Hmem Hroom. unfold alloc_buffer. destruct (Z.eqb_spec n 0) as [->|Hne].
  { exists rs, gs, p, v. split_and!; [done| |done|done]. eapply expanded_weaken; [| |by apply expanded_refl]; [lia|done]. }
  destruct (buffer_pages_ok n Hhd ltac:(lia)) as (l & El & Ek & Hk & Hle).
  unfold KERNEL_HEAP_BASE, KERNEL_HEAP_LIMIT in Haddr.
  destruct (heap_alloc_expanded N page_size HN Hps hsize free_list_offset rs gs p v (mkLayout n 1) l (buffer_pages n))
    as (q & rs' & gs' & p' & v' & E & Hg & Hheap' & Htop' & _ & _ & Hadd);
    [done|done|done|cbn; lia|done|done|cbn; unfold KERNEL_HEAP_LIMIT; lia|done|done|done|lia|done|done|].
  exists rs', gs', p', v'. split_and!; [|done..].
  assert (q ≠ 0) as Hq by (eapply live_nonzero; [done|done|by apply (proj2 (Hadd q l)); left]).
  cbn [allocator mem_paging]. unfold global_alloc. cbn [InitMutex.lock unwrap]. rewrite bind_bind_Ret, E, !bind_bind_Ret.
  cbn [fst snd default]. by rewrite (proj2 (Z.eqb_neq _ _)).
Qed.

(** ** Stacks *)

Abbreviation stack_pages := DEFAULT_KERNEL_STACK_PAGES.

(** A stack in the region table, with its top and what the processor sees. *)
Record stack_ok (p : Paging) (v : PView) (ks : KernelStack) (top : Z) : Prop := {
  so_top : stack_top ks = Ret top;
  so_entry : mkEntry (top - stack_pages * PAGE_SIZE) top (Some KernelStackRegion) ∈ v_entries v;
  so_view : stack_view (machine p) (root p) top stack_pages }.

Lemma stack_kept p v p' v' ks top :
  view_ p v → view_ p' v' → kept B L p v p' v' → stack_ok p v ks top → stack_ok p' v' ks top.
Proof.
  intros Hv Hv' Hg [Ht He [S1 S2 S3]].
  assert (∀ va, top - stack_pages * PAGE_SIZE ≤ va < top →
    hw_translate (machine p') (root p') va = hw_translate (machine p) (root p) va) as E.
  { intros va Hva. by eapply (kept_hw N B L p v p' v'). }
  split; [done|by apply (kp_used _ _ _ _ _ _ Hg _ He)|]. split.
  - intros va Hva. rewrite E by (unfold stack_pages, PAGE_SIZE in *; lia). by apply S1.
  - intros va Hva. rewrite E by (unfold stack_pages, PAGE_SIZE in *; lia). by apply S2.
  - intros va va' pa Hva Hva'. rewrite !E by done. by apply S3.
Qed.

Lemma expect_stack_expanded a p v :
  view_ p v → (4 * Z.to_nat stack_pages + 1 ≤ size (kernel_free (v_free v)))%nat →
  free_room v (stack_pages * PAGE_SIZE) →
  ∃ ks top p' v', expect_stack N page_size (mkMemory a p) = Ret (ks, mkMemory a p') ∧
    expanded_ p v (4 * Z.to_nat stack_pages + 1) (stack_pages * PAGE_SIZE) p' v' ∧ stack_ok p' v' ks top ∧
    (∀ X, inv_ p X → inv_ p' X) ∧ 0 < top < usize_limit ∧
    (∀ x, x ∈ v_entries v → region_type_of x ≠ Some Free → limit x ≤ top - stack_pages * PAGE_SIZE ∨ top ≤ base x).
Proof.
  intros Hv Hmem Hroom.
  destruct (allocate_expanded N B L heap_window page_size HN Hps p v stack_pages KernelStackRegion Hv)
    as [[_ Hno]|(b & region & p' & v' & E & Hg & Hnew)]; [done..|].
  exists (mkKernelStack region), (b + stack_pages * PAGE_SIZE), p', v'. unfold expect_stack, RegionMapping.allocate_kernel_stack.
  cbn [mem_paging allocator]. rewrite E, !bind_bind_Ret. cbn [fst snd].
  destruct (nr_inside _ _ _ _ _ _ _ _ _ _ Hnew) as (Hlo & Hhi & HB & HL).
  replace (b + stack_pages * PAGE_SIZE - stack_pages * PAGE_SIZE) with b by lia. split_and!; [done|done| | |unfold stack_pages, PAGE_SIZE in *; lia..| |].
  - split; [apply Hnew| |].
    + replace (b + stack_pages * PAGE_SIZE - stack_pages * PAGE_SIZE) with b by lia. apply Hnew.
    + pose proof (pk_entries _ _ _ _ _ _ _ _ _ (proj1 (ex_ok _ _ _ _ _ _ _ _ _ Hg)) _ (nr_entry _ _ _ _ _ _ _ _ _ _ Hnew)) as Hrel.
      rewrite entry_pages_range in Hrel. eapply (stack_seen N HN); [|apply Hnew|done|exact Hrel|apply Hnew]. cbn [base]. lia.
  - intros X HX. eapply (inv_allocate p X stack_pages KernelStackRegion); [done|by eapply inv_ready|done|done|exact E].
  - unfold KERNEL_HEAP_LIMIT in Hhi. lia.
  - apply Hnew.
Qed.

(** ** The masks of the other zones *)

Lemma zones_disjoint memory_map z z' f :
  z ≠ z' → f ∈ zone_usable z memory_map → f ∉ zone_usable z' memory_map.
Proof.
  intros Hne [Hf _]%elem_of_list_to_set%elem_of_window [Hf' _]%elem_of_list_to_set%elem_of_window.
  apply Hne. by eapply zone_unique.
Qed.

Lemma zone_mask_bound memory_map z : map_ok memory_map → 0 ≤ zone_mask z memory_map ≤ 2 ^ 50.
Proof.
  intros Hmap. pose proof (zone_extent_bounds z) as [Hb1 Hb2].
  pose proof (mask_bytes_nonneg _ _ memory_map Hmap Hb1 Hb2) as Hm. unfold zone_mask. mlia.
Qed.

Lemma free_room_le v r r' : r' ≤ r → free_room v r → free_room v r'.
Proof. intros Hle (e & ? & ? & ?). exists e. split_and!; [done|done|lia]. Qed.

Lemma kept_with_frames p v fr U : kept B L p v (with_frames p fr) (add_frames v U).
Proof. by split. Qed.

(** The state between two steps: the heap, paging, the frames in the database, and
    what is left of frames and addresses. *)
Record stage (rs : list HeapRegion) (p : Paging) (v : PView) (T : gset Z) (cost : nat) (len : Z) : Prop := {
  sg_heap : ∃ gs, heap_ok_ rs gs p ∧ Forall (λ g, g_limit g ≤ L) gs;
  sg_view : view_ p v;
  sg_total : v_free v ∪ v_held v = T;
  sg_memory : (cost ≤ size (kernel_free (v_free v)))%nat;
  sg_room : free_room v len }.

Definition mask_pages (z : zone) (memory_map : list MemoryRegion) : Z := buffer_pages (zone_mask z memory_map).

Lemma stage_mask memory_map z rs p v T cost len :
  header_ok hsize → map_ok memory_map → len ≤ L - B → mask_pages z memory_map * PAGE_SIZE < len →
  stage rs p v T (4 * Z.to_nat (mask_pages z memory_map) + 1 + cost) len →
  ∃ rs' p' v', alloc_buffer_ (zone_mask z memory_map) 1 (mkMemory (Some rs) p) = Ret (mkMemory (Some rs') p') ∧
    stage rs' p' v' T cost (len - mask_pages z memory_map * PAGE_SIZE) ∧ kept B L p v p' v' ∧
    same_shape (frames (machine p)) (frames (machine p')) ∧
    ∀ f i, f ∉ T → ram (machine p') f i = ram (machine p) f i.
Proof.
  intros Hhd Hmap Hlen Hlt [(gs & Hheap & Htop) Hv <- Hmem Hroom]. unfold mask_pages in *.
  destruct (alloc_buffer_expanded rs gs p v (zone_mask z memory_map)) as (rs' & gs' & p' & v' & E & Hx & Hheap' & Htop');
    [done|done|done|done|by apply zone_mask_bound|lia|lia|eapply free_room_le; [|exact Hroom]; lia|].
  exists rs', p', v'. split; [done|]. split_and!; [|apply Hx..].
  split; [eauto|apply Hx|apply Hx| |by apply Hx]. pose proof (ex_memory _ _ _ _ _ _ _ _ _ Hx). lia.
Qed.

Lemma stage_gains memory_map z rs p v T cost len fr :
  stage rs p v T cost len → gains memory_map z (frames (machine p)) fr → zone_reachable memory_map z →
  clean (machine p) (zone_usable z memory_map) →
  stage rs (with_frames p fr) (add_frames v (zone_usable z memory_map)) (T ∪ zone_usable z memory_map) cost len.
Proof.
  intros [(gs & Hheap & Htop) Hv <- Hmem Hroom] Hg Hr Hz. split.
  - exists gs. split; [by eapply heap_gains|done].
  - by eapply view_gains.
  - cbn. set_solver.
  - cbn. etransitivity; [exact Hmem|]. apply subseteq_size. unfold kernel_free. set_solver.
  - exact Hroom.
Qed.

(** [init_post_paging] of the frame database, with the heap and paging behind it. *)
Lemma stage_zones memory_map rs p v cost len :
  let used := (mask_pages Physmem.Normal memory_map + mask_pages Physmem.High memory_map) * PAGE_SIZE in
  header_ok hsize → map_ok memory_map → len ≤ L - B → used < len →
  stage rs p v (zone_usable Physmem.Low memory_map)
    (4 * Z.to_nat (mask_pages Physmem.Normal memory_map) + 1 + (4 * Z.to_nat (mask_pages Physmem.High memory_map) + 1 + cost)) len →
  0 ≤ mask_pages Physmem.Normal memory_map → 0 ≤ mask_pages Physmem.High memory_map →
  covered (frames (machine p)) memory_map Physmem.Low → NORMAL_REGION (frames (machine p)) = None →
  HIGH_REGION (frames (machine p)) = None → (∀ z, zone_reachable memory_map z) →
  clean (machine p) (zone_usable Physmem.Normal memory_map ∪ zone_usable Physmem.High memory_map) →
  ∃ rs' p' v', Physmem.init_post_paging db set_db (λ n, alloc_buffer_ n 1) (mkMemory (Some rs) p) memory_map =
      Ret (mkMemory (Some rs') p') ∧
    stage rs' p' v' (zone_usable Physmem.Low memory_map ∪ zone_usable Physmem.Normal memory_map ∪ zone_usable Physmem.High memory_map)
      cost (len - used) ∧
    kept B L p v p' v' ∧ ∀ z, covered (frames (machine p')) memory_map z.
Proof.
  intros used Hhd Hmap Hlen Hlt Hst Hk1 Hk2 Hcov Hn Hh Hr Hcl.
  destruct (stage_mask memory_map Physmem.Normal rs p v _ _ len Hhd Hmap Hlen ltac:(unfold used, PAGE_SIZE in *; lia) Hst)
    as (rs1 & p1 & v1 & E1 & Hst1 & Kp1 & Hs1 & Hram1).
  destruct (init_post_paging_steps db set_db (λ n, alloc_buffer_ n 1) (mkMemory (Some rs) p) _ memory_map Hmap E1)
    as (r1 & Hg1 & Hc1 & Hk & Hnext).
  { apply mem_shape_none. cbn [db mem_paging]. by rewrite Hs1, mem_shape_none. }
  cbn [db mem_paging] in Hg1, Hc1, Hk. set (fr1 := set_region Physmem.Normal (frames (machine p1)) (Some r1)) in *.
  pose proof (stage_gains memory_map Physmem.Normal rs1 p1 v1 _ _ _ fr1 Hst1 Hg1 (Hr Physmem.Normal)) as Hst1'.
  destruct (stage_mask memory_map Physmem.High rs1 (with_frames p1 fr1) (add_frames v1 (zone_usable Physmem.Normal memory_map))
    (zone_usable Physmem.Low memory_map ∪ zone_usable Physmem.Normal memory_map) cost
    (len - mask_pages Physmem.Normal memory_map * PAGE_SIZE) Hhd Hmap)
    as (rs2 & p2 & v2 & E2 & Hst2 & Kp2 & Hs2 & Hram2);
    [unfold PAGE_SIZE in *; lia|unfold used, PAGE_SIZE in *; lia| |].
  { apply Hst1'. intros f i Hf. rewrite Hram1 by (eapply (zones_disjoint _ Physmem.Normal); [discriminate|exact Hf]).
    apply Hcl, elem_of_union. by left. }
  destruct (Hnext _ E2) as (r2 & Hrun & Hg2 & Hc2 & Hk').
  { apply mem_shape_none. cbn [db mem_paging]. rewrite Hs2. cbn [with_frames machine frames set_frames].
    by rewrite Hk, Hs1, mem_shape_none by done. }
  cbn [db mem_paging] in Hg2, Hc2, Hk'. set (fr2 := set_region Physmem.High (frames (machine p2)) (Some r2)) in *.
  exists rs2, (with_frames p2 fr2), (add_frames v2 (zone_usable Physmem.High memory_map)). split; [exact Hrun|]. split_and!.
  - replace (len - used) with (len - mask_pages Physmem.Normal memory_map * PAGE_SIZE - mask_pages Physmem.High memory_map * PAGE_SIZE) by (unfold used; lia).
    eapply stage_gains; [exact Hst2|exact Hg2|apply Hr|]. intros f i Hf.
    rewrite Hram2 by (apply not_elem_of_union; split; eapply (zones_disjoint _ Physmem.High); [discriminate|exact Hf|discriminate|exact Hf]).
    cbn [with_frames machine ram set_frames]. rewrite Hram1 by (eapply (zones_disjoint _ Physmem.High); [discriminate|exact Hf]).
    apply Hcl, elem_of_union. by right.
  - eapply kept_trans; [exact Kp1|]. eapply kept_trans; [apply kept_with_frames|]. eapply kept_trans; [exact Kp2|apply kept_with_frames].
  - unfold covered in *. intros []; cbn [with_frames machine frames set_frames].
    + rewrite Hk', Hs2 by done. cbn [with_frames machine frames set_frames]. rewrite Hk, Hs1 by done. apply Hcov.
    + rewrite Hk', Hs2 by done. apply Hc1.
    + apply Hc2.
Qed.

(** ** The copy of the memory map *)

(** Where the static buffer of the heap may be: in the image, so below the window of
    the region manager. *)
Definition buffer_placed : Prop :=
  0 < INITIAL_HEAP_REGION ∧ INITIAL_HEAP_REGION mod PAGE_SIZE = 0 ∧ INITIAL_HEAP_REGION + INITIAL_HEAP_REGION_SIZE ≤ B.

(** The first buffer comes out of the static region, whatever the state of paging:
    the heap is well-formed in any later state in which paging is. *)
Lemma first_buffer n al p' :
  header_ok hsize → buffer_placed → inv_ p' ∅ → 0 ≤ n → is_power_of_two al = true → al ≤ min_alignment →
  hsize + n + 48 ≤ INITIAL_HEAP_REGION_SIZE →
  ∃ rs rs' gs, global_init hsize free_list_offset None false INITIAL_HEAP_REGION = Ret (Some rs) ∧
    (∀ p, alloc_buffer_ n al (mkMemory (Some rs) p) = Ret (mkMemory (Some rs') p)) ∧
    heap_ok_ rs' gs p' ∧ Forall (λ g, g_limit g ≤ L) gs.
Proof.
  intros Hhd (H0 & Hpg & Hbase) Hinv Hn Hp Hal Hsz. unfold INITIAL_HEAP_REGION_SIZE, KERNEL_HEAP_BASE in *.
  assert (INITIAL_HEAP_REGION + INITIAL_HEAP_REGION_SIZE + 16 < usize_limit) as Hlim by (unfold INITIAL_HEAP_REGION_SIZE; lia).
  destruct (new_allocator_run hsize free_list_offset INITIAL_HEAP_REGION Hhd H0 Hpg Hlim) as (fl & Hnew & _).
  set (rs := [mkHeapRegion _ _]) in Hnew.
  pose proof (@new_allocator_ok Paging _ laws hsize free_list_offset INITIAL_HEAP_REGION p' rs Hhd H0 Hpg Hlim
    ltac:(left; exact Hbase) Hinv Hnew) as Hheap.
  assert (global_init hsize free_list_offset None false INITIAL_HEAP_REGION = Ret (Some rs)) as Hgi.
  { unfold global_init. by rewrite Hnew. }
  set (g := mkGhost INITIAL_HEAP_REGION _ true ∅) in Hheap. assert (Forall (λ g, g_limit g ≤ L) [g]) as Htop.
  { constructor; [|done]. cbn. unfold INITIAL_HEAP_REGION_SIZE, KERNEL_HEAP_LIMIT. lia. }
  exists rs. unfold alloc_buffer. destruct (Z.eqb_spec n 0) as [->|Hne]; [exists rs, [g]; by split_and!|].
  assert (0 < al) as Hal0. { apply is_power_of_two_spec in Hp as (k & ? & ->). by apply Z.pow_pos_nonneg. }
  unfold min_alignment in Hal. pose proof (proj1 Hhd) as Hh0.
  destruct (align_layout_ok (mkLayout n al)) as (l & El & Hl & Hs & Ha);
    [cbn; lia|cbn; unfold min_alignment; lia|done|cbn; unfold min_alignment; lia|]. cbn in Hs, Ha.
  rewrite Z.max_r in Ha by (unfold min_alignment; lia).
  pose proof (round_up_bounds (Z.max n min_alloc_size) min_alignment ltac:(done)) as Hb. unfold min_alloc_size, min_alignment in Hb.
  destruct (@fresh_heap_serves Paging _ laws hsize free_list_offset INITIAL_HEAP_REGION p' rs l) as (q & rs' & Hdo);
    [done|done|done|done|by left|done|done|done|done|unfold min_alloc_size, min_alignment, INITIAL_HEAP_REGION_SIZE in *; lia| |].
  { unfold room. rewrite Ha, Hs. unfold INITIAL_HEAP_REGION_SIZE, min_alloc_size, min_alignment in *. lia. }
  destruct (@alloc_ok Paging _ laws hsize free_list_offset rs [g] p' (mkLayout n al) L)
    as (r & rs2 & s' & E & Hr); [done|done|cbn; lia|done|done|done|cbn; unfold KERNEL_HEAP_LIMIT; lia| |].
  { intros l0 pages El0 Hdo0. rewrite El in El0. injection El0 as <-. rewrite Hdo in Hdo0. discriminate. }
  assert (∀ p, SimpleAlloc.alloc hsize free_list_offset (H := Paging_heap_regions N page_size) rs (mkLayout n al) p =
    Ret (Some q, rs', p)) as Hall.
  { intros p. unfold SimpleAlloc.alloc. by rewrite El, bind_bind_Ret, Hdo, bind_bind_Ret. }
  rewrite Hall in E. injection E as <- <- <-. destruct Hr as (gs & l' & Hheap' & _ & _ & _ & _ & Hadd & Htop').
  exists rs', gs. split; [done|]. split; [|done]. intros p. cbn [allocator mem_paging]. unfold global_alloc.
  cbn [InitMutex.lock unwrap]. rewrite bind_bind_Ret, Hall, !bind_bind_Ret. cbn [fst snd default].
  rewrite (proj2 (Z.eqb_neq _ _)); [done|]. eapply live_nonzero; [done|done|by apply (proj2 (Hadd q l')); left].
Qed.

(** ** The two stacks *)

Definition apart (top top' : Z) : Prop :=
  top ≤ top' - stack_pages * PAGE_SIZE ∨ top' ≤ top - stack_pages * PAGE_SIZE.

Lemma stage_stack rs p v T cost len :
  stage rs p v T (4 * Z.to_nat stack_pages + 1 + cost) len → stack_pages * PAGE_SIZE < len →
  ∃ ks top p' v', expect_stack N page_size (mkMemory (Some rs) p) = Ret (ks, mkMemory (Some rs) p') ∧
    stage rs p' v' T cost (len - stack_pages * PAGE_SIZE) ∧ kept B L p v p' v' ∧
    same_shape (frames (machine p)) (frames (machine p')) ∧ stack_ok p' v' ks top ∧ 0 < top < usize_limit ∧
    (∀ x, x ∈ v_entries v → region_type_of x ≠ Some Free → limit x ≤ top - stack_pages * PAGE_SIZE ∨ top ≤ base x).
Proof.
  intros [(gs & [HF Hap Hinv] & Htop) Hv <- Hmem Hroom] Hlen.
  destruct (expect_stack_expanded (Some rs) p v Hv) as (ks & top & p' & v' & E & Hx & Hs & Hi & Ht & Hapart);
    [lia|eapply free_room_le; [|exact Hroom]; lia|].
  exists ks, top, p', v'. split; [done|]. split_and!; [|apply Hx|apply Hx|done|lia|lia|done].
  pose proof (ex_memory _ _ _ _ _ _ _ _ _ Hx). split; [|apply Hx|apply Hx|lia|by apply Hx].
  exists gs. split; [|done]. split; [done|done|by apply Hi].
Qed.

Lemma stage_stacks rs p v T cost len :
  stage rs p v T (4 * Z.to_nat stack_pages + 1 + (4 * Z.to_nat stack_pages + 1 + cost)) len →
  2 * (stack_pages * PAGE_SIZE) < len →
  ∃ ks1 ks2 top1 top2 p1 p' v',
    expect_stack N page_size (mkMemory (Some rs) p) = Ret (ks1, mkMemory (Some rs) p1) ∧
    expect_stack N page_size (mkMemory (Some rs) p1) = Ret (ks2, mkMemory (Some rs) p') ∧
    stage rs p' v' T cost (len - 2 * (stack_pages * PAGE_SIZE)) ∧ kept B L p v p' v' ∧
    same_shape (frames (machine p)) (frames (machine p')) ∧
    stack_ok p' v' ks1 top1 ∧ stack_ok p' v' ks2 top2 ∧ apart top1 top2.
Proof.
  intros Hst Hlen.
  destruct (stage_stack rs p v T _ len Hst ltac:(unfold stack_pages, PAGE_SIZE in *; lia))
    as (ks1 & top1 & p1 & v1 & E1 & Hst1 & Kp1 & Hs1 & So1 & _ & _).
  destruct (stage_stack rs p1 v1 T _ _ Hst1 ltac:(unfold stack_pages, PAGE_SIZE in *; lia))
    as (ks2 & top2 & p2 & v2 & E2 & Hst2 & Kp2 & Hs2 & So2 & _ & Hap).
  exists ks1, ks2, top1, top2, p1, p2, v2. split_and!; [done|done| |by eapply kept_trans|by etransitivity| |done|].
  - replace (len - 2 * (stack_pages * PAGE_SIZE)) with (len - stack_pages * PAGE_SIZE - stack_pages * PAGE_SIZE) by lia. done.
  - eapply stack_kept; [apply Hst1|apply Hst2|done..].
  - destruct (Hap _ (so_entry _ _ _ _ So1)) as [Ha|Ha]; [done|left; exact Ha|right; exact Ha].
Qed.

(** ** Together *)

Definition all_usable (memory_map : list MemoryRegion) : gset Z :=
  zone_usable Physmem.Low memory_map ∪ zone_usable Physmem.Normal memory_map ∪ zone_usable Physmem.High memory_map.

Lemma elem_of_all_usable memory_map f : f ∈ all_usable memory_map ↔ ∃ z, f ∈ zone_usable z memory_map.
Proof.
  unfold all_usable. rewrite !elem_of_union. split; [intros [[?|?]|?]; eauto|]. intros [[] ?]; eauto.
Qed.


(** What [kstart] has when it leaves the loader's stack: a heap over paging over the
    frames [T], the window, the image and the thread-local block mapped and nothing
    else outside the window of the regions, and two stacks. *)
Record memory_up (T : gset Z) (l : Linker) (src : Z → Z) (b : bytes)
    (tcb : Z) (ks1 ks2 : KernelStack) (rs : list HeapRegion) (p' : Paging) (b' : bytes)
    (gs : list ghost) (v : PView) (top1 top2 : Z) : Prop := {
  mu_heap : heap_ok_ rs gs p';
  mu_paging : paging_ok N B L p' (v_chain v) (v_entries v) (v_tables v) (v_free v) (v_held v);
  mu_total : v_free v ∪ v_held v = T;
  mu_tcb : tcb = B + tcb_size l - 8;
  mu_block : tcb_block l B b b';
  mu_entry : mkEntry B (B + tcb_size l) (Some Heap) ∈ v_entries v;
  mu_pages : ∀ j, 0 ≤ j < tcb_size l / PAGE_SIZE → kernel_page (machine p') (root p') (B + j * PAGE_SIZE);
  mu_window : ∀ pa, 0 ≤ pa < IDENTITY_MAP_SIZE → hw_translate (machine p') (root p') (IDENTITY_MAP_REGION + pa) = Some pa;
  mu_image : ∀ va flags, (va, flags) ∈ kernel_pages l → page_mapped (machine p') (root p') va (src va) flags;
  mu_rest : ∀ va, p4_index va ≠ IDENTITY_MAP_PML4 → (∀ q, q ∈ kernel_pages l → ¬ same_page q.1 va) →
    (∀ w, B ≤ w < L → ¬ same_page w va) → translate (machine p') (root p') va = Raw.unused;
  mu_idle : stack_ok p' v ks1 top1;
  mu_fault : stack_ok p' v ks2 top2;
  mu_apart : apart top1 top2 }.

(** What was brought up stays, whatever paging maps later. *)
Lemma brought_up_kept l m F src b tcb p b' c G F' H' p' v' :
  linked l → tcb_linked l → tcb_size l ≤ L - B →
  brought_up N l m F ∅ src b tcb p b' c G F' H' →
  kept B L p (mkPView c (RegionManager.alloc_flat [] heap_entry [] (tcb_size l) Heap) G F' H') p' v' →
  mkEntry B (B + tcb_size l) (Some Heap) ∈ v_entries v' ∧
  (∀ j, 0 ≤ j < tcb_size l / PAGE_SIZE → kernel_page (machine p') (root p') (B + j * PAGE_SIZE)) ∧
  (∀ pa, 0 ≤ pa < IDENTITY_MAP_SIZE → hw_translate (machine p') (root p') (IDENTITY_MAP_REGION + pa) = Some pa) ∧
  (∀ va flags, (va, flags) ∈ kernel_pages l → page_mapped (machine p') (root p') va (src va) flags) ∧
  (∀ va, p4_index va ≠ IDENTITY_MAP_PML4 → (∀ q, q ∈ kernel_pages l → ¬ same_page q.1 va) →
    (∀ w, B ≤ w < L → ¬ same_page w va) → translate (machine p') (root p') va = Raw.unused).
Proof.
  intros Hl Ht Htl Hup Hk. destruct (tcb_size_ok l Ht) as (_ & Hmul & Hpos).
  rewrite (kp_root _ _ _ _ _ _ Hk). set (e := mkEntry B (B + tcb_size l) (Some Heap)).
  destruct (kp_used _ _ _ _ _ _ Hk e) as [He Htr]; [by left|done|].
  split_and!; [exact He| | | |].
  - intros j Hj. destruct (bu_pages _ _ _ _ _ _ _ _ _ _ _ _ _ _ Hup j Hj) as (pte & Hp & Hfl). exists pte.
    split; [|done]. rewrite Htr; [done|]. cbn [e base limit]. unfold PAGE_SIZE in *. lia.
  - intros pa Hpa. apply identity_mapped_hw; [|done]. intros a Ha.
    destruct (bu_identity _ _ _ _ _ _ _ _ _ _ _ _ _ _ Hup a Ha) as (d & Hd & E). exists d. split; [|done].
    by apply (kp_huge _ _ _ _ _ _ Hk).
  - intros va fl Hin. destruct (bu_image _ _ _ _ _ _ _ _ _ _ _ _ _ _ Hup va fl Hin) as (pte & Hp & Hrest). exists pte.
    split; [|done]. rewrite <- Hp. apply (kp_outside _ _ _ _ _ _ Hk).
    + apply (bu_plain _ _ _ _ _ _ _ _ _ _ _ _ _ _ Hup). exact (kernel_page_index l _ Hl Hin).
    + intros w Hw Hs%same_page_sym. by apply (kernel_page_not_heap l _ _ Hl Hin Hw) in Hs.
  - intros va H4 Hk1 Hw. transitivity (translate (machine p) (root p) va).
    + apply (kp_outside _ _ _ _ _ _ Hk); [|done]. by apply (bu_plain _ _ _ _ _ _ _ _ _ _ _ _ _ _ Hup).
    + apply (bu_rest _ _ _ _ _ _ _ _ _ _ _ _ _ _ Hup); [done|done|]. intros j Hj. apply Hw.
      unfold PAGE_SIZE in *. lia.
Qed.

(** What the loader leaves, and the sizes it must not exceed. *)
Record loaded (memory_map : list MemoryRegion) (l : Linker) (p : Paging) (src : Z → Z) : Prop := {
  ld_map : map_ok memory_map;
  ld_image : linked l ∧ tcb_linked l;
  ld_start : frames (machine p) = mkPhysMem None None None ∧ page_lock (machine p) = false;
  ld_clean : clean (machine p) (all_usable memory_map);
  ld_reach : ∀ z, zone_reachable memory_map z;
  ld_root : is_usize (cr3 (machine p)) ∧ table_frame (cr3 (machine p) / PAGE_SIZE);
  ld_maps : ∀ va flags, (va, flags) ∈ kernel_pages l →
    boot_maps (machine p) (zone_usable Physmem.Low memory_map) (cr3 (machine p) / PAGE_SIZE) va (src va) }.

Record sizes_fit (memory_map : list MemoryRegion) (l : Linker) : Prop := {
  sf_copy : hsize + Z.of_nat (length memory_map) * size_of_MemoryRegion + 48 ≤ INITIAL_HEAP_REGION_SIZE;
  sf_addresses : tcb_size l + (mask_pages Physmem.Normal memory_map + mask_pages Physmem.High memory_map) * PAGE_SIZE +
    2 * (stack_pages * PAGE_SIZE) < L - B;
  sf_frames : (7 + 3 * length (kernel_pages l) + 4 * Z.to_nat (tcb_size l / PAGE_SIZE) +
    (4 * Z.to_nat (mask_pages Physmem.Normal memory_map) + 1) + (4 * Z.to_nat (mask_pages Physmem.High memory_map) + 1) +
    2 * (4 * Z.to_nat stack_pages + 1) ≤ size (kernel_free (zone_usable Physmem.Low memory_map)))%nat }.

Lemma mask_pages_nonneg memory_map z : header_ok hsize → map_ok memory_map → 0 ≤ mask_pages z memory_map.
Proof.
  intros Hhd Hmap. pose proof (zone_mask_bound memory_map z Hmap). unfold mask_pages.
  destruct (Z.eq_dec (zone_mask z memory_map) 0) as [->|Hne]; [done|].
  destruct (buffer_pages_ok (zone_mask z memory_map) Hhd ltac:(lia)) as (_ & _ & _ & ? & _). lia.
Qed.

(** After paging is up: the heap with the copy of the map in its static buffer. *)
Lemma stage_paging memory_map l p src b :
  header_ok hsize → buffer_placed → is_power_of_two align_of_MemoryRegion = true → align_of_MemoryRegion ≤ min_alignment →
  0 ≤ size_of_MemoryRegion → loaded memory_map l p src → sizes_fit memory_map l →
  ∃ fr a rs tcb p' b' c G F H0, let v := mkPView c (RegionManager.alloc_flat [] heap_entry [] (tcb_size l) Heap) G F H0 in
    Physmem.early_init (frames (machine p)) memory_map = Ret fr ∧
    global_init hsize free_list_offset None false INITIAL_HEAP_REGION = Ret a ∧
    alloc_buffer_ (memory_map_size size_of_MemoryRegion memory_map) align_of_MemoryRegion (mkMemory a (with_frames p fr)) =
      Ret (mkMemory (Some rs) (with_frames p fr)) ∧
    paging_init N page_size (Some false) l (with_frames p fr) b = Ret (tcb, p', b') ∧
    stage rs p' v (zone_usable Physmem.Low memory_map)
      (4 * Z.to_nat (mask_pages Physmem.Normal memory_map) + 1 + (4 * Z.to_nat (mask_pages Physmem.High memory_map) + 1 +
        (4 * Z.to_nat stack_pages + 1 + (4 * Z.to_nat stack_pages + 1 + 0)))) (L - B - tcb_size l) ∧
    brought_up N l (machine (with_frames p fr)) (zone_usable Physmem.Low memory_map) ∅ src b tcb p' b' c G F H0 ∧
    covered (frames (machine p')) memory_map Physmem.Low ∧
    NORMAL_REGION (frames (machine p')) = None ∧ HIGH_REGION (frames (machine p')) = None.
Proof.
  intros Hhd Hbuf Hal Hal8 Hsz [Hmap [Hl Ht] [Hfr Hlk] Hcl Hr [Hcr Hp4] Hmaps] [Hcopy Haddr Hmem].
  pose proof (mask_pages_nonneg memory_map Physmem.Normal Hhd Hmap) as Hk1.
  pose proof (mask_pages_nonneg memory_map Physmem.High Hhd Hmap) as Hk2.
  assert (tcb_size l < L - B) as Htl by (unfold PAGE_SIZE, stack_pages in *; lia).
  destruct (paging_up_ok N page_size memory_map l p src b HN Hps Hl Ht ltac:(lia) Hmap Hfr Hlk)
    as (fr & tcb & p' & b' & c & G & F & H0 & He & Hi & Hup & Hcov); [|lia|done|done|done|].
  { intros f i Hf. apply Hcl. apply elem_of_union_l, elem_of_union_l. exact Hf. }
  assert (inv_ p' ∅) as Hinv.
  { eexists c, _, G, F, H0. split; [apply Hup|]. by intros ? ? ?%elem_of_empty. }
  destruct (first_buffer (memory_map_size size_of_MemoryRegion memory_map) align_of_MemoryRegion p')
    as (rs0 & rs & gs & Hg & Hb & Hheap & Htop); [done|done|done|unfold memory_map_size; lia|done|done|unfold memory_map_size; lia|].
  exists fr, (Some rs0), rs, tcb, p', b', c, G, F, H0. cbn zeta. split_and!; [done|done|apply Hb|done| |done|apply Hcov..].
  split; [by exists gs| | | |].
  - split; [apply Hup|apply (bu_clean _ _ _ _ _ _ _ _ _ _ _ _ _ _ Hup)].
  - cbn. rewrite (bu_total _ _ _ _ _ _ _ _ _ _ _ _ _ _ Hup). apply union_empty_r_L.
  - cbn [v_free]. pose proof (bu_memory _ _ _ _ _ _ _ _ _ _ _ _ _ _ Hup). lia.
  - exists (mkEntry (B + tcb_size l) L (Some Free)). cbn [v_entries]. unfold RegionManager.alloc_flat, heap_entry.
    cbn [base limit app]. rewrite (proj2 (Z.eqb_neq _ _)) by lia. split_and!; [by right; left|done|lia].
Qed.

Lemma kstart_memory_ok memory_map l p src b :
  header_ok hsize → buffer_placed → is_power_of_two align_of_MemoryRegion = true → align_of_MemoryRegion ≤ min_alignment →
  0 ≤ size_of_MemoryRegion → loaded memory_map l p src → sizes_fit memory_map l →
  ∃ tcb ks1 ks2 rs p' b' gs v top1 top2,
    kstart_memory hsize free_list_offset size_of_MemoryRegion align_of_MemoryRegion INITIAL_HEAP_REGION N page_size
      (Some false) memory_map l p b = Ret (tcb, ks1, ks2, mkMemory (Some rs) p', b') ∧
    memory_up (all_usable memory_map) l src b tcb ks1 ks2 rs p' b' gs v top1 top2 ∧
    ∀ z, covered (frames (machine p')) memory_map z.
Proof.
  intros Hhd Hbuf Hal Hal8 Hsz Hld Hfit.
  destruct (stage_paging memory_map l p src b Hhd Hbuf Hal Hal8 Hsz Hld Hfit)
    as (fr & a & rs0 & tcb & p0 & b' & c & G & F & H0 & Ee & Eg & Eb & Ei & Hst & Hup & Hcov & Hn & Hh).
  destruct Hld as [Hmap [Hl Ht] _ Hcl Hr _ _], Hfit as [_ Haddr _].
  pose proof (mask_pages_nonneg memory_map Physmem.Normal Hhd Hmap) as Hk1.
  pose proof (mask_pages_nonneg memory_map Physmem.High Hhd Hmap) as Hk2.
  destruct (tcb_size_ok l Ht) as (_ & Hmul & Hpos).
  assert (0 < tcb_size l) as Hpos' by (unfold PAGE_SIZE in *; lia). clear Hmul Hpos.
  destruct (stage_zones memory_map rs0 p0 _ _ (L - B - tcb_size l) Hhd Hmap ltac:(lia)
    ltac:(unfold stack_pages, PAGE_SIZE in *; lia) Hst Hk1 Hk2 Hcov Hn Hh Hr) as (rs & p1 & v1 & Ez & Hst1 & Kp1 & Hcov1).
  { intros f i Hf. rewrite (bu_ram _ _ _ _ _ _ _ _ _ _ _ _ _ _ Hup).
    - apply Hcl. set_solver +Hf.
    - rewrite union_empty_r_L. apply elem_of_union in Hf as [Hf|Hf]; eapply zones_disjoint; [|exact Hf| |exact Hf]; discriminate. }
  destruct (stage_stacks rs p1 v1 _ _ _ Hst1 ltac:(unfold stack_pages, PAGE_SIZE in *; lia))
    as (ks1 & ks2 & top1 & top2 & p2 & p3 & v3 & E1 & E2 & [(gs & Hheap & _) Hv Htot _ _] & Kp2 & Hs & So1 & So2 & Hap).
  assert (tcb_size l ≤ L - B) as Htl by (unfold stack_pages, PAGE_SIZE in *; lia).
  destruct (brought_up_kept l _ _ _ _ _ _ _ _ _ _ _ p3 v3 Hl Ht Htl Hup) as (U1 & U2 & U3 & U4 & U5); [by eapply kept_trans|].
  exists tcb, ks1, ks2, rs, p3, b', gs, v3, top1, top2. split.
  - unfold kstart_memory. rewrite Ee, bind_bind_Ret, Eg, bind_bind_Ret, Eb, bind_bind_Ret. cbn [mem_paging allocator].
    rewrite Ei, bind_bind_Ret. cbn [fst snd]. rewrite Ez, bind_bind_Ret, E1, bind_bind_Ret. cbn [fst snd].
    by rewrite E2, bind_bind_Ret.
  - split; [|intros z; unfold covered; rewrite Hs; apply Hcov1].
    by split; [done|apply Hv|done|apply Hup|apply Hup|done..].
Qed.

(** More frames, not zeroed ones: what [init_reclaim] adds. *)
Lemma memory_up_frames T l src b tcb ks1 ks2 rs p b' gs v top1 top2 fr U :
  memory_up T l src b tcb ks1 ks2 rs p b' gs v top1 top2 →
  paging_ok N B L (with_frames p fr) (v_chain v) (v_entries v) (v_tables v) (v_free v ∪ U) (v_held v) →
  memory_up (T ∪ U) l src b tcb ks1 ks2 rs (with_frames p fr) b' gs (add_frames v U) top1 top2.
Proof.
  intros [[HF Hap (c & en & G & F & H0 & Hpk & HX)] Hok <- ? ? ? ? ? ? ? [? ? []] [? ? []] ?] Hpk'.
  split; [|exact Hpk'|cbn; rewrite <- !(assoc_L (∪)), (comm_L (∪) U); done|try done..|by split; [..|split]|by split; [..|split]|done].
  split; [done|done|]. exists (v_chain v), (v_entries v), (v_tables v), (v_free v ∪ U), (v_held v). split; [exact Hpk'|].
  intros a e Hae. destruct (HX a e Hae) as [Hin Hb]. split; [|exact Hb].
  by rewrite (paging_ok_entries _ _ _ _ _ _ _ _ _ _ _ _ _ _ Hpk Hok).
Qed.

End proofs.

(** ** A machine: 1984 low and 64 normal frames, 16 the loader uses, and its tables *)

Definition loaded_paging : Paging := mkPaging None (set_frames boot_machine (mkPhysMem None None None)).
Definition kernel_map : list (Z * Z * Z) := [(0x10000, 0x7d0000, 0); (0x7d0000, 0x7e0000, 1); (0x2000000, 0x2040000, 0)].
(** The boot image with a [.bss] that has room for the static buffer, at its start. *)
Definition kernel_linker : Linker :=
  let k := 0xffff800080001000 in
  mkLinker k (k + 0x26000) k (k + 0x1000) (k + 0x1000) (k + 0x2000) (k + 0x2000) (k + 0x3000)
    (k + 0x3000) (k + 0x3000) (k + 0x3000) (k + 0x4000) (k + 0x4000) (k + 0x26000).

Lemma kernel_loaded : loaded (H := example_boot) kernel_map kernel_linker loaded_paging boot_frame.
Proof.
  assert (∀ z f, f ∈ zone_usable (H := example_boot) z kernel_map → f < 5000 ∨ f < 8256 ∧ 8192 ≤ f) as Hr.
  { assert (∀ z, Forall (λ f, f < 5000 ∨ f < 8256 ∧ 8192 ≤ f) (elements (zone_usable (H := example_boot) z kernel_map))) as Hz
      by (intros []; apply (bool_decide_unpack _); vm_compute; exact I).
    intros z f Hf. specialize (Hz z). rewrite Forall_forall in Hz. by apply Hz, elem_of_elements. }
  split.
  - split; [repeat constructor; vm_compute; done|apply (bool_decide_unpack _); vm_compute; exact I].
  - split; [split; [done|by cbn; vm_compute|done|done]|by split].
  - done.
  - intros f i [z Hd%Hr]%elem_of_all_usable.
    change (boot_tables f i = 0). unfold boot_tables. destruct Hd as [Hd|[_ Hd]].
    + by rewrite (proj2 (Z.ltb_lt f 5000) Hd).
    + by rewrite (proj2 (Z.ltb_lt 5006 f)), orb_true_r by lia.
  - intros z f Hf%Hr. lia.
  - done.
  - intros va fl Hin. apply (loader_maps (zone_usable (H := example_boot) Physmem.Low kernel_map)).
    + intros f Hf%low_frames. lia.
    + assert (Forall (λ p, loader_walk p.1 (5001, 5002, 5003) ∨ loader_walk p.1 (5004, 5005, 5006)) (kernel_pages kernel_linker)) as Hw
        by (apply (bool_decide_unpack _); vm_compute; exact I).
      rewrite Forall_forall in Hw. apply (Hw _ Hin).
Qed.

Lemma kernel_fits : sizes_fit (H := example_boot) 96 24 kernel_map kernel_linker.
Proof. split; [done|by vm_compute|apply Nat.leb_le; vm_compute; reflexivity]. Qed.
