(* ===== verification/Startup.v ===== *)
(** * Starting the other processors
    (devices/mod.rs [start_aps], init.rs [kstart_ap], asm/x86_64/trampoline.asm)

    The boot processor starts the application processors one at a time: it
    leaves a stack, a box of start-up data and an entry point in the words of
    the trampoline page, wakes the processor with INIT and START-UP commands,
    and waits first for the trampoline's word [ready] and then for [AP_READY].
    The started processor sets itself up and waits for [BSP_READY]. Every load
    and store of the protocol is a step of its own, and the steps of all
    processors interleave freely. What the processors do between the
    handshakes, the calls of the other components, is behind [StartupCalls]. *)
From S2P Require Import Prelude PageEntry PageTable RegionMapping LocalApic.

(** ** Data *)

(** What [start_aps] reads of an entry of the processor table: its local APIC id,
    and whether its state is [WaitingForSipi]. *)
Record Processor := mkProcessor { local_apic_id : Z; waiting_for_sipi : bool }.

Record ApStartupData := mkStartupData { kernel_stack : KernelStack; cpu_id : Z; data_cr3 : Z }.

(** The words behind the first jump of the trampoline page. *)
Record Trampoline := mkTrampoline { ready : Z; stack : Z; startup_data : Z; code : Z }.

(** Where the boot processor is in [start_aps] and behind it. *)
Inductive BspPc :=
  | ForAp | ClearApReady | ClearReady | StoreStack | StoreStartupData | StoreCode
  | SendInit | SendStartup | WaitReady | WaitApReady | StoreBspReady | Spawning.

(** Where an application processor is: powered up but not initialised, after
    INIT, in the trampoline ([startup_ap], then the instructions of
    [long_mode_ap]), at the call number [n] of [kstart_ap], behind it, or lost
    (it jumped to a wrong address or followed a stale pointer). *)
Inductive ApPc :=
  | PoweredUp | WaitForSipi | RealMode | LoadStack | LoadStartupData | LoadCode | StoreReady | JumpToCode
  | Kstart (n : nat) | WaitBspReady | IdleLoop | Lost.

#[global] Instance BspPc_eq_dec : EqDecision BspPc.
Proof. solve_decision. Defined.
#[global] Instance ApPc_eq_dec : EqDecision ApPc.
Proof. solve_decision. Defined.

Record Ap := mkAp {
  pc : ApPc; rsp : Z; rdi : Z; rax : Z; cr3 : Z; this_cpu : Z; idle_thread_stack : option KernelStack }.

(** What the two functions call: the allocation of a kernel stack, and the calls
    of [kstart_ap] with the processor id and its stack, in order. *)
Class StartupCalls (K : Type) := {
  allocate_stack : K → outcome (result KernelStack * K);
  kstart_calls : list (Z → KernelStack → K → outcome K) }.

Record World (K : Type) := mkWorld {
  kernel : K;
  bsp : BspPc; todo : list Processor; local_data : Z; local_stack : Z;
  aps : gmap Z Ap; trampoline : Trampoline;
  AP_READY : bool; BSP_READY : bool;
  boxes : gmap Z ApStartupData }.
Arguments mkWorld {K}.
Arguments kernel {K}.
Arguments bsp {K}.
Arguments todo {K}.
Arguments local_data {K}.
Arguments local_stack {K}.
Arguments aps {K}.
Arguments trampoline {K}.
Arguments AP_READY {K}.
Arguments BSP_READY {K}.
Arguments boxes {K}.

(** ** The processors *)

Definition TRAMPOLINE_P4 : Z := 0x7000.

Definition set_pc (a : Ap) (p : ApPc) : Ap :=
  mkAp p (rsp a) (rdi a) (rax a) (cr3 a) (this_cpu a) (idle_thread_stack a).

(** How the processors react to a command of the boot processor's APIC: INIT
    resets the one addressed, START-UP sets a reset one going at the page its
    vector names. *)
Definition deliver (icr : Z) (l : gmap Z Ap) : gmap Z Ap :=
  let c := decode_icr icr in
  match cmd_shorthand c with
  | NoShorthand =>
      if cmd_delivery c =? INIT then alter (λ a, set_pc a WaitForSipi) (cmd_dest c) l
      else if cmd_delivery c =? START_UP then
        alter (λ a, match pc a with
                    | WaitForSipi => set_pc a (if cmd_vector c * 4096 =? TRAMPOLINE then RealMode else Lost)
                    | _ => a
                    end) (cmd_dest c) l
      else l
  | _ => l
  end.

Section steps.
Context {K : Type} `{StartupCalls K}.
(** The id the boot processor reads from its local APIC, the root of the kernel's
    page tables and the address of [enter_ap]. *)
Context (bsp_id kernel_cr3 enter_ap : Z).
Implicit Types w : World K.

Definition goto w (p : BspPc) : World K :=
  mkWorld (kernel w) p (todo w) (local_data w) (local_stack w) (aps w) (trampoline w) (AP_READY w) (BSP_READY w) (boxes w).
Definition set_todo w (l : list Processor) : World K :=
  mkWorld (kernel w) (bsp w) l (local_data w) (local_stack w) (aps w) (trampoline w) (AP_READY w) (BSP_READY w) (boxes w).
Definition set_aps w (l : gmap Z Ap) : World K :=
  mkWorld (kernel w) (bsp w) (todo w) (local_data w) (local_stack w) l (trampoline w) (AP_READY w) (BSP_READY w) (boxes w).
Definition set_trampoline w (t : Trampoline) : World K :=
  mkWorld (kernel w) (bsp w) (todo w) (local_data w) (local_stack w) (aps w) t (AP_READY w) (BSP_READY w) (boxes w).
Definition set_AP_READY w (b : bool) : World K :=
  mkWorld (kernel w) (bsp w) (todo w) (local_data w) (local_stack w) (aps w) (trampoline w) b (BSP_READY w) (boxes w).
Definition set_BSP_READY w (b : bool) : World K :=
  mkWorld (kernel w) (bsp w) (todo w) (local_data w) (local_stack w) (aps w) (trampoline w) (AP_READY w) b (boxes w).
Definition set_kernel w (k : K) : World K :=
  mkWorld k (bsp w) (todo w) (local_data w) (local_stack w) (aps w) (trampoline w) (AP_READY w) (BSP_READY w) (boxes w).
Definition set_boxes w (l : gmap Z ApStartupData) : World K :=
  mkWorld (kernel w) (bsp w) (todo w) (local_data w) (local_stack w) (aps w) (trampoline w) (AP_READY w) (BSP_READY w) l.
Definition set_locals w (data top : Z) : World K :=
  mkWorld (kernel w) (bsp w) (todo w) data top (aps w) (trampoline w) (AP_READY w) (BSP_READY w) (boxes w).

(** The processor the loop is at. *)
Definition current w : Z := match todo w with ap :: _ => local_apic_id ap | [] => 0 end.

(** The head of the loop for a waiting processor: a stack and a box of start-up
    data, which the heap puts at [p]. *)
Definition prepare_ap (p : Z) (ap : Processor) w : outcome (World K) :=
  assert_ (negb (local_apic_id ap =? bsp_id));;
  r ← allocate_stack (kernel w);
  match r.1 with
  | Err _ => Panic UnwrapNone
  | Ok ks =>
      top ← stack_top ks;
      let w := set_boxes (set_kernel w r.2) (<[p := mkStartupData ks (local_apic_id ap) kernel_cr3]> (boxes w)) in
      Ret (goto (set_locals w p top) ClearApReady)
  end.

(** The next step of the boot processor. *)
Definition bsp_step (p : Z) w : outcome (World K) :=
  let t := trampoline w in
  match bsp w with
  | ForAp =>
      match todo w with
      | [] => Ret (goto w StoreBspReady)
      | ap :: l => if waiting_for_sipi ap then prepare_ap p ap w else Ret (set_todo w l)
      end
  | ClearApReady => Ret (goto (set_AP_READY w false) ClearReady)
  | ClearReady => Ret (goto (set_trampoline w (mkTrampoline 0 (stack t) (startup_data t) (code t))) StoreStack)
  | StoreStack =>
      Ret (goto (set_trampoline w (mkTrampoline (ready t) (local_stack w) (startup_data t) (code t))) StoreStartupData)
  | StoreStartupData =>
      Ret (goto (set_trampoline w (mkTrampoline (ready t) (stack t) (local_data w) (code t))) StoreCode)
  | StoreCode => Ret (goto (set_trampoline w (mkTrampoline (ready t) (stack t) (startup_data t) enter_ap)) SendInit)
  | SendInit => Ret (goto (set_aps w (deliver (init_icr (current w)) (aps w))) SendStartup)
  | SendStartup => Ret (goto (set_aps w (deliver (startup_icr (current w)) (aps w))) WaitReady)
  | WaitReady => Ret (if ready t =? 0 then w else goto w WaitApReady)
  | WaitApReady => Ret (if AP_READY w then goto (set_todo w (tail (todo w))) ForAp else w)
  | StoreBspReady => Ret (goto (set_BSP_READY w true) Spawning)
  | Spawning => Ret w
  end.

Definition set_ap w (i : Z) (a : Ap) : World K := set_aps w (<[i := a]> (aps w)).

(** [enter_ap]: the box is taken off the heap, the kernel's tables are loaded. *)
Definition enter (i : Z) (a : Ap) w : World K :=
  match boxes w !! rdi a with
  | Some d =>
      set_ap (set_boxes w (delete (rdi a) (boxes w))) i
        (mkAp (Kstart 0) (rsp a) (rdi a) (rax a) (data_cr3 d) (cpu_id d) (Some (kernel_stack d)))
  | None => set_ap w i (set_pc a Lost)
  end.

(** The call number [n] of [kstart_ap]; behind the last one [AP_READY] is set. *)
Definition kstart_ap (i : Z) (a : Ap) (n : nat) w : outcome (World K) :=
  match kstart_calls !! n, idle_thread_stack a with
  | Some f, Some ks => k ← f (this_cpu a) ks (kernel w); Ret (set_ap (set_kernel w k) i (set_pc a (Kstart (S n))))
  | None, _ => Ret (set_ap (set_AP_READY w true) i (set_pc a WaitBspReady))
  | _, None => Panic UnwrapNone
  end.

(** The next step of the processor [i], in state [a]. *)
Definition ap_step (i : Z) (a : Ap) w : outcome (World K) :=
  let t := trampoline w in
  match pc a with
  | PoweredUp | WaitForSipi | IdleLoop | Lost => Ret w
  | RealMode => Ret (set_ap w i (mkAp LoadStack 0 (rdi a) (rax a) TRAMPOLINE_P4 (this_cpu a) (idle_thread_stack a)))
  | LoadStack =>
      Ret (set_ap w i (mkAp LoadStartupData (truncate 64 (stack t - 256)) (rdi a) (rax a) (cr3 a) (this_cpu a) (idle_thread_stack a)))
  | LoadStartupData =>
      Ret (set_ap w i (mkAp LoadCode (rsp a) (startup_data t) (rax a) (cr3 a) (this_cpu a) (idle_thread_stack a)))
  | LoadCode =>
      Ret (set_ap w i (mkAp StoreReady (rsp a) (rdi a) (code t) (cr3 a) (this_cpu a) (idle_thread_stack a)))
  | StoreReady =>
      Ret (set_ap (set_trampoline w (mkTrampoline 1 (stack t) (startup_data t) (code t))) i (set_pc a JumpToCode))
  | JumpToCode => Ret (if rax a =? enter_ap then enter i a w else set_ap w i (set_pc a Lost))
  | Kstart n => kstart_ap i a n w
  | WaitBspReady => Ret (if BSP_READY w then set_ap w i (set_pc a IdleLoop) else w)
  end.

(** Any processor may take the next step; a box gets an address that is not in
    use. *)
Inductive step : World K → World K → Prop :=
  | step_bsp p w w' : boxes w !! p = None → bsp_step p w = Ret w' → step w w'
  | step_ap i a w w' : aps w !! i = Some a → ap_step i a w = Ret w' → step w w'.

(** ** The specification: one processor after the other *)

(** [kstart_ap] as a call, and one turn of the loop. *)
Definition kstart_all (id : Z) (ks : KernelStack) (k : K) : outcome K :=
  for_each (λ f k, f id ks k) kstart_calls k.
Definition start_one (id : Z) (k : K) : outcome K :=
  r ← allocate_stack k;
  match r.1 with
  | Err _ => Panic UnwrapNone
  | Ok ks => stack_top ks;; kstart_all id ks r.2
  end.
Definition start_all (ids : list Z) (k : K) : outcome K := for_each start_one ids k.

Definition waiting_ids (l : list Processor) : list Z :=
  local_apic_id <$> filter (λ ap, waiting_for_sipi ap = true) l.

(** All processors powered up, [start_aps] about to enter its loop. *)
Record initial (procs : list Processor) (k : K) w : Prop := {
  in_kernel : kernel w = k;
  in_bsp : bsp w = ForAp;
  in_todo : todo w = procs;
  in_aps : ∀ i a, aps w !! i = Some a → pc a = PoweredUp;
  in_present : ∀ i, i ∈ waiting_ids procs → is_Some (aps w !! i);
  in_ready : BSP_READY w = false }.

End steps.

(** * Proofs *)

Section invariant.
Context {K : Type} `{StartupCalls K}.
Context (bsp_id kernel_cr3 enter_ap : Z) (procs : list Processor) (k0 : K).
Context (Hnodup : NoDup (waiting_ids procs)) (Hids : ∀ i, i ∈ waiting_ids procs → 0 ≤ i < 256).
Implicit Types w : World K.
Abbreviation step_ := (step bsp_id kernel_cr3 enter_ap).

(** The processor that is being started. *)
Definition busy w : option Z :=
  match bsp w with ForAp | StoreBspReady | Spawning => None | _ => Some (current w) end.

(** A processor that has set itself up, and waits or is let go. *)
Definition started w (i : Z) (a : Ap) : Prop :=
  (pc a = WaitBspReady ∨ pc a = IdleLoop ∧ BSP_READY w = true) ∧ this_cpu a = i ∧ cr3 a = kernel_cr3.

(** [done_] have been started, which took the kernel to [kd]; the others are
    still powered up, except the one in hand. *)
Record common w (done_ : list Z) (kd : K) : Prop := {
  cm_ids : done_ ++ waiting_ids (todo w) = waiting_ids procs;
  cm_done : start_all done_ k0 = Ret kd;
  cm_started : ∀ i, i ∈ done_ → ∃ a, aps w !! i = Some a ∧ started w i a;
  cm_rest : ∀ i a, aps w !! i = Some a → i ∉ done_ → busy w ≠ Some i → pc a = PoweredUp;
  cm_present : ∀ i, i ∈ waiting_ids procs → is_Some (aps w !! i) }.

(** The start-up data is in its box and no one else is at work on the kernel. *)
Definition prepared w (i : Z) (ks : KernelStack) (k1 : K) : Prop :=
  boxes w !! local_data w = Some (mkStartupData ks i kernel_cr3) ∧ kernel w = k1.
Definition mailed w : Prop :=
  stack (trampoline w) = local_stack w ∧ startup_data (trampoline w) = local_data w ∧ code (trampoline w) = enter_ap.

Definition early w i ks k1 : Prop := prepared w i ks k1 ∧ AP_READY w = false.
Definition calling w i ks k1 : Prop := early w i ks k1 ∧ ready (trampoline w) = 0 ∧ mailed w.

(** The processor in hand while the boot processor waits for it. *)
Definition answering w (i : Z) (ks : KernelStack) (k1 : K) (a : Ap) : Prop :=
  let top := truncate 64 (local_stack w - 256) in
  match pc a with
  | RealMode | LoadStack => bsp w = WaitReady ∧ calling w i ks k1
  | LoadStartupData => bsp w = WaitReady ∧ calling w i ks k1 ∧ rsp a = top
  | LoadCode => bsp w = WaitReady ∧ calling w i ks k1 ∧ rsp a = top ∧ rdi a = local_data w
  | StoreReady => bsp w = WaitReady ∧ calling w i ks k1 ∧ rsp a = top ∧ rdi a = local_data w ∧ rax a = enter_ap
  | JumpToCode =>
      early w i ks k1 ∧ ready (trampoline w) = 1 ∧ rsp a = top ∧ rdi a = local_data w ∧ rax a = enter_ap
  | Kstart n =>
      AP_READY w = false ∧ ready (trampoline w) = 1 ∧ rsp a = top ∧
      this_cpu a = i ∧ cr3 a = kernel_cr3 ∧ idle_thread_stack a = Some ks ∧
      for_each (λ f k, f i ks k) (take n kstart_calls) k1 = Ret (kernel w) ∧ (n ≤ length kstart_calls)%nat
  | WaitBspReady =>
      AP_READY w = true ∧ ready (trampoline w) = 1 ∧ this_cpu a = i ∧ cr3 a = kernel_cr3 ∧
      kstart_all i ks k1 = Ret (kernel w)
  | _ => False
  end.

(** The states the two sides of the handshake can be in together. *)
Definition handshake w (i : Z) (ks : KernelStack) (k1 : K) (a : Ap) : Prop :=
  let t := trampoline w in
  match bsp w with
  | ClearApReady => pc a = PoweredUp ∧ prepared w i ks k1
  | ClearReady => pc a = PoweredUp ∧ early w i ks k1
  | StoreStack => pc a = PoweredUp ∧ early w i ks k1 ∧ ready t = 0
  | StoreStartupData => pc a = PoweredUp ∧ early w i ks k1 ∧ ready t = 0 ∧ stack t = local_stack w
  | StoreCode =>
      pc a = PoweredUp ∧ early w i ks k1 ∧ ready t = 0 ∧ stack t = local_stack w ∧ startup_data t = local_data w
  | SendInit => pc a = PoweredUp ∧ calling w i ks k1
  | SendStartup => pc a = WaitForSipi ∧ calling w i ks k1
  | WaitReady | WaitApReady => answering w i ks k1 a
  | _ => False
  end.

Definition in_hand w (kd : K) : Prop :=
  BSP_READY w = false ∧ ∃ ap l ks k1 a,
    todo w = ap :: l ∧ waiting_for_sipi ap = true ∧ allocate_stack kd = Ret (Ok ks, k1) ∧
    stack_top ks = Ret (local_stack w) ∧ aps w !! local_apic_id ap = Some a ∧
    handshake w (local_apic_id ap) ks k1 a.

Definition phase w (kd : K) : Prop :=
  match bsp w with
  | ForAp => kernel w = kd ∧ BSP_READY w = false
  | StoreBspReady => kernel w = kd ∧ BSP_READY w = false ∧ todo w = []
  | Spawning => kernel w = kd ∧ BSP_READY w = true ∧ todo w = []
  | _ => in_hand w kd
  end.

Definition inv w : Prop := ∃ done_ kd, common w done_ kd ∧ phase w kd.

Lemma waiting_ids_cons ap l :
  waiting_ids (ap :: l) = (if waiting_for_sipi ap then [local_apic_id ap] else []) ++ waiting_ids l.
Proof.
  unfold waiting_ids. rewrite filter_cons. destruct (waiting_for_sipi ap); [by rewrite decide_True|by rewrite decide_False].
Qed.

Lemma inv_initial w : initial procs k0 w → inv w.
Proof.
  intros [Hk Hb Ht Ha Hp Hr]. exists [], k0. split.
  - split; [by rewrite Ht|done|by intros i ?%elem_of_nil|by intros; eapply Ha|done].
  - unfold phase. by rewrite Hb.
Qed.

(** What is common survives a step that touches only the processor in hand. *)
Lemma common_keep w w' done_ kd :
  common w done_ kd → todo w' = todo w → busy w' = busy w → BSP_READY w' = BSP_READY w →
  (∀ i, busy w ≠ Some i → aps w' !! i = aps w !! i) →
  (∀ i, is_Some (aps w !! i) → is_Some (aps w' !! i)) →
  (∀ i, i ∈ done_ → busy w ≠ Some i) →
  common w' done_ kd.
Proof.
  intros [C1 C2 C3 C4 C5] Ht Hb Hr Ha Hs Hd. split.
  - by rewrite Ht.
  - done.
  - intros i Hi. destruct (C3 i Hi) as (a & Hl & Hst). exists a. rewrite Ha by auto. split; [done|].
    unfold started. by rewrite Hr.
  - intros i a Hl Hn Hbi. rewrite Hb in Hbi. rewrite Ha in Hl by done. by eapply C4.
  - intros i Hi. by apply Hs, C5.
Qed.

(** The processor in hand is none of those that are done. *)
Lemma current_fresh w done_ kd ap l :
  common w done_ kd → todo w = ap :: l → waiting_for_sipi ap = true →
  (local_apic_id ap ∉ done_) ∧ local_apic_id ap ∈ waiting_ids procs ∧ current w = local_apic_id ap.
Proof using Hnodup Hids.
  intros Hc Ht Hw. pose proof (cm_ids _ _ _ Hc) as Hi. rewrite Ht, waiting_ids_cons, Hw in Hi.
  rewrite <- Hi in Hnodup. apply NoDup_app in Hnodup as (_ & Hd & _). split_and!.
  - intros Hin. apply (Hd _ Hin). set_solver.
  - rewrite <- Hi. set_solver.
  - unfold current. by rewrite Ht.
Qed.

(** In hand, a step that leaves the others alone needs to keep the handshake. *)
Lemma in_hand_step w w' done_ kd ap l ks k1 a' :
  common w done_ kd → busy w = Some (current w) → BSP_READY w = false →
  todo w = ap :: l → waiting_for_sipi ap = true → allocate_stack kd = Ret (Ok ks, k1) →
  todo w' = todo w → busy w' = Some (current w) → BSP_READY w' = BSP_READY w →
  stack_top ks = Ret (local_stack w') →
  (∀ i, i ≠ current w → aps w' !! i = aps w !! i) → aps w' !! current w = Some a' →
  handshake w' (local_apic_id ap) ks k1 a' → inv w'.
Proof using Hnodup Hids.
  intros Hc Hb Hr Ht Hw Hk Ht' Hb' Hr' Hs Ha Ha' Hh.
  destruct (current_fresh w done_ kd ap l Hc Ht Hw) as (Hn & _ & Hcur).
  exists done_, kd. split.
  - apply (common_keep w); [done|done|congruence|done|..].
    + intros i Hi. apply Ha. congruence.
    + intros i Hi. destruct (decide (i = current w)) as [->|]; [by eexists|]. by rewrite Ha.
    + intros i Hi E. rewrite Hb in E. injection E as E. apply Hn. by rewrite <- Hcur, E.
  - assert (in_hand w' kd) as Hin.
    { split; [congruence|]. exists ap, l, ks, k1, a'. split_and!; try done; congruence. }
    unfold phase, busy in *. destruct (bsp w'); done.
Qed.

Lemma deliver_init i l :
  0 ≤ i < 256 → deliver (init_icr i) l = alter (λ a, set_pc a WaitForSipi) i l.
Proof. intros Hi. unfold deliver. by rewrite (proj1 (startup_commands i Hi)). Qed.

Lemma deliver_startup i l :
  0 ≤ i < 256 → deliver (startup_icr i) l =
    alter (λ a, match pc a with WaitForSipi => set_pc a RealMode | _ => a end) i l.
Proof. intros Hi. unfold deliver. by rewrite (proj2 (startup_commands i Hi)). Qed.

Lemma for_idle w done_ kd i : common w done_ kd → busy w = None → i ∉ done_ →
  ∀ a, aps w !! i = Some a → pc a = PoweredUp.
Proof. intros Hc Hb Hn a Ha. eapply (cm_rest _ _ _ Hc); [done|done|]. by rewrite Hb. Qed.

(** The head of the loop. *)
Lemma inv_loop_head p w w' :
  inv w → bsp w = ForAp → boxes w !! p = None → bsp_step bsp_id kernel_cr3 enter_ap p w = Ret w' → inv w'.
Proof using Hnodup Hids.
  intros (done_ & kd & Hc & Hp) Eb Hbox Hs. unfold bsp_step, phase in *. rewrite Eb in Hs, Hp.
  destruct Hp as [Hk Hr]. assert (busy w = None) as Hb by (unfold busy; by rewrite Eb).
  assert (∀ w1, aps w1 = aps w → BSP_READY w1 = BSP_READY w → waiting_ids (todo w1) = waiting_ids (todo w) →
    common w1 done_ kd) as Hkeep.
  { intros w1 Ea Er Et. destruct Hc as [C1 C2 C3 C4 C5]. split; [by rewrite Et|done|..]; rewrite Ea; [|by intros; eapply for_idle|done].
    unfold started. by rewrite Er. }
  destruct (todo w) as [|ap l] eqn:Et.
  { injection Hs as <-. exists done_, kd. split; [|done]. apply Hkeep; [done|done|]. cbn. by rewrite Et. }
  rewrite waiting_ids_cons in Hkeep. destruct (waiting_for_sipi ap) eqn:Ew.
  - unfold prepare_ap in Hs. apply bind_Ret_inv in Hs as (_ & _ & Hs).
    apply bind_Ret_inv in Hs as ([r k1] & Hal & Hs). cbn [fst snd] in Hs. destruct r as [ks|]; [|done].
    apply bind_Ret_inv in Hs as (top & Htop & [= <-]).
    destruct (current_fresh w done_ kd ap l Hc Et Ew) as (Hn & Hin & Hcur).
    destruct (cm_present _ _ _ Hc _ Hin) as [a Ha]. exists done_, kd. split.
    + apply Hkeep; [done|done|]. transitivity (waiting_ids (todo w)); [done|]. by rewrite Et, waiting_ids_cons, Ew.
    + split; [done|]. rewrite Hk in Hal. exists ap, l, ks, k1, a. split_and!; try done.
      split; [by eapply for_idle|]. split; [apply lookup_insert_eq|done].
  - injection Hs as <-. exists done_, kd. split; [by apply Hkeep|unfold phase; cbn [bsp set_todo]; by rewrite Eb].
Qed.

(** The stores into the mailbox. *)
Lemma inv_stores p w w' :
  inv w → bsp w ∈ [ClearApReady; ClearReady; StoreStack; StoreStartupData; StoreCode] →
  bsp_step bsp_id kernel_cr3 enter_ap p w = Ret w' → inv w'.
Proof using Hnodup Hids.
  intros (done_ & kd & Hc & Hp) Eb Hs. unfold bsp_step, phase in *.
  assert (in_hand w kd) as (Hr & ap & l & ks & k1 & a & Ht & Hw & Hal & Htop & Ha & Hh)
    by (rewrite !elem_of_cons, elem_of_nil in Eb; destruct Eb as [E|[E|[E|[E|[E|[]]]]]]; by rewrite E in Hp).
  destruct (current_fresh w done_ kd ap l Hc Ht Hw) as (Hn & Hin & Hcur).
  unfold handshake in Hh. rewrite !elem_of_cons, elem_of_nil in Eb.
  destruct Eb as [E|[E|[E|[E|[E|[]]]]]]; rewrite E in Hs, Hh; injection Hs as <-;
    (eapply (in_hand_step w _ done_ kd ap l ks k1 a); try done;
      [unfold busy; by rewrite E|by rewrite Hcur|unfold handshake; cbn; unfold calling, early, prepared, mailed in *; cbn; naive_solver]).
Qed.

(** The two commands. *)
Lemma inv_sends p w w' :
  inv w → bsp w ∈ [SendInit; SendStartup] → bsp_step bsp_id kernel_cr3 enter_ap p w = Ret w' → inv w'.
Proof using Hnodup Hids.
  intros (done_ & kd & Hc & Hp) Eb Hs. unfold bsp_step, phase in *.
  rewrite !elem_of_cons, elem_of_nil in Eb.
  assert (in_hand w kd) as (Hr & ap & l & ks & k1 & a & Ht & Hw & Hal & Htop & Ha & Hh)
    by (destruct Eb as [E|[E|[]]]; by rewrite E in Hp).
  destruct (current_fresh w done_ kd ap l Hc Ht Hw) as (Hn & Hin & Hcur).
  unfold handshake in Hh.
  destruct Eb as [E|[E|[]]]; rewrite E in Hs, Hh; injection Hs as <-; rewrite Hcur.
  - rewrite deliver_init by auto.
    eapply (in_hand_step w _ done_ kd ap l ks k1 (set_pc a WaitForSipi)); try done.
    + unfold busy. by rewrite E.
    + intros i Hi. cbn. apply lookup_alter_ne. congruence.
    + cbn. by rewrite Hcur, lookup_alter_eq, Ha.
    + unfold handshake; cbn. naive_solver.
  - rewrite deliver_startup by auto. destruct Hh as [Hpc Hh].
    eapply (in_hand_step w _ done_ kd ap l ks k1 (set_pc a RealMode)); try done.
    + unfold busy. by rewrite E.
    + intros i Hi. cbn. apply lookup_alter_ne. congruence.
    + cbn. rewrite Hcur, lookup_alter_eq, Ha. cbn. by rewrite Hpc.
Qed.

(** The two waits, and the release of all. *)
Lemma inv_wait_ready p w w' :
  inv w → bsp w = WaitReady → bsp_step bsp_id kernel_cr3 enter_ap p w = Ret w' → inv w'.
Proof using Hnodup Hids.
  intros Hinv E Hs. unfold bsp_step in Hs. rewrite E in Hs. injection Hs as <-.
  destruct (Z.eqb_spec (ready (trampoline w)) 0) as [|Hne]; [done|].
  destruct Hinv as (done_ & kd & Hc & Hp). unfold phase in Hp. rewrite E in Hp.
  destruct Hp as (Hr & ap & l & ks & k1 & a & Ht & Hw & Hal & Htop & Ha & Hh).
  destruct (current_fresh w done_ kd ap l Hc Ht Hw) as (Hn & Hin & Hcur).
  eapply (in_hand_step w _ done_ kd ap l ks k1 a); try done; [unfold busy; by rewrite E|by rewrite Hcur|].
  unfold handshake in *. rewrite E in Hh. cbn. unfold answering, calling in *. destruct (pc a); naive_solver.
Qed.

Lemma start_one_ok id k ks k1 top k' :
  allocate_stack k = Ret (Ok ks, k1) → stack_top ks = Ret top → kstart_all id ks k1 = Ret k' →
  start_one id k = Ret k'.
Proof. intros Ha Hs Hk. unfold start_one. rewrite Ha. cbn. rewrite Hs. cbn. done. Qed.

Lemma inv_wait_ap p w w' :
  inv w → bsp w = WaitApReady → bsp_step bsp_id kernel_cr3 enter_ap p w = Ret w' → inv w'.
Proof using Hnodup Hids.
  intros Hinv E Hs. unfold bsp_step in Hs. rewrite E in Hs. injection Hs as <-.
  destruct (AP_READY w) eqn:Er; [|done].
  destruct Hinv as (done_ & kd & Hc & Hp). unfold phase in Hp. rewrite E in Hp.
  destruct Hp as (Hr & ap & l & ks & k1 & a & Ht & Hw & Hal & Htop & Ha & Hh).
  destruct (current_fresh w done_ kd ap l Hc Ht Hw) as (Hn & Hin & Hcur).
  assert (pc a = WaitBspReady ∧ this_cpu a = local_apic_id ap ∧ cr3 a = kernel_cr3 ∧
    kstart_all (local_apic_id ap) ks k1 = Ret (kernel w)) as (Hpc & Hid & Hcr & Hk).
  { unfold handshake, answering, calling, early in Hh. rewrite E in Hh. destruct (pc a); naive_solver congruence. }
  exists (done_ ++ [local_apic_id ap]), (kernel w). split; [|by unfold phase; cbn].
  destruct Hc as [C1 C2 C3 C4 C5]. split.
  - cbn. rewrite Ht. cbn [tail]. rewrite <- C1, Ht, waiting_ids_cons, Hw. by rewrite <- app_assoc.
  - unfold start_all. rewrite for_each_app. unfold start_all in C2. rewrite C2. cbn.
    by rewrite (start_one_ok _ _ _ _ _ _ Hal Htop Hk).
  - intros i [Hi|Hi%list_elem_of_singleton]%elem_of_app; [by apply C3|]. subst i. exists a.
    split; [done|]. split_and!; [by left|done|done].
  - intros i a' Ha' Hn' _. rewrite not_elem_of_app in Hn'. eapply C4; [done|naive_solver|].
    unfold busy. rewrite E, Hcur. intros [= Ei]. apply Hn'. rewrite Ei. apply list_elem_of_singleton. done.
  - done.
Qed.

Lemma inv_release p w w' :
  inv w → bsp w ∈ [StoreBspReady; Spawning] → bsp_step bsp_id kernel_cr3 enter_ap p w = Ret w' → inv w'.
Proof using Hnodup Hids.
  intros Hinv Eb Hs. rewrite !elem_of_cons, elem_of_nil in Eb.
  destruct Eb as [E|[E|[]]]; unfold bsp_step in Hs; rewrite E in Hs; injection Hs as <-; [|done].
  destruct Hinv as (done_ & kd & Hc & Hp). unfold phase in Hp. rewrite E in Hp. destruct Hp as (Hk & Hr & Ht).
  exists done_, kd. split; [|done]. pose proof Hc as [C1 C2 C3 C4 C5]. split; try done.
  - intros i Hi. destruct (C3 i Hi) as (a & Ha & [[Hst|[Hst _]] Hst']); exists a; (split; [done|]; split; [|done]);
      [by left|by right].
  - intros i a Ha Hn _. eapply for_idle; [done| |done|done]. unfold busy. by rewrite E.
Qed.

Lemma inv_bsp p w w' :
  inv w → boxes w !! p = None → bsp_step bsp_id kernel_cr3 enter_ap p w = Ret w' → inv w'.
Proof using Hnodup Hids.
  intros Hinv Hbox Hs. destruct (bsp w) eqn:E;
    first [by eapply inv_loop_head|by eapply inv_wait_ready|by eapply inv_wait_ap
      |eapply inv_stores; [done|rewrite E; set_solver|done]|eapply inv_sends; [done|rewrite E; set_solver|done]
      |eapply inv_release; [done|rewrite E; set_solver|done]].
Qed.

(** A started processor leaves its wait. *)
Lemma inv_ap_started i a w w' done_ kd :
  common w done_ kd → phase w kd → i ∈ done_ → aps w !! i = Some a → ap_step enter_ap i a w = Ret w' → inv w'.
Proof.
  intros Hc Hp Hi Ha Hs. assert (inv w) as Hinv by (by exists done_, kd).
  pose proof Hc as [C1 C2 C3 C4 C5]. destruct (C3 i Hi) as (a' & Ha' & [Hpc Hst]). simplify_eq.
  unfold ap_step in Hs. destruct Hpc as [Hpc|[Hpc Hr]]; rewrite Hpc in Hs; injection Hs as <-; [|done].
  destruct (BSP_READY w) eqn:Hr; [|done].
  assert (bsp w = Spawning) as E by (unfold phase, in_hand in Hp; destruct (bsp w); naive_solver congruence).
  exists done_, kd. split; [split; try done|unfold phase in *; cbn; by rewrite E in *].
  - intros j Hj. destruct (decide (j = i)) as [->|Hne].
    + exists (set_pc a IdleLoop). cbn. rewrite lookup_insert_eq. split; [done|]. split; [by right|done].
    + cbn. rewrite lookup_insert_ne by done. by apply C3.
  - intros j b Hb Hn Hbusy. cbn in Hb. rewrite lookup_insert_ne in Hb by (intros ->; done). by eapply C4.
  - intros j Hj. cbn. destruct (decide (j = i)) as [->|Hne]; [by rewrite lookup_insert_eq|].
    rewrite lookup_insert_ne by done. by apply C5.
Qed.

Lemma in_hand_busy w kd : phase w kd → is_Some (busy w) → in_hand w kd.
Proof. unfold phase, busy. destruct (bsp w); try done; by intros _ []. Qed.

(** One more call of [kstart_ap]. *)
Lemma call_snoc i ks n f (k1 k k' : K) :
  kstart_calls !! n = Some f → for_each (λ f k, f i ks k) (take n kstart_calls) k1 = Ret k → f i ks k = Ret k' →
  for_each (λ f k, f i ks k) (take (S n) kstart_calls) k1 = Ret k'.
Proof. intros Hf Hk Hk'. rewrite (take_S_r _ _ _ Hf), for_each_app, Hk. cbn. by rewrite Hk'. Qed.

(** The processor in hand. *)
Lemma inv_ap_in_hand i a w w' done_ kd :
  common w done_ kd → phase w kd → busy w = Some i → aps w !! i = Some a → ap_step enter_ap i a w = Ret w' → inv w'.
Proof using Hnodup Hids.
  intros Hc Hp Hb Ha Hs. destruct (in_hand_busy w kd Hp ltac:(by rewrite Hb))
    as (Hr & ap & l & ks & k1 & a' & Ht & Hw & Hal & Htop & Ha' & Hh).
  destruct (current_fresh w done_ kd ap l Hc Ht Hw) as (Hn & Hin & Hcur).
  assert (Hbc : busy w = Some (current w)) by (revert Hb; unfold busy; by destruct (bsp w)).
  assert (i = local_apic_id ap) as -> by congruence. assert (a' = a) as -> by congruence.
  assert (Hupd : ∀ w1 b, todo w1 = todo w → bsp w1 = bsp w → BSP_READY w1 = BSP_READY w →
    local_stack w1 = local_stack w → aps w1 = <[local_apic_id ap := b]> (aps w) →
    handshake w1 (local_apic_id ap) ks k1 b → inv w1).
  { intros w1 b E1 E2 E3 E4 E5 Hh'. eapply (in_hand_step w w1 done_ kd ap l ks k1 b); try done.
    - unfold busy, current. rewrite E1, E2. unfold busy, current in Hbc. exact Hbc.
    - by rewrite E4.
    - intros j Hj. rewrite E5. apply lookup_insert_ne. congruence.
    - by rewrite E5, Hcur, lookup_insert_eq. }
  assert (inv w) as Hinv by (by exists done_, kd).
  unfold ap_step in Hs. unfold handshake in Hh.
  assert ((bsp w = WaitReady ∨ bsp w = WaitApReady) ∧ answering w (local_apic_id ap) ks k1 a ∨
    (pc a = PoweredUp ∨ pc a = WaitForSipi)) as [[Eb Han]|[E|E]] by (destruct (bsp w); naive_solver).
  2,3: rewrite E in Hs; by injection Hs as <-.
  assert (Hset : ∀ w1 b, todo w1 = todo w → bsp w1 = bsp w → BSP_READY w1 = BSP_READY w →
    local_stack w1 = local_stack w → aps w1 = <[local_apic_id ap := b]> (aps w) →
    answering w1 (local_apic_id ap) ks k1 b → inv w1).
  { intros w1 b E1 E2 E3 E4 E5 Han'. apply (Hupd w1 b); try done. unfold handshake. rewrite E2. by destruct Eb as [->| ->]. }
  clear Hupd Hh. unfold answering, calling, early in Han.
  destruct (pc a) as [| | | | | | | |n| | |] eqn:Ep; try done; try (injection Hs as <-).
  1-5: eapply Hset; try done; unfold answering, calling, early, mailed in *; cbn; destruct_and?;
    split_and?; try done; congruence.
  - (* enter_ap *)
    destruct Han as (((Hbox & Hk) & Hrd) & Hrdy & Hrsp & Hrdi & Hrax). rewrite Hrax, Z.eqb_refl.
    unfold enter. rewrite Hrdi, Hbox. eapply Hset; try done. unfold answering. cbn.
    split_and!; try done; [by rewrite Hk|lia].
  - (* a call of kstart_ap *)
    destruct Han as (Hrd & Hrdy & Hrsp & Hid & Hcr & Hks & Hrun & Hlen). unfold kstart_ap in Hs. rewrite Hks in Hs.
    destruct (kstart_calls !! n) as [f|] eqn:Ef.
    + apply bind_Ret_inv in Hs as (k' & Hf & [= <-]). rewrite Hid in Hf. eapply Hset; try done. unfold answering. cbn.
      split_and!; try done; [by eapply call_snoc|]. apply lookup_lt_Some in Ef. lia.
    + injection Hs as <-. eapply Hset; try done. unfold answering. cbn. split_and!; try done.
      apply lookup_ge_None in Ef. rewrite take_ge in Hrun by lia. exact Hrun.
  - (* waiting for the boot processor, which still waits for it *)
    by rewrite Hr.
Qed.

Lemma inv_step w w' : inv w → step_ w w' → inv w'.
Proof using Hnodup Hids.
  intros Hinv Hs. destruct Hs as [p w w' Hbox Hs|i a w w' Ha Hs]; [by eapply inv_bsp|].
  destruct Hinv as (done_ & kd & Hc & Hp).
  destruct (decide (i ∈ done_)) as [Hi|Hi]; [by eapply inv_ap_started|].
  destruct (decide (busy w = Some i)) as [Hb|Hb]; [by eapply inv_ap_in_hand|].
  pose proof (cm_rest _ _ _ Hc i a Ha Hi Hb) as E. unfold ap_step in Hs. rewrite E in Hs. injection Hs as <-.
  by exists done_, kd.
Qed.

Lemma inv_reachable w w' : initial procs k0 w → rtc step_ w w' → inv w'.
Proof using Hnodup Hids.
  intros Hi Hr. apply inv_initial in Hi. induction Hr as [|w w1 w2 Hs _ IH]; [done|].
  apply IH. by eapply inv_step.
Qed.

(** ** Every step that is not a turn of a waiting loop brings the end closer *)

Definition ap_rank (p : ApPc) : nat :=
  let n := length kstart_calls in
  match p with
  | PoweredUp => n + 10 | WaitForSipi => n + 9 | RealMode => n + 8 | LoadStack => n + 7 | LoadStartupData => n + 6
  | LoadCode => n + 5 | StoreReady => n + 4 | JumpToCode => n + 3 | Kstart i => n - i + 2
  | WaitBspReady => 1 | IdleLoop => 0 | Lost => 0
  end%nat.
Definition bsp_rank (p : BspPc) : nat :=
  match p with
  | ForAp => 12 | ClearApReady => 11 | ClearReady => 10 | StoreStack => 9 | StoreStartupData => 8 | StoreCode => 7
  | SendInit => 6 | SendStartup => 5 | WaitReady => 4 | WaitApReady => 3 | StoreBspReady => 2 | Spawning => 1
  end.
Definition rank_sum (l : list Z) (m : gmap Z Ap) : nat :=
  sum_list_with (λ i, match m !! i with Some a => ap_rank (pc a) | None => O end) l.
Definition distance w : nat := (20 * length (todo w) + bsp_rank (bsp w) + rank_sum (waiting_ids procs) (aps w))%nat.

(** A step that waits. *)
Definition bsp_spins w : bool :=
  match bsp w with
  | WaitReady => ready (trampoline w) =? 0 | WaitApReady => negb (AP_READY w) | Spawning => true | _ => false
  end.
Definition ap_spins (a : Ap) w : bool :=
  match pc a with PoweredUp | WaitForSipi | IdleLoop | Lost => true | WaitBspReady => negb (BSP_READY w) | _ => false end.

Lemma rank_insert_out l m i b : i ∉ l → rank_sum l (<[i := b]> m) = rank_sum l m.
Proof.
  induction l as [|j l IH]; intros Hi; [done|]. apply not_elem_of_cons in Hi as [Hne Hi].
  unfold rank_sum in *. cbn. rewrite lookup_insert_ne by done. by rewrite IH.
Qed.

Lemma rank_insert l m i a b :
  NoDup l → i ∈ l → m !! i = Some a → (rank_sum l (<[i := b]> m) + ap_rank (pc a) = rank_sum l m + ap_rank (pc b))%nat.
Proof.
  intros Hl Hi Ha. induction l as [|j l IH]; [by apply elem_of_nil in Hi|].
  apply NoDup_cons in Hl as [Hj Hl]. unfold rank_sum in *. cbn.
  destruct (decide (j = i)) as [->|Hne].
  - rewrite lookup_insert_eq, Ha. pose proof (rank_insert_out l m i b Hj) as E. unfold rank_sum in E. rewrite E. lia.
  - rewrite lookup_insert_ne by done. apply elem_of_cons in Hi as [?|Hi]; [done|]. specialize (IH Hl Hi). lia.
Qed.

Lemma alter_insert_Some (f : Ap → Ap) i a (m : gmap Z Ap) : m !! i = Some a → alter f i m = <[i := f a]> m.
Proof.
  intros Ha. apply map_eq. intros j. destruct (decide (j = i)) as [->|Hne].
  - by rewrite lookup_alter_eq, lookup_insert_eq, Ha.
  - by rewrite lookup_alter_ne, lookup_insert_ne by done.
Qed.

Lemma ap_step_shape i a w w' :
  ap_step enter_ap i a w = Ret w' → aps w !! i = Some a →
  if ap_spins a w then w' = w
  else ∃ b, aps w' = <[i := b]> (aps w) ∧ bsp w' = bsp w ∧ todo w' = todo w ∧ (ap_rank (pc b) < ap_rank (pc a))%nat.
Proof.
  intros Hs Ha. unfold ap_step, ap_spins in *.
  destruct (pc a) as [| | | | | | | |n| | |] eqn:Ep; try (injection Hs as <-); try done.
  1-5: eexists; split_and!; try reflexivity; cbn; lia.
  - destruct (rax a =? enter_ap); [|by eexists; split_and!; [reflexivity..|cbn; lia]].
    unfold enter. destruct (boxes w !! rdi a); eexists; split_and!; try reflexivity; cbn; lia.
  - unfold kstart_ap in Hs. destruct (kstart_calls !! n) as [f|] eqn:Ef.
    + destruct (idle_thread_stack a); [|done]. apply bind_Ret_inv in Hs as (k' & _ & [= <-]).
      eexists. split_and!; [reflexivity..|]. apply lookup_lt_Some in Ef. cbn. lia.
    + injection Hs as <-. eexists. split_and!; [reflexivity..|]. cbn. lia.
  - destruct (BSP_READY w); [|done]. cbn. eexists. split_and!; [reflexivity..|]. cbn. lia.
Qed.

Lemma ap_decreases i a w w' :
  i ∈ waiting_ids procs → ap_step enter_ap i a w = Ret w' → aps w !! i = Some a →
  if ap_spins a w then w' = w else (distance w' < distance w)%nat.
Proof using Hnodup Hids.
  intros Hi Hs Ha. pose proof (ap_step_shape i a w w' Hs Ha) as Hsh. destruct (ap_spins a w); [done|].
  destruct Hsh as (b & E1 & E2 & E3 & Hlt). unfold distance. rewrite E1, E2, E3.
  pose proof (rank_insert _ (aps w) i a b Hnodup Hi Ha). lia.
Qed.

Lemma bsp_decreases p w w' :
  inv w → bsp_step bsp_id kernel_cr3 enter_ap p w = Ret w' →
  if bsp_spins w then w' = w else (distance w' < distance w)%nat.
Proof using Hnodup Hids.
  intros (done_ & kd & Hc & Hp) Hs. unfold bsp_spins, bsp_step, phase, distance in *.
  destruct (bsp w) eqn:Eb.
  1: { destruct (todo w) as [|ap l] eqn:Et; [injection Hs as <-; cbn; rewrite Et; cbn; lia|].
       destruct (waiting_for_sipi ap); [|injection Hs as <-; cbn; rewrite Eb; cbn; lia].
       unfold prepare_ap in Hs. apply bind_Ret_inv in Hs as (_ & _ & Hs).
       apply bind_Ret_inv in Hs as ([r k1] & Hal & Hs). cbn [fst snd] in Hs. destruct r as [ks|]; [|done].
       apply bind_Ret_inv in Hs as (top & _ & [= <-]). cbn. rewrite Et. cbn. lia. }
  1-5: injection Hs as <-; cbn; lia.
  1-2: destruct Hp as (Hr & ap & l & ks & k1 & a & Ht & Hw & Hal & Htop & Ha & Hh); injection Hs as <-;
    destruct (current_fresh w done_ kd ap l Hc Ht Hw) as (Hn & Hin & Hcur); unfold handshake in Hh; rewrite Eb in Hh;
    destruct Hh as [Hpc _]; cbn; rewrite Hcur.
  - rewrite deliver_init, (alter_insert_Some _ _ a) by auto.
    pose proof (rank_insert _ (aps w) _ a (set_pc a WaitForSipi) Hnodup Hin Ha) as Hrk. rewrite Hpc in Hrk. cbn in *. lia.
  - rewrite deliver_startup, (alter_insert_Some _ _ a) by auto. rewrite Hpc.
    pose proof (rank_insert _ (aps w) _ a (set_pc a RealMode) Hnodup Hin Ha) as Hrk. rewrite Hpc in Hrk. cbn in *. lia.
  - injection Hs as <-. destruct (ready (trampoline w) =? 0); [done|]. cbn. lia.
  - injection Hs as <-. destruct (AP_READY w); [|done].
    destruct Hp as (_ & ap & l & _ & _ & _ & Ht & _). cbn. rewrite Ht. cbn. lia.
  - injection Hs as <-. cbn. lia.
  - by injection Hs as <-.
Qed.

(** ** While the calls succeed, someone can always move *)

Definition finished w : Prop :=
  bsp w = Spawning ∧ Forall (λ i, pc <$> aps w !! i = Some IdleLoop) (waiting_ids procs).

Lemma for_each_prefix {A S} (body : A → S → outcome S) l1 a l2 s s' r :
  for_each body (l1 ++ a :: l2) s = Ret r → for_each body l1 s = Ret s' → ∃ s'', body a s' = Ret s''.
Proof.
  intros Hr Hs. rewrite for_each_app, Hs in Hr. cbn in Hr. apply bind_Ret_inv in Hr as (s'' & Hb & _). eauto.
Qed.

(** The sequential start-up of the processor in hand succeeds. *)
Lemma next_start w done_ kd ap l kf :
  common w done_ kd → todo w = ap :: l → waiting_for_sipi ap = true →
  start_all (waiting_ids procs) k0 = Ret kf →
  ∃ ks k1 top k', allocate_stack kd = Ret (Ok ks, k1) ∧ stack_top ks = Ret top ∧
    kstart_all (local_apic_id ap) ks k1 = Ret k'.
Proof.
  intros Hc Ht Hw Hf. rewrite <- (cm_ids _ _ _ Hc), Ht, waiting_ids_cons, Hw in Hf.
  destruct (for_each_prefix _ _ _ _ _ _ _ Hf (cm_done _ _ _ Hc)) as (k' & Hs).
  unfold start_one in Hs. apply bind_Ret_inv in Hs as ([[ks|] k1] & Hal & Hs); [|done]. cbn [fst snd] in Hs.
  apply bind_Ret_inv in Hs as (top & Htop & Hk). eauto 10.
Qed.

(** The answer of the processor in hand. *)
Lemma answer w ap l ks k1 k' a :
  todo w = ap :: l → aps w !! local_apic_id ap = Some a → answering w (local_apic_id ap) ks k1 a →
  kstart_all (local_apic_id ap) ks k1 = Ret k' → bsp_spins w = true → bsp w = WaitReady ∨ bsp w = WaitApReady →
  ∃ w', ap_step enter_ap (local_apic_id ap) a w = Ret w' ∧ ap_spins a w = false.
Proof.
  intros Ht Ha Han Hk Hsp Hb. unfold answering, calling, early, ap_step, ap_spins in *.
  destruct (pc a) as [| | | | | | | |n| | |] eqn:Ep; try done; try (by eexists; split).
  - destruct Han as (_ & _ & _ & Hid & _ & Hks & Hrun & Hlen). unfold kstart_ap. rewrite Hks.
    destruct (kstart_calls !! n) as [f|] eqn:Ef; [|by eexists].
    unfold kstart_all in Hk. rewrite <- (take_drop_middle _ _ _ Ef) in Hk.
    destruct (for_each_prefix _ _ _ _ _ _ _ Hk Hrun) as (k'' & Hf). rewrite Hid, Hf. by eexists.
  - destruct Han as (Hr & Hrd & _). exfalso. unfold bsp_spins in Hsp.
    destruct Hb as [E|E]; rewrite E in Hsp; [by rewrite Hrd in Hsp|by rewrite Hr in Hsp].
Qed.

Lemma progress w kf :
  inv w → start_all (waiting_ids procs) k0 = Ret kf → bsp_id ∉ waiting_ids procs → ¬ finished w →
  ∃ w', step_ w w' ∧ (distance w' < distance w)%nat.
Proof using Hnodup Hids.
  intros Hinv Hf Hbsp Hnf. pose proof Hinv as (done_ & kd & Hc & Hp).
  set (p := fresh (dom (boxes w))).
  assert (boxes w !! p = None) as Hbox by (apply not_elem_of_dom, is_fresh).
  assert (Hbs : ∀ w', bsp_step bsp_id kernel_cr3 enter_ap p w = Ret w' → bsp_spins w = false →
    ∃ w', step_ w w' ∧ (distance w' < distance w)%nat).
  { intros w' Hs Hsp. exists w'. split; [by eapply step_bsp|]. pose proof (bsp_decreases p w w' Hinv Hs) as Hd.
    by rewrite Hsp in Hd. }
  assert (Has : ∀ i a w', i ∈ waiting_ids procs → aps w !! i = Some a → ap_step enter_ap i a w = Ret w' →
    ap_spins a w = false → ∃ w', step_ w w' ∧ (distance w' < distance w)%nat).
  { intros i a w' Hi Ha Hs Hsp. exists w'. split; [by eapply step_ap|].
    pose proof (ap_decreases i a w w' Hi Hs Ha) as Hd. by rewrite Hsp in Hd. }
  destruct (bsp_spins w) eqn:Hsp.
  - unfold phase, bsp_spins in Hp, Hsp. destruct (bsp w) eqn:Eb; try done.
    1-2: destruct Hp as (Hr & ap & l & ks & k1 & a & Ht & Hw & Hal & Htop & Ha & Hh);
      destruct (current_fresh w done_ kd ap l Hc Ht Hw) as (Hn & Hin & Hcur);
      unfold handshake in Hh; rewrite Eb in Hh;
      destruct (next_start w done_ kd ap l kf Hc Ht Hw Hf) as (ks' & k1' & top & k' & Hal' & Htop' & Hk);
      rewrite Hal in Hal'; injection Hal' as <- <-;
      destruct (answer w ap l ks k1 k' a Ht Ha Hh Hk) as (w' & Hs & Hsp'); [unfold bsp_spins; by rewrite Eb|auto|by eapply Has].
    destruct Hp as (Hk & Hr & Ht). pose proof (cm_ids _ _ _ Hc) as Hids'. rewrite Ht, app_nil_r in Hids'.
    destruct (decide (Forall (λ i, pc <$> aps w !! i = Some IdleLoop) (waiting_ids procs))) as [Hall|Hex]; [by destruct Hnf|].
    apply not_Forall_Exists in Hex; [|apply _]. apply Exists_exists in Hex as (i & Hi & Hne).
    pose proof Hi as Hi'. rewrite <- Hids' in Hi'.
    destruct (cm_started _ _ _ Hc i Hi') as (a & Ha & [[Hpc|[Hpc _]] _]).
    + eapply (Has i a); [done|done| |]; unfold ap_step, ap_spins; rewrite Hpc, ?Hr; done.
    + destruct Hne. cbn. by rewrite Ha, <- Hpc.
  - assert (∃ w', bsp_step bsp_id kernel_cr3 enter_ap p w = Ret w') as [w' Hs]; [|by eapply Hbs].
    unfold bsp_step, phase in *. destruct (bsp w) eqn:Eb; try by eexists.
    destruct (todo w) as [|ap l] eqn:Et; [by eexists|]. destruct (waiting_for_sipi ap) eqn:Ew; [|by eexists].
    destruct Hp as [Hk _]. destruct (next_start w done_ kd ap l kf Hc Et Ew Hf) as (ks & k1 & top & k' & Hal & Htop & _).
    unfold prepare_ap. destruct (current_fresh w done_ kd ap l Hc Et Ew) as (_ & Hin & _).
    destruct (Z.eqb_spec (local_apic_id ap) bsp_id) as [E|_]; [congruence|]. cbn. rewrite Hk, Hal. cbn. rewrite Htop.
    by eexists.
Qed.

Lemma completes w kf :
  inv w → start_all (waiting_ids procs) k0 = Ret kf → bsp_id ∉ waiting_ids procs →
  ∃ w', rtc step_ w w' ∧ finished w' ∧ inv w'.
Proof using Hnodup Hids.
  intros Hinv Hf Hb. remember (distance w) as n eqn:Hn. revert w Hn Hinv.
  induction (lt_wf n) as [n _ IH]. intros w -> Hinv.
  destruct (decide (bsp w = Spawning ∧ Forall (λ i, pc <$> aps w !! i = Some IdleLoop) (waiting_ids procs)))
    as [Hfin|Hno]; [by exists w|].
  destruct (progress w kf Hinv Hf Hb Hno) as (w1 & Hs & Hlt).
  destruct (IH _ Hlt w1 eq_refl (inv_step _ _ Hinv Hs)) as (w' & Hr & Hfin & Hinv').
  exists w'. split; [by eapply rtc_l|done].
Qed.
End invariant.

(** * The protocol *)

(** A processor that is on its way from the START-UP command to its wait. *)
Definition starting (p : ApPc) : bool :=
  match p with PoweredUp | WaitForSipi | WaitBspReady | IdleLoop => false | _ => true end.

Section theorems.
Context {K : Type} `{StartupCalls K}.
Context (bsp_id kernel_cr3 enter_ap : Z) (procs : list Processor) (k0 : K).

(** C19: the processors are started one at a time. In every state any
    interleaving can reach, at most one application processor is between its
    START-UP command and its wait for the others, the boot processor is waiting
    for it, it is not lost, and when it runs [kstart_ap] it has its own id, the
    kernel's page tables and the stack that was made for it. *)
Theorem startup_exclusive w w' i a :
  NoDup (waiting_ids procs) → (∀ i, i ∈ waiting_ids procs → 0 ≤ i < 256) →
  initial procs k0 w → rtc (step bsp_id kernel_cr3 enter_ap) w w' →
  aps w' !! i = Some a → starting (pc a) = true →
  current w' = i ∧ (bsp w' = WaitReady ∨ bsp w' = WaitApReady) ∧ pc a ≠ Lost ∧
  (∀ j b, aps w' !! j = Some b → starting (pc b) = true → j = i) ∧
  (∀ n, pc a = Kstart n → this_cpu a = i ∧ cr3 a = kernel_cr3 ∧
     ∃ ks top, idle_thread_stack a = Some ks ∧ stack_top ks = Ret top ∧ rsp a = truncate 64 (top - 256)).
Proof.
  intros Hnd Hids Hi Hr Ha Hst.
  destruct (inv_reachable _ _ _ _ _ Hnd Hids w w' Hi Hr) as (done_ & kd & Hc & Hp).
  assert (Hbusy : ∀ j b, aps w' !! j = Some b → starting (pc b) = true → busy w' = Some j).
  { intros j b Hb Hsb. destruct (decide (busy w' = Some j)) as [|Hne]; [done|exfalso].
    destruct (decide (j ∈ done_)) as [Hj|Hj].
    - destruct (cm_started _ _ _ _ _ _ Hc j Hj) as (b' & Hb' & [[Hpc|[Hpc _]] _]); simplify_eq; by rewrite Hpc in Hsb.
    - by rewrite (cm_rest _ _ _ _ _ _ Hc j b Hb Hj Hne) in Hsb. }
  pose proof (Hbusy i a Ha Hst) as Hb.
  destruct (in_hand_busy _ _ _ kd Hp ltac:(by rewrite Hb)) as (_ & ap & l & ks & k1 & a' & Ht & Hw & _ & Htop & Ha' & Hh).
  destruct (current_fresh _ _ _ Hnd Hids w' done_ kd ap l Hc Ht Hw) as (_ & _ & Hcur).
  assert (busy w' = Some (current w')) as Hb' by (revert Hb; unfold busy; by destruct (bsp w')).
  assert (i = local_apic_id ap) as -> by congruence. assert (a' = a) as -> by congruence.
  assert ((bsp w' = WaitReady ∨ bsp w' = WaitApReady) ∧ answering kernel_cr3 enter_ap w' (local_apic_id ap) ks k1 a) as [Hwait Han].
  { unfold handshake in Hh. destruct (bsp w'); try done; [..|by auto|by auto]; destruct Hh as [Hpc _]; by rewrite Hpc in Hst. }
  split_and!; [done|done| | |].
  - intros E. unfold answering in Han. by rewrite E in Han.
  - intros j b Hjb Hsb. pose proof (Hbusy j b Hjb Hsb). congruence.
  - intros n En. unfold answering in Han. rewrite En in Han. destruct Han as (_ & _ & Hrsp & Hid & Hcr & Hks & _).
    split_and!; [done|done|]. by exists ks, (local_stack w').
Qed.

(** C18: the interleaved start-up refines the sequential one. Once the boot
    processor has left [start_aps], or any processor has been let go, every
    processor that waited for its start-up has completed [kstart_ap], and the
    kernel's state is the one that starting them one after the other, in the
    order of the table, leads to. *)
Theorem startup_sequential w w' :
  NoDup (waiting_ids procs) → (∀ i, i ∈ waiting_ids procs → 0 ≤ i < 256) →
  initial procs k0 w → rtc (step bsp_id kernel_cr3 enter_ap) w w' →
  bsp w' = StoreBspReady ∨ bsp w' = Spawning ∨ (∃ i a, aps w' !! i = Some a ∧ pc a = IdleLoop) →
  start_all (waiting_ids procs) k0 = Ret (kernel w') ∧
  ∀ i, i ∈ waiting_ids procs → ∃ a, aps w' !! i = Some a ∧ started kernel_cr3 w' i a.
Proof.
  intros Hnd Hids Hi Hr Hcase.
  destruct (inv_reachable _ _ _ _ _ Hnd Hids w w' Hi Hr) as (done_ & kd & Hc & Hp).
  assert (bsp w' = StoreBspReady ∨ bsp w' = Spawning) as Hb.
  { destruct Hcase as [?|[?|(i & a & Ha & Hpc)]]; [by left|by right|].
    assert (BSP_READY w' = true) as Hready.
    { destruct (decide (i ∈ done_)) as [Hj|Hj].
      - destruct (cm_started _ _ _ _ _ _ Hc i Hj) as (b' & Hb' & [[Hpc'|[_ Hready]] _]); [|done].
        simplify_eq. congruence.
      - destruct (decide (busy w' = Some i)) as [Hbi|Hbi].
        2: { pose proof (cm_rest _ _ _ _ _ _ Hc i a Ha Hj Hbi). congruence. }
        destruct (in_hand_busy _ _ _ kd Hp ltac:(by rewrite Hbi)) as (_ & ap & l & ks & k1 & a' & Ht & Hw & _ & _ & Ha' & Hh).
        destruct (current_fresh _ _ _ Hnd Hids w' done_ kd ap l Hc Ht Hw) as (_ & _ & Hcur).
        assert (busy w' = Some (current w')) as Hb' by (revert Hbi; unfold busy; by destruct (bsp w')).
        assert (a' = a) as -> by congruence. unfold handshake, answering in Hh. rewrite Hpc in Hh.
        destruct (bsp w'); naive_solver. }
    unfold phase, in_hand in Hp. destruct (bsp w'); naive_solver congruence. }
  assert (kernel w' = kd ∧ todo w' = []) as [-> Ht].
  { unfold phase in Hp. destruct Hb as [E|E]; rewrite E in Hp; naive_solver. }
  pose proof (cm_ids _ _ _ _ _ _ Hc) as E. rewrite Ht, app_nil_r in E. rewrite <- E.
  split; [apply (cm_done _ _ _ _ _ _ Hc)|apply (cm_started _ _ _ _ _ _ Hc)].
Qed.

(** C20: the start-up never gets stuck. If starting the processors one after the
    other succeeds, then from every state any interleaving can reach there is a
    run to the end, where the boot processor has gone on, every processor is in
    its idle loop, and the kernel is in the state of the sequential start-up. *)
Theorem startup_completes w w1 kf :
  NoDup (waiting_ids procs) → (∀ i, i ∈ waiting_ids procs → 0 ≤ i < 256) → bsp_id ∉ waiting_ids procs →
  start_all (waiting_ids procs) k0 = Ret kf →
  initial procs k0 w → rtc (step bsp_id kernel_cr3 enter_ap) w w1 →
  ∃ w', rtc (step bsp_id kernel_cr3 enter_ap) w1 w' ∧ finished procs w' ∧ kernel w' = kf.
Proof.
  intros Hnd Hids Hbsp Hf Hi Hr.
  pose proof (inv_reachable _ _ _ _ _ Hnd Hids w w1 Hi Hr) as Hinv.
  destruct (completes _ _ _ _ _ Hnd Hids w1 kf Hinv Hf Hbsp) as (w' & Hr' & Hfin & (done_ & kd & Hc & Hp)).
  exists w'. split_and!; [done|done|]. destruct Hfin as [E _]. unfold phase in Hp. rewrite E in Hp.
  destruct Hp as (-> & _ & Ht). pose proof (cm_ids _ _ _ _ _ _ Hc) as E'. rewrite Ht, app_nil_r in E'.
  pose proof (cm_done _ _ _ _ _ _ Hc) as Hd. rewrite E' in Hd. congruence.
Qed.

(** C21: apart from the turns of the waiting loops, which change nothing, every
    step brings the start-up closer to its end: the [distance] goes down. With
    the previous property, the processors all reach their idle loops in a
    bounded number of steps, however they are interleaved. *)
Theorem startup_terminates w w1 w2 :
  NoDup (waiting_ids procs) → (∀ i, i ∈ waiting_ids procs → 0 ≤ i < 256) →
  initial procs k0 w → rtc (step bsp_id kernel_cr3 enter_ap) w w1 → step bsp_id kernel_cr3 enter_ap w1 w2 →
  w2 = w1 ∨ (distance procs w2 < distance procs w1)%nat.
Proof.
  intros Hnd Hids Hi Hr Hs. pose proof (inv_reachable _ _ _ _ _ Hnd Hids w w1 Hi Hr) as Hinv.
  destruct Hs as [p w1 w2 Hbox Hs|i a w1 w2 Ha Hs].
  - pose proof (bsp_decreases _ _ _ _ _ Hnd Hids p w1 w2 Hinv Hs) as Hd. destruct (bsp_spins w1); auto.
  - destruct (decide (i ∈ waiting_ids procs)) as [Hin|Hout].
    + pose proof (ap_decreases enter_ap procs Hnd Hids i a w1 w2 Hin Hs Ha) as Hd. destruct (ap_spins a w1); auto.
    + left. destruct Hinv as (done_ & kd & Hc & Hp).
      assert (pc a = PoweredUp) as E.
      { apply (cm_rest _ _ _ _ _ _ Hc i a Ha).
        - intros Hd. apply Hout. rewrite <- (cm_ids _ _ _ _ _ _ Hc). set_solver.
        - intros Hb. destruct (in_hand_busy _ _ _ kd Hp ltac:(by rewrite Hb)) as (_ & ap & l & ks & k1 & a' & Ht & Hw & _).
          destruct (current_fresh _ _ _ Hnd Hids w1 done_ kd ap l Hc Ht Hw) as (_ & Hin & Hcur).
          assert (busy w1 = Some (current w1)) as Hb' by (revert Hb; unfold busy; by destruct (bsp w1)). congruence. }
      unfold ap_step in Hs. rewrite E in Hs. by injection Hs as <-.
Qed.
End theorems.

(** ** A concrete run *)

(** The next processor to move: the boot processor, with the address of the box
    it may need, or an application processor. *)
Inductive choice := Bsp (p : Z) | Proc (i : Z).

Fixpoint run {K} `{StartupCalls K} (bsp_id kernel_cr3 enter_ap : Z) (l : list choice) (w : World K) : outcome (World K) :=
  match l with
  | [] => Ret w
  | Bsp p :: l =>
      match boxes w !! p with
      | None => w ← bsp_step bsp_id kernel_cr3 enter_ap p w; run bsp_id kernel_cr3 enter_ap l w
      | Some _ => Hang
      end
  | Proc i :: l =>
      a ← unwrap (aps w !! i); w ← ap_step enter_ap i a w; run bsp_id kernel_cr3 enter_ap l w
  end.

Lemma run_steps {K} `{StartupCalls K} bsp_id kernel_cr3 enter_ap l (w w' : World K) :
  run bsp_id kernel_cr3 enter_ap l w = Ret w' → rtc (step bsp_id kernel_cr3 enter_ap) w w'.
Proof.
  revert w. induction l as [|[p|i] l IH]; intros w; cbn.
  - by intros [= <-].
  - destruct (boxes w !! p) eqn:Hb; [done|]. intros (w1 & Hs & Hr)%bind_Ret_inv.
    eapply rtc_l; [by eapply step_bsp|by apply IH].
  - destruct (aps w !! i) as [a|] eqn:Ha; [|done]. cbn. intros (w1 & Hs & Hr)%bind_Ret_inv.
    eapply rtc_l; [by eapply step_ap|by apply IH].
Qed.

(** A kernel that hands out stacks of two pages and logs the calls. *)
Record Log := mkLog { stacks_end : Z; entries : list (Z * Z * Z) }.
Definition log_stack (base : Z) : KernelStack :=
  mkKernelStack (Region.mkRegion (Regions.mkRegionInfo base (base + 8192)) 0 8192).
Definition log_call (n : Z) (id : Z) (ks : KernelStack) (k : Log) : outcome Log :=
  top ← stack_top ks; Ret (mkLog (stacks_end k) (entries k ++ [(id, n, top)])).
#[global] Instance Log_calls : StartupCalls Log := {
  allocate_stack k := Ret (Ok (log_stack (stacks_end k)), mkLog (stacks_end k + 8192) (entries k));
  kstart_calls := [log_call 0; log_call 1] }.

Definition ex_procs : list Processor := [mkProcessor 1 true; mkProcessor 7 false; mkProcessor 2 true].
Definition ex_log : Log := mkLog KERNEL_HEAP_BASE [].
Definition ex_ap : Ap := mkAp PoweredUp 0 0 0 0 0 None.
Definition ex_world : World Log :=
  mkWorld ex_log ForAp ex_procs 0 0 {[1 := ex_ap; 7 := ex_ap; 2 := ex_ap]} (mkTrampoline 9 9 9 9) true false ∅.
Abbreviation ex_step := (step (K := Log) 0 0x5000 0x1234).
(** The boot processor alone up to its first wait, then processor 1 to its first
    call; and on to the end, the processors taking turns. *)
Definition ex_start : list choice := Bsp 96 :: replicate 7 (Bsp 97) ++ replicate 6 (Proc 1).
Definition ex_rest : list choice :=
  concat ((λ i, [Bsp (128 + i); Proc 1; Proc 2]) <$> seqZ 0 40).

Lemma ex_initial : initial ex_procs ex_log ex_world.
Proof.
  split; try done.
  - intros i a Ha. cbn in Ha. rewrite !lookup_insert_Some, lookup_singleton_Some in Ha. naive_solver.
  - intros i. vm_compute (waiting_ids ex_procs). rewrite !elem_of_cons, elem_of_nil.
    intros [->|[->|[]]]; by eexists.
Qed.

Lemma ex_ids : waiting_ids ex_procs = [1; 2].
Proof. reflexivity. Qed.
Lemma ex_nodup : NoDup (waiting_ids ex_procs).
Proof. rewrite ex_ids. apply (bool_decide_unpack _). by vm_compute. Qed.
Lemma ex_bound i : i ∈ waiting_ids ex_procs → 0 ≤ i < 256.
Proof. rewrite ex_ids, !elem_of_cons, elem_of_nil. lia. Qed.

Lemma startup_exclusive_witness :
  ∃ w a, run 0 0x5000 0x1234 ex_start ex_world = Ret w ∧ aps w !! 1 = Some a ∧ pc a = Kstart 0 ∧
    this_cpu a = 1 ∧ cr3 a = 0x5000.
Proof.
  assert (match run 0 0x5000 0x1234 ex_start ex_world with
          | Ret w => pc <$> aps w !! 1 | _ => None end = Some (Kstart 0)) as E by (vm_compute; reflexivity).
  destruct (run 0 0x5000 0x1234 ex_start ex_world) as [w| |] eqn:Hrun; [|done..].
  destruct (aps w !! 1) as [a|] eqn:Ha; [|done]. injection E as E.
  destruct (startup_exclusive 0 0x5000 0x1234 ex_procs ex_log ex_world w 1 a ex_nodup ex_bound ex_initial
    (run_steps _ _ _ _ _ _ Hrun) Ha) as (_ & _ & _ & _ & Hk); [by rewrite E|].
  destruct (Hk 0%nat E) as (H1 & H2 & _).
  exact (ex_intro _ w (ex_intro _ a (conj eq_refl (conj Ha (conj E (conj H1 H2)))))).
Defined.

Lemma startup_sequential_witness :
  ∃ w, run 0 0x5000 0x1234 (ex_start ++ ex_rest) ex_world = Ret w ∧ bsp w = Spawning ∧
    start_all [1; 2] ex_log = Ret (kernel w).
Proof.
  assert (match run 0 0x5000 0x1234 (ex_start ++ ex_rest) ex_world with
          | Ret w => Some (bsp w) | _ => None end = Some Spawning) as E by (vm_compute; reflexivity).
  destruct (run 0 0x5000 0x1234 (ex_start ++ ex_rest) ex_world) as [w| |] eqn:Hrun; [|done..]. injection E as E.
  destruct (startup_sequential 0 0x5000 0x1234 ex_procs ex_log ex_world w ex_nodup ex_bound ex_initial
    (run_steps _ _ _ _ _ _ Hrun)) as [Hs _]; [by auto|].
  exact (ex_intro _ w (conj eq_refl (conj E Hs))).
Defined.

Lemma startup_completes_witness :
  ∃ w' kf, rtc ex_step ex_world w' ∧ finished ex_procs w' ∧ kernel w' = kf ∧
    entries kf = [(1, 0, KERNEL_HEAP_BASE + 8192); (1, 1, KERNEL_HEAP_BASE + 8192);
                  (2, 0, KERNEL_HEAP_BASE + 16384); (2, 1, KERNEL_HEAP_BASE + 16384)].
Proof.
  destruct (startup_completes 0 0x5000 0x1234 ex_procs ex_log ex_world ex_world
    (mkLog (KERNEL_HEAP_BASE + 16384) [(1, 0, KERNEL_HEAP_BASE + 8192); (1, 1, KERNEL_HEAP_BASE + 8192);
       (2, 0, KERNEL_HEAP_BASE + 16384); (2, 1, KERNEL_HEAP_BASE + 16384)])
    ex_nodup ex_bound) as (w' & Hr & Hf & Hk).
  - rewrite ex_ids. apply (bool_decide_unpack _). by vm_compute.
  - vm_compute. reflexivity.
  - exact ex_initial.
  - reflexivity.
  - exact (ex_intro _ w' (ex_intro _ _ (conj Hr (conj Hf (conj Hk eq_refl))))).
Defined.

Lemma startup_terminates_witness :
  ∃ w, ex_step ex_world w ∧ (w = ex_world ∨ (distance ex_procs w < distance ex_procs ex_world)%nat).
Proof.
  assert (match bsp_step 0 0x5000 0x1234 96 ex_world with Ret _ => true | _ => false end = true) as E by (vm_compute; reflexivity).
  destruct (bsp_step 0 0x5000 0x1234 96 ex_world) as [w| |] eqn:Hs; [|done..].
  assert (ex_step ex_world w) as Hstep by (apply (step_bsp _ _ _ 96); [reflexivity|exact Hs]).
  exact (ex_intro _ w (conj Hstep
    (startup_terminates 0 0x5000 0x1234 ex_procs ex_log ex_world ex_world w ex_nodup ex_bound ex_initial (rtc_refl _ _) Hstep))).
Defined.
