(* ===== verification/Boot.v ===== *)
(** * What a processor does to join (init.rs [kstart_ap], the rest of devices/mod.rs)

    The calls [kstart_ap] makes, on the components themselves: this is the
    instance of [StartupCalls] the start-up protocol runs. Then the page tables
    an application processor starts on. *)
From S2P Require Import Prelude Align Physmem PageEntry PageTable RegionMapping Tasks Scheduler Descriptors LocalApic SimpleAlloc BootPaging Startup.

(** ** The calls of [kstart_ap] *)

(** What belongs to one processor: its descriptor tables, its thread-local
    [CPU_ID], its local APIC, its [CURRENT_TASK], and the locals of [kstart_ap]. *)
Record CpuState (D : Type) := mkCpuState {
  segments : Gdt.SegmentState; idt : list Idt.IdtEntry; idt_limit : Z; CPU_ID : Z;
  apic : @LocalApic.State D; current_task : Cpu;
  tcb_offset : Z; fault_stack : option KernelStack }.
Arguments mkCpuState {D}.
Arguments segments {D}.
Arguments idt {D}.
Arguments idt_limit {D}.
Arguments CPU_ID {D}.
Arguments apic {D}.
Arguments current_task {D}.
Arguments tcb_offset {D}.
Arguments fault_stack {D}.

(** And what all share: paging, the memory behind it, the tasks. *)
Record Kernel (S D : Type) := mkKernel {
  paging : S; bytes_ : Z → Z; stack_memory : gmap Z Z; task_directory : Tasks; cpu_states : gmap Z (CpuState D) }.
Arguments mkKernel {S D}.
Arguments paging {S D}.
Arguments bytes_ {S D}.
Arguments stack_memory {S D}.
Arguments task_directory {S D}.
Arguments cpu_states {S D}.

Section kstart.
Context {S D : Type} `{HeapRegions S} `{KernelStacks S} `{LocalApicDevice D}.
(** The linked image, the addresses of the interrupt stubs, and where the
    compiler puts the thread-local task state segment. *)
Context (linker : Linker) (address : Idt.handler → Z) (tss_at : Z → Z) (tss_size : Z).
Implicit Types k : Kernel S D.

Definition set_cpu k (id : Z) (c : CpuState D) : Kernel S D :=
  mkKernel (paging k) (bytes_ k) (stack_memory k) (task_directory k) (<[id := c]> (cpu_states k)).

(** [paging::init_ap(cpu_id)]. *)
Definition call_paging (id : Z) (ks : KernelStack) k : outcome (Kernel S D) :=
  c ← unwrap (cpu_states k !! id);
  r ← BootPaging.init_ap linker (paging k) (bytes_ k);
  Ret (set_cpu (mkKernel r.1.2 r.2 (stack_memory k) (task_directory k) (cpu_states k)) id
    (mkCpuState (segments c) (idt c) (idt_limit c) (CPU_ID c) (apic c) (current_task c) r.1.1 (fault_stack c))).

(** [paging::allocate_kernel_stack(..).expect(..)]. *)
Definition call_fault_stack (id : Z) (ks : KernelStack) k : outcome (Kernel S D) :=
  c ← unwrap (cpu_states k !! id);
  r ← allocate_kernel_stack (paging k);
  match r.1 with
  | Ok fs =>
      Ret (set_cpu (mkKernel r.2 (bytes_ k) (stack_memory k) (task_directory k) (cpu_states k)) id
        (mkCpuState (segments c) (idt c) (idt_limit c) (CPU_ID c) (apic c) (current_task c) (tcb_offset c) (Some fs)))
  | Err _ => Panic UnwrapNone
  end.

(** [gdt::init_ap(tcb_offset, &idle_thread_stack, &fault_stack)]. *)
Definition call_gdt (id : Z) (ks : KernelStack) k : outcome (Kernel S D) :=
  c ← unwrap (cpu_states k !! id);
  fs ← unwrap (fault_stack c);
  s ← Gdt.init_ap (segments c) (tcb_offset c) (tss_at (tcb_offset c)) tss_size ks fs;
  Ret (set_cpu k id
    (mkCpuState s (idt c) (idt_limit c) (CPU_ID c) (apic c) (current_task c) (tcb_offset c) (fault_stack c))).

(** [idt::init(false)]. *)
Definition call_idt (id : Z) (ks : KernelStack) k : outcome (Kernel S D) :=
  c ← unwrap (cpu_states k !! id);
  t ← Idt.init address false false;
  Ret (set_cpu k id
    (mkCpuState (segments c) t.1 t.2 (CPU_ID c) (apic c) (current_task c) (tcb_offset c) (fault_stack c))).

(** [CPU_ID.store(cpu_id, ..)]. *)
Definition call_cpu_id (id : Z) (ks : KernelStack) k : outcome (Kernel S D) :=
  c ← unwrap (cpu_states k !! id);
  Ret (set_cpu k id
    (mkCpuState (segments c) (idt c) (idt_limit c) id (apic c) (current_task c) (tcb_offset c) (fault_stack c))).

(** [devices::init_ap(cpu_id)]. *)
Definition call_devices (id : Z) (ks : KernelStack) k : outcome (Kernel S D) :=
  c ← unwrap (cpu_states k !! id);
  a ← LocalApic.init_ap (apic c);
  Ret (set_cpu k id
    (mkCpuState (segments c) (idt c) (idt_limit c) (CPU_ID c) a (current_task c) (tcb_offset c) (fault_stack c))).

(** [scheduler::init(cpu_id, false, idle_thread_stack).expect(..)]. *)
Definition call_scheduler (id : Z) (ks : KernelStack) k : outcome (Kernel S D) :=
  c ← unwrap (cpu_states k !! id);
  r ← Scheduler.init id (mkView (current_task c) (task_directory k) (stack_memory k) (paging k)) ks;
  match r.1 with
  | Success _ =>
      Ret (set_cpu (mkKernel (stacks r.2) (bytes_ k) (mem r.2) (tasks r.2) (cpu_states k)) id
        (mkCpuState (segments c) (idt c) (idt_limit c) (CPU_ID c) (apic c) (cpu r.2) (tcb_offset c) (fault_stack c)))
  | Failure _ => Panic UnwrapNone
  end.

#[global] Instance Kernel_calls : StartupCalls (Kernel S D) := {
  allocate_stack k :=
    r ← allocate_kernel_stack (paging k);
    Ret (r.1, mkKernel r.2 (bytes_ k) (stack_memory k) (task_directory k) (cpu_states k));
  kstart_calls := [call_paging; call_fault_stack; call_gdt; call_idt; call_cpu_id; call_devices; call_scheduler] }.

End kstart.

(** * Proofs *)

Section kstart_proofs.
Context {S D : Type} `{HeapRegions S} `{KernelStacks S} `{LocalApicLaws D}.
Context (linker : Linker) (address : Idt.handler → Z) (tss_at : Z → Z) (tss_size : Z).
Implicit Types k : Kernel S D.
Abbreviation kstart_ := (@kstart_all _ (Kernel_calls linker address tss_at tss_size)).

(** The idle task of a processor. *)
Definition idle_task (id pid : Z) (ks : KernelStack) : Task :=
  mkTask pid ArchContext.new (mkTaskData pid Running (mkTaskInit NO_TERMINATE ks (Some id) Idle)).

(** What [kstart_ap] has done for its processor: the thread-local base, the stacks
    of the task state segment, the interrupt table, the id, the local APIC and
    the idle task it now runs. *)
Record joined (id : Z) (ks : KernelStack) (tcb ti tf : Z) (ts : Tasks) (c : CpuState D) : Prop := {
  jn_fs_base : Gdt.fs_base (segments c) = tcb;
  jn_rsp0 : Gdt.tss_rsp (Gdt.tss (segments c)) !! 0%nat = Some ti;
  jn_ist : Gdt.tss_ist (Gdt.tss (segments c)) !! 0%nat = Some tf;
  jn_gates : ∀ v, (v < 256)%nat → ∃ e, idt c !! v = Some e ∧
    Idt.decode e = (λ '(h, i, d), Idt.mkGate (address h) 8 i 0xE d) <$> Idt.vector_spec false v;
  jn_id : CPU_ID c = id;
  jn_apic : ∃ d, access (apic c) = Some d ∧ spurious_register d = 0x1ff;
  jn_idle : ∃ r pid, Scheduler.current (current_task c) = Some (mkControl r ArchContext.new) ∧
    heap ts !! r = Some (idle_task id pid ks) }.

Lemma scheduler_init_ok (v : View S) id ks pid d' :
  generate_pid (directory (tasks v)) true = Ret (Success pid, d') → Scheduler.current (cpu v) = None →
  ∃ v', Scheduler.init id v ks = Ret (Success (length (heap (tasks v))), v') ∧
    Scheduler.current (cpu v') = Some (mkControl (length (heap (tasks v))) ArchContext.new) ∧
    heap (tasks v') = heap (tasks v) ++ [idle_task id pid ks] ∧ mem v' = mem v ∧ stacks v' = stacks v.
Proof.
  intros Hg Hc. unfold Scheduler.init, new_idle, create_task. rewrite Hg. cbn.
  unfold make_current, transition, deref. cbn. rewrite list_lookup_middle by done. cbn.
  unfold set_initial_task. cbn. rewrite Hc. cbn. eexists. split; [reflexivity|]. cbn.
  rewrite list_insert_middle. done.
Qed.

Definition others_kept (id : Z) k k' : Prop := ∀ j, j ≠ id → cpu_states k' !! j = cpu_states k !! j.

(** The result of one call, given the result of the function it calls. *)
Lemma call_paging_ok id ks k c tcb s b :
  cpu_states k !! id = Some c → BootPaging.init_ap linker (paging k) (bytes_ k) = Ret (tcb, s, b) →
  call_paging linker id ks k = Ret (set_cpu (mkKernel s b (stack_memory k) (task_directory k) (cpu_states k)) id
    (mkCpuState (segments c) (idt c) (idt_limit c) (CPU_ID c) (apic c) (current_task c) tcb (fault_stack c))).
Proof. intros Hc Hi. unfold call_paging. rewrite Hc. cbn. by rewrite Hi. Qed.

Lemma call_fault_stack_ok id ks k c fs s :
  cpu_states k !! id = Some c → allocate_kernel_stack (paging k) = Ret (Ok fs, s) →
  call_fault_stack id ks k = Ret (set_cpu (mkKernel s (bytes_ k) (stack_memory k) (task_directory k) (cpu_states k)) id
    (mkCpuState (segments c) (idt c) (idt_limit c) (CPU_ID c) (apic c) (current_task c) (tcb_offset c) (Some fs))).
Proof. intros Hc Hi. unfold call_fault_stack. rewrite Hc. cbn. by rewrite Hi. Qed.

Lemma call_gdt_ok id ks k c fs s :
  cpu_states k !! id = Some c → fault_stack c = Some fs →
  Gdt.init_ap (segments c) (tcb_offset c) (tss_at (tcb_offset c)) tss_size ks fs = Ret s →
  call_gdt tss_at tss_size id ks k = Ret (set_cpu k id
    (mkCpuState s (idt c) (idt_limit c) (CPU_ID c) (apic c) (current_task c) (tcb_offset c) (fault_stack c))).
Proof. intros Hc Hf Hi. unfold call_gdt. rewrite Hc. cbn [unwrap]. rewrite bind_bind_Ret, Hf. cbn [unwrap]. by rewrite bind_bind_Ret, Hi. Qed.

Lemma call_idt_ok id ks k c t :
  cpu_states k !! id = Some c → Idt.init address false false = Ret t →
  call_idt address id ks k = Ret (set_cpu k id
    (mkCpuState (segments c) t.1 t.2 (CPU_ID c) (apic c) (current_task c) (tcb_offset c) (fault_stack c))).
Proof. intros Hc Hi. unfold call_idt. rewrite Hc. cbn [unwrap]. by rewrite bind_bind_Ret, Hi. Qed.

Lemma call_cpu_id_ok id ks k c :
  cpu_states k !! id = Some c → call_cpu_id id ks k = Ret (set_cpu k id
    (mkCpuState (segments c) (idt c) (idt_limit c) id (apic c) (current_task c) (tcb_offset c) (fault_stack c))).
Proof. intros Hc. unfold call_cpu_id. by rewrite Hc. Qed.

Lemma call_devices_ok id ks k c d :
  cpu_states k !! id = Some c → access (apic c) = Some d →
  call_devices id ks k = Ret (set_cpu k id (mkCpuState (segments c) (idt c) (idt_limit c) (CPU_ID c)
    (LocalApic.mkState (Some (la_write 0xf0 0x1ff d)) (pics (apic c))) (current_task c) (tcb_offset c) (fault_stack c))).
Proof. intros Hc Hd. unfold call_devices, LocalApic.init_ap, local_apic_access. rewrite Hc. cbn. by rewrite Hd. Qed.

Lemma call_scheduler_ok id ks k c r v :
  cpu_states k !! id = Some c →
  Scheduler.init id (mkView (current_task c) (task_directory k) (stack_memory k) (paging k)) ks = Ret (Success r, v) →
  call_scheduler id ks k = Ret (set_cpu (mkKernel (stacks v) (bytes_ k) (mem v) (tasks v) (cpu_states k)) id
    (mkCpuState (segments c) (idt c) (idt_limit c) (CPU_ID c) (apic c) (cpu v) (tcb_offset c) (fault_stack c))).
Proof. intros Hc Hi. unfold call_scheduler. rewrite Hc. cbn [unwrap]. by rewrite bind_bind_Ret, Hi. Qed.

(** Reduce the fields of the records a call has just built. *)
Ltac fields := cbn [segments idt idt_limit CPU_ID apic current_task tcb_offset fault_stack
  paging bytes_ stack_memory task_directory cpu_states set_cpu fst snd].

(** C28: [kstart_ap] makes a processor ready: if paging gives it a thread-local
    block and a fault stack and there is a process identifier left, all seven
    calls succeed, whatever state the processor was in, and leave it with its
    thread-local base, its kernel and fault stacks in the task state segment,
    the interrupt table of an application processor, its id, its local APIC
    enabled and a new idle task of its own running; no other processor's state
    changes, and the tasks there were are still there. *)
Theorem kstart_ap_correct id ks k c d tcb s1 b1 fs s2 ti tf pid dir :
  cpu_states k !! id = Some c → access (apic c) = Some d → Scheduler.current (current_task c) = None →
  BootPaging.init_ap linker (paging k) (bytes_ k) = Ret (tcb, s1, b1) →
  allocate_kernel_stack s1 = Ret (Ok fs, s2) →
  stack_top ks = Ret ti → stack_top fs = Ret tf → 0 ≤ tss_at tcb < 2 ^ 64 → 0 ≤ tss_size < 2 ^ 20 →
  (∀ h, 0 ≤ address h < 2 ^ 64) →
  generate_pid (directory (task_directory k)) true = Ret (Success pid, dir) →
  ∃ k' c', kstart_ id ks k = Ret k' ∧ cpu_states k' !! id = Some c' ∧
    joined id ks tcb ti tf (task_directory k') c' ∧ others_kept id k k' ∧
    paging k' = s2 ∧ bytes_ k' = b1 ∧ heap (task_directory k) `prefix_of` heap (task_directory k').
Proof.
  intros Hc Hd Hcur Hpg Hst Hti Htf Htss Hsz Hadr Hpid.
  destruct (Idt.idt_init_ok address false Hadr) as (t & Hidt & _ & Hv).
  destruct (write_spurious 0x1ff d) as (Hsp & _ & _).
  unfold kstart_all. change kstart_calls with
    [call_paging linker; call_fault_stack; call_gdt tss_at tss_size; call_idt address; call_cpu_id; call_devices; call_scheduler].
  cbn [for_each]. rewrite (call_paging_ok _ _ _ _ _ _ _ Hc Hpg), bind_bind_Ret. fields.
  erewrite call_fault_stack_ok; [|apply lookup_insert_eq|fields; exact Hst]. rewrite bind_bind_Ret. fields.
  erewrite call_gdt_ok; [|apply lookup_insert_eq|reflexivity|fields; by apply Gdt.init_ap_ok]. rewrite bind_bind_Ret. fields.
  erewrite call_idt_ok; [|apply lookup_insert_eq|exact Hidt]. rewrite bind_bind_Ret. fields.
  erewrite call_cpu_id_ok; [|apply lookup_insert_eq]. rewrite bind_bind_Ret. fields.
  erewrite call_devices_ok; [|apply lookup_insert_eq|fields; exact Hd]. rewrite bind_bind_Ret. fields.
  destruct (scheduler_init_ok (mkView (current_task c) (task_directory k) (stack_memory k) s2) id ks pid dir Hpid Hcur)
    as (v' & Hsch & Hc' & Hh & _ & Hs').
  erewrite call_scheduler_ok; [|apply lookup_insert_eq|fields; exact Hsch]. rewrite bind_bind_Ret. fields.
  eexists _, _. split; [reflexivity|]. split; [apply lookup_insert_eq|]. split_and!.
  - split; cbn; [done|done|done| |done| |].
    + intros v Hv'. apply (proj1 (Hv v Hv')).
    + eexists. split; [reflexivity|done].
    + eexists _, pid. split; [exact Hc'|]. rewrite Hh. by apply list_lookup_middle.
  - intros j Hj. cbn. by rewrite !lookup_insert_ne by done.
  - exact Hs'.
  - done.
  - cbn in Hh |- *. rewrite Hh. by eexists.
Qed.
End kstart_proofs.

(** ** The tables of the trampoline *)

(** The block at the head of [start_aps]: the trampoline page mapped where it is,
    so that the processor can go on when it turns paging on. *)
Definition map_trampoline (m : Machine) : outcome Machine :=
  l ← lock_page_table m;
  r ← map_to l.2 l.1 TRAMPOLINE (Frame.containing_address TRAMPOLINE) PresentPageFlags.WRITABLE;
  match r.1 with
  | Err _ => Panic UnwrapNone
  | Ok f => Ret (unlock_page_table (flush f r.2))
  end.

(** The copy of the kernel's root table into the page at [TRAMPOLINE_P4], which
    [map_physical_memory] has made writable. *)
Definition copy_root (m : Machine) : outcome Machine :=
  phys_to_virt_addr (PageTable.cr3 m) PAGE_SIZE;;
  let page_table := Frame.containing_address (PageTable.cr3 m) in
  let trampoline_p4 := Frame.containing_address TRAMPOLINE_P4 in
  for_each (λ i m, Ret (write_pte m trampoline_p4 i (read_pte m page_table i))) (seqZ 0 512) m.

Definition prepare_trampoline (m : Machine) : outcome Machine := m ← map_trampoline m; copy_root m.

(** Copying entries one by one. *)
Lemma copy_entries src dst l m :
  src ≠ dst → ∃ m', for_each (λ i m, Ret (write_pte m dst i (read_pte m src i))) l m = Ret m' ∧
    (∀ f i, read_pte m' f i = if bool_decide (f = dst ∧ i ∈ l) then read_pte m src i else read_pte m f i) ∧
    frames m' = frames m ∧ PageTable.cr3 m' = PageTable.cr3 m ∧ page_lock m' = page_lock m ∧ tlb_events m' = tlb_events m.
Proof.
  intros Hne. revert m. induction l as [|i l IH]; intros m.
  { exists m. split_and!; try done. intros f i. rewrite bool_decide_false; [done|]. by intros [_ ?%elem_of_nil]. }
  cbn [for_each]. rewrite bind_bind_Ret. destruct (IH (write_pte m dst i (read_pte m src i))) as (m' & -> & Hr & Hst).
  exists m'. split_and!; [done| |apply Hst..]. intros f j. rewrite Hr, !read_write.
  rewrite (bool_decide_false (src = dst ∧ j = i)) by naive_solver.
  destruct (decide (f = dst)) as [->|Hf]; [|by rewrite !bool_decide_false by naive_solver].
  destruct (decide (j = i)) as [->|Hj].
  - rewrite (bool_decide_true (dst = dst ∧ i ∈ i :: l)) by set_solver.
    destruct (bool_decide (dst = dst ∧ i ∈ l)); [done|]. by rewrite bool_decide_true.
  - rewrite (bool_decide_false (dst = dst ∧ j = i)) by naive_solver.
    by rewrite (bool_decide_ext (dst = dst ∧ j ∈ i :: l) (dst = dst ∧ j ∈ l)) by set_solver.
Qed.

(** A walk sees only the tables of the tree. *)
Lemma hw_translate_ext m m' p4 p4' G F H va :
  tables_ok m p4 G F H →
  (∀ f l i, G !! f = Some l → l ≠ [] → read_pte m' f i = read_pte m f i) →
  read_pte m' p4' (p4_index va) = read_pte m p4 (p4_index va) → huge_entry m p4 (p4_index va) = false →
  hw_translate m' p4' va = hw_translate m p4 va.
Proof.
  intros Hok Hsame Hroot Hh4. unfold hw_translate.
  assert (next_table_frame m' p4' (p4_index va) = next_table_frame m p4 (p4_index va)) as ->
    by (unfold next_table_frame; by rewrite Hroot).
  destruct (next_table_frame m p4 (p4_index va)) as [p3|] eqn:N4; cbn; [|done].
  pose proof (tab_child _ _ _ _ _ Hok _ _ _ _ (tab_root _ _ _ _ _ Hok) ltac:(cbn; lia) N4 Hh4) as G3.
  assert (Hs : ∀ f l i, G !! f = Some l → l ≠ [] → next_table_frame m' f i = next_table_frame m f i ∧ huge_entry m' f i = huge_entry m f i)
    by (intros f l i Hf Hl; unfold next_table_frame, huge_entry; by rewrite (Hsame f l i Hf Hl)).
  destruct (Hs p3 _ (p3_index va) G3 ltac:(done)) as [-> ->].
  destruct (next_table_frame m p3 (p3_index va)) as [p2|] eqn:N3; cbn; [|done].
  destruct (huge_entry m p3 (p3_index va)) eqn:Hh3; [done|].
  pose proof (tab_child _ _ _ _ _ Hok _ _ _ _ G3 ltac:(cbn; lia) N3 Hh3) as G2.
  destruct (Hs p2 _ (p2_index va) G2 ltac:(done)) as [-> ->].
  destruct (next_table_frame m p2 (p2_index va)) as [p1|] eqn:N2; cbn; [|done].
  destruct (huge_entry m p2 (p2_index va)) eqn:Hh2; [done|].
  pose proof (tab_child _ _ _ _ _ Hok _ _ _ _ G2 ltac:(cbn; lia) N2 Hh2) as G1.
  by destruct (Hs p1 _ (p1_index va) G1 ltac:(done)) as [-> _].
Qed.

Lemma next_frame_ext m m' f f' i :
  read_pte m' f' i = read_pte m f i →
  next_table_frame m' f' i = next_table_frame m f i ∧ huge_entry m' f' i = huge_entry m f i.
Proof. intros E. unfold next_table_frame, huge_entry. by rewrite E. Qed.

(** A machine that differs in frames the tree does not own has the same tree. *)
Lemma tables_outside m m' p4 G F H :
  tables_ok m p4 G F H → frames m' = frames m → (∀ f i, f ∈ F ∪ H → read_pte m' f i = read_pte m f i) →
  tables_ok m' p4 G F H.
Proof.
  intros Hok Hf Hr. split; try apply Hok; [|rewrite Hf; apply Hok].
  intros f pre i c Hg Hl Hn Hh. destruct (next_frame_ext m m' f f i) as [E1 E2].
  { apply Hr. apply elem_of_union_r. by eapply tab_held. }
  rewrite E1 in Hn. rewrite E2 in Hh. by eapply tab_child.
Qed.

Lemma p4_index_range va : 0 ≤ p4_index va < 512.
Proof. unfold p4_index. apply index_range. Qed.

Lemma copy_root_ok m G F H :
  let p4 := PageTable.cr3 m / PAGE_SIZE in
  tables_ok m p4 G F H → PageTable.cr3 m = p4 * PAGE_SIZE → 7 ∉ F ∪ H →
  ∃ m', copy_root m = Ret m' ∧ tables_ok m' p4 G F H ∧
    (∀ va, huge_entry m p4 (p4_index va) = false →
       hw_translate m' 7 va = hw_translate m p4 va ∧ hw_translate m' p4 va = hw_translate m p4 va) ∧
    PageTable.cr3 m' = PageTable.cr3 m ∧ page_lock m' = page_lock m ∧ tlb_events m' = tlb_events m.
Proof.
  intros p4 Hok Hcr H7. pose proof (tab_root _ _ _ _ _ Hok) as Groot.
  pose proof (tab_range _ _ _ _ _ Hok _ _ Groot) as Hrange. unfold table_frame in Hrange.
  assert (Frame.containing_address (PageTable.cr3 m) = p4) as Ep4.
  { rewrite containing_address_shiftr, Z.shiftr_div_pow2 by (unfold is_usize, PAGE_SIZE in *; lia). done. }
  assert (Hin : ∀ f l, G !! f = Some l → f ≠ 7) by (intros f l Hf ->; apply H7, elem_of_union_r; by eapply tab_held).
  destruct (copy_entries p4 7 (seqZ 0 512) m (Hin _ _ Groot)) as (m' & Hrun & Hr & Hfr & Hst).
  assert (Hkeep : ∀ f i, f ≠ 7 → read_pte m' f i = read_pte m f i)
    by (intros f i Hf; rewrite Hr, bool_decide_false by naive_solver; done).
  exists m'. split_and!; try apply Hst.
  - unfold copy_root, phys_to_virt_addr. rewrite Ep4. change (Frame.containing_address TRAMPOLINE_P4) with 7.
    unfold PAGE_SIZE, IDENTITY_MAP_SIZE, IDENTITY_MAP_REGION in *.
    rewrite (uadd_ok _ 4096), bind_bind_Ret by lia. rewrite (proj2 (Z.ltb_lt _ _)) by lia. cbn [assert_].
    rewrite bind_bind_Ret, uadd_ok, bind_bind_Ret by lia. exact Hrun.
  - apply (tables_outside m m' p4 G F H Hok Hfr). intros f i Hf. apply Hkeep. intros ->. exact (H7 Hf).
  - intros va Hh. assert (p4_index va ∈ seqZ 0 512) as Hva by (apply elem_of_seqZ; pose proof (p4_index_range va); lia).
    split.
    + apply (hw_translate_ext m m' p4 7 G F H va Hok); [|rewrite Hr, bool_decide_true by exact (conj eq_refl Hva); reflexivity|exact Hh].
      intros f l i Hf _. exact (Hkeep f i (Hin f l Hf)).
    + apply (hw_translate_ext m m' p4 p4 G F H va Hok); [|exact (Hkeep _ _ (Hin _ _ Groot))|exact Hh].
      intros f l i Hf _. exact (Hkeep f i (Hin f l Hf)).
Qed.

(** Mapping a page makes no entry of the root a huge page. *)
Lemma mapped_root p4 m G F H page pte m1 G' F' H' va :
  mapped p4 m G F H page pte m1 G' F' H' →
  huge_entry m p4 (p4_index va) = false → huge_entry m1 p4 (p4_index va) = false.
Proof.
  intros Hm Hva. destruct (next_table_frame m p4 (p4_index va)) as [c|] eqn:N.
  - destruct (mp_other _ _ _ _ _ _ _ _ _ _ _ Hm p4 (p4_index va) c) as [_ E]; [|exact N|congruence].
    right. exists []. split; [exact (tab_root _ _ _ _ _ (mp_ok _ _ _ _ _ _ _ _ _ _ _ Hm))|cbn; lia].
  - apply (mp_plain _ _ _ _ _ _ _ _ _ _ _ Hm va). split; [exact Hva|]. intros t3 Ht3. congruence.
Qed.

(** And the addresses of the page go where its entry says. *)
Lemma mapped_page p4 m G F H page pte m1 G' F' H' va :
  mapped p4 m G F H page (Present.to_raw pte) m1 G' F' H' → plain m p4 page →
  Raw.present (Present.to_raw pte) = PteOk pte → same_page page va →
  huge_entry m1 p4 (p4_index va) = false ∧
  hw_translate m1 p4 va = Some (Present.frame pte * PAGE_SIZE + va mod 2 ^ 12).
Proof.
  intros Hm Hpl Hpr Hsp.
  assert (plain m p4 va) as Hplx by (destruct Hsp as (E4 & E3 & E2 & _); unfold plain; by rewrite <- E4, <- E3, <- E2).
  pose proof (mp_plain _ _ _ _ _ _ _ _ _ _ _ Hm _ Hplx) as Hpl1. split; [exact (proj1 Hpl1)|].
  apply plain_hw; [exact Hpl1|].
  rewrite (mp_translate _ _ _ _ _ _ _ _ _ _ _ Hm) by exact Hplx. by rewrite decide_True by exact Hsp.
Qed.


(** ** Witnesses *)

#[global] Instance Fresh_stacks : KernelStacks FreshRegions := {
  allocate_kernel_stack s :=
    Ret (Ok (mkKernelStack (fresh_region (fresh_base s) DEFAULT_KERNEL_STACK_PAGES)),
         mkFresh (fresh_base s + DEFAULT_KERNEL_STACK_PAGES * PAGE_SIZE)) }.

Definition ex_cpu : CpuState Apic :=
  mkCpuState (Gdt.mkSegments 0 [] 0 0 0 0 0 0 0 0 0 Gdt.TSS) [] 0 0
    (LocalApic.mkState (Some example_apic) example_pics) (mkCpu None None ArchContext.new) 0 None.
Definition ex_kernel : Kernel FreshRegions Apic :=
  mkKernel (mkFresh KERNEL_HEAP_BASE) (λ a, a mod 251) ∅ TASK_DIRECTORY {[1 := ex_cpu]}.
Definition ex_stack : KernelStack := mkKernelStack (fresh_region 0xffffff8010000000 32).

Lemma kstart_ap_correct_witness :
  ∃ k' c', @kstart_all _ (Kernel_calls boot_linker (λ _, 0x201000) (λ tcb, tcb - 4088) 104) 1 ex_stack ex_kernel = Ret k' ∧
    cpu_states k' !! 1 = Some c' ∧ CPU_ID c' = 1 ∧ Gdt.fs_base (segments c') = KERNEL_HEAP_BASE + 4088.
Proof.
  assert (match BootPaging.init_ap boot_linker (mkFresh KERNEL_HEAP_BASE) (λ a, a mod 251) with
          | Ret (t, s, _) => Some (t, fresh_base s) | _ => None end =
          Some (KERNEL_HEAP_BASE + 4088, KERNEL_HEAP_BASE + 4096)) as E by (vm_compute; reflexivity).
  destruct (BootPaging.init_ap boot_linker (mkFresh KERNEL_HEAP_BASE) (λ a, a mod 251)) as [[[tcb s] b]| |] eqn:Hi; [|done..].
  injection E as -> E.
  destruct (kstart_ap_correct boot_linker (λ _, 0x201000) (λ tcb, tcb - 4088) 104 1 ex_stack ex_kernel ex_cpu example_apic
    (KERNEL_HEAP_BASE + 4088) s b (mkKernelStack (fresh_region (KERNEL_HEAP_BASE + 4096) 32))
    (mkFresh (KERNEL_HEAP_BASE + 4096 + 32 * 4096)) (0xffffff8010000000 + 32 * 4096) (KERNEL_HEAP_BASE + 4096 + 32 * 4096)
    FIRST_SYSTEM_PID (match generate_pid new_directory true with Ret r => r.2 | _ => new_directory end))
    as (k' & c' & Hr & Hc & Hj & _).
  - reflexivity.
  - reflexivity.
  - reflexivity.
  - exact Hi.
  - cbn. rewrite E. reflexivity.
  - vm_compute. reflexivity.
  - vm_compute. reflexivity.
  - vm_compute. split; [discriminate|reflexivity].
  - lia.
  - intros _. lia.
  - vm_compute. reflexivity.
  - exact (ex_intro _ k' (ex_intro _ c' (conj Hr (conj Hc (conj (jn_id _ _ _ _ _ _ _ _ Hj) (jn_fs_base _ _ _ _ _ _ _ _ Hj)))))).
Defined.

