(* ===== verification/Kstart.v ===== *)
(** * The boot processor (init.rs [kstart], [init_post_paging] and the panic handler,
    paging/kernel_stack.rs, acpi/mod.rs)

    [kstart] brings up memory (BringUp) and ends on a new stack; what follows gives
    the boot processor its descriptor tables and the frame database the memory the
    loader no longer needs, and reads the firmware's tables through the identity
    window. The ACPI and AML libraries are parameters. *)
From S2P Require Import Prelude Align AllocFreeList Physmem PageEntry PageTable Regions RegionMapping RegionRanges PagingState SimpleAlloc Tasks Scheduler Descriptors LocalApic BootPaging PagingGrowth HeapPaging PagingInit BringUp Boot.

(** ** Changing to a new stack *)

Module StackSwitch.
Section switch.
(** [F] stands for closures: what runs is [function] applied to the stack. *)
Context {F : Type}.

Record Trampoline := mkTrampoline { stack : KernelStack; function : F }.

(** The boxes on the heap, and the two registers the assembly loads. *)
Record State := mkState { boxes : gmap Z Trampoline; rsp : Z; rdi : Z }.

(** [trampoline] is where [Box::into_raw] puts the box. *)
Definition switch_to_trampoline (trampoline : Z) (t : Trampoline) (s : State) : outcome State :=
  stack_pointer ← stack_top (stack t);
  Ret (mkState (<[trampoline := t]> (boxes s)) stack_pointer trampoline).

(** The function that runs next, its argument, and the state it runs in. *)
Definition stack_switch_entry (s : State) : outcome (F * KernelStack * State) :=
  t ← unwrap (boxes s !! rdi s);
  Ret (function t, stack t, mkState (delete (rdi s) (boxes s)) (rsp s) (rdi s)).

Definition switch_to_permanent (trampoline : Z) (self : KernelStack) (f : F) (s : State)
    : outcome (F * KernelStack * State) :=
  s ← switch_to_trampoline trampoline (mkTrampoline self f) s; stack_switch_entry s.

End switch.
Arguments Trampoline : clear implicits.
Arguments State : clear implicits.

(** The function runs with the stack pointer at the top of the stack it is given,
    and the box it came in is gone. *)
Lemma switch_to_permanent_ok {F} trampoline self (f : F) s top :
  stack_top self = Ret top → boxes s !! trampoline = None →
  switch_to_permanent trampoline self f s = Ret (f, self, mkState (boxes s) top trampoline).
Proof.
  intros Ht Hb. unfold switch_to_permanent, switch_to_trampoline, stack_switch_entry. cbn.
  rewrite Ht. cbn. rewrite lookup_insert_eq. cbn. by rewrite delete_insert_id.
Qed.

End StackSwitch.

(** ** The firmware's tables *)

Module Acpi.

(** The library's record of a mapping. *)
Record PhysicalMapping := mkMapping {
  physical_start : Z; virtual_start : Z; region_length : Z; mapped_length : Z }.

Definition map_physical_region (physical_address size : Z) : outcome PhysicalMapping :=
  virtual_addr ← phys_to_virt_addr physical_address size;
  v ← unwrap (if virtual_addr =? 0 then None else Some virtual_addr);
  Ret (mkMapping physical_address v size size).

(** Nothing to undo. *)
Definition unmap_physical_region {S} (region : PhysicalMapping) (s : S) : S := s.

(** What AML code may ask of the kernel. None of it is there yet. *)
Inductive AmlCall :=
  | read_u8 (address : Z) | read_u16 (address : Z) | read_u32 (address : Z) | read_u64 (address : Z)
  | write_u8 (address value : Z) | write_u16 (address value : Z)
  | write_u32 (address value : Z) | write_u64 (address value : Z)
  | read_io_u8 (port : Z) | read_io_u16 (port : Z) | read_io_u32 (port : Z)
  | write_io_u8 (port value : Z) | write_io_u16 (port value : Z) | write_io_u32 (port value : Z)
  | read_pci_u8 (segment bus device function offset : Z)
  | read_pci_u16 (segment bus device function offset : Z)
  | read_pci_u32 (segment bus device function offset : Z)
  | write_pci_u8 (segment bus device function offset value : Z)
  | write_pci_u16 (segment bus device function offset value : Z)
  | write_pci_u32 (segment bus device function offset value : Z).

Definition aml_call (c : AmlCall) : outcome Z := Panic Unimplemented.

(** What the kernel reads of the library's context. *)
Record AmlTable := mkTable { address : Z; table_length : Z }.
Record AcpiContext := mkContext { dsdt : option AmlTable; ssdts : list AmlTable }.

Section new.
(** The AML interpreter: its state, the state it starts in, and [parse_table],
    which may call the kernel and may fail. *)
Context {A : Type} (aml_new : A) (parse_table : (AmlCall → outcome Z) → A → list Z → outcome (option A)).
(** Physical memory, byte by byte, and the tables the kernel runs on. *)
Context (phys : Z → Z) (m : Machine) (p4 : Z).

(** A slice, read through the tables; an address without translation faults. *)
Fixpoint read_slice (va : Z) (len : nat) : outcome (list Z) :=
  match len with
  | O => Ret []
  | S len' =>
      pa ← unwrap (hw_translate m p4 va);
      l ← read_slice (va + 1) len';
      Ret (phys pa :: l)
  end.

(** The body of the [if] and of the loop. *)
Definition parse_one (t : AmlTable) (aml : A) : outcome A :=
  v ← phys_to_virt_addr (address t) (table_length t);
  data ← read_slice v (Z.to_nat (table_length t));
  r ← parse_table aml_call aml data;
  unwrap r.

(** [rsdp] is what the library's search of the BIOS area finds. *)
Definition new (rsdp : option AcpiContext) : outcome (AcpiContext * A) :=
  ctx ← unwrap rsdp;
  aml ← match dsdt ctx with Some t => parse_one t aml_new | None => Ret aml_new end;
  aml ← for_each parse_one (ssdts ctx) aml;
  Ret (ctx, aml).

Definition init_bsp (ACPI : option (AcpiContext * A)) (rsdp : option AcpiContext)
    : outcome (option (AcpiContext * A)) :=
  a ← new rsdp; Ret (Some a).

(** The tables in the order in which they are parsed, and what is in them. *)
Definition tables_of (ctx : AcpiContext) : list AmlTable := option_list (dsdt ctx) ++ ssdts ctx.
Definition contents (t : AmlTable) : list Z := phys <$> seqZ (address t) (table_length t).
Definition in_window (t : AmlTable) : Prop :=
  0 ≤ address t ∧ 0 ≤ table_length t ∧ address t + table_length t < IDENTITY_MAP_SIZE.

Context (Hwindow : ∀ pa, 0 ≤ pa < IDENTITY_MAP_SIZE → hw_translate m p4 (IDENTITY_MAP_REGION + pa) = Some pa).

Lemma window_address pa len :
  0 ≤ pa → 0 ≤ len → pa + len < IDENTITY_MAP_SIZE → phys_to_virt_addr pa len = Ret (IDENTITY_MAP_REGION + pa).
Proof.
  unfold phys_to_virt_addr, IDENTITY_MAP_SIZE, IDENTITY_MAP_REGION. intros Hpa Hlen Hlt.
  rewrite (uadd_ok pa len) by lia. rewrite bind_bind_Ret, (proj2 (Z.ltb_lt _ _)) by done. cbn [assert_].
  rewrite bind_bind_Ret, uadd_ok by lia. f_equal. lia.
Qed.

Lemma read_window len : ∀ pa,
  0 ≤ pa → pa + Z.of_nat len ≤ IDENTITY_MAP_SIZE →
  read_slice (IDENTITY_MAP_REGION + pa) len = Ret (phys <$> seqZ pa (Z.of_nat len)).
Proof.
  induction len as [|len IH]; intros pa Hpa Hle; cbn [read_slice]; [by rewrite seqZ_nil by lia|].
  rewrite Hwindow by lia. cbn [unwrap]. rewrite bind_bind_Ret, <- Z.add_assoc, IH by lia. cbn [mbind outcome_bind].
  rewrite (seqZ_cons pa) by lia. cbn [fmap list_fmap]. by replace (Z.pred (Z.of_nat (S len))) with (Z.of_nat len) by lia.
Qed.

Lemma parse_one_ok t aml :
  in_window t → parse_one t aml = (r ← parse_table aml_call aml (contents t); unwrap r).
Proof.
  intros (Ha & Hl & Hlt). unfold parse_one, contents. rewrite window_address, bind_bind_Ret by done.
  by rewrite read_window, bind_bind_Ret, Z2Nat.id by lia.
Qed.

Lemma parse_tables_ok l : ∀ aml,
  Forall in_window l →
  for_each parse_one l aml = for_each (λ d aml, r ← parse_table aml_call aml d; unwrap r) (contents <$> l) aml.
Proof.
  induction l as [|t l IH]; intros aml Hin; [done|]. apply Forall_cons in Hin as [Ht Hin].
  cbn [for_each fmap list_fmap]. rewrite parse_one_ok by done.
  apply bind_ext. intros a. by apply IH.
Qed.

(** C30: the firmware's tables. On tables that have the identity window, every byte
    the ACPI library reads through a mapping it asked for is the byte of physical
    memory it asked for; and if the tables it finds lie inside the window, [new]
    runs the AML interpreter on the DSDT, then on each SSDT in order, with exactly
    their contents, and panics where the interpreter does or fails. Without a root
    pointer, or with a DSDT that ends outside the window, it panics. *)
Theorem acpi_new_correct :
  (∀ pa len, 0 ≤ pa → 0 ≤ len → pa + len < IDENTITY_MAP_SIZE →
     ∃ r, map_physical_region pa len = Ret r ∧ mapped_length r = len ∧
       ∀ i, 0 ≤ i < len → hw_translate m p4 (virtual_start r + i) = Some (physical_start r + i) ∧ physical_start r = pa) ∧
  (∀ ctx, Forall in_window (tables_of ctx) →
     new (Some ctx) =
       (aml ← for_each (λ d aml, r ← parse_table aml_call aml d; unwrap r) (contents <$> tables_of ctx) aml_new;
        Ret (ctx, aml))) ∧
  new None = Panic UnwrapNone ∧
  (∀ ctx t, dsdt ctx = Some t → 0 ≤ address t → IDENTITY_MAP_SIZE ≤ address t + table_length t < usize_limit →
     new (Some ctx) = Panic AssertFailed).
Proof.
  split_and!.
  - intros pa len Hpa Hlen Hlt. unfold map_physical_region. rewrite window_address, bind_bind_Ret by done.
    rewrite (proj2 (Z.eqb_neq _ _)) by (unfold IDENTITY_MAP_REGION; lia). cbn [unwrap]. rewrite bind_bind_Ret.
    eexists. split; [done|]. split; [done|]. intros i Hi. cbn. split; [|done]. rewrite <- Z.add_assoc. apply Hwindow. lia.
  - intros ctx [Hd Hs]%Forall_app. unfold new, tables_of. cbn [unwrap]. rewrite bind_bind_Ret, fmap_app, for_each_app.
    destruct (dsdt ctx) as [t|].
    + change (contents <$> option_list (Some t)) with [contents t]. cbn [for_each]. apply Forall_cons in Hd as [Ht _]. rewrite parse_one_ok by done.
      destruct (r ← parse_table aml_call aml_new (contents t); unwrap r); cbn [mbind outcome_bind]; [|done..].
      by rewrite parse_tables_ok.
    + change (contents <$> option_list None) with (@nil (list Z)). cbn [for_each mbind outcome_bind]. by rewrite parse_tables_ok.
  - done.
  - intros ctx t Et Ha Hlt. unfold new. cbn [unwrap]. rewrite bind_bind_Ret, Et.
    unfold parse_one, phys_to_virt_addr. rewrite (uadd_ok (address t) (table_length t)) by lia.
    rewrite bind_bind_Ret, (proj2 (Z.ltb_ge _ _)) by lia. done.
Qed.

End new.

End Acpi.

(** ** The panic handler *)

(** [ipi(Halt, Other)], then this processor stops: it never returns. *)
Definition panic_handler {D} `{LocalApicDevice D} (fuel : nat) (s : @LocalApic.State D)
    : option (@LocalApic.State D * list event) :=
  s ← ipi fuel Halt Other s; Some (s, [DisableAndHalt]).

(** The whole machine stops: the one command the handler sends goes to every other
    processor, and the function behind its vector stops the one it runs on. *)
Lemma panic_stops_all {D} `{LocalApicLaws D} (d d2 : D) pics pics2 :
  ∃ fuel d', sent d' = sent d ++ [ipi_icr Halt Other] ∧ ∀ fuel', (fuel ≤ fuel')%nat →
    panic_handler fuel' (LocalApic.mkState (Some d) pics) = Some (LocalApic.mkState (Some d') pics, [DisableAndHalt]) ∧
    handle fuel' (handler_of Halt) (LocalApic.mkState (Some d2) pics2) =
      Ret (Some (LocalApic.mkState (Some (eoi d2)) pics2, [DisableAndHalt])).
Proof.
  destruct (ipi_ok Halt Other d pics) as (fuel & d' & Hrun & Hs & _). exists fuel, d'. split; [done|].
  intros fuel' Hf. split; [|done]. unfold panic_handler. by rewrite (Hrun fuel' Hf).
Qed.

(** ** The boot processor *)

Section bsp.
Context {D : Type} `{BootMemoryMap}.
Context (address : Idt.handler → Z) (tss_at : Z → Z) (tss_size : Z).

(** [init_post_paging] up to the devices: the descriptor tables, the id, and the
    memory the loader used. *)
Definition init_post_paging (idle_thread_stack fault_stack : KernelStack) (tcb_offset : Z)
    (memory_map : list MemoryRegion) (k : Kernel Paging D) : outcome (Kernel Paging D) :=
  c ← unwrap (cpu_states k !! 0);
  s ← Gdt.init_post_paging (segments c) tcb_offset (tss_at tcb_offset) tss_size idle_thread_stack fault_stack;
  t ← Idt.init address false true;
  fr ← Physmem.init_reclaim (frames (machine (paging k))) memory_map;
  Ret (set_cpu (mkKernel (mkPaging (manager (paging k)) (set_frames (machine (paging k)) fr)) (bytes_ k)
                  (stack_memory k) (task_directory k) (cpu_states k)) 0
         (mkCpuState s t.1 t.2 0 (apic c) (current_task c) tcb_offset (Some fault_stack))).

(** The frames [init_reclaim] adds. *)
Definition reclaimed (memory_map : list MemoryRegion) : gset Z :=
  zone_reclaimable Physmem.Low memory_map ∪ zone_reclaimable Physmem.Normal memory_map ∪ zone_reclaimable Physmem.High memory_map.

(** With the frame database covering the memory map, [init_post_paging] loads the
    processor's descriptor tables without a fault, with its thread-local base, its
    kernel and fault stacks and the interrupt table of the boot processor, and adds
    exactly the frames the loader no longer needs; the region table, the page tables
    and the frame database still agree, and no frame in use becomes free. *)
Lemma init_post_paging_bsp_ok N B L memory_map k c ch l G F H0 idle fault tcb ti tf :
  paging_ok N B L (paging k) ch l G F H0 → cpu_states k !! 0 = Some c →
  map_ok memory_map → (∀ z, covered (frames (machine (paging k))) memory_map z) →
  F ∪ H0 ⊆ list_to_set (map_frames usable memory_map) →
  (∀ f, f ∈ reclaimed memory_map → f < 2 ^ 40 ∧ f ≠ 1048575) →
  stack_top idle = Ret ti → stack_top fault = Ret tf → 0 ≤ tss_at tcb < 2 ^ 64 → 0 ≤ tss_size < 2 ^ 20 →
  (∀ h, 0 ≤ address h < 2 ^ 64) →
  ∃ fr k' c', init_post_paging idle fault tcb memory_map k = Ret k' ∧ cpu_states k' !! 0 = Some c' ∧
    paging k' = with_frames (paging k) fr ∧ bytes_ k' = bytes_ k ∧
    paging_ok N B L (paging k') ch l G (F ∪ reclaimed memory_map) H0 ∧
    Gdt.fs_base (segments c') = tcb ∧ CPU_ID c' = 0 ∧
    Gdt.tss_rsp (Gdt.tss (segments c')) !! 0%nat = Some ti ∧ Gdt.tss_ist (Gdt.tss (segments c')) !! 0%nat = Some tf ∧
    (∀ v, (v < 256)%nat → ∃ e, idt c' !! v = Some e ∧
       Idt.decode e = (λ '(h, i, d), Idt.mkGate (address h) 8 i 0xE d) <$> Idt.vector_spec true v).
Proof.
  intros Hpk Hc Hmap Hcov Hus Hrec Hti Htf Htss Hsz Hadr.
  pose proof (pk_tables _ _ _ _ _ _ _ _ _ Hpk) as Hok.
  destruct (init_reclaim_correct _ F H0 memory_map Hmap (tab_phys _ _ _ _ _ Hok) Hcov Hus) as (fr & Hr & Hown).
  destruct (Idt.idt_init_ok address true Hadr) as (t & Hidt & _ & Hv).
  destruct (Gdt.tss_entries (tss_at tcb) tss_size) as [low high] eqn:He.
  destruct (Gdt.tss_entries_ok _ _ _ _ Htss Hsz He) as (_ & _ & Hty & Hp & _).
  unfold init_post_paging. rewrite Hc. cbn [unwrap]. rewrite bind_bind_Ret.
  rewrite (Gdt.init_post_paging_ok _ _ _ _ _ _ ti tf low high He Hp Hty Hti Htf), bind_bind_Ret.
  rewrite Hidt, bind_bind_Ret, Hr, bind_bind_Ret.
  eexists fr, _, _. split; [reflexivity|]. split; [apply lookup_insert_eq|]. split; [done|]. split; [done|].
  split; [|split_and!; [reflexivity..|intros v Hv'; apply (proj1 (Hv v Hv'))]].
  - cbn [paging set_cpu]. unfold reclaimed. rewrite !(assoc_L (∪)).
    eapply paging_frames_ok; [exact Hpk|exact Hown| |].
    + intros Hf. pose proof (tab_last _ _ _ _ _ Hok). rewrite <- !(assoc_L (∪)) in Hf. apply elem_of_union in Hf as [?|Hf]; [done|].
      destruct (Hrec 1048575); [|done]. unfold reclaimed. by rewrite <- !(assoc_L (∪)).
    + intros f. rewrite <- !(assoc_L (∪)). intros [Hf|Hf]%elem_of_union; [apply (pk_reach _ _ _ _ _ _ _ _ _ Hpk); by apply elem_of_union_l|].
      apply Hrec. unfold reclaimed. by rewrite <- !(assoc_L (∪)).
Qed.

End bsp.

(** ** From the loader to the devices *)

(** [idt::early_init] loads a table without entries. *)
Definition INIT_IDTR : list Idt.IdtEntry * Z := ([], 0).

Section kstart.
Context {D : Type} `{BootMemoryMap}.
Context (address : Idt.handler → Z) (tss_at : Z → Z) (tss_size : Z).
Context (size_of_HeapRegion free_list_offset size_of_MemoryRegion align_of_MemoryRegion INITIAL_HEAP_REGION : Z).
Context (N : nat) (page_size : Z).

(** [kstart], and [init_post_paging] up to the devices: the kernel, the heap, and the
    stack pointer. [trampoline] is where the box of the closure goes. *)
Definition kstart (trampoline : Z) (has_1gib_pages : option bool) (physical_memory_offset : Z)
    (memory_map : list MemoryRegion) (l : Linker) (rsp0 : Z) (k : Kernel Paging D)
    : outcome (Kernel Paging D * option (list HeapRegion) * Z) :=
  pre_init physical_memory_offset;;
  c ← unwrap (cpu_states k !! 0);
  g ← Gdt.init (segments c);
  let c := mkCpuState g INIT_IDTR.1 INIT_IDTR.2 (CPU_ID c) (apic c) (current_task c) (tcb_offset c) (fault_stack c) in
  r ← kstart_memory size_of_HeapRegion free_list_offset size_of_MemoryRegion align_of_MemoryRegion INITIAL_HEAP_REGION
        N page_size has_1gib_pages memory_map l (paging k) (bytes_ k);
  let '(tcb_offset, idle_thread_stack, fault_stack, m, b) := r in
  let k := set_cpu (mkKernel (mem_paging m) b (stack_memory k) (task_directory k) (cpu_states k)) 0 c in
  s ← StackSwitch.switch_to_permanent trampoline idle_thread_stack
        (λ stack, init_post_paging address tss_at tss_size stack fault_stack tcb_offset memory_map)
        (StackSwitch.mkState ∅ rsp0 0);
  k ← s.1.1 s.1.2 k;
  Ret (k, allocator m, StackSwitch.rsp s.2).

Lemma usable_in_map memory_map : all_usable memory_map ⊆ list_to_set (map_frames usable memory_map).
Proof.
  intros f [z Hf]%elem_of_all_usable. apply elem_of_list_to_set.
  by apply elem_of_list_to_set, elem_of_window in Hf as [_ Hf].
Qed.


End kstart.

(** ** Witnesses *)

(** An interpreter that adds up the first bytes of the tables it is given, on the
    page tables [init] builds. *)
Definition sum_tables (_ : Acpi.AmlCall → outcome Z) (a : Z) (d : list Z) : outcome (option Z) := Ret (Some (a + default 0 (head d))).

Lemma acpi_new_correct_witness :
  ∃ m p4, Acpi.new 0 sum_tables (λ pa, pa mod 251) m p4 (Some (Acpi.mkContext (Some (Acpi.mkTable 0xe0000 16)) [Acpi.mkTable 0xe1000 8])) =
    Ret (Acpi.mkContext (Some (Acpi.mkTable 0xe0000 16)) [Acpi.mkTable 0xe1000 8], 0xe0000 mod 251 + 0xe1000 mod 251).
Proof.
  destruct (build_tables_ok boot_linker boot_machine (free_set boot_region) ∅ boot_frame)
    as (p4 & m & G & F & H & _ & Hb).
  - split; [done|by cbn; vm_compute|done|done].
  - apply boot_machine_owns.
  - intros ?%boot_region_range. lia.
  - intros f i Hf%boot_region_range. cbn. unfold boot_tables. by rewrite (proj2 (Z.ltb_lt _ _)) by lia.
  - apply Nat.leb_le. vm_compute. reflexivity.
  - done.
  - done.
  - exact boot_machine_maps.
  - exists m, p4.
    destruct (Acpi.acpi_new_correct 0 sum_tables (λ pa, pa mod 251) m p4
      (λ pa, identity_mapped_hw m p4 pa (bt_window _ _ _ _ _ _ _ _ _ _ Hb))) as (_ & Hn & _).
    etransitivity; [apply Hn|reflexivity].
    repeat constructor; unfold IDENTITY_MAP_SIZE; cbn; lia.
Defined.

(** The machine the loader leaves in BringUp, with one processor. *)
Definition loaded_kernel : Kernel Paging Apic :=
  mkKernel loaded_paging (λ a, a mod 251) ∅ TASK_DIRECTORY {[0 := ex_cpu]}.

Lemma kernel_reclaimed f : f ∈ reclaimed (H := example_boot) kernel_map → f < 2 ^ 40 ∧ f ≠ 1048575.
Proof.
  assert (Forall (λ f, f < 3000) (elements (reclaimed (H := example_boot) kernel_map))) as Hz
    by (apply (bool_decide_unpack _); vm_compute; exact I).
  rewrite Forall_forall in Hz. intros Hf%elem_of_elements%Hz. lia.
Qed.

