(* ===== verification/Harness.v ===== *)
(** * The test harness (lib.rs [Testable], [test_runner], [test_panic_handler],
    [exit_qemu])

    Tests run one after the other on the state of the kernel; a test fails by
    panicking, and the panic handler of a test build then reports the failure to the
    emulator. What leaves the machine is what is sent to the serial port and what is
    written to the port of the emulator's exit device. *)
From S2P Require Import Prelude.

Inductive QemuExitCode := Success | Failed.
Definition exit_code (c : QemuExitCode) : Z := match c with Success => 0x10 | Failed => 0x11 end.

(** The messages, and a write to a port. *)
Inductive event :=
  | Running (tests : nat) | Name (test : Z) | SayOk | SayFailed | SayError (info : panic_reason)
  | Port (port value : Z).

Definition exit_qemu (c : QemuExitCode) (log : list event) : list event := log ++ [Port 0xf4 (exit_code c)].

Definition test_panic_handler (info : panic_reason) (log : list event) : list event :=
  exit_qemu Failed (log ++ [SayFailed; SayError info]).

Section tests.
Context {S : Type}.
(** A test, and the name of its type. *)
Record Testable := mkTestable { type_name : Z; call : S → outcome S }.

(** [Testable::run]: what was sent, and how the test ended. *)
Definition run (t : Testable) (s : S) (log : list event) : list event * outcome S :=
  let log := log ++ [Name (type_name t)] in
  match call t s with
  | Ret s' => (log ++ [SayOk], Ret s')
  | r => (log, r)
  end.

Fixpoint run_all (tests : list Testable) (s : S) (log : list event) : list event * outcome S :=
  match tests with
  | [] => (log, Ret s)
  | t :: rest =>
      match run t s log with
      | (log, Ret s') => run_all rest s' log
      | r => r
      end
  end.

(** [test_runner], with the panic handler behind it. *)
Definition test_runner (tests : list Testable) (s : S) (log : list event) : list event :=
  match run_all tests s (log ++ [Running (length tests)]) with
  | (log, Ret _) => exit_qemu Success log
  | (log, Panic info) => test_panic_handler info log
  | (log, Hang) => log
  end.

(** ** What the emulator sees *)

(** What the exit device is sent; the first value ends the emulation. *)
Definition exit_values (log : list event) : list Z :=
  omap (λ e, match e with Port 0xf4 v => Some v | _ => None end) log.

Lemma exit_values_app log log' : exit_values (log ++ log') = exit_values log ++ exit_values log'.
Proof. apply omap_app. Qed.

(** The tests in sequence. *)
Definition all_tests (tests : list Testable) (s : S) : outcome S := for_each call tests s.

Lemma run_all_ok tests : ∀ s log,
  ∃ said, run_all tests s log = (log ++ said, all_tests tests s) ∧ exit_values said = [].
Proof.
  induction tests as [|t rest IH]; intros s log; cbn [run_all].
  { exists []. by rewrite app_nil_r. }
  unfold run, all_tests. cbn [for_each]. destruct (call t s) as [s'|r|]; cbn [mbind outcome_bind].
  - destruct (IH s' ((log ++ [Name (type_name t)]) ++ [SayOk])) as (said & -> & E).
    exists (Name (type_name t) :: SayOk :: said). by rewrite <- !(assoc_L (++)).
  - by exists [Name (type_name t)].
  - by exists [Name (type_name t)].
Qed.

(** The exit device reports success exactly when every test returned, failure exactly
    when one panicked, and gets nothing when a test does not return. *)
Lemma test_runner_reports tests s :
  exit_values (test_runner tests s []) =
    match all_tests tests s with
    | Ret _ => [exit_code Success] | Panic _ => [exit_code Failed] | Hang => []
    end.
Proof.
  unfold test_runner. destruct (run_all_ok tests s ([] ++ [Running (length tests)])) as (said & -> & E).
  destruct (all_tests tests s); unfold test_panic_handler, exit_qemu; by rewrite !exit_values_app, E.
Qed.

End tests.
